(* ===== verification/_CoqProject ===== *)
-Q . S2P
Prelude.v
GoStrings.v
Sha256.v
Float64.v
Regex.v
Signatures.v
KeyMatcher.v
KeyMatcherProofs.v
KeyMatcherFind.v
Config.v
Entropy.v
Luhn.v
Shapes.v
Whitelist.v
Tokens.v
JsonString.v
Keys.v
Adaptive.v
Machine.v
Engine.v
Redaction.v
EngineProofs.v
TokenLogic.v
Append.v
Segment.v
SegmentProofs.v
Scanner.v
ConfigSources.v
ConfigProofs.v
ScannerProofs.v
Stats.v
Base64.v
PairProofs.v
Signing.v
PolicyFile.v
Webhook.v
Output.v
Cleaner.v
WebhookProofs.v
Instances.v
Wasm.v
Ebpf.v
EbpfAgent.v
RemoteSync.v
RemoteClient.v
RulesStore.v
RulesStoreProofs.v
RulesServer.v
StoredTime.v
Reports.v
RulesPanel.v
OperatorStats.v
Controller.v
Accounts.v
Limits.v
Auth.v
RulesApi.v
AccountsProofs.v
TenantProofs.v
RulesTheorems.v
AccountTheorems.v
Mail.v
RulesMain.v
ReporterProofs.v
Metrics.v
CleanerMain.v
PanelProofs.v
ScannerTheorems.v
TokenTheorems.v
DetectorTheorems.v
ConfigTheorems.v
SidecarTheorems.v
EbpfTheorems.v
ServiceTheorems.v
CounterTheorems.v
OperatorTheorems.v
WebhookTheorems.v
ControllerTheorems.v
Findings.v
