(* ===== verification/Prelude.v ===== *)
(** * PII-Shield: a verification of its scanner, its sidecar and its rule distribution

    PII-Shield removes secrets and personal data from log lines.  A line goes in,
    the same line comes out with every part that looks secret replaced by a
    marker HIDDEN:<hash> in square brackets, where the hash is an HMAC of the part under the
    operator's salt.  This library is a shallow embedding of the Go code that decides
    what is hidden, runs the decision on a stream, and brings the rules to it, with
    the theorems that make it correct.

    ** The program's parts and how they interact

    The scanner, [pkg/scanner].  A [Config] (defaults, environment, policy file or SDK
    JSON) is compiled once into an immutable snapshot, the [configState]: a letter-pair
    table, an Aho-Corasick automaton over the sensitive keys, a threshold and the compiled
    rules.  [ScanAndRedact] takes the snapshot and one line:

    - [scanLine] first carves out the numbers known by themselves: cards
      ([FindLuhnSequences]) and phones, identity numbers, session numbers and
      one-time codes ([findShapedNumbers]), merged without overlap;
    - the text between carves goes to [scanSegmentFrom], a tokenizer that knows
      quotes, escapes, brackets and separators, and hands each token with the
      state of the segment (an expected value, a sensitive key seen before, an
      open PEM block, an Authorization header) to [processAndAppend];
    - [processTokenLogic] cuts the token: markers of an earlier pass, URLs,
      User-Agents, quoted JSON, [key=value] and [key:value] pairs.  A value of
      a sensitive key is forced; text inside quotes is scanned again, one level
      deeper;
    - [processSingleToken] decides what is left: whitelists, issuer signatures,
      custom rules and the entropy score against the threshold, which the
      adaptive baseline may move; it writes the token or its marker.

    The sidecar, [cmd/cleaner], reads lines, scans each under the active snapshot, writes
    the result (or, in audit mode, the line) through a buffered writer, counts, and
    replaces the snapshot when its policy file changes.  The eBPF agent, [ebpf], only
    observes: it assembles lines from the writes of other processes and counts findings.
    The WebAssembly module, [cmd/wasm-ffi], gives the scanner to the Python and Node.js
    SDKs through the memory it shares with them.

    The rules travel from the rules service ([rules]) to the sidecars: a publisher
    creates a version of a set and publishes it, with a signature over a statement of
    the set, the publication number and the file's hash; the operator ([operator]) pulls
    the file, verifies it against the policy's keys and against going back, merges it with
    the local policy and renders a ConfigMap; the admission webhook injects sidecars that
    read the ConfigMap as their policy file.

    People reach the rules service through a panel: they sign in with a link sent by mail,
    get a session, and act inside their organization.  Counts travel the other way: the
    operator reads the counters of the sidecars, adds up their growth and sends a report
    per window; the service stores the reports and the panel shows their sums.

    ** Files

    A file holds the definitions of its part and then their lemmas; the lemmas of the larger
    parts have a file of their own, [XProofs] for [X].

    Ground floor:
    - [Prelude]: bytes and literals, list lemmas, tactics and hint databases.
    - [GoStrings]: the functions of [strings], [unicode/utf8] and [unicode] that
      the code calls.  [Float64]: [float64] and [math.Log2] bit by bit.
      [Sha256]: SHA-256 and HMAC.  [Base64]: standard base64.  [Regex]: anchored patterns
      with a matcher proved equal to their language, and the interface of a compiled
      [regexp.Regexp].

    Detectors:
    - [Signatures]: [signatures.go].
    - [KeyMatcher]: [keymatcher.go]; [KeyMatcherProofs], [KeyMatcherFind]: its
      correctness.
    - [Config]: [Config], [configState] and [bigrams.go].
    - [Entropy]: [CalculateComplexity] and the scores below it.
    - [Luhn]: the card section of [scanner.go] and [bin.go].
    - [Shapes]: [phone.go], [idnumber.go], [session.go], [otp.go], [dob.go].
    - [Whitelist]: [isSafe].  [Tokens]: shapes of tokens in [scanner.go],
      [sqlident.go], [sqlliteral.go].  [JsonString]:
      [escapedJSONString] and [jsonQuote] with the part of [encoding/json] they use.
    - [Keys]: [isSensitiveKey] and its relatives.
    - [Adaptive]: [adaptive.go].

    Engine:
    - [Machine]: the effects: output builder, baseline, reported strategies;
      outcomes are a result, a Go panic, or (in the model only) no fuel.
    - [Engine] ([processSingleToken] and below), [TokenLogic]
      ([processTokenLogic]), [Append] ([processAndAppend]), [Segment]
      ([scanSegmentFrom], [scanLine]), [Scanner] ([buildConfigState],
      [ScanAndRedact], [ScanAndRedactText]).
    - [Redaction]: the abstract specification [Redacts], the judgement [scans]
      over computations and its rules; [EngineProofs], [TokenLogic], [SegmentProofs],
      [ScannerProofs], [PairProofs]: each function of the engine against it.

    Configuration and sidecar:
    - [ConfigSources], [ConfigProofs]: the regex rules, the environment
      ([ApplyEnvOverrides]), the policy file ([config_file.go]) and the SDK's JSON
      ([sdk_config.go]).
    - [Output] ([output.go]), [Stats] ([stats.go]), [Cleaner]
      ([main.go], [audit.go], [config_file.go] of [cmd/cleaner]).  A run
      is a sequence of events: a line, a check of the policy file with what
      the file system shows, a flush by the timer.
    - [Metrics]: [pkg/metrics], what the sidecar counts line by line and load by load, and
      the text of /metrics as the operator reads it.  [CleanerMain]: [main] of
      [cmd/cleaner] as a state machine: the start, standard input, named pipe or followed
      file as the source of lines, signals, broken streams and every end of the process.
    - [Ebpf]: the ring buffer record, the line assembler and the auditor
      of [ebpf/internal].  [EbpfAgent]: the agent's [main.go]: how it
      starts, its loop over records, flushes and summaries, and how it ends.
    - [Wasm]: [cmd/wasm-ffi], the linear memory and the slices held in it; Go's heap is a
      parameter that may do anything but touch what is held.

    Rule distribution:
    - [Signing]: the statement, the keys and the check, on the server
      ([rules/internal/signing]) and on the operator ([remoterules/signature.go]).
    - [RulesStore], [RulesStoreProofs]: [rules/internal/store].  A table is a list of rows
      and the id of a row its position; an operation is a function of the database
      with [ErrNotFound], [ErrExists], [ErrStale] and the other errors as values.  Runs of the
      store are the reflexive and transitive closure of its steps.
    - [RulesServer]: [rules/internal/policy] and the handlers of
      [rules/internal/server] as functions of a request and the database.
    - [PolicyFile], [RemoteSync]: the operator's [policyfile],
      [remoterules/fetch.go] and [controller/remote.go]; a pull is a function of the answers
      of the network and the ConfigMap of the last one.  [RemoteClient]: the requests a pull,
      a report and a whole reconcile send, redirects and secrets included.  [Controller]:
      the whole [Reconcile], with the object, its status and conditions, and every call to
      the API server that can fail.
    - [Webhook], [WebhookProofs]: the operator's [webhook], a function of the decoded pod
      and the policy; [WebhookProofs] also says what environment a container's
      process finds.

    Accounts, reports and the panel:
    - [StoredTime]: times as the store writes and compares them, as texts.
    - [Accounts], [AccountsProofs], [TenantProofs]: [store/accounts.go]; a run of the
      tables is a sequence of requests, each with the random values and the clock it sees.
    - [Auth], [Limits]: [server/auth.go] (who is calling, the origin checks,
      sign-in, sessions, members) and [server/limits.go] (the rate limits).
    - [RulesPanel], [PanelProofs]: listings, the check of a draft and the preview.
      [RulesApi]: the routes, from a request to its handler behind [requireAccess].
    - [OperatorStats], [ReporterProofs]: the operator's [stats]: the reader of the metrics
      text, the windows of a policy and the passes over all policies.
    - [Reports]: [store/reports.go] and [server/reports.go].
    - [Mail]: [rules/internal/mail].  [RulesMain]: [cmd/rules-server] and the rewriting of
      queries for Postgres in [store/db.go].

    Statements:
    - [ScannerTheorems], [TokenTheorems], [DetectorTheorems], [ConfigTheorems],
      [SidecarTheorems], [EbpfTheorems], [RulesTheorems],
      [AccountTheorems], [ServiceTheorems], [CounterTheorems], [OperatorTheorems],
      [WebhookTheorems], [ControllerTheorems]: the theorems, with their witnesses on the
      instances of [Instances]; those of [Wasm] and [Mail] are in these files.  [Findings]:
      inputs on which the code does not do what it means to.

    ** What the theorems show

    - Scans: for every configuration and every line a scan terminates.  On an ASCII line
      without a backslash the line and the result are cut into the same pieces, each kept or
      replaced by the marker of that very piece ([pieces_of]); on any line the result is
      related to it by [Redacts], which also has invalid UTF-8 replaced and escaped JSON
      strings decoded.  Without markers the output of a plain line is the line.  On ASCII
      lines without backslashes and question marks the operations of the model that can panic
      do not (on others they can, see [Findings]).  A text of several lines is scanned line
      by line, with its line endings kept.  With the adaptive threshold off the baseline is
      untouched.
    - Tokens: the value of a sensitive key is hidden: by [processSingleToken] whatever its
      shape, and end to end for a line that is one pair of words; which keys are
      sensitive is stated without the automaton; markers of an earlier pass stay.
    - Detectors: the automaton is exact; the card search equals its reference and
      finds every card; carves are ordered, disjoint and inside the line; the
      prefix gates of the signatures lose nothing; the table of letter pairs is
      the map; JSON strings round-trip, quotes included, without HTML escapes; the
      baseline is bounded and frozen; the offsets of the automaton's table stay below
      a bound computed from the keys ([newKeyMatcher_offsets]).
    - Configuration: a policy file is accepted whole or refused; the environment wins
      field by field, and laying it over twice changes nothing; every configuration built
      is well formed; a bad rule drops out alone.
    - Sidecar: a run survives everything but what ends the process at its start, and
      writes one result per line read, each with a line feed after it; the result of a plain
      line is one line (that of others may not be, see [kept_json_adds_line]); the salt
      never changes; the counters count; audit mode writes the stream back; the writer
      delivers everything it accepted.  The whole process writes the result of every line of
      every source, writer after writer, ends only in the ways the code lists, with its output
      delivered where [finalize] runs, and a signal ends it.
    - eBPF: no byte of a stream is lost or invented between the records and the lines, in
      any run of the agent from its first record to its last summary, unless the scanner panics
      on a line, which ends the agent.
    - WebAssembly: the instance implements a set of blocks with their bytes; [redact] answers
      with a block that holds the redacted text, and no call disturbs another block.
    - Rules service: the history of a set is gapless and immutable; a token reads its own
      set until it is revoked; with a signing key registered nothing is published without
      a signature that verifies, and a refused publish leaves the database alone but for
      its audit log; what is served is accepted by the sidecar's parser, and its signature,
      when stored without white space around it, by the operator.
    - Operator: with signatures required only files signed by a trusted key for the policy's
      set are applied, they never go back while the keys stay, and a failed pull changes nothing; operator and sidecar accept the
      same files but for one check; this holds over runs of the whole [Reconcile] in which
      any call fails, and the conditions of the status say what happened; its requests
      stay on verified https and within five hops unless the policy allows otherwise.
    - Accounts: a link works once and in time (to the second, since times are compared as
      texts); a session names its account until it ends;
      nothing changes without the admin token, an open server or a live session with the
      origin of the panel; a session reaches its own organization only; signing in works,
      end to end, whatever other requests do.
    - Counts: the operator reads from a sidecar's metrics exactly what happened in its run:
      lines, panics, broken streams and reports ([main_seen]).  The reference for the reports
      is the growth of each pod from one read of it to its next, whatever was read in between
      ([pods_counted]): reports and open windows never hold more, and hold exactly that when
      no pod is left out between two reads of it ([gapless]; a pod that a pass could not read
      is forgotten, see [failed_scrape_loses_counts]).  The server accepts the reports, and the
      panel shows their sums, end to end from the lines; dropping idle
      rate-limit buckets is unobservable and tokens are limited apart; a preview changes nothing; mail carries no header of its recipient's
      making and no password in clear.
    - Webhook: a pod without a sidecar that asks for injection is refused, warned about or
      given exactly one; the application's containers stay, but for one mount and the
      command line of the target ([changed_containers]), and the volumes and settings added are
      listed; and, for policies whose lists hold no comma and whose values hold no
      reference ([delivery_ok]), the sidecar's environment gives the same configuration as the
      rendered file.

    ** Recursion

    The engine is mutually recursive through a depth counter, bounded by
    [maxScanDepth], and through shrinking text.  [Engine] is a record of the
    functions a definition may call, [engine] ties the knot on a fuel argument.
    The measure of [SegmentProofs] decreases at every call: five for each level
    of depth left (34 levels), five for each byte, and a rank below five that
    orders the functions calling each other on the same text; [scan_fuel] is its
    value at the entry, so running out of fuel is excluded by theorem
    ([scan_terminates]).  Loops over a string take its length as fuel; the
    breadth-first pass of the key matcher takes the number of its cells; the retries of the
    store are bounded in the code ([maxRaceRetries]).

    ** Parameters

    - [Unicode]: the category tables and case mapping outside ASCII, with their
      documented behaviour as [UnicodeLaws].
    - [RegexpCompiler]: [regexp.Compile] on the operator's own patterns.
    - [rt_map_order], [MapOrder]: the order in which Go ranges over a map.
    - [GoDecoders]: [strconv.ParseFloat], [time.ParseDuration] and [json.Unmarshal] at the
      types of the configuration; [ObjectJSON], [UnmarshalSignature], [Encode],
      [MarshalRules], [Decode]: the other texts of JSON.
    - [Ed25519]: the verification of a signature.  [Float32]: the API's 32-bit floats.
    - [Allow]: the rate limiter of the pulls; [RateLimiter]: the token bucket of
      [golang.org/x/time/rate] with the laws its documentation states.
    - [MailAddress], [Web], [Formatter]: [net/mail.ParseAddress], [url.Parse] and the verbs of
      [fmt.Sprintf] other than plain ones.  [ConditionAPI]: Kubernetes' helpers for conditions.
    - [Exposition]: the Prometheus library's text of a registry, with the documented format
      as [ExpositionLaws].  [HttpLibrary]: the parsing of URLs and certificates and the
      forwarding of a header on a redirect.
    - [GoHeap]: where Go places a slice and what it does with the rest of the memory.
    - [KubernetesAPI], [Kubelet]: what the webhook carries along unread, and how the
      kubelet turns a container's variables into its environment.
    They are instantiated in [Instances] and in the files of the theorems.

    ** Not modelled

    Go's slices and indexings are total functions on lists here ([take], [drop], [slice],
    [at_is]), except [slice_to] in [maskURLParameters] and the index of [isGenericValueKey],
    which can panic: nothing is shown about the others being in range.  Standard output takes
    every write: its errors, and that a [bufio.Writer] keeps the first one, are left out.  A
    user name and password inside a URL, which [net/http] would send as basic
    authentication, are not part of a request.  The offsets of the key matcher's table are
    natural numbers, [int32] in the code; the lemma on their size says for which keys this
    is no difference.

    Pools, locks, standard error and the log (each operation of a shared object is atomic
    here); the servers that hand out metrics and health, in the sidecar and the agent, and
    the tail library behind the lines of a followed file; in the agent the kernel programs
    and the tracing of a command; in the rules service the panel's files, the access log and
    metrics ([observe.go]), the drivers of the databases and the migration of their tables;
    in the operator the start of the process, generated copies of the API types and the
    metrics of pulls. *)

From Stdlib Require Import ZArith Lia Bool.
From Stdlib Require Strings.Byte.
From stdpp Require Export base list option sets.

(** ** Bytes, runes and strings

    A Go [byte] is a [Z] between 0 and 255, a [rune] is a [Z], and a Go [string]
    is the list of its bytes.  Indices into a string are [nat]; Go's "-1, not
    found" is [None]. *)

Notation byte := Z (only parsing).
Notation rune := Z (only parsing).
Notation gostring := (list Z) (only parsing).

Declare Scope go_scope.
Delimit Scope go_scope with go.

(** [ch "a"] is the byte of a one-character literal and [go "abc"] the bytes of a
    literal, both evaluated when the literal is read, so that [lia] and
    [reflexivity] see plain numerals. *)

Inductive literal := Literal (l : list Z).

Definition literal_of_bytes (l : list Byte.byte) : literal :=
  Literal (map (fun b => Z.of_N (Byte.to_N b)) l).

Definition literal_to_bytes (_ : literal) : option (list Byte.byte) := None.

Declare Scope literal_scope.
Delimit Scope literal_scope with literal.
String Notation literal literal_of_bytes literal_to_bytes : literal_scope.

Definition literal_bytes (l : literal) : list Z := let '(Literal b) := l in b.

Definition literal_byte (l : literal) : Z :=
  match l with Literal (b :: _) => b | _ => 0%Z end.

Notation "'go' s" :=
  (ltac:(let v := eval cbv in (literal_bytes s%literal) in exact v))
  (at level 1, s at level 0, only parsing) : go_scope.
Notation "'ch' s" :=
  (ltac:(let v := eval cbv in (literal_byte s%literal) in exact v))
  (at level 1, s at level 0, only parsing) : go_scope.

(** The quote characters, which a literal above cannot hold. *)
Definition dquote : byte := 34%Z.
Definition squote : byte := 39%Z.
Definition backslash : byte := 92%Z.
Definition tab : byte := 9%Z.
Definition newline : byte := 10%Z.

#[global] Open Scope Z_scope.
#[global] Open Scope go_scope.

(** ** Slices *)

(** [s[i:j]] for [i <= j <= len(s)]. *)
Definition slice {A} (s : list A) (i j : nat) : list A := take (j - i) (drop i s).

(** [i < len(s) && p(s[i])]. *)
Definition at_is {A} (s : list A) (i : nat) (p : A -> bool) : bool :=
  match s !! i with Some c => p c | None => false end.

(** [s[i]] where the code has already checked the range. *)
Definition byte_at (s : list Z) (i : nat) : Z := default 0 (s !! i).

Notation "a =b c" := (Z.eqb a c) (at level 70, only parsing) : go_scope.

(** [lo <= c && c <= hi]. *)
Definition between (lo c hi : Z) : bool := (lo <=? c) && (c <=? hi).

(** Equality of strings as a boolean. *)
Definition str_eqb (s t : list Z) : bool := bool_decide (s = t).

Definition is_empty {A} (s : list A) : bool := match s with [] => true | _ => false end.

(** Membership in one of the code's word sets ([map[string]bool]). *)
Definition in_words (w : list Z) (ws : list (list Z)) : bool := existsb (str_eqb w) ws.

(** The length of the longest prefix whose bytes satisfy [p]: the loops
    [for i < len(s) && p(s[i]) { i++ }]. *)
Fixpoint span_len {A} (p : A -> bool) (s : list A) : nat :=
  match s with
  | c :: t => if p c then S (span_len p t) else O
  | [] => O
  end.

(** ** Automation *)

Create HintDb gostr.

(** Split boolean conjunctions, disjunctions and comparisons in the context into
    propositions that [lia] reads. *)
Ltac boolp :=
  repeat match goal with
  | H : _ && _ = true |- _ => apply andb_true_iff in H; destruct H
  | H : _ || _ = false |- _ => apply orb_false_iff in H; destruct H
  | H : negb _ = true |- _ => apply negb_true_iff in H
  | H : negb _ = false |- _ => apply negb_false_iff in H
  | H : (_ =? _)%Z = true |- _ => apply Z.eqb_eq in H
  | H : (_ =? _)%Z = false |- _ => apply Z.eqb_neq in H
  | H : (_ <=? _)%Z = true |- _ => apply Z.leb_le in H
  | H : (_ <=? _)%Z = false |- _ => apply Z.leb_gt in H
  | H : (_ <? _)%Z = true |- _ => apply Z.ltb_lt in H
  | H : (_ <? _)%Z = false |- _ => apply Z.ltb_ge in H
  | H : (_ =? _)%nat = true |- _ => apply Nat.eqb_eq in H
  | H : (_ =? _)%nat = false |- _ => apply Nat.eqb_neq in H
  | H : (_ <=? _)%nat = true |- _ => apply Nat.leb_le in H
  | H : (_ <=? _)%nat = false |- _ => apply Nat.leb_gt in H
  | H : (_ <? _)%nat = true |- _ => apply Nat.ltb_lt in H
  | H : (_ <? _)%nat = false |- _ => apply Nat.ltb_ge in H
  end.

(** Case on every boolean test and match in the goal. *)
Ltac cases :=
  repeat (match goal with
          | |- context [if ?b then _ else _] => destruct b eqn:?
          | |- context [match ?o with _ => _ end] => destruct o eqn:?
          end; simpl; try done).

(** The same on the outermost tests of an equation, without computing. *)
Ltac case_ifs :=
  repeat match goal with
  | |- (if ?b then _ else _) = _ -> _ => destruct b eqn:?; try done
  end.

(** ** Generic lemmas *)

Lemma str_eqb_eq (s t : list Z) : str_eqb s t = true <-> s = t.
Proof. unfold str_eqb. apply bool_decide_eq_true. Qed.

Lemma str_eqb_neq (s t : list Z) : str_eqb s t = false <-> s <> t.
Proof. unfold str_eqb. apply bool_decide_eq_false. Qed.

Lemma str_eqb_refl (s : list Z) : str_eqb s s = true.
Proof. by apply str_eqb_eq. Qed.

Lemma in_words_In w ws : in_words w ws = true <-> In w ws.
Proof.
  unfold in_words. rewrite existsb_exists. split.
  - intros (x & Hx & He). apply str_eqb_eq in He. by subst.
  - intros H. exists w. by rewrite str_eqb_refl.
Qed.

Lemma at_is_true {A} (s : list A) i p :
  at_is s i p = true <-> exists c, s !! i = Some c /\ p c = true.
Proof. unfold at_is. destruct (s !! i); naive_solver. Qed.

Lemma at_is_lt {A} (s : list A) i p : at_is s i p = true -> (i < length s)%nat.
Proof. intros (c & H & _)%at_is_true. by apply lookup_lt_Some in H. Qed.

Lemma span_len_le {A} (p : A -> bool) s : (span_len p s <= length s)%nat.
Proof. induction s as [|c s IH]; simpl; [done|]. destruct (p c); simpl; lia. Qed.

(** Everything the span covers satisfies the predicate. *)
Lemma span_len_forall {A} (p : A -> bool) s : Forall (fun c => p c = true) (take (span_len p s) s).
Proof. induction s as [|c s IH]; simpl; [done|]. destruct (p c) eqn:E; simpl; auto. Qed.

(** The byte after the span, if any, does not. *)
Lemma span_len_stop {A} (p : A -> bool) s c :
  s !! span_len p s = Some c -> p c = false.
Proof. induction s as [|d s IH]; simpl; [done|]. destruct (p d) eqn:E; simpl; naive_solver. Qed.

Lemma span_len_all {A} (p : A -> bool) s : forallb p s = true <-> span_len p s = length s.
Proof.
  induction s as [|d s IH]; simpl; [done|]. destruct (p d); simpl; [|done].
  rewrite IH. split; lia.
Qed.

Lemma slice_length {A} (s : list A) i j :
  (j <= length s)%nat -> length (slice s i j) = (j - i)%nat.
Proof. intros. unfold slice. rewrite length_take, length_drop. lia. Qed.

Lemma slice_0 {A} (s : list A) j : slice s 0 j = take j s.
Proof. unfold slice. by rewrite drop_0, Nat.sub_0_r. Qed.

Lemma slice_full {A} (s : list A) : slice s 0 (length s) = s.
Proof. by rewrite slice_0, firstn_all. Qed.

Lemma slice_end {A} (s : list A) i : slice s i (length s) = drop i s.
Proof. unfold slice. rewrite take_ge; [done|]. rewrite length_drop. lia. Qed.

Lemma slice_nil {A} (s : list A) i : slice s i i = [].
Proof. unfold slice. by rewrite Nat.sub_diag. Qed.

(** Adjacent slices concatenate. *)
Lemma slice_app {A} (s : list A) i j k :
  (i <= j <= k)%nat -> slice s i j ++ slice s j k = slice s i k.
Proof.
  intros [Hij Hjk]. unfold slice.
  replace (k - i)%nat with ((j - i) + (k - j))%nat by lia.
  rewrite <-take_take_drop, drop_drop. repeat f_equal; lia.
Qed.

Lemma take_slice {A} (s : list A) i j :
  (i <= j)%nat -> take i s ++ slice s i j = take j s.
Proof. intros. rewrite <-!slice_0. apply slice_app. lia. Qed.

Lemma slice_drop {A} (s : list A) i j :
  (i <= j)%nat -> slice s i j ++ drop j s = drop i s.
Proof.
  intros. unfold slice. rewrite <-(take_drop (j - i) (drop i s)) at 2.
  rewrite drop_drop. repeat f_equal; lia.
Qed.

Lemma slice_lookup {A} (s : list A) i j k :
  (i + k < j)%nat -> slice s i j !! k = s !! (i + k)%nat.
Proof. intros. unfold slice. by rewrite lookup_take_lt, lookup_drop by lia. Qed.

(** Filters that keep nothing or everything. *)
Lemma filter_none {A} (P : A -> Prop) `{!forall x, Decision (P x)} (l : list A) :
  (forall x, x ∈ l -> ~ P x) -> filter P l = [].
Proof.
  induction l as [|x l IH]; intros HP; [done|]. rewrite filter_cons, decide_False by set_solver.
  apply IH. set_solver.
Qed.

Lemma filter_all {A} (P : A -> Prop) `{!forall x, Decision (P x)} (l : list A) :
  Forall P l -> filter P l = l.
Proof. induction 1; [done|]. rewrite filter_cons, decide_True by done. by f_equal. Qed.

(** Sums of integers. *)
Definition zsum (l : list Z) : Z := foldr Z.add 0 l.

Lemma zsum_app l k : zsum (l ++ k) = zsum l + zsum k.
Proof. induction l as [|x l IH]; simpl; [done|]. rewrite IH. lia. Qed.

Lemma zsum_nonneg l : Forall (fun x => 0 <= x) l -> 0 <= zsum l.
Proof. induction 1; simpl; lia. Qed.

#[export] Hint Rewrite @slice_0 @slice_full @slice_end @slice_nil : gostr.
#[export] Hint Resolve span_len_le at_is_lt : gostr.
