(* ===== verification/GoStrings.v ===== *)
(** * Go strings

    The functions of Go's [strings], [unicode/utf8] and [unicode] packages that
    the scanner uses, on the byte lists of the prelude.  The general Unicode
    category tables are a parameter ([Unicode]) with their ASCII part stated
    as laws. *)

From Stdlib Require Import ZArith Lia Bool.
From stdpp Require Import base list option sets.
From S2P Require Import Prelude.

(** ** Searching *)

Fixpoint IndexByte (s : gostring) (c : byte) : option nat :=
  match s with
  | [] => None
  | b :: t => if b =? c then Some O else S <$> IndexByte t c
  end.

Fixpoint LastIndexByte (s : gostring) (c : byte) : option nat :=
  match s with
  | [] => None
  | b :: t => match LastIndexByte t c with
              | Some i => Some (S i)
              | None => if b =? c then Some O else None
              end
  end.

Definition ContainsByte (s : gostring) (c : byte) : bool := existsb (Z.eqb c) s.

Fixpoint HasPrefix (s p : gostring) {struct p} : bool :=
  match p, s with
  | [], _ => true
  | c :: p', b :: s' => (b =? c) && HasPrefix s' p'
  | _ :: _, [] => false
  end.

Definition HasSuffix (s p : gostring) : bool :=
  (length p <=? length s)%nat && str_eqb (drop (length s - length p) s) p.

(** [strings.Index]. *)
Fixpoint Index (s sub : gostring) : option nat :=
  if HasPrefix s sub then Some O
  else match s with
       | [] => None
       | _ :: t => S <$> Index t sub
       end.

Definition Contains (s sub : gostring) : bool := bool_decide (is_Some (Index s sub)).

(** [strings.ContainsAny], [IndexAny], [LastIndexAny] for a set of ASCII characters. *)
Definition ContainsAny (s chars : gostring) : bool := existsb (fun b => ContainsByte chars b) s.

Fixpoint IndexAny (s chars : gostring) : option nat :=
  match s with
  | [] => None
  | b :: t => if ContainsByte chars b then Some O else S <$> IndexAny t chars
  end.

Fixpoint LastIndexAny (s chars : gostring) : option nat :=
  match s with
  | [] => None
  | b :: t => match LastIndexAny t chars with
              | Some i => Some (S i)
              | None => if ContainsByte chars b then Some O else None
              end
  end.

Fixpoint CountByte (s : gostring) (c : byte) : nat :=
  match s with
  | [] => O
  | b :: t => if b =? c then S (CountByte t c) else CountByte t c
  end.

(** ** Cutting and trimming *)

(** [strings.Cut] on a one-byte separator: before, after, found. *)
Definition Cut (s : gostring) (sep : byte) : gostring * gostring * bool :=
  match IndexByte s sep with
  | Some i => (take i s, drop (S i) s, true)
  | None => (s, [], false)
  end.

(** [strings.Cut] on a longer separator. *)
Definition CutString (s sep : gostring) : gostring * gostring * bool :=
  match Index s sep with
  | Some i => (take i s, drop (i + length sep) s, true)
  | None => (s, [], false)
  end.

(** [strings.Split] on a one-byte separator; never empty. *)
Fixpoint Split (s : gostring) (sep : byte) : list gostring :=
  match s with
  | [] => [[]]
  | b :: t =>
    if b =? sep then [] :: Split t sep
    else match Split t sep with
         | p :: ps => (b :: p) :: ps
         | [] => [[b]]
         end
  end.

Fixpoint Join (parts : list gostring) (sep : gostring) : gostring :=
  match parts with
  | [] => []
  | [p] => p
  | p :: ps => p ++ sep ++ Join ps sep
  end.

(** [strings.FieldsFunc] for a separator predicate on ASCII bytes. *)
Fixpoint FieldsBytes (p : byte -> bool) (s : gostring) (cur : gostring) : list gostring :=
  let flush rest := if is_empty cur then rest else cur :: rest in
  match s with
  | [] => flush []
  | b :: t => if p b then flush (FieldsBytes p t []) else FieldsBytes p t (cur ++ [b])
  end.

Definition TrimLeft (s chars : gostring) : gostring := drop (span_len (ContainsByte chars) s) s.

(** [strings.TrimRight] for a set of ASCII characters. *)
Definition TrimRight (s chars : gostring) : gostring :=
  take (length s - span_len (ContainsByte chars) (rev s)) s.

Definition Trim (s chars : gostring) : gostring := TrimRight (TrimLeft s chars) chars.

Definition TrimPrefix (s p : gostring) : gostring :=
  if HasPrefix s p then drop (length p) s else s.

Definition TrimSuffix (s p : gostring) : gostring :=
  if HasSuffix s p then take (length s - length p) s else s.

(** ** UTF-8 *)

Definition RuneError : rune := 65533.
Definition RuneSelf : Z := 128.

Definition is_cont (b : byte) : bool := between 128 b 191.

(** [utf8.DecodeRuneInString]: the first rune and its width; [(RuneError, 0)] for
    the empty string and [(RuneError, 1)] for an invalid encoding. *)
Definition DecodeRune (s : gostring) : rune * nat :=
  match s with
  | [] => (RuneError, O)
  | b0 :: t =>
    if b0 <? 128 then (b0, 1%nat)
    else if between 194 b0 223 then
      match t with
      | b1 :: _ => if is_cont b1 then ((b0 - 192) * 64 + (b1 - 128), 2%nat) else (RuneError, 1%nat)
      | _ => (RuneError, 1%nat)
      end
    else if between 224 b0 239 then
      match t with
      | b1 :: b2 :: _ =>
        if between (if b0 =? 224 then 160 else 128) b1 (if b0 =? 237 then 159 else 191) && is_cont b2
        then ((b0 - 224) * 4096 + (b1 - 128) * 64 + (b2 - 128), 3%nat)
        else (RuneError, 1%nat)
      | _ => (RuneError, 1%nat)
      end
    else if between 240 b0 244 then
      match t with
      | b1 :: b2 :: b3 :: _ =>
        if between (if b0 =? 240 then 144 else 128) b1 (if b0 =? 244 then 143 else 191) &&
           is_cont b2 && is_cont b3
        then ((b0 - 240) * 262144 + (b1 - 128) * 4096 + (b2 - 128) * 64 + (b3 - 128), 4%nat)
        else (RuneError, 1%nat)
      | _ => (RuneError, 1%nat)
      end
    else (RuneError, 1%nat)
  end.

(** [utf8.AppendRune]: a surrogate or a rune out of range is written as U+FFFD. *)
Definition EncodeRune (r : rune) : gostring :=
  if between 0 r 127 then [r]
  else if between 128 r 2047 then [192 + r / 64; 128 + r mod 64]
  else if between 2048 r 55295 || between 57344 r 65535 then
    [224 + r / 4096; 128 + (r / 64) mod 64; 128 + r mod 64]
  else if between 65536 r 1114111 then
    [240 + r / 262144; 128 + (r / 4096) mod 64; 128 + (r / 64) mod 64; 128 + r mod 64]
  else [239; 191; 189].

#[global] Arguments DecodeRune : simpl never.
#[global] Arguments EncodeRune : simpl never.

Definition RuneErrorBytes : gostring := [239; 191; 189].

(** The runes of a string with the bytes each was decoded from, in order: what
    [for i, r := range s] visits.  [skip] counts the bytes of the current rune
    still to be passed over. *)
Fixpoint chunks_from (skip : nat) (s : gostring) : list (rune * gostring) :=
  match s with
  | [] => []
  | _ :: t =>
    match skip with
    | S k => chunks_from k t
    | O => let '(r, w) := DecodeRune s in (r, take w s) :: chunks_from (w - 1) t
    end
  end.

Definition chunks (s : gostring) : list (rune * gostring) := chunks_from 0 s.

Definition runes (s : gostring) : list rune := fst <$> chunks s.

Definition RuneCount (s : gostring) : nat := length (runes s).

Definition is_invalid (r : rune) (w : nat) : bool := (r =? RuneError) && (w =? 1)%nat.

(** [utf8.Valid]. *)
Definition ValidUTF8 (s : gostring) : bool :=
  forallb (fun '(r, b) => negb (is_invalid r (length b))) (chunks s).

(** [strings.ToValidUTF8(s, rep)]: each run of invalid bytes becomes one [rep]. *)
Fixpoint to_valid_from (rep : gostring) (skip : nat) (inrun : bool) (s : gostring) : gostring :=
  match s with
  | [] => []
  | b :: t =>
    match skip with
    | S k => b :: to_valid_from rep k inrun t
    | O =>
      let '(r, w) := DecodeRune s in
      if is_invalid r w
      then (if inrun then [] else rep) ++ to_valid_from rep 0 true t
      else b :: to_valid_from rep (w - 1) false t
    end
  end.

Definition ToValidUTF8 (s rep : gostring) : gostring := to_valid_from rep 0 false s.

(** ** ASCII classes *)

Definition isASCIILetter (c : byte) : bool := between 97 c 122 || between 65 c 90.
Definition isASCIIDigit (c : byte) : bool := between 48 c 57.
Definition isUpperASCII (c : byte) : bool := between 65 c 90.
Definition isLowerASCII (c : byte) : bool := between 97 c 122.
Definition isAlnumByte (c : byte) : bool :=
  between 97 c 122 || between 65 c 90 || between 48 c 57.

Definition lowerASCIIByte (b : byte) : byte := if between 65 b 90 then b + 32 else b.

Definition isASCIIString (s : gostring) : bool := forallb (fun b => b <? RuneSelf) s.

(** [unicode.IsSpace]. *)
Definition IsSpace (r : rune) : bool :=
  between 9 r 13 || (r =? 32) || (r =? 133) || (r =? 160) || (r =? 5760) || between 8192 r 8202 ||
  (r =? 8232) || (r =? 8233) || (r =? 8239) || (r =? 8287) || (r =? 12288).

(** ** Unicode categories *)

Class Unicode := {
  IsLetter : rune -> bool;
  IsUpper : rune -> bool;
  IsLower : rune -> bool;
  IsDigit : rune -> bool;
  IsPunct : rune -> bool;
  IsSymbol : rune -> bool;
  ToLowerRune : rune -> rune;
}.

(** The ASCII part of the category tables. *)
Definition ascii_symbol (r : rune) : bool := ContainsByte (go "$+<=>^`|~") r.

Definition ascii_punct (r : rune) : bool :=
  (between 33 r 47 || between 58 r 64 || between 91 r 96 || between 123 r 126) &&
  negb (ascii_symbol r).

Class UnicodeLaws (U : Unicode) : Prop := {
  IsLetter_ascii r : 0 <= r < 128 -> IsLetter r = isASCIILetter r;
  IsUpper_ascii r : 0 <= r < 128 -> IsUpper r = isUpperASCII r;
  IsLower_ascii r : 0 <= r < 128 -> IsLower r = isLowerASCII r;
  IsDigit_ascii r : 0 <= r < 128 -> IsDigit r = isASCIIDigit r;
  IsPunct_ascii r : 0 <= r < 128 -> IsPunct r = ascii_punct r;
  IsSymbol_ascii r : 0 <= r < 128 -> IsSymbol r = ascii_symbol r;
  ToLowerRune_ascii r : 0 <= r < 128 -> ToLowerRune r = lowerASCIIByte r;
  ToLowerRune_not_upper r : isUpperASCII (ToLowerRune r) = false;
}.

(** The tables restricted to ASCII: every other rune has no category and no case.
    This is the instance the concrete runs use. *)
Definition ascii_unicode : Unicode := {|
  IsLetter := isASCIILetter;
  IsUpper := isUpperASCII;
  IsLower := isLowerASCII;
  IsDigit := isASCIIDigit;
  IsPunct := fun r => between 0 r 127 && ascii_punct r;
  IsSymbol := fun r => between 0 r 127 && ascii_symbol r;
  ToLowerRune := lowerASCIIByte;
|}.

Section Unicode.
Context `{U : Unicode}.

(** [strings.ToLower]. *)
Definition ToLower (s : gostring) : gostring :=
  if isASCIIString s then lowerASCIIByte <$> s
  else concat ((fun r => EncodeRune (ToLowerRune r)) <$> runes s).

End Unicode.

(** [strings.TrimSpace] and [TrimRightFunc] work rune by rune. *)
Definition chunks_bytes (l : list (rune * gostring)) : gostring := concat (snd <$> l).

Definition TrimRightFunc (s : gostring) (f : rune -> bool) : gostring :=
  let l := rev (chunks s) in
  chunks_bytes (rev (drop (span_len (fun c => f (fst c)) l) l)).

Definition TrimLeftFunc (s : gostring) (f : rune -> bool) : gostring :=
  let l := chunks s in chunks_bytes (drop (span_len (fun c => f (fst c)) l) l).

Definition TrimSpace (s : gostring) : gostring := TrimRightFunc (TrimLeftFunc s IsSpace) IsSpace.

(** [strings.EqualFold(s, lit)] for a lower-case ASCII [lit].  Simple folding puts
    the long s (U+017F) with s and the Kelvin sign (U+212A) with k. *)
Definition fold_eq (r : rune) (c : byte) : bool :=
  (lowerASCIIByte r =? c) || ((c =? ch "s") && (r =? 383)) || ((c =? ch "k") && (r =? 8490)).

Fixpoint equal_fold_runes (rs : list rune) (lit : gostring) : bool :=
  match rs, lit with
  | [], [] => true
  | r :: rs', c :: lit' => fold_eq r c && equal_fold_runes rs' lit'
  | _, _ => false
  end.

Definition EqualFold (s lit : gostring) : bool := equal_fold_runes (runes s) lit.

(** ** Lemmas *)

Lemma IndexByte_Some s c i :
  IndexByte s c = Some i -> s !! i = Some c /\ ~ In c (take i s).
Proof.
  revert i. induction s as [|b s IH]; intros i; simpl; [done|].
  destruct (b =? c) eqn:E; boolp.
  - intros [= <-]. subst. simpl. tauto.
  - destruct (IndexByte s c) as [j|]; [|done]. intros [= <-].
    destruct (IH j eq_refl) as [H1 H2]. split; [done|]. simpl. tauto.
Qed.

Lemma IndexByte_None s c : IndexByte s c = None <-> ~ In c s.
Proof.
  induction s as [|b s IH]; simpl; [tauto|]. destruct (b =? c) eqn:E; boolp.
  - split; [done|]. tauto.
  - destruct (IndexByte s c); simpl; split; intros; try done.
    + destruct IH as [_ IH]. exfalso. assert (Some n = None) by (apply IH; tauto). done.
    + intros [?|?]; [done|]. by apply IH.
Qed.

Lemma IndexByte_lt s c i : IndexByte s c = Some i -> (i < length s)%nat.
Proof. intros [H _]%IndexByte_Some. by apply lookup_lt_Some in H. Qed.

(** The string around the byte found. *)
Lemma IndexByte_split s c i :
  IndexByte s c = Some i -> s = take i s ++ c :: drop (S i) s.
Proof. intros [H _]%IndexByte_Some. by rewrite take_drop_middle. Qed.

Lemma LastIndexByte_Some s c i :
  LastIndexByte s c = Some i -> s !! i = Some c /\ ~ In c (drop (S i) s).
Proof.
  revert i. induction s as [|b s IH]; intros i; simpl; [done|].
  destruct (LastIndexByte s c) as [j|] eqn:E.
  - intros [= <-]. by apply IH.
  - destruct (b =? c) eqn:Eb; [|done]. boolp. subst. intros [= <-]. split; [done|].
    rewrite drop_0. clear IH. induction s as [|d s IH]; simpl in *; [tauto|].
    destruct (LastIndexByte s c); [done|]. destruct (d =? c) eqn:Ed; [done|]. boolp.
    intros [?|?]; [done|]. by apply IH.
Qed.

Lemma ContainsByte_In s c : ContainsByte s c = true <-> In c s.
Proof.
  unfold ContainsByte. rewrite existsb_exists. setoid_rewrite Z.eqb_eq.
  split; [by intros (? & ? & <-)|by exists c].
Qed.

Lemma ContainsAny_true s chars : ContainsAny s chars = true <-> exists b, In b s /\ In b chars.
Proof. unfold ContainsAny. rewrite existsb_exists. by setoid_rewrite ContainsByte_In. Qed.

Lemma HasPrefix_app s p : HasPrefix s p = true <-> exists t, s = p ++ t.
Proof.
  revert s. induction p as [|c p IH]; intros s; simpl.
  - split; [|done]. intros _. by exists s.
  - destruct s as [|b s]; simpl.
    + split; [done|]. by intros [t Ht].
    + rewrite andb_true_iff, IH, Z.eqb_eq. split.
      * intros [-> [t ->]]. by exists t.
      * intros [t Ht]. simplify_eq. split; [done|]. by exists t.
Qed.

Lemma HasPrefix_length s p : HasPrefix s p = true -> (length p <= length s)%nat.
Proof. intros [t ->]%HasPrefix_app. rewrite length_app. lia. Qed.

Lemma HasPrefix_take s p : HasPrefix s p = true -> take (length p) s = p.
Proof. intros [t ->]%HasPrefix_app. by rewrite take_app_length. Qed.

Lemma HasSuffix_app s p : HasSuffix s p = true <-> exists t, s = t ++ p.
Proof.
  unfold HasSuffix. split.
  - intros H. boolp. apply str_eqb_eq in H0. exists (take (length s - length p) s).
    rewrite <-H0 at 2. by rewrite take_drop.
  - intros [t ->]. rewrite length_app. apply andb_true_iff. split; [apply Nat.leb_le; lia|].
    apply str_eqb_eq. replace (length t + length p - length p)%nat with (length t) by lia.
    by rewrite drop_app_length.
Qed.

Lemma Index_Some s sub i :
  Index s sub = Some i -> HasPrefix (drop i s) sub = true.
Proof.
  revert i. induction s as [|b s IH]; intros i; simpl.
  - destruct (HasPrefix [] sub) eqn:E; [|done]. by intros [= <-].
  - destruct (HasPrefix (b :: s) sub) eqn:E; [by intros [= <-]|].
    destruct (Index s sub) as [j|]; [|done]. intros [= <-]. simpl. by apply IH.
Qed.


(** Splitting and joining on a byte are inverse. *)
Lemma Index_is_Some s sub i : HasPrefix (drop i s) sub = true -> is_Some (Index s sub).
Proof.
  revert i. induction s as [|b s IH]; intros i H.
  - rewrite drop_nil in H. destruct sub; [by eexists|done].
  - simpl. destruct (HasPrefix (b :: s) sub) eqn:E; [by eexists|]. destruct i as [|i].
    + rewrite drop_0 in H. congruence.
    + apply IH in H as [j ->]. by eexists.
Qed.

Lemma Contains_infix s sub : Contains s sub = true <-> exists u v, s = u ++ sub ++ v.
Proof.
  unfold Contains. rewrite bool_decide_eq_true. split.
  - intros [i Hi]. apply Index_Some, HasPrefix_app in Hi as [v Hv]. exists (take i s), v. by rewrite <-Hv, take_drop.
  - intros (u & v & ->). apply (Index_is_Some _ _ (length u)). rewrite drop_app_length. apply HasPrefix_app. by exists v.
Qed.

Lemma Split_not_nil s c : Split s c <> [].
Proof. destruct s as [|b s]; simpl; [done|]. destruct (b =? c); [done|]. by destruct (Split s c). Qed.

Lemma Join_cons p ps sep : ps <> [] -> Join (p :: ps) sep = p ++ sep ++ Join ps sep.
Proof. by destruct ps. Qed.

Lemma Join_Split s c : Join (Split s c) [c] = s.
Proof.
  induction s as [|b s IH]; simpl; [done|]. destruct (b =? c) eqn:E; boolp.
  - subst. rewrite Join_cons by apply Split_not_nil. simpl. by rewrite IH.
  - pose proof (Split_not_nil s c). destruct (Split s c) as [|p ps]; [done|].
    rewrite <-IH. by destruct ps.
Qed.

Lemma Split_length s c : length (Split s c) = S (CountByte s c).
Proof.
  induction s as [|b s IH]; simpl; [done|]. destruct (b =? c); simpl; [by rewrite IH|].
  destruct (Split s c); simpl in *; lia.
Qed.

Lemma CountByte_app s t c : CountByte (s ++ t) c = (CountByte s c + CountByte t c)%nat.
Proof. induction s as [|b s IH]; simpl; [done|]. destruct (b =? c); simpl; lia. Qed.

(** *** Runes *)

Lemma DecodeRune_width s :
  s <> [] -> (1 <= snd (DecodeRune s) <= length s)%nat.
Proof.
  intros Hs. destruct s as [|b0 t]; [done|]. unfold DecodeRune. cases; simpl; lia.
Qed.

Lemma DecodeRune_ascii b t : b < 128 -> DecodeRune (b :: t) = (b, 1%nat).
Proof. intros. unfold DecodeRune. by rewrite (proj2 (Z.ltb_lt _ _)). Qed.

(** Integer division by the powers of 64 of the encoding. *)
Ltac lia_div := Z.to_euclidean_division_equations; lia.

Ltac decide_tests :=
  repeat (rewrite ?(proj2 (Z.leb_le _ _)) by lia; rewrite ?(proj2 (Z.leb_gt _ _)) by lia; simpl).

Lemma encode2 b0 b1 : 194 <= b0 <= 223 -> 128 <= b1 <= 191 ->
  EncodeRune ((b0 - 192) * 64 + (b1 - 128)) = [b0; b1].
Proof.
  intros. unfold EncodeRune, between. decide_tests. repeat f_equal; lia_div.
Qed.

Lemma encode3 b0 b1 b2 : 224 <= b0 <= 239 -> 128 <= b1 <= 191 -> 128 <= b2 <= 191 ->
  (b0 = 224 -> 160 <= b1) -> (b0 = 237 -> b1 <= 159) ->
  EncodeRune ((b0 - 224) * 4096 + (b1 - 128) * 64 + (b2 - 128)) = [b0; b1; b2].
Proof.
  intros. unfold EncodeRune, between.
  assert (2048 <= (b0 - 224) * 4096 + (b1 - 128) * 64 + (b2 - 128) <= 65535) by lia.
  decide_tests.
  destruct (decide ((b0 - 224) * 4096 + (b1 - 128) * 64 + (b2 - 128) <= 55295)).
  - decide_tests. repeat f_equal; lia_div.
  - assert (57344 <= (b0 - 224) * 4096 + (b1 - 128) * 64 + (b2 - 128)) by lia.
    decide_tests. repeat f_equal; lia_div.
Qed.

Lemma encode4 b0 b1 b2 b3 :
  240 <= b0 <= 244 -> 128 <= b1 <= 191 -> 128 <= b2 <= 191 -> 128 <= b3 <= 191 ->
  (b0 = 240 -> 144 <= b1) -> (b0 = 244 -> b1 <= 143) ->
  EncodeRune ((b0 - 240) * 262144 + (b1 - 128) * 4096 + (b2 - 128) * 64 + (b3 - 128)) = [b0; b1; b2; b3].
Proof.
  intros. unfold EncodeRune, between.
  assert (65536 <= (b0 - 240) * 262144 + (b1 - 128) * 4096 + (b2 - 128) * 64 + (b3 - 128) <= 1114111)
    by lia.
  decide_tests. repeat f_equal; lia_div.
Qed.

(** Encoding a rune that was decoded from bytes gives those bytes back. *)
Lemma EncodeRune_Decode s r w :
  DecodeRune s = (r, w) -> 0 <= r -> is_invalid r w = false -> w <> O -> EncodeRune r = take w s.
Proof.
  unfold DecodeRune, is_cont, between.
  destruct s as [|b0 t]; [naive_solver|].
  destruct (b0 <? 128) eqn:E0.
  { intros [= <- <-] ? _ _. boolp. unfold EncodeRune, between. by decide_tests. }
  repeat match goal with
  | |- context [match ?x with _ => _ end = (r, w)] => destruct x eqn:?; try naive_solver
  end; intros [= <- <-] _ _ _; boolp; simpl take; symmetry.
  - symmetry. apply encode2; lia.
  - symmetry. apply encode3; repeat case_match; boolp; lia.
  - symmetry. apply encode4; repeat case_match; boolp; lia.
Qed.

(** ** Trimming ASCII *)

Lemma chunks_ascii s : Forall (fun b => b < 128) s -> chunks s = (fun c => (c, [c])) <$> s.
Proof.
  unfold chunks. induction 1 as [|b t Hb Ht IH]; [done|]. cbn [chunks_from].
  rewrite DecodeRune_ascii by done. simpl. by rewrite IH.
Qed.

Lemma chunks_bytes_ascii s : chunks_bytes ((fun c => (c, [c])) <$> s) = s.
Proof. unfold chunks_bytes. induction s as [|b s IH]; [done|]. simpl in *. f_equal. exact IH. Qed.

Section trim.
Context (f : Z -> bool).

Definition skip (s : gostring) : gostring := drop (span_len f s) s.
Definition trim (s : gostring) : gostring := rev (skip (rev (skip s))).

Lemma skip_head s : match skip s with [] => True | c :: _ => f c = false end.
Proof. unfold skip. induction s as [|b s IH]; simpl; [done|]. destruct (f b) eqn:E; [exact IH|done]. Qed.

Lemma skip_id s : match s with [] => True | c :: _ => f c = false end -> skip s = s.
Proof. unfold skip. destruct s as [|b s]; simpl; [done|]. by intros ->. Qed.

Lemma trim_id s : trim (trim s) = trim s.
Proof.
  unfold trim. set (u := skip s). assert (skip (rev (skip (rev u))) = rev (skip (rev u))) as ->.
  { apply skip_id. pose proof (skip_head s) as Hu. fold u in Hu.
    replace (rev (skip (rev u))) with (take (length u - span_len f (rev u)) u).
    - destruct u; [by rewrite take_nil|]. by destruct (_ - _)%nat.
    - unfold skip at 1. change drop with (@skipn Z). change take with (@firstn Z). by rewrite skipn_rev, rev_involutive. }
  rewrite rev_involutive. f_equal. apply skip_id, skip_head.
Qed.

Lemma skip_map (g : Z -> Z) s : (forall c, In c s -> f (g c) = f c) -> skip (g <$> s) = g <$> skip s.
Proof.
  unfold skip. induction s as [|b s IH]; intros Hg; [done|]. simpl. rewrite (Hg b) by (by left).
  destruct (f b); [|done]. simpl. apply IH. intros c Hc. apply Hg. by right.
Qed.

Lemma skip_incl s c : In c (skip s) -> In c s.
Proof. unfold skip. rewrite <-!list_elem_of_In. intros H. eapply elem_of_sublist; [exact H|apply sublist_drop]. Qed.

Lemma trim_map (g : Z -> Z) s : (forall c, In c s -> f (g c) = f c) -> trim (g <$> s) = g <$> trim s.
Proof.
  intros Hg. unfold trim. rewrite skip_map by done. change (g <$> skip s) with (map g (skip s)). rewrite <-map_rev.
  change (map g (rev (skip s))) with (g <$> rev (skip s)). rewrite skip_map; [symmetry; apply map_rev|].
  intros c Hc. apply Hg, skip_incl. by apply in_rev.
Qed.
End trim.

Lemma TrimSpace_trim s : Forall (fun b => b < 128) s -> TrimSpace s = trim IsSpace s.
Proof.
  intros Ha. assert (forall t : gostring, span_len (fun c : rune * gostring => IsSpace (fst c)) ((fun c => (c, [c])) <$> t) = span_len IsSpace t) as Hs.
  { induction t as [|b t IH]; [done|]. rewrite fmap_cons. cbn [span_len fst]. by rewrite IH. }
  assert (forall t : gostring, rev ((fun c : Z => (c, [c])) <$> t) = (fun c => (c, [c])) <$> rev t) as Hrev
    by (intros; symmetry; apply map_rev).
  unfold TrimSpace, TrimLeftFunc, TrimRightFunc. rewrite (chunks_ascii s), Hs, <-fmap_drop, chunks_bytes_ascii by done.
  rewrite chunks_ascii by (by apply Forall_drop). rewrite Hrev, Hs, <-fmap_drop, Hrev, chunks_bytes_ascii. done.
Qed.
