(* ===== verification/Sha256.v ===== *)
(** * HMAC-SHA256

    The keyed hash of the redaction markers ([crypto/hmac] over
    [crypto/sha256]), on bytes, with 32-bit words as integers modulo [2^32]. *)

From Stdlib Require Import ZArith Lia Bool.
From stdpp Require Import base list option.
From S2P Require Import Prelude.

(** ** Words *)

Definition word (z : Z) : Z := z mod 2 ^ 32.
Definition wadd (a b : Z) : Z := word (a + b).
Definition rotr (n x : Z) : Z := Z.lor (Z.shiftr x n) (word (Z.shiftl x (32 - n))).

Definition Ch (x y z : Z) : Z := Z.lxor (Z.land x y) (Z.land (Z.lxor x (2 ^ 32 - 1)) z).
Definition Maj (x y z : Z) : Z := Z.lxor (Z.lxor (Z.land x y) (Z.land x z)) (Z.land y z).
Definition Sigma0 (x : Z) : Z := Z.lxor (Z.lxor (rotr 2 x) (rotr 13 x)) (rotr 22 x).
Definition Sigma1 (x : Z) : Z := Z.lxor (Z.lxor (rotr 6 x) (rotr 11 x)) (rotr 25 x).
Definition sigma0 (x : Z) : Z := Z.lxor (Z.lxor (rotr 7 x) (rotr 18 x)) (Z.shiftr x 3).
Definition sigma1 (x : Z) : Z := Z.lxor (Z.lxor (rotr 17 x) (rotr 19 x)) (Z.shiftr x 10).

(** The constants are the fractional bits of the square and cube roots of the
    first primes. *)
Definition is_prime (n : Z) : bool :=
  forallb (fun d => negb (n mod (Z.of_nat d) =? 0)) (seq 2 (Z.to_nat n - 2)).

Definition first_primes (n : nat) : list Z :=
  take n (filter (fun k => is_prime k = true) (Z.of_nat <$> seq 2 400)).

(** The largest [r] below [2 ^ bits] with [r ^ e <= n], bit by bit. *)
Fixpoint integer_root (bits : nat) (e n r : Z) : Z :=
  match bits with
  | O => r
  | S b =>
    let r' := r + 2 ^ Z.of_nat b in
    integer_root b e n (if r' ^ e <=? n then r' else r)
  end.

(** The first 32 fractional bits of the [e]-th root of [p]. *)
Definition root_fraction (e p : Z) : Z := integer_root 40 e (p * 2 ^ (32 * e)) 0 mod 2 ^ 32.

Definition round_constants : list Z := Eval vm_compute in root_fraction 3 <$> first_primes 64.

Definition initial_hash : list Z := Eval vm_compute in root_fraction 2 <$> first_primes 8.

Example constants_ends :
  (round_constants !! 0%nat, round_constants !! 63%nat, last initial_hash) =
  (Some 0x428a2f98, Some 0xc67178f2, Some 0x5be0cd19).
Proof. reflexivity. Qed.

(** ** Blocks *)

(** Big-endian words of a list of bytes. *)
Fixpoint words_of (s : gostring) : list Z :=
  match s with
  | a :: b :: c :: d :: t => (a * 2 ^ 24 + b * 2 ^ 16 + c * 2 ^ 8 + d) :: words_of t
  | _ => []
  end.

(** The message schedule: [n] more words on the sixteen of the block, latest first. *)
Fixpoint schedule (n : nat) (rw : list Z) : list Z :=
  match n with
  | O => rev rw
  | S k =>
    let w i := default 0 (rw !! i) in
    schedule k (wadd (wadd (sigma1 (w 1%nat)) (w 6%nat)) (wadd (sigma0 (w 14%nat)) (w 15%nat)) :: rw)
  end.

Definition hash_round (h : list Z) (kw : Z * Z) : list Z :=
  match h with
  | [a; b; c; d; e; f; g; hh] =>
    let t1 := wadd (wadd hh (Sigma1 e)) (wadd (Ch e f g) (wadd (fst kw) (snd kw))) in
    let t2 := wadd (Sigma0 a) (Maj a b c) in
    [wadd t1 t2; a; b; c; wadd d t1; e; f; g]
  | _ => h
  end.

Definition compress (h : list Z) (block : gostring) : list Z :=
  let ws := schedule 48 (rev (words_of block)) in
  zip_with wadd h (foldl hash_round h (zip round_constants ws)).

(** Cut into blocks of 64 bytes. *)
Fixpoint blocks (n : nat) (s : gostring) : list gostring :=
  match n with
  | O => []
  | S k => take 64 s :: blocks k (drop 64 s)
  end.

(** The bytes of a word, most significant first. *)
Definition word_bytes (w : Z) : gostring :=
  [w / 2 ^ 24 mod 256; w / 2 ^ 16 mod 256; w / 2 ^ 8 mod 256; w mod 256].

(** The message with its padding: 0x80, zeros, and the length in bits. *)
Definition padded (s : gostring) : gostring :=
  let zeros := Z.to_nat ((55 - Z.of_nat (length s)) mod 64) in
  let bits := 8 * Z.of_nat (length s) in
  s ++ [128] ++ replicate zeros 0 ++ word_bytes (bits / 2 ^ 32) ++ word_bytes bits.

(** [sha256.Sum256]. *)
Definition sha256 (s : gostring) : gostring :=
  let p := padded s in
  foldl compress initial_hash (blocks (length p / 64) p) ≫= word_bytes.

(** [hmac.New(sha256.New, key)], then [Write(msg)] and [Sum]. *)
Definition hmac_sha256 (key msg : gostring) : gostring :=
  let key := if (64 <? length key)%nat then sha256 key else key in
  let key := key ++ replicate (64 - length key) 0 in
  sha256 ((Z.lxor 0x5c <$> key) ++ sha256 ((Z.lxor 0x36 <$> key) ++ msg)).

(** The test vectors of the standards. *)
Example sha256_abc :
  take 4 (sha256 (go "abc")) = [0xba; 0x78; 0x16; 0xbf].
Proof. vm_compute. reflexivity. Qed.

Example hmac_jefe :
  take 4 (hmac_sha256 (go "Jefe") (go "what do ya want for nothing?")) = [0x5b; 0xdc; 0xc1; 0x46].
Proof. vm_compute. reflexivity. Qed.

(** ** The digest is bytes *)

Lemma word_bytes_range w : Forall (fun b => 0 <= b < 256) (word_bytes w).
Proof. unfold word_bytes. repeat constructor; apply Z.mod_pos_bound; lia. Qed.

Lemma sha256_bytes s : Forall (fun b => 0 <= b < 256) (sha256 s).
Proof.
  unfold sha256. apply Forall_bind. apply Forall_forall. intros w _. apply word_bytes_range.
Qed.

Lemma hmac_sha256_bytes key msg : Forall (fun b => 0 <= b < 256) (hmac_sha256 key msg).
Proof. apply sha256_bytes. Qed.

(** The digest has 32 bytes. *)
Lemma hash_round_length h kw : length (hash_round h kw) = length h.
Proof. unfold hash_round. do 9 (destruct h as [|? h]; [reflexivity|]). reflexivity. Qed.

Lemma foldl_length {A B} (f : list A -> B -> list A) h l :
  (forall x b, length (f x b) = length x) -> length (foldl f h l) = length h.
Proof. intros Hf. revert h. induction l as [|b l IH]; intros h; [done|]. simpl. by rewrite IH, Hf. Qed.

Lemma compress_length h block : length (compress h block) = length h.
Proof. unfold compress. rewrite length_zip_with, foldl_length by (intros; apply hash_round_length). lia. Qed.

Lemma sha256_length s : length (sha256 s) = 32%nat.
Proof.
  unfold sha256. assert (forall l : list Z, length (l ≫= word_bytes) = (4 * length l)%nat) as Hb.
  { induction l as [|w l IH]; [done|]. cbn. rewrite IH. lia. }
  rewrite Hb, foldl_length by (intros; apply compress_length). reflexivity.
Qed.
