(* ===== verification/Float64.v ===== *)
(** * float64

    Go's [float64] as IEEE 754 binary64 with round to nearest even, on the
    Standard Library's executable [spec_float].  [math.Log2] is Go's own
    algorithm (Frexp, then the FreeBSD logarithm), operation by operation, without fused
    multiply-add (the amd64 code). *)

From Stdlib Require Import ZArith SpecFloat Lia.
From stdpp Require Import base list option sets.
From S2P Require Import Prelude.

Notation float64 := spec_float (only parsing).

Definition fadd : float64 -> float64 -> float64 := SFadd 53 1024.
Definition fsub : float64 -> float64 -> float64 := SFsub 53 1024.
Definition fmul : float64 -> float64 -> float64 := SFmul 53 1024.
Definition fdiv : float64 -> float64 -> float64 := SFdiv 53 1024.
Definition fsqrt : float64 -> float64 := SFsqrt 53 1024.

(** [float64(n)] for an integer. *)
Definition float_of_Z (n : Z) : float64 := binary_normalize 53 1024 n 0 false.
Definition float_of_nat (n : nat) : float64 := float_of_Z (Z.of_nat n).

(** The constant [n/d]: both operands are exact, so one correctly rounded division
    gives the float64 nearest to the decimal constant of the source. *)
Definition flit (n d : Z) : float64 := fdiv (float_of_Z n) (float_of_Z d).

Definition fzero : float64 := S754_zero false.

Definition fltb (a b : float64) : bool := SFltb a b.
Definition fleb (a b : float64) : bool := SFleb a b.
Definition fgtb (a b : float64) : bool := SFltb b a.

(** A float64 from its sign bit, 11-bit exponent field (normal numbers) and
    52-bit fraction, the way the constants of [math/log.go] are documented. *)
Definition fbits (exponent fraction : Z) : float64 :=
  match (2 ^ 52 + fraction)%Z with
  | Zpos m => S754_finite false m (exponent - 1075)
  | _ => fzero
  end.

Definition Ln2Hi : float64 := fbits 1022 (0x62e42fee00000)%Z.
Definition Ln2Lo : float64 := fbits 990 (0xa39ef35793c76)%Z.
Definition L1 : float64 := fbits 1022 (0x5555555555593)%Z.
Definition L2 : float64 := fbits 1021 (0x999999997fa04)%Z.
Definition L3 : float64 := fbits 1021 (0x2492494229359)%Z.
Definition L4 : float64 := fbits 1020 (0xc71c51d8e78af)%Z.
Definition L5 : float64 := fbits 1020 (0x7466496cb03de)%Z.
Definition L6 : float64 := fbits 1020 (0x39a09d078c69f)%Z.
Definition L7 : float64 := fbits 1020 (0x2f112df3e5244)%Z.
Definition Sqrt2Half : float64 := fbits 1022 (0x6a09e667f3bcd)%Z.
Definition InvLn2 : float64 := fbits 1023 (0x71547652b82fe)%Z.

Definition fone : float64 := float_of_Z 1.
Definition ftwo : float64 := float_of_Z 2.
Definition fhalf : float64 := flit 1 2.

(** [math.Log] of a positive finite number. *)
Definition Log (x : float64) : float64 :=
  let '(f0, k0) := SFfrexp 53 1024 x in
  let '(f1, ki) := if fltb f0 Sqrt2Half then (fmul f0 ftwo, k0 - 1) else (f0, k0) in
  let f := fsub f1 fone in
  let k := float_of_Z ki in
  let s := fdiv f (fadd ftwo f) in
  let s2 := fmul s s in
  let s4 := fmul s2 s2 in
  let t1 := fmul s2 (fadd L1 (fmul s4 (fadd L3 (fmul s4 (fadd L5 (fmul s4 L7)))))) in
  let t2 := fmul s4 (fadd L2 (fmul s4 (fadd L4 (fmul s4 L6)))) in
  let R := fadd t1 t2 in
  let hfsq := fmul (fmul fhalf f) f in
  fsub (fmul k Ln2Hi) (fsub (fsub hfsq (fadd (fmul s (fadd hfsq R)) (fmul k Ln2Lo))) f).

(** [math.Log2] of a positive finite number. *)
Definition Log2 (x : float64) : float64 :=
  let '(frac, exp) := SFfrexp 53 1024 x in
  if SFeqb frac fhalf then float_of_Z (exp - 1)
  else fadd (fmul (Log frac) InvLn2) (float_of_Z exp).

(** Powers of two are exact. *)
Example Log2_pow2 : Log2 (float_of_Z 64) = float_of_Z 6.
Proof. vm_compute. reflexivity. Qed.

(** ** float64: integers are exact

    Sums, differences and comparisons of integers below 2^53 are those of the integers. *)

(** ** Digits and shifts *)

Lemma digits2_log2 p : Zpos (digits2_pos p) = Z.log2 (Zpos p) + 1.
Proof.
  induction p as [p IH|p IH|]; [| |done]; simpl digits2_pos; rewrite Pos2Z.inj_succ, IH.
  - change (Zpos p~1) with (2 * Zpos p + 1). rewrite Z.log2_succ_double by lia. lia.
  - change (Zpos p~0) with (2 * Zpos p). rewrite Z.log2_double by lia. lia.
Qed.

Lemma iter_xO m d : Zpos (Pos.iter xO m d) = Zpos m * 2 ^ Zpos d.
Proof.
  induction d as [|d IH] using Pos.peano_ind; [simpl; change (2 ^ 1) with 2; lia|].
  rewrite Pos.iter_succ, Pos2Z.inj_succ, Z.pow_succ_r, Pos2Z.inj_xO by lia. lia.
Qed.

Lemma shr_1_double m : 0 < m -> shr_1 {| shr_m := m * 2; shr_r := false; shr_s := false |} = {| shr_m := m; shr_r := false; shr_s := false |}.
Proof. intros H. destruct m as [|p|p]; try lia. rewrite Z.mul_comm. done. Qed.

Lemma iter_shr p m : 0 < m ->
  SpecFloat.iter_pos shr_1 p {| shr_m := m * 2 ^ Zpos p; shr_r := false; shr_s := false |} = {| shr_m := m; shr_r := false; shr_s := false |}.
Proof.
  revert m. induction p as [p IH|p IH|]; intros m Hm; cbn [SpecFloat.iter_pos].
  - replace (m * 2 ^ Zpos p~1) with (m * 2 ^ Zpos p * 2 ^ Zpos p * 2).
    + rewrite shr_1_double by nia. by rewrite !IH by nia.
    + change (Zpos p~1) with (2 * Zpos p + 1). replace (2 * Zpos p + 1) with (Zpos p + Zpos p + 1) by lia.
      rewrite !Z.pow_add_r by lia. change (2 ^ 1) with 2. lia.
  - replace (m * 2 ^ Zpos p~0) with (m * 2 ^ Zpos p * 2 ^ Zpos p).
    + by rewrite !IH by nia.
    + change (Zpos p~0) with (2 * Zpos p). replace (2 * Zpos p) with (Zpos p + Zpos p) by lia. rewrite Z.pow_add_r by lia. lia.
  - change (2 ^ 1) with 2. by apply shr_1_double.
Qed.

(** ** Rounding an exact value *)

Lemma fexp_normal e : -1021 <= e -> fexp 53 1024 e = e - 53.
Proof. intros H. unfold fexp, emin. lia. Qed.

Lemma shr_exact m e n :
  0 < m -> 0 <= n -> shr (shr_record_of_loc (m * 2 ^ n) loc_Exact) e n = ({| shr_m := m; shr_r := false; shr_s := false |}, e + n).
Proof.
  intros Hm Hn. destruct n as [|p|p]; [|by unfold shr; simpl shr_record_of_loc; rewrite iter_shr|lia].
  simpl. f_equal; [f_equal; lia|lia].
Qed.

Lemma Zdigits2_log2 m : 0 < m -> Zdigits2 m = Z.log2 m + 1.
Proof. intros H. destruct m; try lia. apply digits2_log2. Qed.

Lemma round_aux_exact p n e :
  Z.log2 (Zpos p) = 52 -> 0 <= n -> -1074 <= e + n <= 971 ->
  binary_round_aux 53 1024 false (Zpos p * 2 ^ n) e loc_Exact = S754_finite false p (e + n).
Proof.
  intros Hp Hn He. unfold binary_round_aux, shr_fexp.
  rewrite (Zdigits2_log2 (Zpos p * 2 ^ n)) by lia. rewrite Z.log2_mul_pow2, Hp, fexp_normal by lia.
  replace (n + 52 + 1 + e - 53 - e) with n by lia. rewrite shr_exact by lia.
  cbn [shr_m loc_of_shr_record round_nearest_even]. rewrite (Zdigits2_log2 (Zpos p)), Hp, fexp_normal by lia.
  replace (52 + 1 + (e + n) - 53 - (e + n)) with 0 by lia. cbn [shr shr_record_of_loc shr_m].
  replace (e + n <=? 1024 - 53) with true by lia. done.
Qed.

(** The float nearest to [m * 2^e] when it is one: the same however the value is written. *)
Lemma normalize_exact m k :
  0 < m < 2 ^ 53 -> 0 <= k <= 1000 ->
  exists p, Zpos p = m * 2 ^ (52 - Z.log2 m) /\
    binary_normalize 53 1024 (m * 2 ^ k) (- k) false = S754_finite false p (Z.log2 m - 52).
Proof.
  intros Hm Hk. assert (0 <= Z.log2 m <= 52) as Hd.
  { split; [apply Z.log2_nonneg|]. apply Z.lt_succ_r. apply Z.log2_lt_pow2; lia. }
  set (d := Z.log2 m) in *. assert (0 < m * 2 ^ (52 - d)) as Hpos by (apply Z.mul_pos_pos; lia).
  destruct (m * 2 ^ (52 - d)) as [|p|p] eqn:Ep; try lia. exists p. split; [done|].
  assert (Z.log2 (Zpos p) = 52) as Hlp by (rewrite <-Ep, Z.log2_mul_pow2 by lia; fold d; lia).
  assert (0 < m * 2 ^ k) as Hq by (apply Z.mul_pos_pos; lia).
  destruct (m * 2 ^ k) as [|q|q] eqn:Eq; try lia. unfold binary_normalize, binary_round.
  assert (Z.log2 (Zpos q) = k + d) as Hlq by (rewrite <-Eq, Z.log2_mul_pow2 by lia; done).
  rewrite digits2_log2, Hlq, fexp_normal by lia. unfold shl_align.
  replace (k + d + 1 + - k - 53 - - k) with (d + k - 52) by lia.
  destruct (Z.lt_ge_cases (d + k - 52) 0) as [Hlt|Hge].
  - destruct (d + k - 52) as [|x|x] eqn:Ex; try lia. rewrite iter_xO, <-Eq.
    replace (m * 2 ^ k * 2 ^ Zpos x) with (Zpos p * 2 ^ 0).
    + rewrite round_aux_exact by lia. f_equal. lia.
    + rewrite <-Ep, <-!Z.mul_assoc, <-!Z.pow_add_r by lia. do 2 f_equal. lia.
  - assert (match d + k - 52 with Zneg x => (Pos.iter xO q x, k + d + 1 + - k - 53) | _ => (q, - k) end = (q, - k)) as ->
      by (destruct (d + k - 52); [done|done|lia]).
    rewrite <-Eq. replace (m * 2 ^ k) with (Zpos p * 2 ^ (d + k - 52)).
    + rewrite round_aux_exact by lia. f_equal. lia.
    + rewrite <-Ep, <-Z.mul_assoc, <-Z.pow_add_r by lia. do 2 f_equal. lia.
Qed.

(** ** Integers *)

Lemma float_of_Z_pos m :
  0 < m < 2 ^ 53 -> exists p, Zpos p = m * 2 ^ (52 - Z.log2 m) /\ float_of_Z m = S754_finite false p (Z.log2 m - 52).
Proof. intros Hm. destruct (normalize_exact m 0 Hm) as (p & Hp & He); [lia|]. rewrite Z.mul_1_r in He. eauto. Qed.

Lemma log2_small m : 0 < m < 2 ^ 53 -> 0 <= Z.log2 m <= 52.
Proof. intros Hm. split; [apply Z.log2_nonneg|]. apply Z.lt_succ_r, Z.log2_lt_pow2; lia. Qed.

(** Aligning the mantissa of an integer to a lower exponent. *)
Lemma shl_align_int m p ez :
  0 < m < 2 ^ 53 -> Zpos p = m * 2 ^ (52 - Z.log2 m) -> ez <= Z.log2 m - 52 ->
  Zpos (fst (shl_align p (Z.log2 m - 52) ez)) = m * 2 ^ (- ez).
Proof.
  intros Hm Hp He. pose proof (log2_small m Hm). unfold shl_align. destruct (ez - (Z.log2 m - 52)) as [|x|x] eqn:Ex; try lia; simpl fst.
  - rewrite Hp. do 2 f_equal. lia.
  - rewrite iter_xO, Hp, <-Z.mul_assoc, <-Z.pow_add_r by lia. do 2 f_equal. lia.
Qed.

Lemma fadd_int a b : 0 <= a -> 0 <= b -> a + b < 2 ^ 53 -> fadd (float_of_Z a) (float_of_Z b) = float_of_Z (a + b).
Proof.
  intros Ha Hb Hab. destruct (Z.eq_dec a 0) as [->|Ha0]; [|destruct (Z.eq_dec b 0) as [->|Hb0]].
  - destruct (Z.eq_dec b 0) as [->|Hb0]; [done|]. destruct (float_of_Z_pos b) as (q & _ & E); [lia|]. simpl Z.add. by rewrite E.
  - destruct (float_of_Z_pos a) as (q & _ & E); [lia|]. rewrite Z.add_0_r, E. done.
  - destruct (float_of_Z_pos a) as (p & Hp & ->); [lia|]. destruct (float_of_Z_pos b) as (q & Hq & ->); [lia|].
    pose proof (log2_small a ltac:(lia)). pose proof (log2_small b ltac:(lia)).
    unfold fadd, SFadd. cbv zeta. set (ez := Z.min _ _). cbn [cond_Zopp].
    rewrite (shl_align_int a p ez), (shl_align_int b q ez) by (done || lia). rewrite <-Z.mul_add_distr_r.
    destruct (normalize_exact (a + b) (- ez)) as (r & Hr & E); [lia|lia|]. rewrite Z.opp_involutive in E. rewrite E.
    destruct (float_of_Z_pos (a + b)) as (r' & Hr' & ->); [lia|]. f_equal. congruence.
Qed.

Lemma fsub_int a b : 0 <= b <= a -> a < 2 ^ 53 -> fsub (float_of_Z a) (float_of_Z b) = float_of_Z (a - b).
Proof.
  intros Hb Ha. destruct (Z.eq_dec b 0) as [->|Hb0].
  - rewrite Z.sub_0_r. destruct (Z.eq_dec a 0) as [->|Ha0]; [done|]. destruct (float_of_Z_pos a) as (q & _ & E); [lia|]. by rewrite E.
  - destruct (float_of_Z_pos a) as (p & Hp & ->); [lia|]. destruct (float_of_Z_pos b) as (q & Hq & ->); [lia|].
    pose proof (log2_small a ltac:(lia)). pose proof (log2_small b ltac:(lia)).
    unfold fsub, SFsub. cbv zeta. set (ez := Z.min _ _). cbn [cond_Zopp].
    rewrite (shl_align_int a p ez), (shl_align_int b q ez) by (done || lia). rewrite <-Z.mul_sub_distr_r.
    destruct (Z.eq_dec (a - b) 0) as [->|Hne]; [done|].
    destruct (normalize_exact (a - b) (- ez)) as (r & Hr & E); [lia|lia|]. rewrite Z.opp_involutive in E. rewrite E.
    destruct (float_of_Z_pos (a - b)) as (r' & Hr' & ->); [lia|]. f_equal. congruence.
Qed.

Lemma fleb_int a b : 0 <= a < 2 ^ 53 -> 0 <= b < 2 ^ 53 -> fleb (float_of_Z a) (float_of_Z b) = (a <=? b).
Proof.
  intros Ha Hb. destruct (Z.eq_dec a 0) as [->|Ha0]; [|destruct (Z.eq_dec b 0) as [->|Hb0]].
  - destruct (Z.eq_dec b 0) as [->|Hb0]; [done|]. destruct (float_of_Z_pos b) as (q & _ & ->); [lia|].
    symmetry. apply Z.leb_le. lia.
  - destruct (float_of_Z_pos a) as (q & _ & ->); [lia|]. symmetry. apply Z.leb_gt. lia.
  - destruct (float_of_Z_pos a) as (p & Hp & ->); [lia|]. destruct (float_of_Z_pos b) as (q & Hq & ->); [lia|].
    pose proof (log2_small a ltac:(lia)). pose proof (log2_small b ltac:(lia)). unfold fleb, SFleb, SFcompare.
    destruct (Z.compare_spec (Z.log2 a - 52) (Z.log2 b - 52)) as [E|E|E].
    + change (Pos.compare_cont Eq p q) with (Pos.compare p q).
      assert (Z.log2 a = Z.log2 b) as El by lia. rewrite Pos2Z.inj_compare, Hp, Hq, El, <-Zmult_compare_compat_r by lia.
      unfold Z.leb. by destruct (a ?= b).
    + symmetry. apply Z.leb_le. assert (Z.log2 a < Z.log2 b) as El%Z.log2_lt_cancel by lia. lia.
    + symmetry. apply Z.leb_gt. apply Z.log2_lt_cancel. lia.
Qed.
