(* ===== verification/Regex.v ===== *)
(** * Regular expressions

    Two things: a compiled [regexp.Regexp] as the scanner uses one, which for the
    operator's own patterns is a parameter of the model, and a small syntax of
    anchored patterns in which the program's built-in patterns are written, with
    an executable matcher proved equal to the language of the pattern. *)

From Stdlib Require Import ZArith Lia Bool.
From stdpp Require Import base list option sets.
From S2P Require Import Prelude GoStrings.

(** A compiled pattern: its match test, and [FindStringSubmatchIndex], the list of
    group bounds with [-1] for a group that did not take part. *)
Record Regexp := {
  MatchString : gostring -> bool;
  FindStringSubmatchIndex : gostring -> option (list Z);
}.

(** ** Built-in patterns *)

(** One-byte classes, literals, counted repetition of a class, sequence and choice
    are all that the built-in patterns use. *)
Inductive pattern :=
| PLit (s : gostring)
| PRep (f : byte -> bool) (lo : nat) (hi : option nat)
| PCat (p q : pattern)
| PAlt (p q : pattern).

Definition PCls (f : byte -> bool) : pattern := PRep f 1 (Some 1%nat).

Definition within (n : nat) (hi : option nat) : Prop :=
  match hi with Some h => (n <= h)%nat | None => True end.

(** The language of a pattern. *)
Inductive Matches : pattern -> gostring -> Prop :=
| MLit s : Matches (PLit s) s
| MRep f lo hi s :
    (lo <= length s)%nat -> within (length s) hi ->
    Forall (fun c => f c = true) s -> Matches (PRep f lo hi) s
| MCat p q s t : Matches p s -> Matches q t -> Matches (PCat p q) (s ++ t)
| MAltL p q s : Matches p s -> Matches (PAlt p q) s
| MAltR p q s : Matches q s -> Matches (PAlt p q) s.

(** The suffixes of [s] that are left after a match of [p] at its start. *)
Fixpoint residuals (p : pattern) (s : gostring) : list gostring :=
  match p with
  | PLit l => if HasPrefix s l then [drop (length l) s] else []
  | PRep f lo hi =>
    let k := span_len f s in
    let m := match hi with Some h => Nat.min k h | None => k end in
    (fun n => drop n s) <$> seq lo (S m - lo)
  | PCat p q => residuals p s ≫= residuals q
  | PAlt p q => residuals p s ++ residuals q s
  end.

(** [^pattern$]. *)
Definition match_full (p : pattern) (s : gostring) : bool :=
  existsb is_empty (residuals p s).

Lemma span_len_prefix {A} (f : A -> bool) s t :
  Forall (fun c => f c = true) s -> (length s <= span_len f (s ++ t))%nat.
Proof. induction 1 as [|c s Hc _ IH]; simpl; [lia|]. rewrite Hc. lia. Qed.

Lemma residuals_spec p s r :
  r ∈ residuals p s <-> exists m, s = m ++ r /\ Matches p m.
Proof.
  revert s r. induction p as [l|f lo hi|p IHp q IHq|p IHp q IHq]; intros s r; simpl.
  - split.
    + destruct (HasPrefix s l) eqn:E; [|set_solver]. intros ->%list_elem_of_singleton.
      apply HasPrefix_app in E as [t ->]. exists l.
      rewrite drop_app_length. split; [done|constructor].
    + intros (m & -> & Hm). inversion Hm; subst.
      rewrite (proj2 (HasPrefix_app _ _)) by eauto. rewrite drop_app_length. set_solver.
  - rewrite list_elem_of_fmap. setoid_rewrite elem_of_seq. split.
    + intros (n & -> & Hn). exists (take n s). rewrite take_drop. split; [done|].
      assert (n <= span_len f s)%nat as Hk by (destruct hi; lia).
      pose proof (span_len_le f s). constructor.
      * rewrite length_take. lia.
      * unfold within. destruct hi; rewrite ?length_take; [lia|done].
      * pose proof (span_len_forall f s) as Hf.
        apply (Forall_take _ n) in Hf. by rewrite take_take, Nat.min_l in Hf by lia.
    + intros (m & -> & Hm). inversion Hm; subst. exists (length m).
      rewrite drop_app_length. split; [done|].
      pose proof (span_len_prefix f m r ltac:(done)). unfold within in *. destruct hi; lia.
  - rewrite list_elem_of_bind. split.
    + intros (t & Hr & Ht). apply IHp in Ht as (m & -> & Hm). apply IHq in Hr as (m' & -> & Hm').
      exists (m ++ m'). by rewrite <-app_assoc; split; [|constructor].
    + intros (m & -> & Hm). inversion Hm as [| |? ? m1 m2 Hm1 Hm2| |]; subst.
      exists (m2 ++ r). rewrite IHq, IHp.
      split; [by exists m2|exists m1; by rewrite app_assoc].
  - rewrite elem_of_app, IHp, IHq. split.
    + intros [(m & -> & Hm)|(m & -> & Hm)]; exists m; split; auto; by constructor.
    + intros (m & -> & Hm). inversion Hm; subst; [left|right]; eauto.
Qed.

(** The matcher decides the language of the pattern. *)
Lemma match_full_spec p s : match_full p s = true <-> Matches p s.
Proof.
  unfold match_full. rewrite existsb_exists. setoid_rewrite <-list_elem_of_In.
  setoid_rewrite residuals_spec. split.
  - intros (r & (m & -> & Hm) & Hr). destruct r; [|done]. by rewrite app_nil_r.
  - intros Hm. exists []. split; [|done]. exists s. by rewrite app_nil_r.
Qed.
