(* ===== verification/Signatures.v ===== *)
(** * Secret signatures

    [pkg/scanner/signatures.go]: the issuer-format detectors, the e-mail shape and
    the framing lines of a PEM private key. *)

From Stdlib Require Import ZArith Lia Bool.
From stdpp Require Import base list option sets.
From S2P Require Import Prelude GoStrings Regex.

Definition upper_digit (c : byte) : bool := between 48 c 57 || between 65 c 90.
Definition urlsafe (c : byte) : bool := isAlnumByte c || (c =? ch "_") || (c =? ch "-").
Definition alnum_dash (c : byte) : bool := isAlnumByte c || (c =? ch "-").

Definition awsKeyRe : pattern :=
  PCat (PAlt (PLit (go "AKIA")) (PLit (go "ASIA"))) (PRep upper_digit 16 (Some 16%nat)).

Definition gcpKeyRe : pattern := PCat (PLit (go "AIza")) (PRep urlsafe 35 (Some 35%nat)).

Definition githubTokenRe : pattern :=
  PCat (PLit (go "gh"))
    (PCat (PCls (fun c => ContainsByte (go "pousr") c))
       (PCat (PLit (go "_")) (PRep isAlnumByte 36 (Some 255%nat)))).

Definition slackTokenRe : pattern :=
  PCat (PLit (go "xox"))
    (PCat (PCls (fun c => ContainsByte (go "abepsr") c))
       (PCat (PLit (go "-")) (PRep alnum_dash 10 None))).

Definition stripeKeyRe : pattern :=
  PCat (PAlt (PLit (go "sk")) (PLit (go "rk")))
    (PCat (PLit (go "_"))
       (PCat (PAlt (PLit (go "live")) (PLit (go "test")))
          (PCat (PLit (go "_")) (PRep isAlnumByte 16 None)))).

Definition jwtRe : pattern :=
  PCat (PLit (go "eyJ"))
    (PCat (PRep urlsafe 1 None)
       (PCat (PLit (go "."))
          (PCat (PRep urlsafe 1 None) (PCat (PLit (go ".")) (PRep urlsafe 0 None))))).

Definition telegramBotTokenRe : pattern :=
  PCat (PRep isASCIIDigit 5 (Some 16%nat))
    (PCat (PLit (go ":A")) (PRep urlsafe 34 (Some 34%nat))).

Record signatureRule := { label : gostring; prefix : list gostring; re : pattern }.

Definition signatureRules : list signatureRule :=
  [ {| label := go "aws-key"; prefix := [go "AKIA"; go "ASIA"]; re := awsKeyRe |};
    {| label := go "gcp-key"; prefix := [go "AIza"]; re := gcpKeyRe |};
    {| label := go "github-token";
       prefix := [go "ghp_"; go "gho_"; go "ghs_"; go "ghu_"; go "ghr_"]; re := githubTokenRe |};
    {| label := go "slack-token"; prefix := [go "xox"]; re := slackTokenRe |};
    {| label := go "stripe-key";
       prefix := [go "sk_live_"; go "sk_test_"; go "rk_live_"; go "rk_test_"]; re := stripeKeyRe |};
    {| label := go "jwt"; prefix := [go "eyJ"]; re := jwtRe |} ].

Definition minSignatureLength : nat := 20.
Definition minBearerCredentialLength : nat := 16.

(** The loop over the rules: the pattern of a rule runs when one of its prefixes fits. *)
Fixpoint first_rule (rules : list signatureRule) (token : gostring) : gostring :=
  match rules with
  | [] => []
  | r :: rs =>
    if existsb (HasPrefix token) (prefix r) && match_full (re r) token then label r
    else first_rule rs token
  end.

(** [matchSignature]: the label of the first rule that matches, [""] for none. *)
Definition matchSignature (token : gostring) : gostring :=
  if (length token <? minSignatureLength)%nat then []
  else
    let l := first_rule signatureRules token in
    if negb (is_empty l) then l
    else if at_is token 0 isASCIIDigit && match_full telegramBotTokenRe token
    then go "telegram-bot-token"
    else [].

(** [hasTelegramShape]: a colon with at least five digits before it and an 'A' after. *)
Definition hasTelegramShape (s : gostring) : bool :=
  (minSignatureLength <=? length s)%nat &&
  existsb (fun i =>
    at_is s i (Z.eqb (ch ":")) && (5 <=? i)%nat && at_is s (S i) (Z.eqb (ch "A")) &&
    (5 <=? span_len isASCIIDigit (rev (take i s)))%nat) (seq 0 (length s)).

(** [urlPathSignature]: how much of the segment to keep, and the label. *)
Definition urlPathSignature (seg : gostring) : nat * gostring :=
  let l := matchSignature seg in
  if negb (is_empty l) then (0%nat, l)
  else if HasPrefix seg (go "bot") &&
          str_eqb (matchSignature (drop 3 seg)) (go "telegram-bot-token")
  then (3%nat, go "telegram-bot-token")
  else (0%nat, []).

Definition hasPathSignature (s : gostring) : bool :=
  (minSignatureLength <=? length s)%nat &&
  existsb (fun seg => negb (is_empty (snd (urlPathSignature seg)))) (Split s (ch "/")).

(** [isPrivateKeyMarker]. *)
Definition isPrivateKeyMarker (line : gostring) : bool :=
  let s := TrimSpace line in
  let suffix := go "PRIVATE KEY-----" in
  let check (pre : gostring) :=
    HasSuffix s suffix && (length pre + length suffix <=? length s)%nat &&
    forallb (fun c => upper_digit c || (c =? ch " "))
      (slice s (length pre) (length s - length suffix)) in
  if HasPrefix s (go "-----BEGIN ") then check (go "-----BEGIN ")
  else if HasPrefix s (go "-----END ") then check (go "-----END ")
  else false.

(** ** E-mail addresses *)

Definition local_byte (c : byte) : bool := isAlnumByte c || ContainsByte (go "._%+-") c.

(** The loop over the labels of the domain; [fuel] bounds the number of labels. *)
Fixpoint email_labels (fuel : nat) (domain : gostring) (labels : nat) : bool :=
  match fuel with
  | O => false
  | S f =>
    if is_empty domain then (2 <=? labels)%nat
    else
      let '(lab, rest, _) := Cut domain (ch ".") in
      if is_empty lab || (63 <? length lab)%nat || at_is lab 0 (Z.eqb (ch "-")) ||
         at_is lab (length lab - 1) (Z.eqb (ch "-")) || negb (forallb alnum_dash lab)
      then false
      else if is_empty rest then
        (2 <=? length lab)%nat && forallb isASCIILetter lab && (2 <=? S labels)%nat
      else email_labels f rest (S labels)
  end.

(** [isEmailAddress]. *)
Definition isEmailAddress (s : gostring) : bool :=
  match IndexByte s (ch "@") with
  | None => false
  | Some at_ =>
    let local := take at_ s in
    let domain := drop (S at_) s in
    (1 <=? at_)%nat && (at_ <=? 64)%nat && negb (ContainsByte domain (ch "@")) &&
    negb (at_is local 0 (Z.eqb (ch "."))) &&
    negb (at_is local (length local - 1) (Z.eqb (ch "."))) &&
    forallb local_byte local && email_labels (S (length domain)) domain 0
  end.

(** ** Signatures and their languages

    [matchSignature] runs a pattern only behind its literal prefixes; the gate
    loses no match, so the answer is that of the patterns alone. *)

Lemma Matches_cat p q s : Matches (PCat p q) s -> exists u v, s = u ++ v /\ Matches p u /\ Matches q v.
Proof. intros H. inversion H; subst. eauto. Qed.

Lemma Matches_alt p q s : Matches (PAlt p q) s -> Matches p s \/ Matches q s.
Proof. intros H. inversion H; subst; auto. Qed.

Lemma Matches_lit l s : Matches (PLit l) s -> s = l.
Proof. intros H. by inversion H. Qed.

Lemma Matches_cls f s : Matches (PCls f) s -> exists c, s = [c] /\ f c = true.
Proof.
  intros H. inversion H as [|? ? ? ? H1 H2 H3| | |]; subst. simpl in H2.
  destruct s as [|c [|]]; simpl in *; try lia. exists c. apply Forall_cons in H3 as [? _]. done.
Qed.

(** Take a match apart along its pattern. *)
Ltac unmatch :=
  repeat match goal with
  | H : Matches (PCat _ _) _ |- _ => apply Matches_cat in H as (? & ? & -> & ? & ?)
  | H : Matches (PAlt _ _) _ |- _ => apply Matches_alt in H as [?|?]
  | H : Matches (PLit _) _ |- _ => apply Matches_lit in H as ->
  | H : Matches (PCls _) _ |- _ => apply Matches_cls in H as (? & -> & ?)
  end.

(** Every match of a rule's pattern starts with one of its prefixes. *)
Lemma rule_prefix r tok :
  In r signatureRules -> Matches (re r) tok -> existsb (HasPrefix tok) (prefix r) = true.
Proof.
  intros Hr Hm. unfold signatureRules in Hr. simpl in Hr.
  destruct Hr as [<-|[<-|[<-|[<-|[<-|[<-|[]]]]]]]; simpl in Hm;
    unfold awsKeyRe, gcpKeyRe, githubTokenRe, slackTokenRe, stripeKeyRe, jwtRe in Hm; unmatch; simpl; try done.
  match goal with H : ContainsByte _ _ = true |- _ => apply ContainsByte_In in H; simpl in H end.
  repeat match goal with H : _ \/ _ |- _ => destruct H as [<-|H] end; done.
Qed.

Lemma telegram_prefix tok : Matches telegramBotTokenRe tok -> at_is tok 0 isASCIIDigit = true.
Proof.
  unfold telegramBotTokenRe. intros (u & v & -> & H & _)%Matches_cat.
  inversion H as [|? ? ? ? H1 H2 H3| | |]; subst. destruct u as [|c u]; [simpl in H1; lia|].
  apply Forall_cons in H3 as [? _]. done.
Qed.

Lemma first_rule_spec rules tok :
  (forall r, In r rules -> Matches (re r) tok -> existsb (HasPrefix tok) (prefix r) = true) ->
  (forall r, In r rules -> is_empty (label r) = false) ->
  (is_empty (first_rule rules tok) = false <-> exists r, In r rules /\ Matches (re r) tok) /\
  (is_empty (first_rule rules tok) = false ->
   exists r, In r rules /\ Matches (re r) tok /\ first_rule rules tok = label r).
Proof.
  induction rules as [|r rs IH]; intros Hp Hl; simpl; [naive_solver|].
  destruct IH as [IH1 IH2]; [intros; apply Hp; simpl; auto..|intros; apply Hl; simpl; auto|].
  destruct (existsb (HasPrefix tok) (prefix r) && match_full (re r) tok) eqn:E.
  - boolp. apply match_full_spec in H0. rewrite Hl by (simpl; auto). naive_solver.
  - assert (~ Matches (re r) tok) as Hno.
    { intros Hm. rewrite (Hp r), (proj2 (match_full_spec _ _) Hm) in E by (simpl; auto). done. }
    rewrite IH1. naive_solver.
Qed.

Lemma signature_labels_nonempty r : In r signatureRules -> is_empty (label r) = false.
Proof. simpl. intros H. naive_solver. Qed.

(** Exactly the tokens of the patterns' languages are signatures. *)
Lemma matchSignature_found tok :
  (minSignatureLength <= length tok)%nat ->
  is_empty (matchSignature tok) = false <->
  (exists r, In r signatureRules /\ Matches (re r) tok) \/ Matches telegramBotTokenRe tok.
Proof.
  intros Hlen. destruct (first_rule_spec signatureRules tok) as [H1 _];
    [intros; by apply rule_prefix|apply signature_labels_nonempty|].
  unfold matchSignature. rewrite (proj2 (Nat.ltb_ge _ _)) by done.
  set (l := first_rule signatureRules tok) in *. destruct (is_empty l) eqn:El; cbn [negb].
  - destruct (at_is tok 0 isASCIIDigit && match_full telegramBotTokenRe tok) eqn:Et; simpl.
    + boolp. apply match_full_spec in H0. tauto.
    + split; [done|]. intros [H|H]; [by apply H1 in H|].
      rewrite (telegram_prefix _ H), (proj2 (match_full_spec _ _) H) in Et. done.
  - rewrite El, <-H1. tauto.
Qed.

(** The label names a pattern that matches. *)
Lemma matchSignature_sound tok :
  is_empty (matchSignature tok) = false ->
  (exists r, In r signatureRules /\ Matches (re r) tok /\ matchSignature tok = label r) \/
  (Matches telegramBotTokenRe tok /\ matchSignature tok = go "telegram-bot-token").
Proof.
  destruct (first_rule_spec signatureRules tok) as [_ H2];
    [intros; by apply rule_prefix|apply signature_labels_nonempty|].
  unfold matchSignature. destruct (_ <? _)%nat; [done|].
  set (l := first_rule signatureRules tok) in *. destruct (is_empty l) eqn:El; cbn [negb].
  - destruct (at_is tok 0 isASCIIDigit && match_full telegramBotTokenRe tok) eqn:Et; [|done]. intros _.
    boolp. right. split; [by apply match_full_spec|done].
  - intros _. left. by apply H2.
Qed.
