(* ===== verification/KeyMatcher.v ===== *)
(** * The sensitive-key matcher

    [pkg/scanner/keymatcher.go]: an Aho-Corasick automaton over the bytes of the
    sensitive-key entries, compiled to a flat transition table. *)

From Stdlib Require Import ZArith Lia Bool.
From stdpp Require Import base list option sets gmap.
From S2P Require Import Prelude GoStrings.

(** [class] maps a byte to its column (0: in no entry); [next] is the transition
    table, a state being the offset of its row and [None] a missing edge; [hit]
    marks the rows where an entry ends; [always] is set by an empty entry. *)
Record keyMatcher := {
  class : list nat;
  next : list (option nat);
  hit : list bool;
  always : bool;
}.

Definition hasASCIIUpper (s : gostring) : bool := existsb isUpperASCII s.

(** The entries that go into the automaton. *)
Definition matcher_patterns (keys : list gostring) : list gostring :=
  filter (fun k => hasASCIIUpper k = false /\ k <> []) keys.

Definition class_of (cl : list nat) (b : byte) : nat := default O (cl !! Z.to_nat b).

(** One column number per distinct byte, stored as [uint8]. *)
Definition assign_class (acc : list nat * nat) (b : byte) : list nat * nat :=
  let '(cl, n) := acc in
  if (class_of cl b =? 0)%nat
  then (<[Z.to_nat b := (n mod 256)%nat]> cl, S n)
  else (cl, n).

Definition build_classes (pats : list gostring) : list nat * nat :=
  foldl assign_class (replicate 256 O, 1%nat) (concat pats).

(** The table under construction: [next] and [hit]. *)
Definition table : Type := list (option nat) * list bool.

Definition newState (n : nat) (t : table) : table :=
  (fst t ++ replicate n None, snd t ++ replicate n false).

Definition edge (t : table) (s c : nat) : option nat := default None (fst t !! (s + c)%nat).
Definition hit_at (t : table) (s : nat) : bool := default false (snd t !! s).

Definition set_edge (t : table) (s c : nat) (v : nat) : table :=
  (<[(s + c)%nat := Some v]> (fst t), snd t).
Definition set_hit (t : table) (s : nat) (b : bool) : table := (fst t, <[s := b]> (snd t)).

(** Walk a pattern from state [s], adding the missing states. *)
Fixpoint insert_pattern (cl : list nat) (n : nat) (t : table) (s : nat) (p : gostring) : table :=
  match p with
  | [] => set_hit t s true
  | b :: p' =>
    let c := class_of cl b in
    match edge t s c with
    | Some s' => insert_pattern cl n t s' p'
    | None =>
      let s' := length (fst t) in
      insert_pattern cl n (set_edge (newState n t) s c s') s' p'
    end
  end.

(** The root's row: a missing edge stays at the root, a child is queued with the
    root as its suffix link. *)
Definition root_step (acc : table * gmap nat nat * list nat) (c : nat) :
    table * gmap nat nat * list nat :=
  let '(t, fail, queue) := acc in
  match edge t 0 c with
  | None => (set_edge t 0 c 0, fail, queue)
  | Some s => (t, <[s := O]> fail, queue ++ [s])
  end.

(** One cell of a dequeued row [s] with suffix link [f]. *)
Definition cell_step (s f : nat) (acc : table * gmap nat nat * list nat) (c : nat) :
    table * gmap nat nat * list nat :=
  let '(t, fail, queue) := acc in
  match edge t s c with
  | None => (set_edge t s c (default O (edge t f c)), fail, queue)
  | Some s' => (t, <[s' := default O (edge t f c)]> fail, queue ++ [s'])
  end.

(** The breadth-first pass; [fuel] bounds the number of rows. *)
Fixpoint bfs (fuel n : nat) (t : table) (fail : gmap nat nat) (queue : list nat) : table :=
  match fuel, queue with
  | S f, s :: rest =>
    let fs := default O (fail !! s) in
    let t1 := set_hit t s (hit_at t s || hit_at t fs) in
    let '(t2, fail2, queue2) := foldl (cell_step s fs) (t1, fail, rest) (seq 0 n) in
    bfs f n t2 fail2 queue2
  | _, _ => t
  end.

(** [newKeyMatcher]. *)
Definition newKeyMatcher (keys : list gostring) : keyMatcher :=
  let pats := matcher_patterns keys in
  let '(cl, n) := build_classes pats in
  let trie := foldl (fun t p => insert_pattern cl n t 0 p) (newState n ([], [])) pats in
  let '(t, fail, queue) := foldl root_step (trie, ∅, []) (seq 0 n) in
  let done_ := bfs (length (fst trie)) n t fail queue in
  {| class := cl; next := fst done_; hit := snd done_;
     always := existsb (fun k => negb (hasASCIIUpper k) && is_empty k) keys |}.

(** [walk] on lowered bytes, from state [s]. *)
Fixpoint walk_from (m : keyMatcher) (s : nat) (w : gostring) : bool :=
  match w with
  | [] => false
  | b :: w' =>
    let s' := default O (default None (next m !! (s + class_of (class m) b)%nat)) in
    if default false (hit m !! s') then true else walk_from m s' w'
  end.

Definition walk (m : keyMatcher) (lowered : gostring) : bool := walk_from m 0 lowered.

Section find.
Context `{U : Unicode}.

(** The loop of [find]: an ASCII byte is folded and walked, the first other byte
    sends the whole key through [ToLower].  Returns found and the lowered key. *)
Fixpoint find_from (m : keyMatcher) (key : gostring) (s : nat) (w : gostring) : bool * gostring :=
  match w with
  | [] => (false, [])
  | b :: w' =>
    if RuneSelf <=? b then let lowered := ToLower key in (walk m lowered, lowered)
    else
      let s' := default O (default None (next m !! (s + class_of (class m) (lowerASCIIByte b))%nat)) in
      if default false (hit m !! s') then (true, []) else find_from m key s' w'
  end.

Definition find (m : keyMatcher) (key : gostring) : bool * gostring :=
  if always m then (true, []) else find_from m key 0 key.

End find.

(** [containsFoldPW]: [key[i]|0x20 == 'p' && key[i+1]|0x20 == 'w']. *)
Fixpoint containsFoldPW (key : gostring) : bool :=
  match key with
  | a :: ((b :: _) as t) =>
    ((Z.lor a 32 =? ch "p") && (Z.lor b 32 =? ch "w")) || containsFoldPW t
  | _ => false
  end.

Section runs.
#[local] Existing Instance ascii_unicode.

Example find_abc :
  (fun k => fst (find (newKeyMatcher [go "he"; go "she"; go "his"; go "hers"]) k)) <$>
    [go "ushers"; go "xSHex"; go "hi"; go "hhis"; go "hsi"; []]
  = [true; true; false; true; false; false].
Proof. vm_compute. reflexivity. Qed.

End runs.
