(* ===== verification/KeyMatcherProofs.v ===== *)
(** * The automaton of the key matcher is right

    [newKeyMatcher] builds a trie in a flat table, then completes it breadth first.
    The finished table is the suffix automaton of the entries, so a walk finds
    exactly the keys that contain one. *)

From Stdlib Require Import ZArith Lia Bool.
From stdpp Require Import base list option sets gmap.
From S2P Require Import Prelude GoStrings KeyMatcher.

(** ** The longest suffix that is a node

    The mathematics of the Aho-Corasick construction, without tables: the states
    are the strings of a prefix-closed set, and reading a symbol goes to the
    longest suffix that is a state. *)

Lemma suffix_cons_cases {A} (u w : list A) a : u `suffix_of` a :: w -> u = a :: w \/ u `suffix_of` w.
Proof. intros [[|b k] Hk]; simplify_eq/=; [by left|right; by exists k]. Qed.

Section automaton.
Context (pats strs : list (list nat)).
Context (Hroot : [] ∈ strs) (Hclosed : forall u c, u ++ [c] ∈ strs -> u ∈ strs).

Fixpoint best (w : list nat) : list nat :=
  if decide (w ∈ strs) then w
  else match w with [] => [] | _ :: w' => best w' end.

Lemma best_node w : w ∈ strs -> best w = w.
Proof. destruct w; simpl; intros; by rewrite decide_True. Qed.

Lemma best_cons a w : a :: w ∉ strs -> best (a :: w) = best w.
Proof. intros. simpl. by rewrite decide_False. Qed.

Lemma best_in w : best w ∈ strs.
Proof. induction w as [|a w IH]; simpl; case_decide; done. Qed.

Lemma best_suffix w : best w `suffix_of` w.
Proof.
  induction w as [|a w IH]; simpl; case_decide; try done. by apply suffix_cons_r.
Qed.

Lemma best_length w : (length (best w) <= length w)%nat.
Proof. apply suffix_length, best_suffix. Qed.

Lemma best_max u w : u `suffix_of` w -> u ∈ strs -> u `suffix_of` best w.
Proof.
  intros Hs Hu. induction w as [|a w IH]; simpl; case_decide; try done.
  apply suffix_cons_cases in Hs as [->|Hs]; [done|auto].
Qed.

(** Only the longest suffix of the text matters for the next step. *)
Lemma best_snoc w c : best (w ++ [c]) = best (best w ++ [c]).
Proof.
  induction w as [|a w IH]; [by rewrite (best_node [])|].
  destruct (decide (a :: w ∈ strs)) as [Hin|Hno]; [by rewrite (best_node (a :: w))|].
  rewrite (best_cons a w) by done. simpl app. rewrite best_cons; [done|].
  intros Hin. apply Hno. by apply (Hclosed (a :: w) c).
Qed.

Definition delta (u : list nat) (c : nat) : list nat := best (u ++ [c]).

Lemma delta_run w : foldl delta [] w = best w.
Proof.
  induction w as [|c w IH] using rev_ind; [by rewrite best_node|].
  rewrite foldl_app. simpl. rewrite IH. unfold delta. by rewrite <-best_snoc.
Qed.

(** The edges of the construction: a missing one is taken from the suffix link, and
    the link of a child is one step from the link of its parent. *)
Lemma delta_missing a u c : a :: u ++ [c] ∉ strs -> delta (a :: u) c = delta (best u) c.
Proof. intros. unfold delta. simpl app. rewrite best_cons by done. apply best_snoc. Qed.

Lemma link_child u c : best (u ++ [c]) = delta (best u) c.
Proof. apply best_snoc. Qed.

(** ** Patterns *)

Context (Hpats : forall p, p ∈ pats -> p ∈ strs) (Hne : [] ∉ pats).

(** A pattern ends here. *)
Definition ends (w : list nat) : bool := bool_decide (Exists (fun p => p `suffix_of` w) pats).

Lemma ends_true w : ends w = true <-> exists p, p ∈ pats /\ p `suffix_of` w.
Proof. unfold ends. rewrite bool_decide_eq_true, Exists_exists. done. Qed.

Lemma ends_best w : ends (best w) = ends w.
Proof.
  apply eq_true_iff_eq. rewrite !ends_true. split; intros (p & Hp & Hs); exists p; (split; [done|]).
  - etrans; [done|apply best_suffix].
  - by apply best_max; auto.
Qed.

Lemma ends_nil : ends [] = false.
Proof.
  apply not_true_iff_false. rewrite ends_true. intros (p & Hp & Hs).
  apply suffix_nil_inv in Hs. by subst.
Qed.

(** A pattern ends at a node exactly when it is the node or ends at its link. *)
Lemma ends_link a u : ends (a :: u) = bool_decide (a :: u ∈ pats) || ends (best u).
Proof.
  rewrite ends_best. apply eq_true_iff_eq. rewrite orb_true_iff, bool_decide_eq_true, !ends_true. split.
  - intros (p & Hp & [->|Hs]%suffix_cons_cases); [by left|right; eauto].
  - intros [Hp|(p & Hp & Hs)]; [by exists (a :: u)|exists p; split; [done|by apply suffix_cons_r]].
Qed.

End automaton.

(** ** The construction *)

(** ** Rows and cells *)

Section table.
Context (n : nat) (Hn : (0 < n)%nat).

(** [s] is the offset of the row of the string [u]. *)
Definition node (strs : list (list nat)) (s : nat) (u : list nat) : Prop :=
  exists i, strs !! i = Some u /\ s = (i * n)%nat.

Definition sized (t : table) (strs : list (list nat)) : Prop :=
  length (fst t) = (length strs * n)%nat /\ length (snd t) = (length strs * n)%nat.

Lemma node_in strs s u : node strs s u -> u ∈ strs.
Proof. intros (i & Hi & _). by eapply list_elem_of_lookup_2. Qed.

Lemma node_exists strs u : u ∈ strs -> exists s, node strs s u.
Proof. intros [i Hi]%list_elem_of_lookup_1. by exists (i * n)%nat, i. Qed.

Lemma node_string strs s u u' : node strs s u -> node strs s u' -> u = u'.
Proof. intros (i & Hi & ->) (j & Hj & Hij). apply Nat.mul_cancel_r in Hij; [|lia]. congruence. Qed.

Lemma node_state strs s s' u : NoDup strs -> node strs s u -> node strs s' u -> s = s'.
Proof. intros Hnd (i & Hi & ->) (j & Hj & ->). f_equal. by eapply NoDup_lookup. Qed.

Lemma node_cell strs s u c : node strs s u -> (c < n)%nat -> (s + c < length strs * n)%nat.
Proof. intros (i & Hi & ->) Hc. apply lookup_lt_Some in Hi. nia. Qed.

Lemma cell_inj strs s u c s' u' c' :
  node strs s u -> node strs s' u' -> (c < n)%nat -> (c' < n)%nat -> (s + c = s' + c')%nat -> s = s' /\ c = c'.
Proof.
  intros (i & _ & ->) (j & _ & ->) Hc Hc' He.
  assert (i = j /\ c = c') as [-> ->]; [|done].
  apply (Nat.div_mod_unique n); [done..|lia].
Qed.

Lemma node_app strs v s u : node strs s u -> node (strs ++ [v]) s u.
Proof. intros (i & Hi & ->). exists i. split; [by apply lookup_app_l_Some|done]. Qed.

Lemma node_new strs v : node (strs ++ [v]) (length strs * n) v.
Proof. exists (length strs). split; [|done]. by apply list_lookup_middle. Qed.

Lemma node_app_inv strs v s u :
  node (strs ++ [v]) s u -> node strs s u \/ (s = (length strs * n)%nat /\ u = v).
Proof.
  intros (i & Hi & ->). apply lookup_app_Some in Hi as [Hi|[Hl Hi]]; [left; by exists i|].
  apply list_lookup_singleton_Some in Hi as [Hi ->]. right. split; [|done]. f_equal. lia.
Qed.

(** Reading after writing. *)
Lemma edge_set strs t s u c s' u' c' v :
  sized t strs -> node strs s u -> node strs s' u' -> (c < n)%nat -> (c' < n)%nat ->
  edge (set_edge t s c v) s' c' = if decide (s' = s /\ c' = c) then Some v else edge t s' c'.
Proof.
  intros [Hs _] Hu Hu' Hc Hc'. unfold edge, set_edge. simpl.
  pose proof (node_cell _ _ _ _ Hu Hc) as Hlt. case_decide as Hd.
  - destruct Hd as [-> ->]. by rewrite list_lookup_insert_eq by lia.
  - rewrite list_lookup_insert_ne; [done|]. intros He. apply Hd.
    by apply (cell_inj strs s u c s' u' c') in He as [-> ->].
Qed.

Lemma sized_set_edge t strs s c v : sized t strs -> sized (set_edge t s c v) strs.
Proof. intros [H1 H2]. split; simpl; [by rewrite length_insert|done]. Qed.

Lemma sized_set_hit t strs s b : sized t strs -> sized (set_hit t s b) strs.
Proof. intros [H1 H2]. split; simpl; [done|by rewrite length_insert]. Qed.

Lemma hit_set strs t s u s' b :
  sized t strs -> node strs s u -> hit_at (set_hit t s b) s' = if decide (s' = s) then b else hit_at t s'.
Proof.
  intros [_ Hs] Hu. unfold hit_at, set_hit. simpl. pose proof (node_cell _ _ _ 0 Hu Hn).
  case_decide as Hd; [subst; by rewrite list_lookup_insert_eq by lia|by rewrite list_lookup_insert_ne].
Qed.

Lemma edge_set_hit t s b s' c : edge (set_hit t s b) s' c = edge t s' c.
Proof. done. Qed.

Lemma hit_set_edge t s c v s' : hit_at (set_edge t s c v) s' = hit_at t s'.
Proof. done. Qed.

(** ** The trie *)

(** The nodes are distinct, closed under prefixes, and the root is first. *)
Record nodes_ok (strs : list (list nat)) : Prop := {
  nodes_distinct : NoDup strs;
  nodes_root : strs !! O = Some [];
  nodes_closed u c : u ++ [c] ∈ strs -> u ∈ strs;
  nodes_symbols u c : u ++ [c] ∈ strs -> (c < n)%nat;
}.

(** The edges of a row are the children of its node. *)
Definition trie_row (t : table) (strs : list (list nat)) (s : nat) (u : list nat) : Prop :=
  forall c, (c < n)%nat -> forall s', edge t s c = Some s' <-> node strs s' (u ++ [c]).

Record trie_ok (t : table) (strs inserted : list (list nat)) : Prop := {
  trie_sized : sized t strs;
  trie_nodes : nodes_ok strs;
  trie_edges s u : node strs s u -> trie_row t strs s u;
  trie_hits s u : node strs s u -> hit_at t s = bool_decide (u ∈ inserted);
  trie_inserted u : u ∈ inserted -> u ∈ strs;
}.

Lemma root_node strs : nodes_ok strs -> node strs 0 [].
Proof. intros H. exists O. split; [apply (nodes_root _ H)|done]. Qed.

Lemma trie_empty : trie_ok (newState n ([], [])) [[]] [].
Proof.
  assert (forall k, default None (replicate n (@None nat) !! k) = None) as Hrep.
  { intros k. destruct (replicate n None !! k) as [o|] eqn:Ek; [|done]. by apply lookup_replicate in Ek as [-> _]. }
  split.
  - split; simpl; rewrite length_replicate; lia.
  - split; [apply NoDup_singleton|done| |]; intros u c H; apply list_elem_of_singleton in H; by destruct u.
  - intros s u (i & Hi & ->) c Hc s'. apply list_lookup_singleton_Some in Hi as [-> <-].
    unfold edge. simpl. rewrite Hrep. split; [done|]. intros (j & Hj & _).
    by apply list_lookup_singleton_Some in Hj as [_ Hj].
  - intros s u _. unfold hit_at, newState. cbn [fst snd app]. rewrite bool_decide_eq_false_2 by set_solver.
    destruct (replicate n false !! s) as [b|] eqn:Eb; [|done]. by apply lookup_replicate in Eb as [-> _].
  - set_solver.
Qed.

(** Adding the row of a new child. *)
Lemma nodes_ok_child strs u c :
  nodes_ok strs -> u ∈ strs -> (c < n)%nat -> u ++ [c] ∉ strs -> nodes_ok (strs ++ [u ++ [c]]).
Proof.
  intros [H1 H2 H3 H4] Hu Hc Hno. split.
  - apply NoDup_app. split_and!; [done| |apply NoDup_singleton]. set_solver.
  - by apply lookup_app_l_Some.
  - intros v d. rewrite !elem_of_app, !list_elem_of_singleton. intros [H|H]; [eauto|].
    apply app_inj_tail in H as [-> _]. by left.
  - intros v d. rewrite !elem_of_app, !list_elem_of_singleton. intros [H|H]; [eauto|].
    by apply app_inj_tail in H as [_ ->].
Qed.

Lemma edge_newState t strs s u c :
  sized t strs -> node strs s u -> (c < n)%nat -> edge (newState n t) s c = edge t s c.
Proof.
  intros [Hs _] Hu Hc. unfold edge, newState. simpl. pose proof (node_cell _ _ _ _ Hu Hc).
  by rewrite lookup_app_l by lia.
Qed.

Lemma trie_child t strs ins s u c :
  trie_ok t strs ins -> node strs s u -> (c < n)%nat -> edge t s c = None ->
  trie_ok (set_edge (newState n t) s c (length (fst t))) (strs ++ [u ++ [c]]) ins /\
  node (strs ++ [u ++ [c]]) (length (fst t)) (u ++ [c]).
Proof.
  intros [Hsz Hno Hed Hhit Hins] Hu Hc Hedge. pose proof Hsz as [Hs1 Hs2].
  assert (u ++ [c] ∉ strs) as Hnew.
  { intros [s' Hs']%node_exists. apply (Hed _ _ Hu c Hc) in Hs'. congruence. }
  set (v := u ++ [c]) in *. assert (sized (newState n t) (strs ++ [v])) as Hsz'.
  { split; simpl; rewrite !length_app, length_replicate; simpl; lia. }
  rewrite Hs1. split; [|apply node_new]. split.
  - by apply sized_set_edge.
  - apply nodes_ok_child; [done|by eapply node_in|done|done].
  - intros s0 u0 Hu0 c0 Hc0 s'.
    rewrite (edge_set (strs ++ [v]) _ s u _ s0 u0) by (done || by apply node_app).
    case_decide as Hd.
    + destruct Hd as [-> ->]. assert (u0 = u) as -> by (eapply node_string; [exact Hu0|by apply node_app]).
      split; [intros [= <-]; apply node_new|]. intros Hs'. f_equal.
      eapply node_state; [|apply node_new|exact Hs']. by apply nodes_ok_child; [|eapply node_in|..].
    + apply node_app_inv in Hu0 as [Hu0|[-> ->]].
      * rewrite (edge_newState t strs s0 u0), (Hed _ _ Hu0 c0 Hc0) by done. split; [apply node_app|].
        intros [?|[_ He]]%node_app_inv; [done|]. apply app_inj_tail in He as [<- <-]. exfalso. apply Hd. split; [|done].
        by eapply node_state; [apply nodes_distinct|..].
      * unfold edge, newState. simpl. rewrite lookup_app_r by lia.
        assert (default None (replicate n (@None nat) !! (length strs * n + c0 - length (fst t))%nat) = None) as ->.
        { destruct (replicate _ _ !! _) as [o|] eqn:Eo; [|done]. by apply lookup_replicate in Eo as [-> _]. }
        split; [done|]. intros Hs'%node_in. exfalso. apply elem_of_app in Hs' as [Hs'|Hs'].
        -- apply Hnew. by eapply nodes_closed.
        -- apply list_elem_of_singleton, (f_equal length) in Hs'. rewrite length_app in Hs'. simpl in Hs'. lia.
  - intros s0 u0 Hu0. rewrite hit_set_edge. unfold hit_at, newState. simpl.
    apply node_app_inv in Hu0 as [Hu0|[-> ->]].
    + pose proof (node_cell _ _ _ 0 Hu0 Hn). rewrite lookup_app_l by lia. by apply Hhit.
    + rewrite lookup_app_r by lia. rewrite bool_decide_eq_false_2 by auto.
      destruct (replicate _ _ !! _) as [b|] eqn:Eb; [|done]. by apply lookup_replicate in Eb as [-> _].
  - intros u0 Hu0. apply elem_of_app. left. auto.
Qed.

Context (cl : list nat) (Hcl : forall b, (class_of cl b < n)%nat).

(** A pattern as a string of columns. *)
Definition columns (p : gostring) : list nat := class_of cl <$> p.

Lemma insert_pattern_ok t strs ins s u p :
  trie_ok t strs ins -> node strs s u ->
  exists strs', trie_ok (insert_pattern cl n t s p) strs' (ins ++ [u ++ columns p]).
Proof.
  revert t strs s u. induction p as [|b p IH]; intros t strs s u Ht Hu; cbn [insert_pattern].
  - exists strs. rewrite app_nil_r. destruct Ht as [Hsz Hno Hed Hhit Hins]. split; [by apply sized_set_hit|done|done| |].
    + intros s0 u0 Hu0. rewrite (hit_set strs _ _ u) by done. case_decide as Hd.
      * subst. rewrite (node_string _ _ _ _ Hu0 Hu). rewrite bool_decide_eq_true_2 by set_solver. done.
      * rewrite (Hhit _ _ Hu0). apply bool_decide_ext. rewrite elem_of_app, list_elem_of_singleton.
        split; [by left|]. intros [?| ->]; [done|]. exfalso. apply Hd. by eapply node_state; [apply nodes_distinct|..].
    + intros v Hv. apply elem_of_app in Hv as [Hv|Hv]; [auto|]. apply list_elem_of_singleton in Hv as ->.
      by eapply node_in.
  - replace (u ++ columns (b :: p)) with ((u ++ [class_of cl b]) ++ columns p) by (by rewrite <-app_assoc).
    destruct (edge t s (class_of cl b)) as [s'|] eqn:Ee.
    + eapply IH; [exact Ht|]. by apply (trie_edges _ _ _ Ht s u Hu).
    + destruct (trie_child _ _ _ _ _ _ Ht Hu (Hcl b) Ee) as [Ht' Hu']. by eapply IH.
Qed.

Lemma insert_patterns_ok pats t strs ins :
  trie_ok t strs ins ->
  exists strs', trie_ok (foldl (fun t p => insert_pattern cl n t 0 p) t pats) strs' (ins ++ (columns <$> pats)).
Proof.
  revert t strs ins. induction pats as [|p pats IH]; intros t strs ins Ht; simpl.
  - exists strs. by rewrite app_nil_r.
  - destruct (insert_pattern_ok t strs ins 0 [] p Ht) as [strs' Ht']; [by apply root_node, Ht|].
    simpl in Ht'. destruct (IH _ _ _ Ht') as [strs'' Ht'']. exists strs''. by rewrite <-app_assoc in Ht''.
Qed.

(** ** One row *)

(** The step of both loops over the cells of a row: [g] is what the suffix link
    gives for a column. *)
Definition row_step (s : nat) (g : nat -> nat) (acc : table * gmap nat nat * list nat) (c : nat) :
    table * gmap nat nat * list nat :=
  let '(t, fail, queue) := acc in
  match edge t s c with
  | None => (set_edge t s c (g c), fail, queue)
  | Some s' => (t, <[s' := g c]> fail, queue ++ [s'])
  end.

Context (strs : list (list nat)) (Hnodes : nodes_ok strs).

(** The children of a row, in column order. *)
Definition kids (t : table) (s k : nat) : list nat := omap (edge t s) (seq 0 k).

Lemma kids_S t s k : kids t s (S k) = kids t s k ++ (match edge t s k with Some x => [x] | None => [] end).
Proof. unfold kids. rewrite seq_S, omap_app. simpl. by destruct (edge t s k). Qed.

Lemma kids_elem t s k x : x ∈ kids t s k <-> exists c, (c < k)%nat /\ edge t s c = Some x.
Proof.
  unfold kids. rewrite list_elem_of_omap. setoid_rewrite elem_of_seq. split.
  - intros (c & Hc & He). exists c. split; [lia|done].
  - intros (c & Hc & He). exists c. split; [lia|done].
Qed.

Record row_done (t0 : table) (fail0 : gmap nat nat) (queue0 : list nat) (s : nat) (g : nat -> nat) (k : nat)
    (acc : table * gmap nat nat * list nat) : Prop := {
  rd_sized : sized (acc.1.1) strs;
  rd_edges s' u' c : node strs s' u' -> (c < n)%nat ->
    edge acc.1.1 s' c =
    if decide (s' = s /\ (c < k)%nat) then Some (default (g c) (edge t0 s c)) else edge t0 s' c;
  rd_hits x : hit_at acc.1.1 x = hit_at t0 x;
  rd_queue : acc.2 = queue0 ++ kids t0 s k;
  rd_kid c x : (c < k)%nat -> edge t0 s c = Some x -> acc.1.2 !! x = Some (g c);
  rd_other x : x ∉ kids t0 s k -> acc.1.2 !! x = fail0 !! x;
}.

Lemma row_steps t0 fail0 queue0 s u g k :
  sized t0 strs -> node strs s u -> trie_row t0 strs s u -> (k <= n)%nat ->
  row_done t0 fail0 queue0 s g k (foldl (row_step s g) (t0, fail0, queue0) (seq 0 k)).
Proof.
  intros Hsz Hu Hrow. induction k as [|k IH]; intros Hk.
  - simpl. split; simpl; try done.
    + intros. rewrite decide_False by lia. done.
    + by rewrite app_nil_r.
    + intros. lia.
  - rewrite seq_S, foldl_app. cbn [foldl]. destruct (foldl _ _ _) as [[t fail] queue].
    destruct (IH ltac:(lia)) as [I1 I2 I3 I4 I5 I6]. simpl in *.
    assert (edge t s k = edge t0 s k) as Hek by (rewrite (I2 s u k Hu), decide_False by lia; done).
    rewrite Hek. destruct (edge t0 s k) as [x|] eqn:Ex.
    + split; simpl; [done| |done|by rewrite I4, kids_S, Ex, app_assoc| |].
      * intros s' u' c Hu' Hc. rewrite (I2 s' u' c Hu' Hc). destruct (decide (s' = s /\ (c < S k)%nat)) as [[-> Hc']|Hd].
        -- destruct (decide (c = k)) as [->|]; [rewrite decide_False by lia; by rewrite Ex|by rewrite decide_True by lia].
        -- rewrite decide_False by lia. done.
      * intros c y Hc Hy. destruct (decide (c = k)) as [->|].
        -- rewrite Ex in Hy. simplify_eq. by rewrite lookup_insert_eq.
        -- rewrite lookup_insert_ne; [by apply I5; [lia|]|]. intros ->.
           apply (Hrow c ltac:(lia)) in Hy. apply (Hrow k ltac:(lia)) in Ex.
           pose proof (node_string _ _ _ _ Hy Ex) as He. apply app_inj_tail in He as [_ ?]. lia.
      * intros y Hy. rewrite kids_S, Ex in Hy. rewrite lookup_insert_ne by set_solver. apply I6. set_solver.
    + split; simpl; [by apply sized_set_edge| |done|by rewrite I4, kids_S, Ex, app_nil_r| |].
      * intros s' u' c Hu' Hc. rewrite (edge_set strs _ _ u _ _ u') by (done || lia). case_decide as Hd.
        -- destruct Hd as [-> ->]. rewrite decide_True by lia. by rewrite Ex.
        -- rewrite (I2 s' u' c Hu' Hc). destruct (decide (s' = s /\ (c < k)%nat)) as [[-> ?]|Hd'].
           ++ by rewrite decide_True by lia.
           ++ rewrite decide_False; [done|]. intros [-> Hck]. destruct (decide (c = k)); [tauto|]. apply Hd'. split; [done|lia].
      * intros c y Hc Hy. destruct (decide (c = k)) as [->|]; [congruence|]. apply I5; [lia|done].
      * intros y Hy. apply I6. by rewrite kids_S, Ex, app_nil_r in Hy.
Qed.

(** The loop over a dequeued row is such a loop: it never writes to the row of the
    suffix link. *)
Lemma cell_steps t0 fail0 queue0 s u f uf k :
  sized t0 strs -> node strs s u -> trie_row t0 strs s u -> node strs f uf -> f <> s -> (k <= n)%nat ->
  foldl (cell_step s f) (t0, fail0, queue0) (seq 0 k) =
  foldl (row_step s (fun c => default O (edge t0 f c))) (t0, fail0, queue0) (seq 0 k).
Proof.
  intros Hsz Hu Hrow Hf Hne. induction k as [|k IH]; intros Hk; [done|].
  rewrite seq_S, !foldl_app, IH by lia. cbn [foldl].
  pose proof (row_steps t0 fail0 queue0 s u (fun c => default O (edge t0 f c)) k Hsz Hu Hrow ltac:(lia)) as Hd.
  remember (foldl (row_step s (fun c => default O (edge t0 f c))) (t0, fail0, queue0) (seq 0 k)) as acc.
  destruct acc as [[t fail] queue]. unfold cell_step, row_step. simpl.
  pose proof (rd_edges _ _ _ _ _ _ _ Hd f uf k Hf ltac:(lia)) as He. simpl in He.
  rewrite decide_False in He by tauto. by rewrite He.
Qed.

(** ** Breadth first *)

Context (pats : list (list nat)) (Hpats : forall p, p ∈ pats -> p ∈ strs) (Hne : [] ∉ pats).

Lemma Hroot : [] ∈ strs.
Proof. eapply list_elem_of_lookup_2, nodes_root, Hnodes. Qed.

Let Hclosed := nodes_closed _ Hnodes.

(** A finished row: every column leads to the longest suffix that is a node, and the
    flag says whether an entry ends here. *)
Definition finished (t : table) (s : nat) (u : list nat) : Prop :=
  (forall c, (c < n)%nat -> exists s', edge t s c = Some s' /\ node strs s' (delta strs u c)) /\
  hit_at t s = ends pats u.

Definition untouched (t : table) (s : nat) (u : list nat) : Prop :=
  trie_row t strs s u /\ hit_at t s = bool_decide (u ∈ pats).

(** The invariant of the queue, with the finished nodes [D]. *)
Record bfs_ok (t : table) (fail : gmap nat nat) (queue : list nat) (D : list (list nat)) : Prop := {
  b_sized : sized t strs;
  b_nodup_done : NoDup D;
  b_done_nodes u : u ∈ D -> u ∈ strs;
  b_root : [] ∈ D;
  b_closed u c : u ++ [c] ∈ D -> u ∈ D;
  b_done s u : node strs s u -> u ∈ D -> finished t s u;
  b_todo s u : node strs s u -> u ∉ D -> untouched t s u;
  b_queue s : s ∈ queue -> exists u c f, node strs s (u ++ [c]) /\ u ∈ D /\ u ++ [c] ∉ D /\
    fail !! s = Some f /\ node strs f (best strs (tail (u ++ [c])));
  b_nodup : NoDup queue;
  b_child u c s : u ∈ D -> node strs s (u ++ [c]) -> u ++ [c] ∈ D \/ s ∈ queue;
  b_order q1 s q2 u v : queue = q1 ++ s :: q2 -> node strs s u -> v ∈ strs -> (length v < length u)%nat ->
    v ∈ D \/ exists s', s' ∈ q1 /\ node strs s' v;
}.

Lemma kids_node t s u x : trie_row t strs s u -> x ∈ kids t s n <-> exists c, node strs x (u ++ [c]).
Proof.
  intros Hrow. rewrite kids_elem. split.
  - intros (c & Hc & He). exists c. by apply (Hrow c Hc).
  - intros (c & Hx). assert (c < n)%nat as Hc by (by eapply nodes_symbols, node_in; eauto).
    exists c. split; [done|]. by apply (Hrow c Hc).
Qed.

Lemma kids_nodup t s u k : trie_row t strs s u -> (k <= n)%nat -> NoDup (kids t s k).
Proof.
  intros Hrow. induction k as [|k IH]; intros Hk; [apply NoDup_nil_2|]. rewrite kids_S.
  destruct (edge t s k) as [x|] eqn:Ex; [|rewrite app_nil_r; apply IH; lia].
  apply NoDup_app. split_and!; [apply IH; lia| |apply NoDup_singleton].
  intros y (c & Hc & Hy)%kids_elem Hin. apply list_elem_of_singleton in Hin as ->.
  apply (Hrow c ltac:(lia)) in Hy. apply (Hrow k ltac:(lia)) in Ex.
  pose proof (node_string _ _ _ _ Hy Ex) as He. apply app_inj_tail in He as [_ ?]. lia.
Qed.

(** The root's row. *)
Lemma bfs_start t0 :
  trie_ok t0 strs pats ->
  let '(t, fail, queue) := foldl root_step (t0, ∅, []) (seq 0 n) in bfs_ok t fail queue [[]].
Proof.
  intros [Hsz _ Hed Hhit _]. pose proof (root_node _ Hnodes) as Hr.
  change root_step with (row_step 0 (fun _ => O)).
  pose proof (row_steps t0 ∅ [] 0 [] (fun _ => O) n Hsz Hr (Hed _ _ Hr) ltac:(lia)) as Hrd.
  destruct (foldl _ _ _) as [[t fail] queue]. destruct Hrd as [R1 R2 R3 R4 R5 R6]. simpl in *.
  pose proof (Hed _ _ Hr) as Hrow. assert (forall u, u ∈ [[] : list nat] <-> u = []) as Hone by set_solver.
  split.
  - done.
  - apply NoDup_singleton.
  - intros u ->%Hone. apply Hroot.
  - set_solver.
  - intros u c H%Hone. by destruct u.
  - intros s u Hu ->%Hone. assert (s = O) as -> by (eapply node_state; [apply Hnodes|done..]). split.
    + intros c Hc. rewrite (R2 O [] c Hr Hc), decide_True by done. eexists. split; [done|].
      unfold delta. cbn [app]. destruct (edge t0 0 c) as [x|] eqn:Ex.
      * apply (Hrow c Hc) in Ex. cbn [app default] in *. rewrite best_node; [done|by eapply node_in].
      * cbn [default]. rewrite best_cons, best_node; [done|apply Hroot|]. intros [x Hx]%node_exists.
        apply (Hrow c Hc) in Hx. congruence.
    + rewrite R3, (Hhit _ _ Hr), ends_nil by done. by apply bool_decide_eq_false_2.
  - intros s u Hu Hno. rewrite Hone in Hno. assert (s <> O) as Hs.
    { intros ->. apply Hno. by eapply node_string. }
    split; [|rewrite R3; by apply Hhit]. intros c Hc s'. rewrite (R2 s u c Hu Hc), decide_False by tauto.
    by apply (Hed _ _ Hu).
  - intros s. rewrite R4. intros Hs. pose proof Hs as (c & Hc & He)%kids_elem. exists [], c, O.
    apply (Hrow c Hc) in He as Hx. split_and!; [done|by apply Hone|by intros H%Hone|by eapply R5|].
    cbn [tail app]. rewrite best_node; [done|apply Hroot].
  - rewrite R4. by eapply kids_nodup.
  - intros u c s ->%Hone Hs. right. rewrite R4. apply (kids_node t0 0 []); [done|by exists c].
  - intros q1 s q2 u v Hq Hu Hv Hlen. left. apply Hone. assert (s ∈ kids t0 0 n) as Hk.
    { simpl in R4. rewrite <-R4, Hq. set_solver. }
    apply (kids_node t0 0 [] s) in Hk as [c Hc]; [|done].
    rewrite (node_string _ _ _ _ Hu Hc) in Hlen. simpl in Hlen. destruct v; [done|simpl in Hlen; lia].
Qed.

(** The row at the head of the queue. *)
Lemma bfs_head t fail s rest D :
  bfs_ok t fail (s :: rest) D ->
  exists a u f, node strs s (a :: u) /\ a :: u ∉ D /\ (forall v c, v ++ [c] = a :: u -> v ∈ D) /\
    fail !! s = Some f /\ node strs f (best strs u) /\ best strs u ∈ D /\ f <> s.
Proof.
  intros Hb. destruct (b_queue _ _ _ _ Hb s ltac:(set_solver)) as (v & c & f & Hs & Hv & Hno & Hf & Hnf).
  destruct (v ++ [c]) as [|a u] eqn:Evc; [by destruct v|]. simpl in Hnf.
  assert (best strs u ∈ D) as HD.
  { destruct (b_order _ _ _ _ Hb [] s rest (a :: u) (best strs u)) as [?|(s' & Hs' & _)]; [done..|apply best_in, Hroot| |done|set_solver].
    pose proof (best_length strs u). simpl. lia. }
  exists a, u, f. split_and!; [done|done| |done|done|done|].
  - intros v' c' He. rewrite <-Evc in He. by apply app_inj_tail in He as [-> _].
  - intros ->. apply Hno. by rewrite (node_string _ _ _ _ Hs Hnf).
Qed.

Section step.
Context (t : table) (fail : gmap nat nat) (s : nat) (rest : list nat) (D : list (list nat)).
Context (Hb : bfs_ok t fail (s :: rest) D) (a : nat) (u : list nat) (f : nat).
Context (Hs : node strs s (a :: u)) (HsD : a :: u ∉ D) (Hpar : forall v c, v ++ [c] = a :: u -> v ∈ D).
Context (Hf : node strs f (best strs u)) (HfD : best strs u ∈ D) (Hfs : f <> s).

Let t1 := set_hit t s (hit_at t s || hit_at t f).
Let g c := default O (edge t f c).

Lemma link_edge c : (c < n)%nat -> node strs (g c) (delta strs (best strs u) c).
Proof.
  intros Hc. destruct (b_done _ _ _ _ Hb f _ Hf HfD) as [Hedge _]. destruct (Hedge c Hc) as (x & Hx & Hnx).
  unfold g. by rewrite Hx.
Qed.

Lemma head_row : trie_row t strs s (a :: u) /\ hit_at t s = bool_decide (a :: u ∈ pats).
Proof. by apply (b_todo _ _ _ _ Hb). Qed.

Context (acc : table * gmap nat nat * list nat) (Hacc : row_done t1 fail rest s g n acc).

Lemma step_edges s' u' c :
  node strs s' u' -> (c < n)%nat ->
  edge acc.1.1 s' c = if decide (s' = s) then Some (default (g c) (edge t s c)) else edge t s' c.
Proof.
  intros Hu' Hc. rewrite (rd_edges _ _ _ _ _ _ _ Hacc s' u' c Hu' Hc).
  destruct (decide (s' = s)); [rewrite decide_True by done|rewrite decide_False by tauto]; done.
Qed.

Lemma step_hits s' : hit_at acc.1.1 s' = if decide (s' = s) then hit_at t s || hit_at t f else hit_at t s'.
Proof. rewrite (rd_hits _ _ _ _ _ _ _ Hacc). eapply hit_set; [apply Hb|done]. Qed.

Lemma step_queue : acc.2 = rest ++ kids t s n.
Proof. apply (rd_queue _ _ _ _ _ _ _ Hacc). Qed.

Lemma head_kid x : x ∈ kids t s n <-> exists c, node strs x ((a :: u) ++ [c]).
Proof. apply kids_node, head_row. Qed.

(** A node is not finished before its parent. *)
Lemma kid_not_done c : (a :: u) ++ [c] ∉ D.
Proof. intros H. apply HsD. by eapply b_closed. Qed.

Lemma rest_not_kid x : x ∈ rest -> x ∉ kids t s n.
Proof.
  intros Hx [c Hc]%head_kid. destruct (b_queue _ _ _ _ Hb x ltac:(set_solver)) as (v & d & _ & Hv & HvD & _).
  pose proof (node_string _ _ _ _ Hv Hc) as He. apply app_inj_tail in He as [-> _]. done.
Qed.

Lemma step_finished s' u' : node strs s' u' -> u' ∈ (a :: u) :: D -> finished acc.1.1 s' u'.
Proof.
  intros Hu' [->|HD]%elem_of_cons.
  - assert (s' = s) as -> by (eapply node_state; [apply Hnodes|done..]). destruct head_row as [Hrow Hhit]. split.
    + intros c Hc. rewrite (step_edges s (a :: u) c Hs Hc), decide_True by done. eexists. split; [done|].
      destruct (edge t s c) as [x|] eqn:Ex; cbn [default].
      * apply (Hrow c Hc) in Ex. unfold delta. rewrite best_node; [done|by eapply node_in].
      * rewrite delta_missing; [by apply link_edge|apply Hroot|done|].
        intros [x Hx]%node_exists. apply (Hrow c Hc) in Hx. congruence.
    + rewrite step_hits, decide_True, Hhit by done. rewrite ends_link with (strs := strs) by (done || apply Hroot).
      destruct (b_done _ _ _ _ Hb f _ Hf HfD) as [_ ->]. done.
  - assert (s' <> s) as Hss by (intros ->; apply HsD; by rewrite (node_string _ _ _ _ Hs Hu')).
    destruct (b_done _ _ _ _ Hb s' u' Hu' HD) as [Hedge Hhit]. split.
    + intros c Hc. rewrite (step_edges s' u' c Hu' Hc), decide_False by done. by apply Hedge.
    + by rewrite step_hits, decide_False.
Qed.

Lemma step_untouched s' u' : node strs s' u' -> u' ∉ (a :: u) :: D -> untouched acc.1.1 s' u'.
Proof.
  intros Hu' Hno. apply not_elem_of_cons in Hno as [Hneq Hno].
  assert (s' <> s) as Hss by (intros ->; apply Hneq; by eapply node_string).
  destruct (b_todo _ _ _ _ Hb s' u' Hu' Hno) as [Hrow Hhit]. split.
  - intros c Hc x. rewrite (step_edges s' u' c Hu' Hc), decide_False by done. by apply Hrow.
  - by rewrite step_hits, decide_False.
Qed.

Lemma step_links x :
  x ∈ acc.2 -> exists v c f', node strs x (v ++ [c]) /\ v ∈ (a :: u) :: D /\ v ++ [c] ∉ (a :: u) :: D /\
    acc.1.2 !! x = Some f' /\ node strs f' (best strs (tail (v ++ [c]))).
Proof.
  rewrite step_queue. intros [Hx|Hx]%elem_of_app.
  - destruct (b_queue _ _ _ _ Hb x ltac:(set_solver)) as (v & c & f' & H1 & H2 & H3 & H4 & H5).
    exists v, c, f'. split_and!; [done|set_solver| | |done].
    + intros [He|?]%elem_of_cons; [|done]. rewrite He in H1. rewrite (node_state _ _ _ _ (nodes_distinct _ Hnodes) H1 Hs) in Hx.
      pose proof (b_nodup _ _ _ _ Hb) as Hnd. by apply NoDup_cons in Hnd as [? _].
    + rewrite (rd_other _ _ _ _ _ _ _ Hacc); [done|]. by apply rest_not_kid.
  - pose proof Hx as (c & Hc & He)%kids_elem. apply (proj1 head_row c Hc) in He as Hnx.
    exists (a :: u), c, (g c). split_and!; [done|set_solver| |by eapply rd_kid|].
    + intros [Heq|?]%elem_of_cons; [|by eapply kid_not_done].
      apply (f_equal length) in Heq. rewrite length_app in Heq. simpl in Heq. lia.
    + cbn [tail app]. rewrite link_child by (done || apply Hroot). by apply link_edge.
Qed.

Lemma step_children v c x :
  v ∈ (a :: u) :: D -> node strs x (v ++ [c]) -> v ++ [c] ∈ (a :: u) :: D \/ x ∈ acc.2.
Proof.
  rewrite step_queue. intros [->|Hv]%elem_of_cons Hx.
  - right. apply elem_of_app. right. apply head_kid. by exists c.
  - destruct (b_child _ _ _ _ Hb v c x Hv Hx) as [?|[->|?]%elem_of_cons]; [left; set_solver| |right; set_solver].
    left. rewrite (node_string _ _ _ _ Hx Hs). set_solver.
Qed.

(** Every shorter node is finished or in the queue. *)
Lemma shorter_known v :
  v ∈ strs -> (length v <= length (a :: u))%nat -> v ∈ (a :: u) :: D \/ exists x, x ∈ rest /\ node strs x v.
Proof.
  intros Hv Hlen. destruct v as [|c v _] using rev_ind; [left; apply list_elem_of_further, Hb|].
  assert (v ∈ D) as HvD.
  { rewrite length_app in Hlen. simpl in Hlen.
    destruct (b_order _ _ _ _ Hb [] s rest (a :: u) v) as [?|(x & Hx & _)]; [done|done| |simpl; lia|done|set_solver].
    by eapply nodes_closed. }
  apply node_exists in Hv as [x Hx]. destruct (b_child _ _ _ _ Hb v c x HvD Hx) as [?|[->|?]%elem_of_cons].
  - left. set_solver.
  - left. rewrite (node_string _ _ _ _ Hx Hs). set_solver.
  - right. eauto.
Qed.

Lemma step_order q1 x q2 w v :
  acc.2 = q1 ++ x :: q2 -> node strs x w -> v ∈ strs -> (length v < length w)%nat ->
  v ∈ (a :: u) :: D \/ exists x', x' ∈ q1 /\ node strs x' v.
Proof.
  rewrite step_queue. intros Hq Hx Hv Hlen.
  apply app_eq_app in Hq as (l & [[Hr Hk]|[Hq Hk]]).
  - destruct l as [|y l].
    + rewrite app_nil_r in Hr. subst q1. assert (x ∈ kids t s n) as [c Hc]%head_kid by (simpl in Hk; rewrite <-Hk; set_solver).
      rewrite (node_string _ _ _ _ Hx Hc) in Hlen. rewrite length_app in Hlen. simpl in Hlen.
      destruct (shorter_known v Hv) as [?|(x' & ? & ?)]; [simpl; lia|by left|right; eauto].
    + simpl in Hk. injection Hk as <- _.
      destruct (b_order _ _ _ _ Hb (s :: q1) x l w v) as [?|(x' & [->|?]%elem_of_cons & Hx')];
        [by rewrite Hr|done|done|done|left; set_solver| |right; eauto].
      left. rewrite (node_string _ _ _ _ Hx' Hs). set_solver.
  - subst q1. assert (x ∈ kids t s n) as [c Hc]%head_kid by (rewrite Hk; set_solver).
    rewrite (node_string _ _ _ _ Hx Hc) in Hlen. rewrite length_app in Hlen. simpl in Hlen.
    destruct (shorter_known v Hv) as [?|(x' & ? & ?)]; [simpl; lia|by left|right; exists x'; set_solver].
Qed.

Lemma bfs_step : bfs_ok acc.1.1 acc.1.2 acc.2 ((a :: u) :: D).
Proof.
  pose proof (b_nodup _ _ _ _ Hb) as Hnd. apply NoDup_cons in Hnd as [_ Hnd].
  split; auto using step_finished, step_untouched, step_links, step_children.
  - apply Hacc.
  - apply NoDup_cons. split; [done|apply Hb].
  - intros v [->|Hv]%elem_of_cons; [by eapply node_in|by apply Hb].
  - apply list_elem_of_further, Hb.
  - intros v c [He|Hv]%elem_of_cons; [apply list_elem_of_further; by eapply Hpar|].
    apply list_elem_of_further. by eapply b_closed.
  - rewrite step_queue. apply NoDup_app. split_and!; [done|apply rest_not_kid|].
    eapply kids_nodup; [apply head_row|lia].
  - apply step_order.
Qed.

End step.

(** Enough fuel for every row: the queue runs empty. *)
Lemma bfs_run fuel t fail queue D :
  bfs_ok t fail queue D -> (length strs <= fuel + length D)%nat ->
  exists fail' D', bfs_ok (bfs fuel n t fail queue) fail' [] D'.
Proof.
  revert t fail queue D. induction fuel as [|k IH]; intros t fail queue D Hb Hfuel.
  - destruct queue as [|s rest]; [by exists fail, D|]. exfalso.
    destruct (bfs_head _ _ _ _ _ Hb) as (a & u & f & Hs & HsD & _).
    assert (NoDup ((a :: u) :: D)) as Hnd by (apply NoDup_cons; split; [done|apply Hb]).
    apply (NoDup_submseteq _ strs) in Hnd; [apply submseteq_length in Hnd; simpl in *; lia|].
    intros v [->|Hv]%elem_of_cons; [by eapply node_in|by apply Hb].
  - destruct queue as [|s rest]; [by exists fail, D|]. cbn [bfs].
    destruct (bfs_head _ _ _ _ _ Hb) as (a & u & f & Hs & HsD & Hpar & Hfail & Hf & HfD & Hfs).
    rewrite Hfail. cbn [default].
    set (t1 := set_hit t s (hit_at t s || hit_at t f)).
    assert (trie_row t1 strs s (a :: u)) as Hrow by (by apply (b_todo _ _ _ _ Hb)).
    assert (sized t1 strs) as Hsz by (apply sized_set_hit, Hb).
    rewrite (cell_steps t1 fail rest s (a :: u) f (best strs u)) by (done || lia).
    pose proof (row_steps t1 fail rest s (a :: u) (fun c => default O (edge t1 f c)) n Hsz Hs Hrow ltac:(lia)) as Hrd.
    pose proof (bfs_step t fail s rest D Hb a u f Hs HsD Hpar Hf HfD Hfs _ Hrd) as Hb'.
    destruct (foldl _ _ _) as [[t2 fail2] queue2]. apply (IH _ _ _ _ Hb'). simpl. lia.
Qed.

(** When the queue is empty every row is finished. *)
Lemma bfs_all t fail D s u : bfs_ok t fail [] D -> node strs s u -> finished t s u.
Proof.
  intros Hb Hu. apply (b_done _ _ _ _ Hb); [done|]. apply node_in in Hu. clear s.
  induction u as [|c u IH] using rev_ind; [apply Hb|].
  apply node_exists in Hu as [x Hx]. pose proof (node_in _ _ _ Hx) as Hin.
  destruct (b_child _ _ _ _ Hb u c x) as [?|?]; [by eauto using nodes_closed|done|done|set_solver].
Qed.

(** ** Walking the finished table *)

Context (m : keyMatcher) (Hclass : class m = cl).
Context (Hdone : forall s u, node strs s u -> finished (next m, hit m) s u).

Lemma walk_step s w b :
  node strs s (best strs w) ->
  node strs (default O (default None (next m !! (s + class_of cl b)%nat))) (best strs (w ++ [class_of cl b])).
Proof.
  intros Hs. destruct (Hdone _ _ Hs) as [Hedge _]. destruct (Hedge (class_of cl b) (Hcl b)) as (s' & He & Hs').
  unfold edge in He. simpl in He. rewrite He. simpl default. by rewrite best_snoc by (done || apply Hroot).
Qed.

(** A walk from the state of the text [w0] finds an entry that ends in what it reads. *)
Lemma walk_from_spec s w0 w :
  node strs s (best strs w0) ->
  walk_from m s w = true <-> exists k, (0 < k <= length w)%nat /\ ends pats (w0 ++ take k (columns w)) = true.
Proof.
  revert s w0. induction w as [|b w IH]; intros s w0 Hs; cbn [walk_from].
  - split; [done|]. intros (k & Hk & _). simpl in Hk. lia.
  - rewrite Hclass. pose proof (walk_step s w0 b Hs) as Hs'. set (s' := default O _) in *.
    destruct (Hdone _ _ Hs') as [_ Hhit]. unfold hit_at in Hhit. simpl in Hhit.
    rewrite ends_best in Hhit by (done || apply Hroot). rewrite Hhit.
    destruct (ends pats (w0 ++ [class_of cl b])) eqn:Ee.
    + split; [intros _|done]. exists 1%nat. split; [simpl; lia|done].
    + rewrite (IH s' (w0 ++ [class_of cl b]) Hs'). split.
      * intros (k & Hk & He). exists (S k). split; [simpl; lia|]. simpl. by rewrite <-app_assoc in He.
      * intros (k & Hk & He). destruct k as [|[|k]]; [lia|change (ends pats (w0 ++ [class_of cl b]) = true) in He; congruence|].
        exists (S k). split; [simpl in *; lia|]. rewrite <-app_assoc. exact He.
Qed.

(** The text contains an entry, as strings of columns. *)
Lemma walk_spec w :
  walk m w = true <-> exists p u v, p ∈ pats /\ columns w = u ++ p ++ v.
Proof.
  unfold walk. rewrite (walk_from_spec 0 []).
  2: { rewrite best_node; [by apply root_node|apply Hroot]. }
  split.
  - intros (k & Hk & (p & Hp & [u Hu])%ends_true). exists p, u, (drop k (columns w)). split; [done|].
    simpl in Hu. by rewrite app_assoc, <-Hu, take_drop.
  - intros (p & u & v & Hp & He). exists (length (u ++ p)). split.
    + assert (p <> []) by (intros ->; done). assert (length (columns w) = length (u ++ p ++ v)) as Hl by (by rewrite He).
      unfold columns in Hl. rewrite length_fmap, !length_app in Hl. rewrite length_app.
      destruct p; [done|simpl in *; lia].
    + apply ends_true. exists p. split; [done|]. simpl. rewrite He, app_assoc, take_app_length.
      by apply suffix_app_r.
Qed.

End table.

(** ** Row offsets

    The code keeps offsets as [int32].  All of them are below the length of the table, which is at most one row per
    byte of the entries and one for the root: where that is below 2^31 no offset is cut. *)

Definition offsets_ok (bound : nat) (t : table) : Prop :=
  (0 < length (fst t) <= bound)%nat /\ Forall (fun o => forall v, o = Some v -> (v < length (fst t))%nat) (fst t).

Lemma offsets_edge bound t s c : offsets_ok bound t -> (default O (edge t s c) < length (fst t))%nat.
Proof.
  intros [H0 Ht]. unfold edge. destruct (fst t !! _) as [o|] eqn:E; cbn; [|lia]. rewrite Forall_lookup in Ht.
  destruct o as [v|]; cbn; [by eapply Ht|lia].
Qed.

Lemma offsets_set_edge bound t s c v : offsets_ok bound t -> (v < length (fst t))%nat -> offsets_ok bound (set_edge t s c v).
Proof.
  intros [H0 Ht] Hv. unfold offsets_ok, set_edge. cbn [fst]. rewrite length_insert. split; [done|].
  apply Forall_insert; [done|]. by intros ? [= <-].
Qed.

Lemma insert_pattern_offsets cl n bound t s p :
  (0 < n)%nat -> offsets_ok bound t -> (length (fst t) + n * length p <= bound)%nat ->
  offsets_ok bound (insert_pattern cl n t s p) /\ (length (fst (insert_pattern cl n t s p)) <= length (fst t) + n * length p)%nat.
Proof.
  intros Hn. revert t s. induction p as [|b p IH]; intros t s Ht Hb; cbn [insert_pattern length] in *; [split; [done|cbn; lia]|].
  destruct (edge t s _) as [s'|]; [destruct (IH t s') as [? ?]; [done|lia|]; split; [done|lia]|].
  assert (length (fst (newState n t)) = length (fst t) + n)%nat as Hl by (cbn; by rewrite length_app, length_replicate).
  destruct (IH (set_edge (newState n t) s (class_of cl b) (length (fst t))) (length (fst t))) as [H1 H2].
  - apply offsets_set_edge; [|lia]. destruct Ht as [H0 Hf]. split; [lia|]. rewrite Hl. cbn. apply Forall_app. split.
    + eapply Forall_impl; [exact Hf|]. cbn. intros o Ho v Hv%Ho. lia.
    + apply Forall_replicate. done.
  - cbn. rewrite length_insert. cbn in Hl. lia.
  - split; [done|]. cbn in H2 |- *. rewrite length_insert in H2. cbn in Hl. lia.
Qed.

Lemma insert_patterns_offsets cl n pats bound t :
  (0 < n)%nat -> offsets_ok bound t -> (length (fst t) + n * length (concat pats) <= bound)%nat ->
  offsets_ok bound (foldl (fun t p => insert_pattern cl n t 0 p) t pats).
Proof.
  intros Hn. revert t. induction pats as [|p pats IH]; intros t Ht Hb; [done|]. cbn [foldl concat] in *. rewrite length_app in Hb.
  destruct (insert_pattern_offsets cl n bound t 0 p Hn Ht) as [H1 H2]; [lia|]. apply IH; [done|lia].
Qed.

Lemma step_offsets bound (step : table * gmap nat nat * list nat -> nat -> table * gmap nat nat * list nat) acc cs :
  (forall acc c, offsets_ok bound acc.1.1 -> offsets_ok bound (step acc c).1.1) ->
  offsets_ok bound acc.1.1 -> offsets_ok bound (foldl step acc cs).1.1.
Proof. intros Hs. revert acc. induction cs as [|c cs IH]; intros acc Ha; [done|]. cbn. apply IH. by apply Hs. Qed.

Lemma bfs_offsets bound fuel n t fail queue : offsets_ok bound t -> offsets_ok bound (bfs fuel n t fail queue).
Proof.
  revert t fail queue. induction fuel as [|f IH]; intros t fail queue Ht; [done|]. destruct queue as [|s rest]; [done|]. cbn [bfs].
  set (fs := default O (fail !! s)). set (acc := (set_hit t s _, fail, rest)).
  pose proof (step_offsets bound (cell_step s fs) acc (seq 0 n)) as Hstep. destruct (foldl _ _ _) as [[t2 fail2] queue2]. apply IH, Hstep; [|done].
  intros [[t1 fl] q] c. cbn. intros H1. pose proof (offsets_edge bound t1 fs c H1). destruct (edge t1 s c); [done|]. by apply offsets_set_edge.
Qed.

Lemma newKeyMatcher_offsets keys :
  let n := (build_classes (matcher_patterns keys)).2 in
  let bound := (n * S (length (concat (matcher_patterns keys))))%nat in
  let m := newKeyMatcher keys in
  (0 < n)%nat -> (length (next m) <= bound)%nat /\ forall i v, next m !! i = Some (Some v) -> (v < bound)%nat.
Proof.
  unfold newKeyMatcher. destruct (build_classes _) as [cl n]. cbn [snd]. intros Hn.
  set (pats := matcher_patterns keys). set (bound := (n * S (length (concat pats)))%nat).
  set (trie := foldl _ _ pats). assert (offsets_ok bound trie) as Ht.
  { assert (length (fst (newState n ([], []))) = n) as Hl by (cbn; by rewrite length_replicate).
    apply insert_patterns_offsets; [done| |rewrite Hl; unfold bound; lia].
    split; [rewrite Hl; unfold bound; lia|]. cbn. by apply Forall_replicate. }
  pose proof (step_offsets bound root_step (trie, ∅, []) (seq 0 n)) as Hr. destruct (foldl root_step _ _) as [[t fail] queue]. cbn [next].
  destruct (bfs_offsets bound (length (fst trie)) n t fail queue) as [[_ Hl] Hf].
  - apply Hr; [|done]. intros [[t1 fl] q] c. cbn. intros H1. destruct (edge t1 0 c); [done|]. apply offsets_set_edge; [done|apply H1].
  - split; [done|]. intros i v Hv. rewrite Forall_lookup in Hf. specialize (Hf _ _ Hv v eq_refl). lia.
Qed.
