(* ===== verification/KeyMatcherFind.v ===== *)
(** * What the key matcher finds

    The column numbers of the bytes, the matcher that [newKeyMatcher] builds, and
    [find]: a key is found exactly when its lower-case form contains an entry. *)

From Stdlib Require Import ZArith Lia Bool.
From stdpp Require Import base list option sets gmap.
From S2P Require Import Prelude GoStrings KeyMatcher KeyMatcherProofs.

Definition is_byte (b : byte) : Prop := 0 <= b < 256.

(** ** Columns *)

(** [seen] are the bytes with a column so far, in order: the [i]-th has column [S i]. *)
Record classes_ok (cl : list nat) (n : nat) (seen : list byte) : Prop := {
  cls_length : length cl = 256%nat;
  cls_next : n = S (length seen);
  cls_seen i b : seen !! i = Some b -> class_of cl b = S i;
  cls_unseen b : is_byte b -> b ∉ seen -> class_of cl b = O;
  cls_bound k v : cl !! k = Some v -> (v < n)%nat;
  cls_nodup : NoDup seen;
  cls_bytes b : b ∈ seen -> is_byte b /\ isUpperASCII b = false;
}.

(** At most 230 bytes are not upper-case letters, so a column fits into a byte. *)
Definition plain_bytes : list byte := filter (fun b => isUpperASCII b = false) (Z.of_nat <$> seq 0 256).

Lemma seen_bound cl n seen : classes_ok cl n seen -> (length seen <= 230)%nat.
Proof.
  intros H. change 230%nat with (length plain_bytes). apply submseteq_length, NoDup_submseteq; [apply H|].
  intros b Hb. apply (cls_bytes _ _ _ H) in Hb as [Hr Hu]. apply list_elem_of_filter. split; [done|].
  apply list_elem_of_fmap. exists (Z.to_nat b). unfold is_byte in Hr. split; [lia|]. apply elem_of_seq. lia.
Qed.

Lemma classes_start : classes_ok (replicate 256 O) 1 [].
Proof.
  assert (forall k, default O (replicate 256 O !! k) = O) as Hrep.
  { intros k. destruct (replicate 256 O !! k) as [v|] eqn:E; [|done]. by apply lookup_replicate in E as [-> _]. }
  split; try done.
  - intros b _ _. apply Hrep.
  - intros k v [-> _]%lookup_replicate. simpl. lia.
  - apply NoDup_nil_2.
  - set_solver.
Qed.

Lemma assign_class_ok cl n seen b :
  classes_ok cl n seen -> is_byte b -> isUpperASCII b = false ->
  exists seen', classes_ok (assign_class (cl, n) b).1 (assign_class (cl, n) b).2 seen' /\
    (forall x, x ∈ seen' <-> x ∈ seen \/ x = b).
Proof.
  intros H Hb Hu. pose proof (seen_bound _ _ _ H) as Hbound. pose proof H as [H1 H2 H3 H4 H5 H6 H7]. unfold assign_class.
  destruct (class_of cl b =? 0)%nat eqn:E; boolp; cbn [fst snd].
  - assert (b ∉ seen) as Hno.
    { intros [i Hi]%list_elem_of_lookup_1. apply H3 in Hi. lia. }
    rewrite Nat.mod_small by lia. unfold is_byte in Hb.
    assert (forall x, is_byte x -> class_of (<[Z.to_nat b := n]> cl) x = if decide (x = b) then n else class_of cl x) as Hset.
    { intros x Hx. unfold class_of, is_byte in *. case_decide as Hd.
      - subst. rewrite list_lookup_insert_eq by lia. done.
      - rewrite list_lookup_insert_ne by lia. done. }
    exists (seen ++ [b]). split; [|set_solver]. split.
    + by rewrite length_insert.
    + rewrite length_app. simpl. lia.
    + intros i x Hi. rewrite lookup_app_Some in Hi.
      assert (is_byte x /\ (seen !! i = Some x \/ (i = length seen /\ x = b))) as [Hx Hcases].
      { destruct Hi as [Hi|[Hl Hi]].
        - split; [apply H7; by eapply list_elem_of_lookup_2|by left].
        - apply list_lookup_singleton_Some in Hi as [Hi <-]. split; [done|]. right. split; [lia|done]. }
      rewrite Hset by done. destruct Hcases as [Hi'|[-> ->]].
      * rewrite decide_False; [by apply H3|]. intros ->. apply Hno. by eapply list_elem_of_lookup_2.
      * rewrite decide_True by done. lia.
    + intros x Hx Hnx. rewrite Hset by done. rewrite decide_False by set_solver. apply H4; [done|set_solver].
    + intros k v Hk. destruct (decide (k = Z.to_nat b)) as [->|Hk'].
      * rewrite list_lookup_insert_eq in Hk by lia. simplify_eq. lia.
      * rewrite list_lookup_insert_ne in Hk by done. apply H5 in Hk. lia.
    + apply NoDup_app. split_and!; [done|set_solver|apply NoDup_singleton].
    + intros x [Hx|Hx]%elem_of_app; [by apply H7|]. apply list_elem_of_singleton in Hx as ->. done.
  - exists seen. split; [done|]. intros x. split; [by left|]. intros [?| ->]; [done|].
    destruct (decide (b ∈ seen)) as [|Hno]; [done|]. apply H4 in Hno; [lia|done].
Qed.

Lemma build_classes_ok bytes cl n seen :
  classes_ok cl n seen -> Forall (fun b => is_byte b /\ isUpperASCII b = false) bytes ->
  exists seen', classes_ok (foldl assign_class (cl, n) bytes).1 (foldl assign_class (cl, n) bytes).2 seen' /\
    (forall x, x ∈ seen' <-> x ∈ seen \/ x ∈ bytes).
Proof.
  intros H Hall. revert cl n seen H. induction Hall as [|b bytes [Hb Hu] Hall IH]; intros cl n seen H.
  - exists seen. split; [done|set_solver].
  - cbn [foldl]. destruct (assign_class_ok cl n seen b H Hb Hu) as (seen1 & H1 & Hs1).
    destruct (assign_class (cl, n) b) as [cl1 n1]. simpl in H1.
    destruct (IH cl1 n1 seen1 H1) as (seen2 & H2 & Hs2). exists seen2. split; [done|]. set_solver.
Qed.

(** A byte with a column is the only one in it. *)
Lemma class_inj cl n seen b b' :
  classes_ok cl n seen -> b ∈ seen -> is_byte b' -> class_of cl b = class_of cl b' -> b = b'.
Proof.
  intros H [i Hi]%list_elem_of_lookup_1 Hb' He. rewrite (cls_seen _ _ _ H i b Hi) in He.
  destruct (decide (b' ∈ seen)) as [[j Hj]%list_elem_of_lookup_1|Hno].
  - rewrite (cls_seen _ _ _ H j b' Hj) in He. simplify_eq. congruence.
  - rewrite (cls_unseen _ _ _ H b' Hb' Hno) in He. lia.
Qed.

Lemma class_lt cl n seen b : classes_ok cl n seen -> (class_of cl b < n)%nat.
Proof.
  intros H. unfold class_of. destruct (cl !! Z.to_nat b) as [v|] eqn:Ev; simpl.
  - by eapply cls_bound.
  - rewrite (cls_next _ _ _ H). lia.
Qed.

Lemma columns_inj cl n seen p w :
  classes_ok cl n seen -> Forall (.∈ seen) p -> Forall is_byte w -> columns cl w = columns cl p -> w = p.
Proof.
  intros H Hp. revert w. induction Hp as [|b p Hb Hp IH]; intros w Hw He.
  - unfold columns in He. by apply fmap_nil_inv in He.
  - destruct w as [|b' w]; [done|]. apply Forall_cons in Hw as [Hb' Hw]. simpl in He. injection He as He1 He2.
    f_equal; [symmetry; by eapply class_inj|by apply IH].
Qed.

(** ** The matcher *)

(** The entries of the automaton: no upper-case letter, not empty. *)
Lemma matcher_patterns_elem keys p :
  p ∈ matcher_patterns keys <-> p ∈ keys /\ hasASCIIUpper p = false /\ p <> [].
Proof. unfold matcher_patterns. rewrite list_elem_of_filter. tauto. Qed.

Lemma newKeyMatcher_walk keys w :
  Forall (Forall is_byte) keys -> Forall is_byte w ->
  walk (newKeyMatcher keys) w = true <-> exists p, p ∈ matcher_patterns keys /\ Contains w p = true.
Proof.
  intros Hkeys Hw. unfold newKeyMatcher. set (pats := matcher_patterns keys).
  assert (Forall (fun b => is_byte b /\ isUpperASCII b = false) (concat pats)) as Hbytes.
  { apply Forall_concat, Forall_forall. intros p Hp. apply matcher_patterns_elem in Hp as (Hin & Hup & _).
    rewrite Forall_forall in Hkeys. apply Forall_forall. intros b Hb. split; [by eapply Forall_forall; [apply Hkeys|]|].
    apply not_true_iff_false. intros Hu. apply not_true_iff_false in Hup. apply Hup. apply existsb_exists.
    exists b. split; [by apply list_elem_of_In|done]. }
  destruct (build_classes_ok _ _ _ _ classes_start Hbytes) as (seen & Hcls & Hseen).
  fold (build_classes pats) in Hcls. destruct (build_classes pats) as [cl n]. simpl in Hcls.
  assert (0 < n)%nat as Hn by (rewrite (cls_next _ _ _ Hcls); lia).
  pose proof (fun b => class_lt _ _ _ b Hcls) as Hcl.
  destruct (insert_patterns_ok n Hn cl Hcl pats _ _ _ (trie_empty n Hn)) as [strs Htrie]. simpl in Htrie.
  set (trie := foldl _ _ pats) in *. pose proof (trie_nodes _ _ _ _ Htrie) as Hnodes.
  assert ([] ∉ columns cl <$> pats) as Hne.
  { intros (p & Hp & Hin)%list_elem_of_fmap. apply matcher_patterns_elem in Hin as (_ & _ & Hp').
    symmetry in Hp. by apply fmap_nil_inv in Hp. }
  assert (forall p, p ∈ columns cl <$> pats -> p ∈ strs) as Hpats by (apply Htrie).
  pose proof (bfs_start n Hn cl Hcl strs Hnodes (columns cl <$> pats) Hpats Hne trie Htrie) as Hstart.
  destruct (foldl root_step _ _) as [[t fail] queue].
  destruct (bfs_run n Hn cl Hcl strs Hnodes (columns cl <$> pats) Hpats Hne (length (fst trie)) t fail queue [[]] Hstart)
    as (fail' & D' & Hend).
  { rewrite (proj1 (trie_sized _ _ _ _ Htrie)). simpl. nia. }
  rewrite (walk_spec n Hn cl Hcl strs Hnodes (columns cl <$> pats) Hpats Hne); [|done|].
  2: { intros s u Hu. simpl. rewrite <-surjective_pairing. by eapply bfs_all. }
  split.
  - intros (c & u & v & (p & -> & Hp)%list_elem_of_fmap & He). exists p. split; [done|]. apply Contains_infix.
    unfold columns in He. apply fmap_app_inv in He as (w1 & w2 & _ & Hw2 & ->).
    symmetry in Hw2. apply fmap_app_inv in Hw2 as (w3 & w4 & Hp3 & _ & ->). exists w1, w4.
    apply Forall_app in Hw as [_ [Hw3 _]%Forall_app].
    assert (w3 = p) as ->; [|done]. eapply columns_inj; [exact Hcls| |exact Hw3|by symmetry].
    apply Forall_forall. intros b Hb. apply Hseen. right. apply list_elem_of_In, in_concat. exists p. by rewrite <-!list_elem_of_In.
  - intros (p & Hp & (u & v & ->)%Contains_infix). exists (columns cl p), (columns cl u), (columns cl v).
    split; [by apply list_elem_of_fmap_2|]. unfold columns. by rewrite !fmap_app.
Qed.

(** ** Lowering *)

Lemma EncodeRune_bytes r : Forall is_byte (EncodeRune r).
Proof.
  unfold EncodeRune, RuneErrorBytes, is_byte, between. cases; boolp; repeat constructor; simpl in *; try lia; lia_div.
Qed.

Lemma EncodeRune_single r : 0 <= r < 128 -> EncodeRune r = [r].
Proof. intros. unfold EncodeRune, between. by rewrite (proj2 (Z.leb_le 0 r)), (proj2 (Z.leb_le r 127)) by lia. Qed.

(** Only an upper-case letter is encoded with an upper-case byte. *)
Lemma EncodeRune_upper r b : b ∈ EncodeRune r -> isUpperASCII b = true -> r = b.
Proof.
  intros Hb Hu. unfold isUpperASCII, between in Hu. boolp. revert Hb.
  unfold EncodeRune, RuneErrorBytes, between. cases; boolp; rewrite ?elem_of_cons, ?elem_of_nil; intros; destruct_or?;
    subst; try done; exfalso; simpl in *; try lia; lia_div.
Qed.

Lemma lower_not_upper b : isUpperASCII (lowerASCIIByte b) = false.
Proof.
  unfold lowerASCIIByte, isUpperASCII, between. cases; boolp; try lia.
  all: repeat match goal with H : _ && _ = false |- _ => apply andb_false_iff in H as [H|H] end; boolp;
    apply andb_false_iff; rewrite !Z.leb_gt; lia.
Qed.

Lemma chunks_ascii_app w rest :
  Forall (fun b => b < 128) w -> chunks (w ++ rest) = ((fun c => (c, [c])) <$> w) ++ chunks rest.
Proof.
  induction 1 as [|b w Hb Hw IH]; [done|]. unfold chunks in *. cbn [app chunks_from].
  rewrite DecodeRune_ascii by done. simpl. by rewrite IH.
Qed.

Section find.
Context `{UL : UnicodeLaws}.

Lemma ToLower_prefix w rest :
  Forall (fun b => 0 <= b < 128) w -> exists t, ToLower (w ++ rest) = (lowerASCIIByte <$> w) ++ t.
Proof.
  intros Hw. assert (Forall (fun b => b < 128) w) as Hw' by (eapply Forall_impl; [exact Hw|]; simpl; lia).
  unfold ToLower. destruct (isASCIIString (w ++ rest)); [by rewrite fmap_app; eauto|].
  unfold runes. rewrite chunks_ascii_app by done. rewrite !fmap_app, concat_app. eexists. f_equal. clear Hw'.
  induction Hw as [|b w Hb Hw IH]; [done|]. cbn [fmap list_fmap concat fst].
  rewrite ToLowerRune_ascii, EncodeRune_single by (done || (unfold lowerASCIIByte, between; cases; boolp; lia)).
  simpl. f_equal. exact IH.
Qed.

Lemma ToLower_bytes s : Forall is_byte s -> Forall is_byte (ToLower s).
Proof.
  intros Hs. unfold ToLower. destruct (isASCIIString s) eqn:Ea.
  - apply Forall_fmap. unfold isASCIIString in Ea. rewrite forallb_forall in Ea. apply Forall_forall.
    intros b Hb. rewrite Forall_forall in Hs. specialize (Hs b Hb). apply list_elem_of_In, Ea in Hb. boolp.
    unfold compose, lowerASCIIByte, between, is_byte, RuneSelf in *. cases; boolp; lia.
  - apply Forall_concat, Forall_fmap, Forall_true. intros r. apply EncodeRune_bytes.
Qed.

Lemma ToLower_no_upper s : hasASCIIUpper (ToLower s) = false.
Proof.
  apply not_true_iff_false. intros (b & Hb & Hu)%existsb_exists. apply list_elem_of_In in Hb.
  unfold ToLower in Hb. destruct (isASCIIString s).
  - apply list_elem_of_fmap in Hb as (c & -> & _). by rewrite lower_not_upper in Hu.
  - apply list_elem_of_In, in_concat in Hb as (l & Hl & Hb). apply list_elem_of_In, list_elem_of_fmap in Hl as (r & -> & _).
    apply list_elem_of_In in Hb. pose proof (EncodeRune_upper _ _ Hb Hu) as He.
    pose proof (ToLowerRune_not_upper r) as Hn. rewrite He in Hn. congruence.
Qed.

(** [find] walks the ASCII bytes of the key and starts over on the lowered key at the
    first other byte. *)
Lemma find_from_spec m key s w :
  (exists w1 b w2, w = w1 ++ b :: w2 /\ Forall (fun c => c < 128) w1 /\ 128 <= b /\
     fst (find_from m key s w) = walk_from m s (lowerASCIIByte <$> w1) || walk m (ToLower key)) \/
  (Forall (fun c => c < 128) w /\ fst (find_from m key s w) = walk_from m s (lowerASCIIByte <$> w)).
Proof.
  revert s. induction w as [|b w IH]; intros s; [right; by split|].
  cbn [find_from]. unfold RuneSelf. destruct (128 <=? b) eqn:E; boolp.
  - left. exists [], b, w. by repeat split.
  - set (s' := default O (default None (next m !! (s + class_of (class m) (lowerASCIIByte b))%nat))).
    destruct (IH s') as [(w1 & b' & w2 & -> & Hw1 & Hb' & Hf)|[Hw Hf]].
    + left. exists (b :: w1), b', w2. split_and!; [done|by constructor|done|].
      cbn [fmap list_fmap walk_from]. fold s'. by destruct (default false (hit m !! s')).
    + right. split; [by constructor|]. cbn [fmap list_fmap walk_from]. fold s'. by destruct (default false (hit m !! s')).
Qed.

Lemma Contains_app_l s t p : Contains s p = true -> Contains (s ++ t) p = true.
Proof. rewrite !Contains_infix. intros (u & v & ->). exists u, (v ++ t). by rewrite <-!app_assoc. Qed.

(** Unless an empty entry matches every key, [find] answers like a walk over the lowered key. *)
Lemma find_walk keys key :
  Forall (Forall is_byte) keys -> Forall is_byte key ->
  fst (find_from (newKeyMatcher keys) key 0 key) = walk (newKeyMatcher keys) (ToLower key).
Proof.
  intros Hkeys Hkey. set (m := newKeyMatcher keys). pose proof (ToLower_bytes key Hkey) as Hlow.
  destruct (find_from_spec m key 0 key) as [(w1 & b & w2 & Hk & Hw1 & Hb & Hf)|[Hw Hf]]; rewrite Hf.
  - destruct (walk_from m 0 (lowerASCIIByte <$> w1)) eqn:E; [|done]. simpl. symmetry.
    rewrite Hk in Hkey. apply Forall_app in Hkey as [Hkey1 _].
    assert (Forall (fun c => 0 <= c < 128) w1) as Hr.
    { apply Forall_forall. intros c Hc. rewrite Forall_forall in Hkey1, Hw1. specialize (Hkey1 c Hc). specialize (Hw1 c Hc).
      unfold is_byte in Hkey1. simpl in Hw1. lia. }
    destruct (ToLower_prefix w1 (b :: w2) Hr) as [t Ht]. rewrite <-Hk in Ht.
    apply (newKeyMatcher_walk keys) in E as (p & Hp & Hc); [|done|].
    + apply (newKeyMatcher_walk keys); [done|done|]. exists p. split; [done|]. rewrite Ht. by apply Contains_app_l.
    + rewrite Ht in Hlow. by apply Forall_app in Hlow as [? _].
  - unfold walk, ToLower. replace (isASCIIString key) with true; [done|].
    symmetry. apply forallb_forall. intros b Hb. rewrite Forall_forall in Hw. apply Z.ltb_lt. by apply Hw, list_elem_of_In.
Qed.

(** An entry with an upper-case letter is in no lowered key. *)
Lemma upper_not_contained key p : hasASCIIUpper p = true -> Contains (ToLower key) p = false.
Proof.
  intros (b & Hb & Hu)%existsb_exists. apply not_true_iff_false. intros (u & v & He)%Contains_infix.
  pose proof (ToLower_no_upper key) as Hn. apply not_true_iff_false in Hn. apply Hn. apply existsb_exists. exists b.
  split; [|done]. rewrite He, !in_app_iff. auto.
Qed.

Lemma find_contains keys key :
  Forall (Forall is_byte) keys -> Forall is_byte key ->
  fst (find (newKeyMatcher keys) key) = existsb (Contains (ToLower key)) keys.
Proof.
  intros Hkeys Hkey. apply eq_true_iff_eq. rewrite existsb_exists. unfold find.
  assert (always (newKeyMatcher keys) = existsb (fun k => negb (hasASCIIUpper k) && is_empty k) keys) as ->.
  { unfold newKeyMatcher. destruct (build_classes _) as [cl n]. by destruct (foldl root_step _ _) as [[t fail] queue]. }
  destruct (existsb (fun k => negb (hasASCIIUpper k) && is_empty k) keys) eqn:Ea.
  - split; [intros _|done]. apply existsb_exists in Ea as (k & Hk & He). boolp. exists k. split; [done|].
    destruct k; [|done]. apply Contains_infix. by exists [], (ToLower key).
  - rewrite find_walk by done. rewrite newKeyMatcher_walk by (done || by apply ToLower_bytes).
    setoid_rewrite matcher_patterns_elem. split.
    + intros (p & (Hp & _) & Hc). exists p. split; [by apply list_elem_of_In|done].
    + intros (p & Hp & Hc). exists p. split; [|done]. split_and!; [by apply list_elem_of_In| |].
      * apply not_true_iff_false. intros Hu. by rewrite upper_not_contained in Hc.
      * intros ->. apply not_true_iff_false in Ea. apply Ea, existsb_exists. by exists [].
Qed.

End find.

(** [find] returns the lowered key when it made one. *)
Lemma find_lowered `{Unicode} m key : snd (find m key) = [] \/ snd (find m key) = ToLower key.
Proof.
  unfold find. destruct (always m); [by left|]. generalize 0%nat as s. generalize key at 2 4 as w.
  induction w as [|b w IH]; intros s; [by left|]. cbn [find_from]. destruct (_ <=? _); [by right|].
  destruct (default false _); [by left|apply IH].
Qed.

(** [containsFoldPW] folds with a bit operation. *)
Lemma lor_letter b c : is_byte b -> 97 <= c <= 122 -> (Z.lor b 32 =? c) = (lowerASCIIByte b =? c).
Proof.
  unfold is_byte. intros Hb Hc.
  assert (forallb (fun b => forallb (fun c => Bool.eqb (Z.lor b 32 =? c) (lowerASCIIByte b =? c)) (Z.of_nat <$> seq 97 26))
    (Z.of_nat <$> seq 0 256) = true) as Hall by (vm_compute; reflexivity).
  rewrite forallb_forall in Hall. specialize (Hall b).
  rewrite forallb_forall in Hall. apply eqb_prop, Hall; apply in_map_iff.
  - exists (Z.to_nat b). rewrite in_seq. lia.
  - exists (Z.to_nat c). rewrite in_seq. lia.
Qed.

Lemma containsFoldPW_lower s : Forall is_byte s -> containsFoldPW s = Contains (lowerASCIIByte <$> s) (go "pw").
Proof.
  intros Hk. unfold Contains. induction Hk as [|a key Ha Hk IH]; [done|]. destruct Hk as [|b key Hb Hk].
  - simpl. destruct (lowerASCIIByte a =? 112); done.
  - cbn [containsFoldPW fmap list_fmap]. cbn [containsFoldPW fmap list_fmap] in IH. rewrite IH. cbn [Index HasPrefix].
    rewrite !lor_letter by (done || lia).
    destruct ((lowerASCIIByte a =? 112) && ((lowerASCIIByte b =? 119) && true)) eqn:E.
    + boolp. replace (lowerASCIIByte a =? 112) with true by (symmetry; by apply Z.eqb_eq).
      replace (lowerASCIIByte b =? 119) with true by (symmetry; by apply Z.eqb_eq). done.
    + rewrite andb_true_r in E. rewrite E. simpl orb. apply bool_decide_ext. by rewrite fmap_is_Some.
Qed.

Lemma containsFoldPW_spec `{Unicode} key :
  Forall (fun b => 0 <= b < 128) key -> containsFoldPW key = Contains (ToLower key) (go "pw").
Proof.
  intros Hk. rewrite containsFoldPW_lower by (eapply Forall_impl; [exact Hk|]; unfold is_byte; simpl; lia).
  unfold ToLower. replace (isASCIIString key) with true; [done|].
  symmetry. apply forallb_forall. intros b Hb. rewrite Forall_forall in Hk. apply Z.ltb_lt, Hk. by apply list_elem_of_In.
Qed.

(** Lowering a lowered key again changes nothing. *)
Lemma lower_lowered `{UnicodeLaws} key : lowerASCIIByte <$> ToLower key = ToLower key.
Proof.
  pose proof (ToLower_no_upper key) as Hn. induction (ToLower key) as [|b l IH]; [done|].
  unfold hasASCIIUpper in Hn. cbn [existsb] in Hn. apply orb_false_iff in Hn as [Hb Hn].
  cbn [fmap list_fmap]. f_equal; [|by apply IH]. unfold lowerASCIIByte. unfold isUpperASCII in Hb. by rewrite Hb.
Qed.
