(* ===== verification/Config.v ===== *)
(** * Scanner configuration

    The [Config] and [configState] of [pkg/scanner/scanner.go], the defaults, and
    the table of English letter pairs of [pkg/scanner/bigrams.go]. *)

From Stdlib Require Import ZArith Lia Bool SpecFloat.
From stdpp Require Import base list option sets.
From S2P Require Import Prelude GoStrings Float64 Regex KeyMatcher.

Record CustomRegexConfig := { Pattern : gostring; Name : gostring }.

Record CustomRegexRule := { RuleRegexp : Regexp; RuleName : gostring }.

Record Config := {
  EntropyThreshold : float64;
  ConfidenceThreshold : float64;
  MinSecretLength : Z;
  Salt : gostring;
  SensitiveKeys : list gostring;
  DisableBigramCheck : bool;
  BigramDefaultScore : float64;
  AdaptiveThreshold : bool;
  SensitiveKeyPatterns : list gostring;
  AdaptiveBaselineSamples : Z;
  EntityTypeLabels : bool;
  CustomRegexes : list CustomRegexRule;
  SafeRegexes : list CustomRegexRule;
  CombinedCustomRegex : option Regexp;
  CustomRegexNames : list gostring;
}.

(** The float constants of the scoring code. *)
Definition DefaultEntropyThreshold : float64 := Eval vm_compute in flit 36 10.
Definition DefaultMinSecretLength : Z := 6.
Definition MaxMinSecretLength : Z := 1024.
Definition maxTokenRecursionDepth : nat := 32.
Definition bigramUnknown : float64 := Eval vm_compute in flit (-70) 10.

Definition defaultSensitiveKeys : list gostring :=
  [ go "pass"; go "secret"; go "token"; go "key"; go "cvv"; go "cvc"; go "auth"; go "sign";
    go "password"; go "passwd"; go "api_key"; go "apikey"; go "access_token"; go "client_secret";
    go "aws_access_key_id"; go "aws_secret_access_key"; go "gcp_credentials"; go "slack_token";
    go "密码"; go "口令"; go "密钥"; go "令牌"; go "パスワード" ].

(** How every list of sensitive keys is normalised. *)
Definition normalizeKey `{Unicode} (k : gostring) : gostring := ToLower (TrimSpace k).

(** [DefaultConfig]. *)
Definition DefaultConfig `{Unicode} : Config := {|
  EntropyThreshold := DefaultEntropyThreshold;
  ConfidenceThreshold := fone;
  MinSecretLength := DefaultMinSecretLength;
  Salt := [];
  SensitiveKeys := normalizeKey <$> defaultSensitiveKeys;
  DisableBigramCheck := false;
  BigramDefaultScore := bigramUnknown;
  AdaptiveThreshold := false;
  SensitiveKeyPatterns := [];
  AdaptiveBaselineSamples := 100;
  EntityTypeLabels := false;
  CustomRegexes := [];
  SafeRegexes := [];
  CombinedCustomRegex := None;
  CustomRegexNames := [];
|}.

(** ** The run-time environment

    What the scanner takes from the Go runtime: the Unicode tables, and the order in
    which [range] visits a map of rune counts. *)
Class GoRuntime := {
  rt_unicode :: Unicode;
  rt_map_order : list (rune * nat) -> list (rune * nat);
}.

(** ** Letter pairs *)

(** [EnglishBigramFreqs], scores in tenths. *)
Definition EnglishBigramFreqs : list (gostring * Z) :=
  [ (go "th", -35); (go "he", -38); (go "in", -39); (go "er", -40); (go "an", -41); (go "re", -41);
    (go "nd", -43); (go "at", -44); (go "on", -44); (go "nt", -45); (go "ha", -45); (go "es", -46);
    (go "st", -46); (go "en", -47); (go "ed", -47); (go "to", -47); (go "it", -47); (go "ou", -48);
    (go "ea", -48); (go "hi", -48); (go "is", -49); (go "or", -49); (go "ti", -49); (go "as", -49);
    (go "te", -50); (go "et", -50); (go "ng", -50); (go "of", -50); (go "al", -50); (go "de", -51);
    (go "se", -51); (go "le", -51); (go "sa", -51); (go "si", -52); (go "ar", -52); (go "ve", -52);
    (go "ra", -52); (go "ld", -53); (go "ur", -53); (go "ac", -53); (go "ne", -53); (go "no", -53);
    (go "fo", -53); (go "co", -53); (go "me", -54); (go "ec", -54); (go "ot", -54); (go "ri", -54);
    (go "ro", -54); (go "io", -54); (go "ic", -54); (go "ma", -54); (go "ta", -54); (go "el", -54);
    (go "li", -54); (go "om", -54); (go "us", -54); (go "ce", -55); (go "ca", -55); (go "il", -55);
    (go "na", -55); (go "la", -55); (go "ge", -55); (go "un", -55); (go "ch", -55); (go "wi", -55);
    (go "di", -55); (go "pe", -55); (go "be", -55); (go "so", -55); (go "rt", -55); (go "wa", -55);
    (go "nc", -56); (go "wh", -56); (go "tr", -56); (go "pr", -56); (go "ul", -56); (go "ni", -56);
    (go "ns", -56); (go "ts", -56); (go "ow", -56); (go "em", -56); (go "ie", -56); (go "ll", -56);
    (go "ut", -56); (go "po", -56); (go "lo", -56); (go "ss", -56); (go "ad", -56); (go "ho", -56);
    (go "rs", -56); (go "mo", -57); (go "we", -57); (go "pa", -57); (go "im", -57); (go "tt", -57);
    (go "mi", -57); (go "ai", -57); (go "su", -57); (go "qu", -57); (go "pp", -57); (go "pl", -57);
    (go "da", -57); (go "os", -57); (go "bl", -57); (go "ty", -57); (go "nf", -58); (go "bu", -57);
    (go "rn", -57); (go "fe", -58); (go "gh", -58); (go "ds", -58); (go "ke", -58); (go "ct", -58);
    (go "op", -58); (go "sc", -58); (go "rr", -58); (go "sp", -58); (go "vo", -58); (go "mp", -58);
    (go "am", -58); (go "iv", -58); (go "id", -58); (go "ef", -58); (go "ev", -58); (go "au", -58);
    (go "ck", -58); (go "ir", -58); (go "ep", -58); (go "tu", -58); (go "bo", -58); (go "ci", -58);
    (go "ab", -58); (go "eg", -58); (go "ye", -58); (go "wn", -58); (go "dr", -58); (go "gr", -58);
    (go "od", -58); (go "ph", -58); (go "av", -58); (go "ew", -58); (go "do", -58); (go "ag", -58);
    (go "ex", -59); (go "ly", -59); (go "mu", -59); (go "fr", -59); (go "ms", -60); (go "sg", -60);
    (go "ja", -60); (go "ju", -60); (go "jy", -60); (go "jo", -60); (go "aj", -65); (go "ay", -55);
    (go "ga", -55); (go "ym", -60); (go "nu", -58); (go "um", -55); (go "mm", -60); (go "t_", -90);
    (go "pi", -55); (go "eb", -55); (go "ug", -55); (go "yl", -58); (go "oa", -53); (go "cv", -80);
    (go "vv", -90); (go "pw", -80); (go "wd", -75); (go "tk", -85); (go "nm", -75); (go "ky", -75);
    (go "ey", -55) ].

Definition bigram_scores : list (gostring * float64) :=
  (fun '(k, v) => (k, flit v 10)) <$> EnglishBigramFreqs.

(** The map lookup of [bigramProb]. *)
Fixpoint assoc {A} (k : gostring) (l : list (gostring * A)) : option A :=
  match l with
  | [] => None
  | (k', v) :: l' => if str_eqb k k' then Some v else assoc k l'
  end.

(** [bigramTable]: 128 rows of 128 scores. *)
Notation bigramTable := (list (list float64)).

Definition table_set (t : bigramTable) (i j : Z) (v : float64) : bigramTable :=
  alter (fun row => <[Z.to_nat j := v]> row) (Z.to_nat i) t.

(** [newBigramTable]: the default everywhere, then the ASCII pairs of the map. *)
Definition newBigramTable (defaultScore : float64) : bigramTable :=
  foldl (fun t '(bg, v) =>
           match bg with
           | [b0; b1] => if (b0 <? 128) && (b1 <? 128) then table_set t b0 b1 v else t
           | _ => t
           end)
    (replicate 128 (replicate 128 defaultScore)) bigram_scores.

(** ** configState *)

Record configState := {
  config : Config;
  sensitiveRegex : option Regexp;
  keymatcher : keyMatcher;
  bigrams : bigramTable;
}.

(** [bigramProb]. *)
Definition bigramProb (st : configState) (b : gostring) : float64 :=
  match assoc b bigram_scores with
  | Some v => v
  | None => BigramDefaultScore (config st)
  end.

(** [bigramProbBytes]: one table read for a pair of ASCII bytes. *)
Definition bigramProbBytes (st : configState) (b0 b1 : byte) : float64 :=
  if Z.lor b0 b1 <? 128
  then default fzero (default [] (bigrams st !! Z.to_nat b0) !! Z.to_nat b1)
  else BigramDefaultScore (config st).

(** [letterBigram]. *)
Definition letterBigram (st : configState) (b0 b1 : byte) : float64 :=
  bigramProbBytes st (lowerASCIIByte b0) (lowerASCIIByte b1).

(** ** The letter-pair table

    [newBigramTable] flattens the map of English letter pairs into an array;
    reading the array gives what reading the map would give. *)

Definition table_get (t : bigramTable) (i j : nat) : float64 := default fzero (default [] (t !! i) !! j).

(** A table has 128 rows of 128 scores. *)
Definition table_wf (t : bigramTable) : Prop :=
  length t = 128%nat /\ forall i row, t !! i = Some row -> length row = 128%nat.

Lemma table_set_wf t i j v : table_wf t -> table_wf (table_set t i j v).
Proof.
  intros [Hl Hr]. unfold table_set. split; [by rewrite length_alter|]. intros k row Hk.
  rewrite list_lookup_alter in Hk. destruct (decide (Z.to_nat i = k)).
  - destruct (t !! Z.to_nat i) as [row'|] eqn:E; simpl in Hk; [|done]. simplify_eq. rewrite length_insert. eauto.
  - eauto.
Qed.

Lemma table_get_set t i j v i' j' :
  table_wf t -> (Z.to_nat i < 128)%nat -> (Z.to_nat j < 128)%nat ->
  table_get (table_set t i j v) i' j' =
  if decide (Z.to_nat i = i' /\ Z.to_nat j = j') then v else table_get t i' j'.
Proof.
  intros [Hl Hr] Hi Hj. unfold table_get, table_set. rewrite list_lookup_alter.
  destruct (decide (Z.to_nat i = i')) as [<-|Hne]; [|by rewrite decide_False by tauto].
  destruct (t !! Z.to_nat i) as [row|] eqn:E; [|apply lookup_ge_None in E; lia]. simpl.
  pose proof (Hr _ _ E). destruct (decide (Z.to_nat j = j')) as [<-|Hne].
  - rewrite list_lookup_insert_eq by lia. by rewrite decide_True.
  - rewrite list_lookup_insert_ne by done. by rewrite decide_False by tauto.
Qed.

(** One entry of the map, as [newBigramTable] copies it. *)
Definition table_step (t : bigramTable) (e : gostring * float64) : bigramTable :=
  let '(bg, v) := e in
  match bg with
  | [b0; b1] => if (b0 <? 128) && (b1 <? 128) then table_set t b0 b1 v else t
  | _ => t
  end.

(** The keys of the map: pairs of ASCII bytes, all different. *)
Definition ascii_pair (k : gostring) : bool :=
  match k with [a; b] => between 0 a 127 && between 0 b 127 | _ => false end.

Lemma assoc_not_in {A} k (l : list (gostring * A)) : ~ In k (fst <$> l) -> assoc k l = None.
Proof.
  induction l as [|[k' v] l IH]; simpl; [done|]. intros H. destruct (str_eqb k k') eqn:E.
  - apply str_eqb_eq in E. subst. tauto.
  - apply IH. tauto.
Qed.

Lemma assoc_in {A} k (l : list (gostring * A)) v : assoc k l = Some v -> In k (fst <$> l).
Proof.
  induction l as [|[k' v'] l IH]; simpl; [done|]. destruct (str_eqb k k') eqn:E; [|auto].
  apply str_eqb_eq in E. auto.
Qed.

Lemma table_fold l t b0 b1 :
  table_wf t -> NoDup (fst <$> l) -> forallb ascii_pair (fst <$> l) = true ->
  0 <= b0 < 128 -> 0 <= b1 < 128 ->
  table_get (foldl table_step t l) (Z.to_nat b0) (Z.to_nat b1) =
  default (table_get t (Z.to_nat b0) (Z.to_nat b1)) (assoc [b0; b1] l).
Proof.
  intros Ht Hnd Ha H0 H1. revert t Ht. induction l as [|[k v] l IH]; intros t Ht; [done|].
  apply NoDup_cons in Hnd as [Hnin Hnd]. cbn [fmap list_fmap fst forallb] in Ha. boolp.
  destruct k as [|a [|b [|]]]; try done. simpl in H. boolp. unfold between in *. boolp.
  cbn [foldl assoc table_step]. rewrite !(proj2 (Z.ltb_lt _ _)) by lia. simpl andb. cbv iota.
  rewrite IH by (done || by apply table_set_wf). rewrite table_get_set by (done || lia).
  destruct (str_eqb [b0; b1] [a; b]) eqn:E.
  - apply str_eqb_eq in E. simplify_eq. rewrite decide_True by done.
    rewrite assoc_not_in; [done|]. intros Hin. apply Hnin. by apply list_elem_of_In.
  - apply str_eqb_neq in E. rewrite decide_False; [done|]. intros [Ea Eb].
    apply E. f_equal; [|f_equal]; lia.
Qed.

Lemma bigram_keys_ascii : forallb ascii_pair (fst <$> bigram_scores) = true.
Proof. reflexivity. Qed.

Lemma bigram_keys_distinct : NoDup (fst <$> bigram_scores).
Proof.
  assert ((fst <$> bigram_scores) = (fst <$> EnglishBigramFreqs)) as ->
    by (unfold bigram_scores; rewrite <-list_fmap_compose; by apply list_fmap_ext; intros ? [] _).
  apply (bool_decide_unpack _). vm_compute. exact I.
Qed.

Lemma newBigramTable_get d b0 b1 :
  0 <= b0 < 128 -> 0 <= b1 < 128 ->
  table_get (newBigramTable d) (Z.to_nat b0) (Z.to_nat b1) = default d (assoc [b0; b1] bigram_scores).
Proof.
  intros H0 H1. change (newBigramTable d) with
    (foldl table_step (replicate 128 (replicate 128 d)) bigram_scores).
  rewrite table_fold; [|split|apply bigram_keys_distinct|apply bigram_keys_ascii|done|done].
  - assert (table_get (replicate 128 (replicate 128 d)) (Z.to_nat b0) (Z.to_nat b1) = d) as ->; [|done].
    unfold table_get. rewrite lookup_replicate_2 by lia. cbn [default from_option id].
    by rewrite lookup_replicate_2 by lia.
  - by rewrite length_replicate.
  - intros i row [-> _]%lookup_replicate. by rewrite length_replicate.
Qed.

(** A pair with a byte that is not ASCII is not in the map. *)
Lemma bigram_ascii b0 b1 v : assoc [b0; b1] bigram_scores = Some v -> 0 <= b0 < 128 /\ 0 <= b1 < 128.
Proof.
  intros H%assoc_in. pose proof bigram_keys_ascii as Ha. rewrite forallb_forall in Ha. apply Ha in H.
  unfold ascii_pair, between in H. boolp. lia.
Qed.

Lemma log2_ascii x : 0 <= x -> x < 128 <-> Z.log2 x < 7.
Proof.
  intros Hx. change 128 with (2 ^ 7). destruct (Z.eq_dec x 0) as [->|Hne]; [done|].
  apply Z.log2_lt_pow2. lia.
Qed.

Lemma lor_ascii a b : 0 <= a -> 0 <= b -> Z.lor a b < 128 <-> a < 128 /\ b < 128.
Proof.
  intros Ha Hb. assert (0 <= Z.lor a b) by (by apply Z.lor_nonneg).
  rewrite !log2_ascii, Z.log2_lor by done. lia.
Qed.

(** Reading the table is reading the map. *)
Lemma bigramProbBytes_map st b0 b1 :
  bigrams st = newBigramTable (BigramDefaultScore (config st)) -> 0 <= b0 -> 0 <= b1 ->
  bigramProbBytes st b0 b1 = bigramProb st [b0; b1].
Proof.
  intros Hst H0 H1. unfold bigramProbBytes, bigramProb. rewrite Hst.
  destruct (Z.lor b0 b1 <? 128) eqn:E; boolp.
  - apply lor_ascii in E as [E0 E1]; [|done..]. pose proof (newBigramTable_get (BigramDefaultScore (config st)) b0 b1) as Hg.
    unfold table_get in Hg. rewrite Hg by done. by destruct (assoc _ _).
  - destruct (assoc [b0; b1] bigram_scores) as [v|] eqn:Ea; [|done]. apply bigram_ascii in Ea as [Ha Hb].
    exfalso. assert (Z.lor b0 b1 < 128) by (apply lor_ascii; lia). lia.
Qed.
