(* ===== verification/Entropy.v ===== *)
(** * Token scoring

    Section 1 of [pkg/scanner/scanner.go]: Shannon entropy, the character-class
    bonus, the letter-pair adjustment, and the word-compound shapes that are
    scored part by part. *)

From Stdlib Require Import ZArith Lia Bool SpecFloat.
From stdpp Require Import base list option sets.
From S2P Require Import Prelude GoStrings Float64 Regex KeyMatcher Config.

(** ** Shannon entropy *)

(** [logTable]: [Log2] of 1 to 255, with 0 at index 0. *)
Definition logTable : list float64 :=
  Eval vm_compute in fzero :: ((fun i => Log2 (float_of_nat i)) <$> seq 1 255).

(** A table read below 256, [math.Log2] above. *)
Definition log2_count (n : nat) : float64 :=
  if (n <? 256)%nat then default fzero (logTable !! n) else Log2 (float_of_nat n).

(** One term of the sum: [entropy -= p * (logCount - logLen)]. *)
Definition entropy_term (total : nat) (logLen : float64) (logc : nat -> float64)
    (entropy : float64) (count : nat) : float64 :=
  if (count =? 0)%nat then entropy
  else
    let p := fdiv (float_of_nat count) (float_of_nat total) in
    fsub entropy (fmul p (fsub (logc count) logLen)).

(** The byte counts of an ASCII token, in byte order: the [counts] array. *)
Definition byte_counts (token : gostring) : list nat :=
  (fun b => CountByte token (Z.of_nat b)) <$> seq 0 128.

(** The rune counts of a token, in order of first appearance. *)
Fixpoint add_rune (r : rune) (l : list (rune * nat)) : list (rune * nat) :=
  match l with
  | [] => [(r, 1%nat)]
  | (r', n) :: l' => if r =? r' then (r', S n) :: l' else (r', n) :: add_rune r l'
  end.

Definition rune_counts (token : gostring) : list (rune * nat) :=
  foldl (fun l r => add_rune r l) [] (runes token).

Section scoring.
Context `{RT : GoRuntime}.

(** [calculateShannon]. *)
Definition calculateShannon (token : gostring) : float64 :=
  if is_empty token then fzero
  else if isASCIIString token then
    let total := length token in
    let logLen := log2_count total in
    foldl (entropy_term total logLen log2_count) fzero (byte_counts token)
  else
    let total := RuneCount token in
    let logLen := Log2 (float_of_nat total) in
    foldl (entropy_term total logLen (fun n => Log2 (float_of_nat n))) fzero
      (snd <$> rt_map_order (rune_counts token)).

(** [calculateClassBonus]. *)
Definition char_classes (token : gostring) : nat :=
  let rs := runes token in
  let b2n (b : bool) := if b then 1%nat else 0%nat in
  (b2n (existsb IsUpper rs) + b2n (existsb IsLower rs) + b2n (existsb IsDigit rs) +
   b2n (existsb (fun r => IsPunct r || IsSymbol r) rs))%nat.

Definition calculateClassBonus (token : gostring) : float64 :=
  let classes := char_classes token in
  if (1 <? classes)%nat then fmul (float_of_nat (classes - 1)) fhalf else fzero.

(** ** Letter pairs *)

Definition minusFiveEight : float64 := Eval vm_compute in flit (-58) 10.
Definition minusSeven : float64 := Eval vm_compute in flit (-70) 10.
Definition minusOneHalf : float64 := Eval vm_compute in flit (-15) 10.

(** The sum over adjacent bytes of an ASCII token. *)
Fixpoint bigram_sum_bytes (st : configState) (prev : byte) (w : gostring)
    (sum : float64) (count : nat) : float64 * nat :=
  match w with
  | [] => (sum, count)
  | b :: w' =>
    let cur := lowerASCIIByte b in
    bigram_sum_bytes st cur w' (fadd sum (bigramProbBytes st prev cur)) (S count)
  end.

(** The sum over adjacent ASCII runes of any other token; [None] is [!havePrev]. *)
Fixpoint bigram_sum_runes (st : configState) (prev : option byte) (w : list rune)
    (sum : float64) (count : nat) : float64 * nat :=
  match w with
  | [] => (sum, count)
  | r :: w' =>
    if RuneSelf <=? r then bigram_sum_runes st None w' sum count
    else
      let cur := lowerASCIIByte r in
      match prev with
      | Some p => bigram_sum_runes st (Some cur) w' (fadd sum (bigramProbBytes st p cur)) (S count)
      | None => bigram_sum_runes st (Some cur) w' sum count
      end
  end.

(** [calculateBigramAdjustment]. *)
Definition calculateBigramAdjustment (st : configState) (token : gostring) : float64 :=
  if DisableBigramCheck (config st) || (length token <=? 3)%nat then fzero
  else
    let '(sumProb, count) :=
      if isASCIIString token then
        match token with
        | b :: w => bigram_sum_bytes st (lowerASCIIByte b) w fzero 0
        | [] => (fzero, O)
        end
      else bigram_sum_runes st None (runes token) fzero 0 in
    if (0 <? count)%nat then
      let avgProb := fdiv sumProb (float_of_nat count) in
      if fgtb avgProb minusFiveEight then minusOneHalf
      else if fltb avgProb minusSeven then fhalf
      else fzero
    else fzero.

(** [calculateRawComplexity]. *)
Definition calculateRawComplexity (st : configState) (token : gostring) : float64 :=
  if is_empty token then fzero
  else fadd (fadd (calculateShannon token) (calculateClassBonus token))
         (calculateBigramAdjustment st token).

(** ** Compounds of words *)

Definition compoundMinBigramAvg : float64 := Eval vm_compute in flit (-65) 10.

Definition compound_sep (c : byte) : bool := ContainsByte (go "-._/") c.

(** [nextCompoundPart]. *)
Definition nextCompoundPart (token : gostring) (i : nat) : gostring * nat :=
  let start := (i + span_len compound_sep (drop i token))%nat in
  let w := span_len (fun c => negb (compound_sep c)) (drop start token) in
  if (w =? 0)%nat then ([], length token)
  else (slice token start (start + w), (start + w + 1)%nat).

(** [nextCamelPart]. *)
Definition nextCamelPart (token : gostring) (i : nat) : gostring * nat :=
  if (length token <=? i)%nat then ([], length token)
  else
    let j := (i + 1 + span_len (fun c => negb (isUpperASCII c)) (drop (i + 1) token))%nat in
    (slice token i j, j).

(** The loop [for p, next := f(token, i); p != ""; p, next = f(token, next)]. *)
Fixpoint parts_from (f : gostring -> nat -> gostring * nat) (fuel : nat) (token : gostring) (i : nat) :
    list gostring :=
  match fuel with
  | O => []
  | S k =>
    let '(p, next) := f token i in
    if is_empty p then [] else p :: parts_from f k token next
  end.

Definition compoundParts (token : gostring) : list gostring :=
  parts_from nextCompoundPart (S (length token)) token 0.
Definition camelPartsFrom (token : gostring) (i : nat) : list gostring :=
  parts_from nextCamelPart (S (length token)) token i.
Definition camelParts (token : gostring) : list gostring := camelPartsFrom token 0.

(** [sum += letterBigram(p[i-1], p[i]); pairs++] over the adjacent bytes of [p] that
    [ok] accepts. *)
Fixpoint pair_sum (st : configState) (ok : byte -> bool) (p : gostring) (acc : float64 * nat) :
    float64 * nat :=
  match p with
  | a :: ((b :: _) as t) =>
    let '(sum, pairs) := acc in
    pair_sum st ok t
      (if ok a && ok b then (fadd sum (letterBigram st a b), S pairs) else acc)
  | _ => acc
  end.

(** [pairs > 2 && sum/float64(pairs) <= compoundMinBigramAvg]. *)
Definition pairs_too_rare (acc : float64 * nat) : bool :=
  let '(sum, pairs) := acc in
  (2 <? pairs)%nat && fleb (fdiv sum (float_of_nat pairs)) compoundMinBigramAvg.

(** [namesSecret]. *)
Definition namesSecret (st : configState) (token : gostring) : bool :=
  let low := lowerASCIIByte <$> token in
  existsb (fun sk => Contains low sk) (SensitiveKeys (config st)) ||
  match sensitiveRegex st with Some re => MatchString re token | None => false end.

(** The scan for lower-case letters alone between capitals in [wordShapedPart]. *)
Definition lower_alone (p : gostring) (letters j : nat) : bool :=
  at_is p j isLowerASCII &&
  ((j =? 0)%nat || negb (at_is p (j - 1) isLowerASCII)) &&
  ((S j =? letters)%nat || negb (at_is p (S j) isLowerASCII)).

Definition alone_ok (p : gostring) (letters : nat) (dotted : bool) : bool :=
  let alone := length (filter (fun j => lower_alone p letters j = true) (seq 0 letters)) in
  (alone =? 0)%nat || ((alone =? 1)%nat && dotted).

(** [wordShapedPart]: the length of the leading letter run, [None] for [false]. *)
Definition wordShapedPart (p : gostring) (dotted : bool) : option nat :=
  if (24 <? length p)%nat then None
  else
    let letters := span_len isASCIILetter p in
    let tail := (letters + span_len isASCIIDigit (drop letters p))%nat in
    if (8 <? tail - letters)%nat then None
    else
      let i := (tail + span_len isASCIILetter (drop tail p))%nat in
      if negb (i =? length p)%nat then None
      else
        let finish (letters : nat) (p : gostring) :=
          if (4 <=? letters)%nat && negb (alone_ok p letters dotted) then None else Some letters in
        if (2 <? i - tail)%nat then
          if negb dotted || (letters =? 0)%nat || (letters =? 2)%nat || (4 <? letters)%nat ||
             negb (tail - letters =? 1)%nat || (i - tail <? 4)%nat
          then None
          else if (letters =? 1)%nat && negb (at_is p 0 (fun c => ContainsByte (go "vVsS") c)) then None
          else if (3 <=? letters)%nat && negb (at_is p tail isUpperASCII) then None
          else finish (i - tail)%nat (drop tail p)
        else finish letters p.

(** [isIndexedName]. *)
Definition isIndexedName (token : gostring) : bool :=
  if ContainsAny token (go "./") then false
  else
    let rest := drop 1 (compoundParts token) in
    negb (is_empty rest) && forallb (forallb isASCIIDigit) rest.

(** [isTwoLetterPrefixedName]. *)
Definition isTwoLetterPrefixedName (st : configState) (p : gostring) : bool :=
  if (length p <? 5)%nat || (64 <? length p)%nat || negb (at_is p 0 isUpperASCII) ||
     negb (at_is p 1 isLowerASCII) || negb (at_is p 2 isUpperASCII)
  then false
  else
    let words := camelPartsFrom p 2 in
    if forallb (fun w => (3 <=? length w)%nat && forallb isASCIILetter w) words then
      let '(sum, pairs) := foldl (fun acc w => pair_sum st (fun _ => true) w acc) (fzero, O) words in
      (0 <? pairs)%nat && fgtb (fdiv sum (float_of_nat pairs)) compoundMinBigramAvg &&
      negb (namesSecret st p)
    else false.

(** What the loop of [isWordCompound] accumulates. *)
Record compoundAcc := {
  nParts : nat;
  hasWord : bool;
  sameLength : bool;
  pairAcc : float64 * nat;
}.

(** One part: [None] is [return false]. *)
Definition compound_step (st : configState) (token : gostring) (firstLen : nat) (dotOnly : bool)
    (acc : option compoundAcc) (p : gostring) : option compoundAcc :=
  a ← acc;
  letters ← (match wordShapedPart p dotOnly with
             | Some l => Some l
             | None =>
               if negb (isIndexedName token) || negb (isTwoLetterPrefixedName st p) then None
               else Some (length p)
             end);
  Some {| nParts := S (nParts a);
          hasWord := hasWord a || ((letters =? length p)%nat && (3 <=? letters)%nat);
          sameLength := sameLength a && (length p =? firstLen)%nat;
          pairAcc := pair_sum st isASCIILetter p (pairAcc a) |}.

(** [isWordCompound]. *)
Definition isWordCompound (st : configState) (token : gostring) : bool :=
  if DisableBigramCheck (config st) || (128 <? length token)%nat ||
     negb (ContainsAny token (go "-._/"))
  then false
  else
    let first := fst (nextCompoundPart token 0) in
    let dotOnly := negb (ContainsAny token (go "-_/")) in
    let init := {| nParts := 0; hasWord := false;
                   sameLength := (4 <=? length first)%nat && negb dotOnly;
                   pairAcc := (fzero, O) |} in
    match foldl (compound_step st token (length first) dotOnly) (Some init) (compoundParts token) with
    | None => false
    | Some a =>
      if (nParts a <? 2)%nat || negb (hasWord a) || sameLength a || pairs_too_rare (pairAcc a)
      then false
      else negb (namesSecret st token)
    end.

(** [isCamelWordCompound]. *)
Definition isCamelWordCompound (st : configState) (token : gostring) : bool :=
  if DisableBigramCheck (config st) || (128 <? length token)%nat then false
  else
    let ps := camelParts token in
    if forallb (fun p => (2 <=? length p)%nat && forallb isASCIILetter p) ps then
      let acc := foldl (fun acc p => pair_sum st (fun _ => true) p acc) (fzero, O) ps in
      if (length ps <? 2)%nat || negb (existsb (fun p => (3 <=? length p)%nat) ps) ||
         pairs_too_rare acc
      then false
      else negb (namesSecret st token)
    else false.

(** [isCamelCaseWithDigits]: the loop over words, [fuel] bounding their number. *)
Fixpoint camel_digits_loop (fuel : nat) (key : gostring) (i inner : nat) : bool :=
  match fuel with
  | O => false
  | S k =>
    if (length key <=? i)%nat then true
    else
      let i1 := if at_is key i isUpperASCII then S i else i in
      let d := (i1 + span_len isLowerASCII (drop i1 key))%nat in
      if (d =? i1)%nat then false
      else
        let i2 := (d + span_len isASCIIDigit (drop d key))%nat in
        if (3 <? i2 - d)%nat then false
        else if (d <? i2)%nat && (i2 <? length key)%nat then
          if negb (at_is key i2 isUpperASCII) then false
          else if (2 <? S inner)%nat then false
          else camel_digits_loop k key i2 (S inner)
        else camel_digits_loop k key i2 inner
  end.

Definition isCamelCaseWithDigits (key : gostring) : bool :=
  camel_digits_loop (S (length key)) key 0 0.

(** [isCamelDigitCompound]. *)
Definition isCamelDigitCompound (st : configState) (token : gostring) : bool :=
  if DisableBigramCheck (config st) || (128 <? length token)%nat ||
     negb (ContainsAny token (go "0123456789")) || negb (isCamelCaseWithDigits token)
  then false
  else
    let ps := camelParts token in
    let lead p := take (span_len isASCIILetter p) p in
    let acc := foldl (fun acc p => pair_sum st (fun _ => true) (lead p) acc) (fzero, O) ps in
    if (length ps <? 2)%nat || negb (existsb (fun p => (3 <=? length (lead p))%nat) ps) ||
       pairs_too_rare acc
    then false
    else negb (namesSecret st token).

(** ** The score *)

(** The larger of two scores, as [if s > best { best = s }]. *)
Definition fmax_step (score : gostring -> float64) (best : float64) (p : gostring) : float64 :=
  let s := score p in if fgtb s best then s else best.

(** [camelPartsComplexity]. *)
Definition camelPartsComplexity (st : configState) (token : gostring) : float64 :=
  foldl (fmax_step (calculateRawComplexity st)) fzero (camelParts token).

(** [partComplexity]. *)
Definition partComplexity (st : configState) (part : gostring) (dotted : bool) : float64 :=
  if isCamelDigitCompound st part || (dotted && isCamelWordCompound st part)
  then camelPartsComplexity st part
  else calculateRawComplexity st part.

(** One round of the loop of [calculateComplexity]: a part whose bound cannot beat
    the best so far is skipped. *)
Definition complexity_step (st : configState) (dotted : bool) (best : float64) (part : gostring) : float64 :=
  if (length part <? 256)%nat && fleb (fadd (log2_count (length part)) ftwo) best then best
  else fmax_step (fun p => partComplexity st p dotted) best part.

(** [calculateComplexity]. *)
Definition calculateComplexity (st : configState) (token : gostring) : float64 :=
  if negb (isWordCompound st token) then
    if isCamelDigitCompound st token ||
       (negb (ContainsAny token (go "-._/")) && isCamelWordCompound st token)
    then camelPartsComplexity st token
    else calculateRawComplexity st token
  else
    let dotted := negb (ContainsAny token (go "-_/")) || isIndexedName token in
    foldl (complexity_step st dotted) fzero (compoundParts token).

(** [readsAsWords]. *)
Definition readsAsWords (st : configState) (token : gostring) : bool :=
  isWordCompound st token || isCamelDigitCompound st token ||
  (negb (ContainsAny token (go "-._/")) && isCamelWordCompound st token).

End scoring.
