(* ===== verification/Luhn.v ===== *)
(** * Card numbers

    The Luhn section of [pkg/scanner/scanner.go] and [pkg/scanner/bin.go]: digit
    runs of a line that have an issuer prefix, a length that issuer uses and a
    valid checksum. *)

From Stdlib Require Import ZArith Lia Bool.
From stdpp Require Import base list option sets.
From S2P Require Import Prelude GoStrings.

Record Range := { rStart : nat; rEnd : nat }.

#[export] Instance Range_eq_dec : EqDecision Range.
Proof. solve_decision. Defined.

(** ** Issuer prefixes *)

(** [binRange]; [lengths] is a 32-bit mask of accepted lengths. *)
Record binRange := { lo : Z; hi : Z; bin_digits : nat; lengths : Z }.

Definition uint32 (z : Z) : Z := z mod 2 ^ 32.

(** [lens]. *)
Definition lens (ns : list Z) : Z :=
  foldl (fun m n => Z.lor m (uint32 (Z.shiftl 1 n))) 0 ns.

Definition bin (l h : Z) (d : nat) (ns : list Z) : binRange :=
  {| lo := l; hi := h; bin_digits := d; lengths := lens ns |}.

Definition cardBINs : list binRange :=
  [ bin 4 4 1 [13; 16; 19];
    bin 51 55 2 [16]; bin 2221 2720 4 [16];
    bin 34 34 2 [15]; bin 37 37 2 [15];
    bin 6011 6011 4 [16; 19]; bin 622126 622925 6 [16; 19]; bin 644 649 3 [16; 19];
    bin 65 65 2 [16; 19];
    bin 3528 3589 4 [16; 17; 18; 19];
    bin 300 305 3 [14; 15; 16; 17; 18; 19]; bin 36 36 2 [14; 15; 16; 17; 18; 19];
    bin 38 39 2 [14; 15; 16; 17; 18; 19];
    bin 62 62 2 [16; 17; 18; 19] ].

(** The digit at an index: [line[idx]-'0'], byte arithmetic. *)
Definition digit_at (line : gostring) (idx : nat) : Z := (byte_at line idx - 48) mod 256.

(** [p = p*10 + uint32(line[idx]-'0')] over the first digits. *)
Definition prefix_value (line : gostring) (indices : list nat) : Z :=
  foldl (fun p idx => uint32 (p * 10 + digit_at line idx)) 0 indices.

(** [matchesCardBIN]. *)
Definition matchesCardBIN (line : gostring) (indices : list nat) : bool :=
  let n := length indices in
  existsb (fun r =>
    negb (Z.land (lengths r) (uint32 (Z.shiftl 1 (Z.of_nat n))) =? 0) && (bin_digits r <=? n)%nat &&
    (let p := prefix_value line (take (bin_digits r) indices) in (lo r <=? p) && (p <=? hi r)))
    cardBINs.

(** ** Checks on a window of digits *)

(** [countDistinctDigits], with its bit mask. *)
Definition distinct_step (line : gostring) (acc : nat * Z) (idx : nat) : nat * Z :=
  let '(seen, mask) := acc in
  let d := digit_at line idx in
  if (0 <=? d) && (d <=? 9) && (Z.land mask (Z.shiftl 1 d) =? 0)
  then (S seen, Z.lor mask (Z.shiftl 1 d))
  else (seen, mask).

Definition countDistinctDigits (line : gostring) (indices : list nat) : nat :=
  fst (foldl (distinct_step line) (O, 0) indices).

(** [validLuhnFromIndices]: from the right, every second digit doubled. *)
Fixpoint luhn_sum (line : gostring) (rev_indices : list nat) (alternate : bool) : Z :=
  match rev_indices with
  | [] => 0
  | idx :: rest =>
    let d := digit_at line idx in
    let d' := if alternate then (if 9 <? d * 2 then d * 2 - 9 else d * 2) else d in
    d' + luhn_sum line rest (negb alternate)
  end.

Definition validLuhnFromIndices (line : gostring) (indices : list nat) : bool :=
  luhn_sum line (rev indices) false mod 10 =? 0.

(** [digitsConnected]. *)
Definition digitsConnected (line : gostring) (prevIdx currIdx : nat) : bool :=
  let diff := (currIdx - prevIdx)%nat in
  if (2 <? diff)%nat then false
  else if (diff =? 2)%nat then
    at_is line (S prevIdx) (fun c => (c =? ch " ") || (c =? ch "-"))
  else true.

(** [areDigitsConnected], the reference the window scan is an optimisation of. *)
Fixpoint areDigitsConnected (line : gostring) (indices : list nat) : bool :=
  match indices with
  | a :: ((b :: _) as t) => digitsConnected line a b && areDigitsConnected line t
  | _ => true
  end.

(** [utf8.DecodeLastRuneInString]. *)
Definition DecodeLastRune (s : gostring) : rune :=
  match last (chunks s) with Some (r, _) => r | None => RuneError end.

Definition prevRune (line : gostring) (idx : nat) : rune :=
  let b := byte_at line (idx - 1) in
  if b <? RuneSelf then b else DecodeLastRune (take idx line).

Definition nextRune (line : gostring) (idx : nat) : rune :=
  let b := byte_at line idx in
  if b <? RuneSelf then b else fst (DecodeRune (drop idx line)).

Section boundary.
Context `{U : Unicode}.

(** The test on one side: [r] is the neighbour, [r2] the one beyond it, if any. *)
Definition side_ok (r : rune) (r2 : option rune) : bool :=
  if IsLetter r || IsDigit r then false
  else if (r =? ch "-") || (r =? ch ".") then
    match r2 with
    | Some r2 => negb (IsLetter r2) && negb ((r =? ch ".") && IsDigit r2)
    | None => true
    end
  else true.

(** [isValidBoundary]. *)
Definition isValidBoundary (line : gostring) (startIdx endIdx : nat) : bool :=
  (if (0 <? startIdx)%nat then
     side_ok (prevRune line startIdx)
       (if (1 <? startIdx)%nat then Some (prevRune line (startIdx - 1)) else None)
   else true) &&
  (if (endIdx <? length line)%nat then
     side_ok (nextRune line endIdx)
       (if (endIdx + 1 <? length line)%nat then Some (nextRune line (endIdx + 1)) else None)
   else true).

(** ** The scan *)

Definition digitIndices (line : gostring) : list nat :=
  filter (fun i => at_is line i isASCIIDigit = true) (seq 0 (length line)).

(** The checks on the window of [L] digits from digit [i], in the code's order. *)
Definition window_ok (line : gostring) (idxs : list nat) (i L : nat) : bool :=
  let w := slice idxs i (i + L) in
  isValidBoundary line (default O (idxs !! i)) (S (default O (idxs !! (i + L - 1)%nat))) &&
  negb (countDistinctDigits line w <? 2)%nat && matchesCardBIN line w && validLuhnFromIndices line w.

Definition window_range (idxs : list nat) (i L : nat) : Range :=
  {| rStart := default O (idxs !! i); rEnd := S (default O (idxs !! (i + L - 1)%nat)) |}.

(** The windows of lengths 13 to [maxLen] at digit [i]. *)
Definition windows_at (line : gostring) (idxs : list nat) (i maxLen : nat) : list Range :=
  window_range idxs i <$> filter (fun L => window_ok line idxs i L = true) (seq 13 (maxLen - 12)).

(** [for runEnd < numDigits && connected { runEnd++ }]. *)
Fixpoint advance_run (fuel : nat) (line : gostring) (idxs : list nat) (runEnd : nat) : nat :=
  match fuel with
  | O => runEnd
  | S k =>
    match idxs !! (runEnd - 1)%nat, idxs !! runEnd with
    | Some a, Some b => if digitsConnected line a b then advance_run k line idxs (S runEnd) else runEnd
    | _, _ => runEnd
    end
  end.

(** The loop over the starting digit. *)
Fixpoint luhn_loop (todo : nat) (line : gostring) (idxs : list nat) (i runEnd : nat) : list Range :=
  match todo with
  | O => []
  | S k =>
    let run0 := if (runEnd <? i + 1)%nat then (i + 1)%nat else runEnd in
    let run := advance_run (length idxs - run0) line idxs run0 in
    let m1 := if (length idxs <? i + 19)%nat then (length idxs - i)%nat else 19%nat in
    let maxLen := if (run - i <? m1)%nat then (run - i)%nat else m1 in
    windows_at line idxs i maxLen ++ luhn_loop k line idxs (S i) run
  end.

(** [mergeRanges]. *)
Fixpoint merge_from (current : Range) (ranges : list Range) : list Range :=
  match ranges with
  | [] => [current]
  | nxt :: rest =>
    if (rStart nxt <=? rEnd current)%nat then
      merge_from (if (rEnd current <? rEnd nxt)%nat
                  then {| rStart := rStart current; rEnd := rEnd nxt |} else current) rest
    else current :: merge_from nxt rest
  end.

Definition mergeRanges (ranges : list Range) : list Range :=
  match ranges with [] => [] | r :: rs => merge_from r rs end.

(** [FindLuhnSequences]. *)
Definition FindLuhnSequences (line : gostring) : list Range :=
  if negb (ContainsAny line (go "0123456789")) then []
  else if (length line <? 13)%nat then []
  else
    let idxs := digitIndices line in
    if (length idxs <? 13)%nat then []
    else mergeRanges (luhn_loop (length idxs - 12) line idxs 0 0).

End boundary.

(** ** Card ranges

    The scan of [FindLuhnSequences] caps the window lengths by the run of
    connected digits and never walks a prefix twice; here it is proved equal to
    the reference that tests [areDigitsConnected] on every window, and its
    result is described: which positions of the line it covers. *)

(** ** The reference *)

Section reference.
Context `{U : Unicode}.

(** Every start, every length from 13 to 19, the connection tested on the window. *)
Definition reference_ok (line : gostring) (idxs : list nat) (i L : nat) : bool :=
  (i + L <=? length idxs)%nat && areDigitsConnected line (slice idxs i (i + L)) &&
  window_ok line idxs i L.

Definition reference_windows (line : gostring) (idxs : list nat) (i : nat) : list Range :=
  window_range idxs i <$> filter (fun L => reference_ok line idxs i L = true) (seq 13 7).

Definition reference_ranges (line : gostring) : list Range :=
  let idxs := digitIndices line in
  seq 0 (length idxs - 12) ≫= reference_windows line idxs.

End reference.

(** ** Runs of connected digits *)

Section runs.
Context (line : gostring) (idxs : list nat).

(** The digits [k] and [k+1] are connected. *)
Definition linked (k : nat) : Prop :=
  match idxs !! k, idxs !! S k with
  | Some a, Some b => digitsConnected line a b = true
  | _, _ => False
  end.

Lemma areDigitsConnected_linked a b :
  (b <= length idxs)%nat ->
  areDigitsConnected line (slice idxs a b) = true <-> forall k, (a <= k)%nat -> (S k < b)%nat -> linked k.
Proof.
  remember (b - a)%nat as n eqn:En. revert a En. induction n as [|n IH]; intros a En Hb.
  - unfold slice. rewrite <-En. simpl. split; [|done]. intros _ k H1 H2. lia.
  - destruct (idxs !! a) as [x|] eqn:Ex; [|apply lookup_ge_None in Ex; lia].
    assert (slice idxs a b = x :: slice idxs (S a) b) as ->.
    { unfold slice. rewrite <-En. rewrite (drop_S _ _ _ Ex). simpl. f_equal. f_equal. lia. }
    specialize (IH (S a) ltac:(lia) Hb). destruct n as [|n].
    + unfold slice. replace (b - S a)%nat with O by lia. simpl. split; [|done].
      intros _ k H1 H2. lia.
    + destruct (idxs !! S a) as [y|] eqn:Ey; [|apply lookup_ge_None in Ey; lia].
      assert (slice idxs (S a) b = y :: slice idxs (S (S a)) b) as Es.
      { unfold slice. replace (b - S a)%nat with (S (b - S (S a))) by lia.
        by rewrite (drop_S _ _ _ Ey). }
      rewrite Es in *. change (areDigitsConnected line (x :: y :: slice idxs (S (S a)) b)) with
        (digitsConnected line x y && areDigitsConnected line (y :: slice idxs (S (S a)) b)).
      rewrite andb_true_iff, IH. split.
      * intros [Hxy Ht] k H1 H2. destruct (decide (k = a)) as [->|]; [|apply Ht; lia].
        unfold linked. by rewrite Ex, Ey.
      * intros H. split; [|intros k ? ?; apply H; lia].
        specialize (H a ltac:(lia) ltac:(lia)). unfold linked in H. by rewrite Ex, Ey in H.
Qed.

(** [advance_run] stops at the end of the run. *)
Lemma advance_run_spec fuel r0 :
  (1 <= r0)%nat -> (length idxs <= r0 + fuel)%nat ->
  let r := advance_run fuel line idxs r0 in
  (r0 <= r)%nat /\ (r <= Nat.max r0 (length idxs))%nat /\
  (forall k, (r0 <= S k)%nat -> (S k < r)%nat -> linked k) /\
  ((r < length idxs)%nat -> ~ linked (r - 1)).
Proof.
  revert r0. induction fuel as [|f IH]; intros r0 H1 H2; simpl.
  - split_and!; [lia|lia|intros; lia|intros; lia].
  - assert (S (r0 - 1) = r0) as Hr by lia.
    destruct (idxs !! (r0 - 1)%nat) as [a|] eqn:Ea; [destruct (idxs !! r0) as [b|] eqn:Eb|].
    + destruct (digitsConnected line a b) eqn:E.
      * destruct (IH (S r0) ltac:(lia) ltac:(lia)) as (I1 & I2 & I3 & I4).
        apply lookup_lt_Some in Eb as Hlt. split_and!; [lia|lia| |done].
        intros k Hk1 Hk2. destruct (decide (S k = r0)) as [Hk|]; [|apply I3; lia].
        unfold linked. replace k with (r0 - 1)%nat by lia. by rewrite Ea, Hr, Eb.
      * split_and!; [lia|lia|intros; lia|]. intros _ Hl. unfold linked in Hl.
        rewrite Hr, Ea, Eb in Hl. congruence.
    + split_and!; [lia|lia|intros; lia|]. intros Hlt. apply lookup_ge_None in Eb. lia.
    + split_and!; [lia|lia|intros; lia|]. intros Hlt. apply lookup_ge_None in Ea. lia.
Qed.

End runs.

(** ** The scan equals the reference *)

Lemma filter_ext_in {A} (P Q : A -> Prop) `{!forall x, Decision (P x), !forall x, Decision (Q x)} (l : list A) :
  (forall x, x ∈ l -> P x <-> Q x) -> filter P l = filter Q l.
Proof.
  induction l as [|x l IH]; intros HPQ; [done|]. rewrite !filter_cons.
  rewrite IH by (intros; apply HPQ; set_solver). specialize (HPQ x ltac:(set_solver)).
  destruct (decide (P x)), (decide (Q x)); tauto.
Qed.

Section scan.
Context `{U : Unicode} (line : gostring) (idxs : list nat).

(** [run] is the end of the run of connected digits that starts at digit [i]. *)
Definition run_end (i run : nat) : Prop :=
  forall e, (i < e <= length idxs)%nat ->
    (e <= run)%nat <-> areDigitsConnected line (slice idxs i e) = true.

Definition capped (i run : nat) : nat :=
  let m1 := if (length idxs <? i + 19)%nat then (length idxs - i)%nat else 19%nat in
  if (run - i <? m1)%nat then (run - i)%nat else m1.

Lemma windows_at_reference i run :
  (i < length idxs)%nat -> run_end i run ->
  windows_at line idxs i (capped i run) = reference_windows line idxs i.
Proof.
  intros Hi Hrun. unfold windows_at, reference_windows. f_equal.
  assert (capped i run <= 19 /\ (forall L, (L <= capped i run <-> L <= 19 /\ i + L <= length idxs /\ L <= run - i)))%nat
    as [H19 Hcap].
  { unfold capped. destruct (length idxs <? i + 19)%nat eqn:E1; boolp;
      (destruct (_ <? _)%nat eqn:E2; boolp; (split; [lia|intros; lia])). }
  assert (forall L, (13 <= L <= 19)%nat ->
    (L <= capped i run)%nat <-> (i + L <=? length idxs)%nat && areDigitsConnected line (slice idxs i (i + L)) = true) as Hiff.
  { intros L HL. rewrite Hcap, andb_true_iff, Nat.leb_le.
    destruct (decide (i + L <= length idxs)%nat) as [Hle|]; [|lia].
    rewrite <-(Hrun (i + L)%nat) by lia. lia. }
  replace (seq 13 7) with (seq 13 (capped i run - 12) ++ seq (13 + (capped i run - 12)) (7 - (capped i run - 12)))
    by (rewrite <-seq_app; f_equal; lia).
  rewrite filter_app, (filter_none _ (seq (13 + _) _)), app_nil_r.
  - apply filter_ext_in. intros L [H1 H2]%elem_of_seq. unfold reference_ok.
    rewrite (proj1 (Hiff L ltac:(lia))) by lia. done.
  - intros L [H1 H2]%elem_of_seq Hok. unfold reference_ok in Hok.
    apply andb_true_iff in Hok as [Hok _]. apply (Hiff L ltac:(lia)) in Hok. lia.
Qed.

(** The invariant of the loop: the digits from [i] to [runEnd] are connected. *)
Definition run_inv (i runEnd : nat) : Prop :=
  (runEnd <= length idxs)%nat /\ forall k, (i <= k)%nat -> (S k < runEnd)%nat -> linked line idxs k.

Lemma run_step i runEnd :
  (i < length idxs)%nat -> run_inv i runEnd ->
  let run0 := if (runEnd <? i + 1)%nat then (i + 1)%nat else runEnd in
  let run := advance_run (length idxs - run0) line idxs run0 in
  run_end i run /\ run_inv (S i) run.
Proof.
  intros Hi [Hle Hinv]. intros run0 run.
  assert (i < run0 /\ run0 <= length idxs /\ (forall k, i <= k -> S k < run0 -> linked line idxs k))%nat
    as (H1 & H2 & H3).
  { unfold run0. destruct (runEnd <? i + 1)%nat eqn:E; boolp; split_and!; auto; try lia; intros; lia. }
  destruct (advance_run_spec line idxs (length idxs - run0) run0 ltac:(lia) ltac:(lia)) as (I1 & I2 & I3 & I4).
  fold run in I1, I2, I3, I4.
  assert (forall k, (i <= k)%nat -> (S k < run)%nat -> linked line idxs k) as Hall.
  { intros k Hk1 Hk2. destruct (decide (S k < run0)%nat); [by apply H3|apply I3; lia]. }
  split.
  - intros e He. rewrite areDigitsConnected_linked by lia. split.
    + intros Her k Hk1 Hk2. apply Hall; lia.
    + intros H. destruct (decide (e <= run)%nat) as [|Hn]; [done|]. exfalso.
      apply I4; [lia|]. apply H; lia.
  - split; [lia|]. intros k Hk1 Hk2. apply Hall; lia.
Qed.

Lemma luhn_loop_reference todo i runEnd :
  (i + todo <= length idxs)%nat -> run_inv i runEnd ->
  luhn_loop todo line idxs i runEnd = seq i todo ≫= reference_windows line idxs.
Proof.
  revert i runEnd. induction todo as [|k IH]; intros i runEnd Hle Hinv; [done|].
  cbn [luhn_loop seq]. rewrite bind_cons.
  destruct (run_step i runEnd ltac:(lia) Hinv) as [Hrun Hnext].
  rewrite <-(windows_at_reference i _ ltac:(lia) Hrun). f_equal. apply IH; [lia|done].
Qed.

End scan.

Lemma digitIndices_length line : (length (digitIndices line) <= length line)%nat.
Proof. unfold digitIndices. etrans; [apply length_filter|]. by rewrite length_seq. Qed.

Lemma digitIndices_lookup line k i :
  digitIndices line !! k = Some i -> at_is line i isASCIIDigit = true /\ (i < length line)%nat.
Proof.
  intros H%list_elem_of_lookup_2. unfold digitIndices in H.
  apply list_elem_of_filter in H as [H1 H2%elem_of_seq]. split; [done|lia].
Qed.

Lemma filter_seq_increasing (P : nat -> Prop) `{!forall x, Decision (P x)} a n k k' i i' :
  filter P (seq a n) !! k = Some i -> filter P (seq a n) !! k' = Some i' ->
  (a <= i)%nat /\ ((k < k')%nat -> (i < i')%nat).
Proof.
  revert a k k' i i'. induction n as [|n IH]; intros a k k' i i'; [done|].
  cbn [seq]. rewrite filter_cons. destruct (decide (P a)).
  - destruct k as [|k]; [simpl; intros [= <-]|].
    + intros Hi'. split; [done|]. intros Hk. destruct k' as [|k']; [lia|]. simpl in Hi'.
      destruct (IH _ _ _ _ _ Hi' Hi') as [? _]. lia.
    + intros Hi Hi'. simpl in Hi. destruct (IH _ _ _ _ _ Hi Hi) as [? _]. split; [lia|].
      intros Hk. destruct k' as [|k']; [lia|]. simpl in Hi'. eapply IH; [done..|lia].
  - intros Hi Hi'. destruct (IH _ _ _ _ _ Hi Hi') as [? ?]. split; [lia|done].
Qed.

Lemma digitIndices_increasing line k k' i i' :
  digitIndices line !! k = Some i -> digitIndices line !! k' = Some i' -> (k < k')%nat -> (i < i')%nat.
Proof. intros H H'. eapply filter_seq_increasing; done. Qed.

(** ** Lists of ranges *)

(** A number starts with a digit, a '+' or a '('. *)
Definition number_start (c : byte) : bool := isASCIIDigit c || (c =? ch "+") || (c =? ch "(").

(** The ranges lie in the line from [lo] on, in order, none is empty, each starts a
    number, and at least [gap] bytes are left between two of them. *)
Fixpoint ranges_from (line : gostring) (gap lo_ : nat) (l : list Range) : Prop :=
  match l with
  | [] => True
  | r :: rs =>
    (lo_ <= rStart r)%nat /\ (rStart r < rEnd r <= length line)%nat /\
    at_is line (rStart r) number_start = true /\ ranges_from line gap (rEnd r + gap) rs
  end.

Lemma ranges_from_weaken line gap gap' lo_ lo' l :
  (gap' <= gap)%nat -> (lo' <= lo_)%nat -> ranges_from line gap lo_ l -> ranges_from line gap' lo' l.
Proof.
  intros Hg. revert lo_ lo'. induction l as [|r rs IH]; intros lo_ lo' Hlo; [done|].
  intros (H1 & H2 & H3 & H4). split_and!; [lia|lia|lia|done|].
  eapply IH; [|exact H4]. lia.
Qed.

Definition range_ok (line : gostring) (r : Range) : Prop :=
  (rStart r < rEnd r <= length line)%nat /\ at_is line (rStart r) number_start = true.

Definition starts_in_order (l : list Range) : Prop :=
  forall k k' r r', l !! k = Some r -> l !! k' = Some r' -> (k <= k')%nat -> (rStart r <= rStart r')%nat.

Lemma starts_in_order_tail r l : starts_in_order (r :: l) -> starts_in_order l.
Proof. intros H k k' r1 r2 H1 H2 Hk. apply (H (S k) (S k') r1 r2); [done..|lia]. Qed.

(** Merging the first two ranges keeps the order of the starts. *)
Lemma starts_in_order_merge cur r l e :
  starts_in_order (cur :: r :: l) -> starts_in_order ({| rStart := rStart cur; rEnd := e |} :: l).
Proof.
  intros Ho k k' r1 r2 H1 H2 Hk. destruct k as [|k].
  - simpl in H1. simplify_eq. destruct k' as [|k']; [simpl in H2; simplify_eq; simpl; lia|].
    apply (Ho 0%nat (S (S k')) cur r2); [done|done|lia].
  - destruct k' as [|k']; [lia|]. apply (Ho (S (S k)) (S (S k'))); [done|done|lia].
Qed.

(** A position is covered by a list of ranges. *)
Definition covers (l : list Range) (p : nat) : Prop :=
  exists r, r ∈ l /\ (rStart r <= p < rEnd r)%nat.

Lemma covers_cons r l p : covers (r :: l) p <-> (rStart r <= p < rEnd r)%nat \/ covers l p.
Proof.
  unfold covers. split.
  - intros (r' & [->|H]%elem_of_cons & Hp); [by left|right; eauto].
  - intros [Hp|(r' & H & Hp)]; [exists r|exists r']; (split; [set_solver|done]).
Qed.

(** The range [mergeRanges] goes on with. *)
Lemma merged_head cur r :
  (if (rEnd cur <? rEnd r)%nat then {| rStart := rStart cur; rEnd := rEnd r |} else cur) =
  {| rStart := rStart cur; rEnd := Nat.max (rEnd cur) (rEnd r) |}.
Proof. destruct cur as [cs ce]. simpl. destruct (_ <? _)%nat eqn:E; boolp; f_equal; lia. Qed.

Lemma merge_from_ok line cur l lo_ :
  (lo_ <= rStart cur)%nat -> range_ok line cur -> Forall (range_ok line) l ->
  starts_in_order (cur :: l) -> ranges_from line 1 lo_ (merge_from cur l).
Proof.
  revert cur lo_. induction l as [|r l IH]; intros cur lo_ Hlo [Hc Hs] Hl Ho; simpl.
  - done.
  - apply Forall_cons in Hl as [[Hr Hrs] Hl]. rewrite merged_head.
    assert (rStart cur <= rStart r)%nat by (apply (Ho 0%nat 1%nat); [done|done|lia]).
    destruct (rStart r <=? rEnd cur)%nat eqn:E; boolp.
    + apply IH; [done|split; simpl; [lia|done]|done|by eapply starts_in_order_merge].
    + split_and!; [done|lia|lia|done|].
      apply IH; [lia|done|done|by eapply starts_in_order_tail].
Qed.

Lemma merge_from_covers cur l p :
  starts_in_order (cur :: l) -> covers (merge_from cur l) p <-> covers (cur :: l) p.
Proof.
  revert cur. induction l as [|r l IH]; intros cur Ho; simpl; [done|]. rewrite merged_head.
  assert (rStart cur <= rStart r)%nat as Hle by (apply (Ho 0%nat 1%nat); [done|done|lia]).
  destruct (rStart r <=? rEnd cur)%nat eqn:E; boolp.
  - rewrite IH by (by eapply starts_in_order_merge). rewrite !covers_cons. simpl.
    split.
    + intros [Hp|Hp]; [|tauto]. destruct (decide (p < rEnd cur)%nat); [left; lia|right; left; lia].
    + intros [Hp|[Hp|Hp]]; [left; lia|left; lia|tauto].
  - rewrite covers_cons, IH by (by eapply starts_in_order_tail). by rewrite !(covers_cons cur).
Qed.

(** ** What [FindLuhnSequences] finds *)

Section found.
Context `{U : Unicode} (line : gostring).

Let idxs := digitIndices line.

(** The window of [L] digits from digit [i] is a card number. *)
Definition card_window (i L : nat) : Prop :=
  (13 <= L <= 19)%nat /\ (i + L <= length idxs)%nat /\
  areDigitsConnected line (slice idxs i (i + L)) = true /\ window_ok line idxs i L = true.

Lemma reference_windows_elem i r :
  r ∈ reference_windows line idxs i <-> exists L, r = window_range idxs i L /\ card_window i L.
Proof.
  unfold reference_windows, card_window. rewrite list_elem_of_fmap.
  setoid_rewrite list_elem_of_filter. setoid_rewrite elem_of_seq. unfold reference_ok.
  split.
  - intros (L & -> & H & HL). boolp. exists L. split_and!; done || lia.
  - intros (L & -> & HL & Hi & Hc & Hw). exists L. split; [done|]. rewrite Hc, Hw.
    rewrite (proj2 (Nat.leb_le _ _) Hi). split; [done|lia].
Qed.

Lemma window_range_ok i L : card_window i L -> range_ok line (window_range idxs i L).
Proof.
  intros (HL & Hi & _). unfold range_ok, window_range. simpl.
  destruct (idxs !! i) as [a|] eqn:Ea; [|apply lookup_ge_None in Ea; lia].
  destruct (idxs !! (i + L - 1)%nat) as [b|] eqn:Eb; [|apply lookup_ge_None in Eb; lia].
  pose proof (digitIndices_increasing _ _ _ _ _ Ea Eb ltac:(lia)).
  destruct (digitIndices_lookup _ _ _ Ea) as [Hd _]. destruct (digitIndices_lookup _ _ _ Eb) as [_ Hb].
  simpl. split; [lia|]. apply at_is_true in Hd as (c & Hc & Hd). apply at_is_true.
  exists c. split; [done|]. unfold number_start. by rewrite Hd.
Qed.

(** The ranges of the reference start in order. *)
Lemma reference_in_order a n :
  starts_in_order (seq a n ≫= reference_windows line idxs) /\
  forall r, r ∈ (seq a n ≫= reference_windows line idxs) ->
    exists i L, (a <= i)%nat /\ r = window_range idxs i L /\ card_window i L.
Proof.
  revert a. induction n as [|n IH]; intros a; [by split; [intros ? ? ? ? H|intros r H; set_solver]|].
  destruct (IH (S a)) as [IH1 IH2]. cbn [seq]. rewrite bind_cons. split.
  - intros k k' r r' H H' Hk. rewrite lookup_app in H, H'.
    destruct (reference_windows line idxs a !! k) as [r1|] eqn:E1;
      destruct (reference_windows line idxs a !! k') as [r2|] eqn:E2; simplify_eq.
    + apply list_elem_of_lookup_2, reference_windows_elem in E1 as (L1 & -> & _).
      apply list_elem_of_lookup_2, reference_windows_elem in E2 as (L2 & -> & _). done.
    + apply list_elem_of_lookup_2, reference_windows_elem in E1 as (L1 & -> & HL1).
      apply list_elem_of_lookup_2, IH2 in H' as (i & L2 & Hi & -> & HL2). simpl.
      destruct HL1 as (? & HL1 & _), HL2 as (? & HL2 & _).
      destruct (idxs !! a) as [x|] eqn:Ea; [|apply lookup_ge_None in Ea; lia].
      destruct (idxs !! i) as [y|] eqn:Ei; [|apply lookup_ge_None in Ei; lia].
      pose proof (digitIndices_increasing _ _ _ _ _ Ea Ei ltac:(lia)). simpl. lia.
    + apply lookup_ge_None in E1. apply lookup_lt_Some in E2. lia.
    + eapply IH1; [done..|]. lia.
  - intros r [H|H]%elem_of_app; [|apply IH2 in H as (i & L & ? & ?); exists i, L; split; [lia|done]].
    apply reference_windows_elem in H as (L & ? & ?). by exists a, L.
Qed.

Lemma FindLuhn_reference : FindLuhnSequences line = mergeRanges (reference_ranges line).
Proof.
  unfold FindLuhnSequences, reference_ranges. fold idxs.
  destruct (decide (length idxs < 13)%nat) as [Hlt|Hge].
  - replace (length idxs - 12)%nat with O by lia. rewrite (proj2 (Nat.ltb_lt _ _) Hlt).
    by cases.
  - assert (13 <= length line)%nat by (pose proof (digitIndices_length line); unfold idxs in *; lia).
    rewrite (proj2 (Nat.ltb_ge _ _)) by lia. rewrite (proj2 (Nat.ltb_ge _ _)) by lia.
    rewrite luhn_loop_reference; [|lia|split; [lia|intros; lia]].
    destruct (ContainsAny line (go "0123456789")) eqn:E; [done|]. exfalso.
    destruct (idxs !! O) as [i|] eqn:Ei; [|apply lookup_ge_None in Ei; lia].
    apply digitIndices_lookup in Ei as [(c & Hc & Hd)%at_is_true _].
    apply not_true_iff_false in E. apply E, ContainsAny_true. exists c.
    split; [by eapply list_elem_of_In, list_elem_of_lookup_2|].
    unfold isASCIIDigit, between in Hd. boolp. simpl. lia.
Qed.

Lemma reference_ranges_ok : Forall (range_ok line) (reference_ranges line).
Proof.
  apply Forall_forall. intros r H. unfold reference_ranges in H. fold idxs in H.
  apply (proj2 (reference_in_order _ _)) in H as (i & L & _ & -> & HL). by apply window_range_ok.
Qed.

Lemma FindLuhn_ranges_from : ranges_from line 1 0 (FindLuhnSequences line).
Proof.
  rewrite FindLuhn_reference. pose proof reference_ranges_ok as Hok.
  pose proof (proj1 (reference_in_order 0 (length idxs - 12))) as Ho. fold (reference_ranges line) in Ho.
  unfold mergeRanges. destruct (reference_ranges line) as [|r l] eqn:E; [done|].
  apply Forall_cons in Hok as [Hr Hl]. apply merge_from_ok; [lia|done|done|].
  unfold reference_ranges in E. fold idxs in E. by rewrite <-E.
Qed.

Lemma FindLuhn_covers p :
  covers (FindLuhnSequences line) p <->
  exists i L, card_window i L /\ (rStart (window_range idxs i L) <= p < rEnd (window_range idxs i L))%nat.
Proof.
  rewrite FindLuhn_reference.
  pose proof (reference_in_order 0 (length idxs - 12)) as [Ho Hin].
  assert (covers (reference_ranges line) p <->
    exists i L, card_window i L /\ (rStart (window_range idxs i L) <= p < rEnd (window_range idxs i L))%nat) as Hc.
  { unfold covers, reference_ranges. fold idxs. split.
    - intros (r & H & Hp). apply Hin in H as (i & L & _ & -> & HL). by exists i, L.
    - intros (i & L & HL & Hp). eexists. split; [|exact Hp]. apply list_elem_of_bind. exists i.
      split; [apply reference_windows_elem; by exists L|]. destruct HL as (? & ? & _).
      apply elem_of_seq. lia. }
  rewrite <-Hc. unfold mergeRanges, reference_ranges. fold idxs.
  destruct (seq 0 (length idxs - 12) ≫= reference_windows line idxs) as [|r l]; [done|].
  by apply merge_from_covers.
Qed.

End found.

(** ** The checksum *)

(** What a digit adds to the sum. *)
Definition luhn_digit (alternate : bool) (d : Z) : Z :=
  if alternate then (if 9 <? d * 2 then d * 2 - 9 else d * 2) else d.

Lemma luhn_digit_injective alt a b :
  0 <= a <= 9 -> 0 <= b <= 9 -> a <> b -> (luhn_digit alt a - luhn_digit alt b) mod 10 <> 0.
Proof.
  intros. unfold luhn_digit. destruct alt; [destruct (9 <? a * 2) eqn:E1, (9 <? b * 2) eqn:E2; boolp|]; lia_div.
Qed.

Lemma digit_at_insert_ne line i j c : i <> j -> digit_at (<[i := c]> line) j = digit_at line j.
Proof. intros H. unfold digit_at, byte_at. by rewrite list_lookup_insert_ne. Qed.

Lemma luhn_sum_notin line i c l alt : i ∉ l -> luhn_sum (<[i := c]> line) l alt = luhn_sum line l alt.
Proof.
  revert alt. induction l as [|j l IH]; intros alt H; simpl; [done|].
  rewrite digit_at_insert_ne, IH by set_solver. done.
Qed.

(** Changing one digit changes the sum by what that digit adds. *)
Lemma luhn_sum_change line i c l alt :
  i ∈ l -> NoDup l -> exists alt',
    luhn_sum (<[i := c]> line) l alt =
    luhn_sum line l alt + (luhn_digit alt' (digit_at (<[i := c]> line) i) - luhn_digit alt' (digit_at line i)).
Proof.
  revert alt. induction l as [|j l IH]; intros alt Hin Hnd; [set_solver|].
  apply NoDup_cons in Hnd as [Hj Hnd]. destruct (decide (i = j)) as [->|Hne].
  - exists alt. simpl. rewrite luhn_sum_notin by done. fold (luhn_digit alt (digit_at line j)).
    fold (luhn_digit alt (digit_at (<[j := c]> line) j)). lia.
  - destruct (IH (negb alt)) as [alt' Hs]; [set_solver|done|]. exists alt'. simpl.
    rewrite digit_at_insert_ne, Hs by done. lia.
Qed.

Lemma validLuhn_change line indices i c :
  i ∈ indices -> NoDup indices -> (i < length line)%nat ->
  at_is line i isASCIIDigit = true -> isASCIIDigit c = true -> line !! i <> Some c ->
  validLuhnFromIndices line indices = true -> validLuhnFromIndices (<[i := c]> line) indices = false.
Proof.
  intros Hin Hnd Hlt (b & Hb & Hd)%at_is_true Hc Hne Hv. assert (b <> c) by congruence.
  unfold validLuhnFromIndices in *. boolp.
  destruct (luhn_sum_change line i c (rev indices) false) as [alt Hs];
    [by apply list_elem_of_In, in_rev; rewrite rev_involutive; apply list_elem_of_In|
     by apply NoDup_ListNoDup, NoDup_rev, NoDup_ListNoDup|].
  apply Z.eqb_neq. rewrite Hs. unfold digit_at, byte_at in *. rewrite list_lookup_insert_eq, Hb in * by done.
  simpl in *. unfold isASCIIDigit, between in *. boolp.
  rewrite !(Z.mod_small _ 256) by lia.
  pose proof (luhn_digit_injective alt (c - 48) (b - 48) ltac:(lia) ltac:(lia) ltac:(lia)).
  lia_div.
Qed.
