(* ===== verification/Shapes.v ===== *)
(** * Numbers known by their shape or their key

    [pkg/scanner/phone.go], [idnumber.go], [session.go], [otp.go] and [dob.go]:
    telephone numbers, identity numbers, session ids, one-time codes and dates of
    birth.  A matcher [matchX line i] returns the index after the match at
    [line[i:]], or 0. *)

From Stdlib Require Import ZArith Lia Bool.
From stdpp Require Import base list option sets.
From S2P Require Import Prelude GoStrings Luhn.

(** ** Digit groups *)

(** The digits at [line[j:]]. *)
Definition digit_run (line : gostring) (j : nat) : nat := span_len isASCIIDigit (drop j line).

Definition is_digit_at (line : gostring) (j : nat) : bool := at_is line j isASCIIDigit.

Definition at_byte (line : gostring) (j : nat) (c : byte) : bool := at_is line j (Z.eqb c).

(** [digitGroup]. *)
Definition digitGroup (line : gostring) (j k : nat) : bool :=
  (j + k <=? length line)%nat && forallb isASCIIDigit (slice line j (j + k)).

(** [nanpGroup]. *)
Definition nanpGroup (line : gostring) (j k : nat) : bool :=
  digitGroup line j k && at_is line j (fun c => ch "2" <=? c).

(** [matchGroupedDigits]: the scan from [j], counting digits. *)
Fixpoint grouped_digits (line : gostring) (quoted : bool) (fuel j digits : nat) : nat * nat :=
  match fuel with
  | O => (j, digits)
  | S k =>
    match line !! j with
    | None => (j, digits)
    | Some c =>
      if isASCIIDigit c then grouped_digits line quoted k (S j) (S digits)
      else if ((c =? ch "-") || (c =? ch ".") || ((c =? ch " ") && quoted)) &&
              is_digit_at line (S j) && is_digit_at line (j - 1)
      then grouped_digits line quoted k (S j) digits
      else (j, digits)
    end
  end.

Definition is_quote (c : byte) : bool := (c =? dquote) || (c =? squote).

Definition matchGroupedDigits (line : gostring) (i minDigits maxDigits : nat) : nat :=
  let quoted := (0 <? i)%nat && at_is line (i - 1) is_quote in
  let '(j, digits) := grouped_digits line quoted (S (length line - i)) i 0 in
  if (digits <? minDigits)%nat || (maxDigits <? digits)%nat then O else j.

Definition minIDDigits : nat := 6.
Definition maxIDDigits : nat := 15.
Definition minOTPDigits : nat := 4.
Definition maxOTPDigits : nat := 8.
Definition minSessionDigits : nat := 10.

Definition matchKeyedIDNumber (line : gostring) (i : nat) : nat :=
  matchGroupedDigits line i minIDDigits maxIDDigits.

Definition matchKeyedOTP (line : gostring) (i : nat) : nat :=
  matchGroupedDigits line i minOTPDigits maxOTPDigits.

Definition matchSessionNumber (line : gostring) (i : nat) : nat :=
  let k := digit_run line i in
  if (k <? minSessionDigits)%nat then O else (i + k)%nat.

(** ** Dates *)

(** [readDigits]: the value of one to [max] digits and the index after them. *)
Definition digits_value (s : gostring) : Z := foldl (fun v c => v * 10 + (c - 48)) 0 s.

Definition readDigits (line : gostring) (i max : nat) : option Z * nat :=
  let k := Nat.min max (digit_run line i) in
  if (k =? 0)%nat then (None, i) else (Some (digits_value (slice line i (i + k))), (i + k)%nat).

(** [atoiN]. *)
Definition atoiN (line : gostring) (i k : nat) : Z := digits_value (slice line i (i + k)).

Definition plausibleYear (y : Z) : bool := between 1900 y 2099.

Definition plausibleDayMonth (a b : Z) : bool :=
  (1 <=? a) && (1 <=? b) && (((a <=? 31) && (b <=? 12)) || ((a <=? 12) && (b <=? 31))).

Definition date_sep (c : byte) : bool := (c =? ch "/") || (c =? ch ".") || (c =? ch "-").

(** [skipTimeOfDay]: the optional zone, then the whole time part. *)
Definition skip_zone (line : gostring) (k : nat) : nat :=
  if at_is line k (fun c => (c =? ch "Z") || (c =? ch "z")) then S k
  else if at_is line k (fun c => (c =? ch "+") || (c =? ch "-")) && digitGroup line (S k) 2 then
    let k := (k + 3)%nat in
    if (k + 2 <? length line)%nat && at_byte line k (ch ":") && digitGroup line (S k) 2 then (k + 3)%nat
    else if digitGroup line k 2 then (k + 2)%nat
    else k
  else k.

Definition skip_seconds (line : gostring) (k : nat) : nat :=
  if (k + 2 <? length line)%nat && at_byte line k (ch ":") && digitGroup line (S k) 2 then
    let k := (k + 3)%nat in
    if (k + 1 <? length line)%nat && at_is line k (fun c => (c =? ch ".") || (c =? ch ",")) &&
       is_digit_at line (S k)
    then (S k + digit_run line (S k))%nat
    else k
  else k.

Definition skipTimeOfDay (line : gostring) (j : nat) : nat :=
  if at_is line j (fun c => (c =? ch "T") || (c =? ch "t") || (c =? ch " ")) then
    let k := S j in
    if negb (digitGroup line k 2) || (length line <=? k + 2)%nat ||
       negb (at_byte line (k + 2) (ch ":")) || negb (digitGroup line (k + 3) 2)
    then j
    else skip_zone line (skip_seconds line (k + 5))
  else j.

(** [matchISODate]. *)
Definition matchISODate (line : gostring) (i : nat) : nat :=
  let year := atoiN line i 4 in
  let j := (i + 4)%nat in
  match line !! j with
  | None => O
  | Some sep =>
    if negb (date_sep sep) then O
    else if negb (digitGroup line (S j) 2) || negb (at_byte line (j + 3) sep) ||
            negb (digitGroup line (j + 4) 2) then O
    else
      let month := atoiN line (S j) 2 in
      let day := atoiN line (j + 4) 2 in
      if negb (plausibleYear year) || (month <? 1) || (12 <? month) || (day <? 1) || (31 <? day)
      then O
      else skipTimeOfDay line (j + 6)
  end.

(** [matchKeyedDate]. *)
Definition matchKeyedDate (line : gostring) (i : nat) : nat :=
  if (i + 4 <=? length line)%nat && digitGroup line i 4 then matchISODate line i
  else
    match readDigits line i 2 with
    | (None, _) => O
    | (Some a, j) =>
      match line !! j with
      | None => O
      | Some sep =>
        if negb (date_sep sep) then O
        else
          match readDigits line (S j) 2 with
          | (None, _) => O
          | (Some b, j) =>
            if negb (at_byte line j sep) || negb (digitGroup line (S j) 4) then O
            else
              let year := atoiN line (S j) 4 in
              if negb (plausibleYear year) || negb (plausibleDayMonth a b) then O else (j + 5)%nat
          end
      end
    end.

(** ** Telephone numbers *)

Definition minPhoneDigits : nat := 8.
Definition maxPhoneDigits : nat := 15.
Definition minKeyedDigits : nat := 7.
Definition maxPhoneGroup : nat := 8.
Definition maxAreaCodeDigits : nat := 4.
Definition maxPhoneGroups : nat := 6.

(** The variables of the loop of [matchPhoneGroups]. *)
Record groupState := {
  gJ : nat; gEnd : nat; gDigits : nat; gSep : byte; gDots : nat; gAfterArea : bool;
}.

Definition phone_sep (c : byte) : bool := (c =? ch " ") || (c =? ch "-") || (c =? ch ".").

(** The separator test at the head of a round: [None] is [break]; otherwise the
    index after the separator, the separator in use and the dots so far. *)
Definition group_sep (line : gostring) (first : bool) (g : groupState) :
    option (nat * byte * nat) :=
  match line !! gJ g with
  | Some c =>
    if phone_sep c then
      if negb (gSep g =? 0) && negb (c =? gSep g) then None
      else Some (S (gJ g), c, if c =? ch "." then S (gDots g) else gDots g)
    else if negb first && negb (gAfterArea g) then None
    else Some (gJ g, gSep g, gDots g)
  | None => if negb first && negb (gAfterArea g) then None else Some (gJ g, gSep g, gDots g)
  end.

(** One round; the flag says whether the loop goes on. *)
Definition group_round (line : gostring) (parens first : bool) (g : groupState) : groupState * bool :=
  match group_sep line first g with
  | None => (g, false)
  | Some (k, sep, dots) =>
    let stop := ({| gJ := gJ g; gEnd := gEnd g; gDigits := gDigits g; gSep := sep; gDots := dots;
                    gAfterArea := false |}, false) in
    if parens && first && at_byte line k (ch "(") then
      let d := Nat.min maxAreaCodeDigits (digit_run line (S k)) in
      let k := (S k + d)%nat in
      if (d =? 0)%nat || negb (at_byte line k (ch ")")) then stop
      else
        let k := S k in
        let area := at_byte line k (ch " ") && is_digit_at line (S k) in
        ({| gJ := if area then S k else k; gEnd := k; gDigits := gDigits g + d; gSep := 0;
            gDots := dots; gAfterArea := area |}, true)
    else
      let d := Nat.min maxPhoneGroup (digit_run line k) in
      let k := (k + d)%nat in
      if (d =? 0)%nat || is_digit_at line k then stop
      else
        ({| gJ := k; gEnd := k; gDigits := gDigits g + d; gSep := sep; gDots := dots;
            gAfterArea := false |}, true)
  end.

Fixpoint group_loop (line : gostring) (parens : bool) (rounds : nat) (first : bool) (g : groupState) :
    groupState :=
  match rounds with
  | O => g
  | S k =>
    let '(g', go_on) := group_round line parens first g in
    if go_on then group_loop line parens k false g' else g'
  end.

(** [matchPhoneGroups]: the end of the last group and the digit total. *)
Definition matchPhoneGroups (line : gostring) (j have_ : nat) (parens : bool) : nat * nat :=
  let g := group_loop line parens maxPhoneGroups true
             {| gJ := j; gEnd := 0; gDigits := have_; gSep := 0; gDots := 0; gAfterArea := false |} in
  if (gEnd g =? 0)%nat || (gDots g =? 1)%nat then (O, O) else (gEnd g, gDigits g).

Definition phone_total_ok (lo_ digits : nat) : bool :=
  (lo_ <=? digits)%nat && (digits <=? maxPhoneDigits)%nat.

(** [matchInternationalPhone]. *)
Definition matchInternationalPhone (line : gostring) (i : nat) : nat :=
  let run := digit_run line (S i) in
  let cc := Nat.min 3 run in
  if (cc =? 0)%nat then O
  else if (cc <? run)%nat then
    if phone_total_ok minPhoneDigits run then (S i + run)%nat else O
  else
    let '(end_, more) := matchPhoneGroups line (S i + cc) cc true in
    if (end_ =? 0)%nat || negb (phone_total_ok minPhoneDigits more) then O else end_.

(** [matchNANPPhone]. *)
Definition matchNANPPhone (line : gostring) (i : nat) : nat :=
  let paren := at_byte line i (ch "(") in
  let j := if paren then S i else i in
  if negb (nanpGroup line j 3) then O
  else
    let j := (j + 3)%nat in
    let after_area : option (nat * byte) :=
      if paren then
        if negb (at_byte line j (ch ")")) then None
        else Some (if at_byte line (S j) (ch " ") then (j + 2)%nat else S j, 0)
      else
        match line !! j with
        | Some c => if (c =? ch "-") || (c =? ch ".") then Some (S j, c) else None
        | None => None
        end in
    match after_area with
    | None => O
    | Some (j, sep) =>
      if negb (nanpGroup line j 3) then O
      else
        let j := (j + 3)%nat in
        let sep_ok :=
          if paren then at_is line j phone_sep else at_byte line j sep in
        if negb sep_ok then O
        else
          let j := S j in
          if negb (digitGroup line j 4) || is_digit_at line (j + 4) then O else (j + 4)%nat
    end.

(** [matchKeyedPhone]. *)
Definition matchKeyedPhone (line : gostring) (i : nat) : nat :=
  let run := digit_run line i in
  let d := Nat.min maxPhoneGroup run in
  if (d <? run)%nat then
    if phone_total_ok minKeyedDigits run then (i + run)%nat else O
  else
    let '(end_, more) := matchPhoneGroups line (i + d) d false in
    let '(end_, more) := if (end_ =? 0)%nat then ((i + d)%nat, d) else (end_, more) in
    if phone_total_ok minKeyedDigits more then end_ else O.

(** ** Keys *)

Definition maxKeyWords : nat := 8.

Definition key_sep (c : byte) : bool := (c =? ch "_") || (c =? ch "-") || (c =? ch ".").

Section keys.
Context `{U : Unicode}.

(** [splitKeyWords]: the loop over [i = 0..len(key)]; [None] is the [return 0] of a
    key with too many words. *)
Fixpoint split_words_from (todo : nat) (key : gostring) (i start : nat) (parts : list gostring) :
    option (list gostring) :=
  match todo with
  | O => Some parts
  | S k =>
    let boundary :=
      (i =? length key)%nat || at_is key i key_sep ||
      ((start <? i)%nat && at_is key i isUpperASCII && at_is key (i - 1) isLowerASCII) in
    if negb boundary then split_words_from k key (S i) start parts
    else
      let start' := if at_is key i key_sep then S i else i in
      if (start <? i)%nat then
        if (length parts =? maxKeyWords)%nat then None
        else split_words_from k key (S i) start' (parts ++ [ToLower (slice key start i)])
      else split_words_from k key (S i) start' parts
  end.

Definition splitKeyWords (key : gostring) : list gostring :=
  if (64 <? length key)%nat then []
  else default [] (split_words_from (S (length key)) key 0 0 []).

(** The last words of a key: [parts[np-1]], [parts[np-2]], [parts[np-3]]. *)
Definition last_word (parts : list gostring) (k : nat) : option gostring := rev parts !! k.

Definition word_is (o : option gostring) (w : gostring) : bool :=
  match o with Some v => str_eqb v w | None => false end.

Definition word_in (o : option gostring) (ws : list gostring) : bool :=
  match o with Some v => in_words v ws | None => false end.

Definition isNumberSuffix (w : gostring) : bool :=
  in_words w [go "number"; go "no"; go "num"; go "nr"].

Definition phoneKeyWords : list gostring :=
  [ go "phone"; go "telephone"; go "tel"; go "mobile"; go "msisdn"; go "cell"; go "cellphone";
    go "fax"; go "whatsapp"; go "phonenumber"; go "mobilephone" ].

(** [isPhoneKeyWords]. *)
Definition isPhoneKeyWords (parts : list gostring) : bool :=
  let last := last_word parts 0 in
  if word_is last (go "id") && word_is (last_word parts 1) (go "wa") then true
  else
    let stripped :=
      match last with Some w => isNumberSuffix w && (2 <=? length parts)%nat | None => false end in
    let last := if stripped then last_word parts 1 else last in
    if word_is last (go "contact") then stripped else word_in last phoneKeyWords.

Definition idDocumentWords : list gostring :=
  [ go "ssn"; go "passport"; go "cpf"; go "dni"; go "nin"; go "tin"; go "aadhaar"; go "zehut";
    go "teudatzehut"; go "idnumber"; go "nationalid"; go "taxid"; go "socialsecurity";
    go "passportnumber"; go "identitynumber"; go "mrn"; go "medicalrecordnumber" ].

Definition idOwnerWords : list gostring :=
  [ go "national"; go "tax"; go "taxpayer"; go "citizen"; go "identity"; go "government"; go "gov";
    go "state" ].

Definition idRecordWords : list gostring :=
  [ go "order"; go "transaction"; go "tracking"; go "invoice"; go "request"; go "session";
    go "ticket"; go "message"; go "product"; go "item"; go "batch"; go "job"; go "trace";
    go "device"; go "payment" ].

(** [isIDKeyWords]; a missing previous word is [""]. *)
Definition isIDKeyWords (parts : list gostring) : bool :=
  let stripped :=
    match last_word parts 0 with
    | Some w => isNumberSuffix w && (2 <=? length parts)%nat | None => false end in
  let k := if stripped then 1%nat else 0%nat in
  let last := last_word parts k in
  let prev := default [] (last_word parts (S k)) in
  if word_is last (go "id") then in_words prev idOwnerWords || (stripped && negb (in_words prev idRecordWords))
  else if word_is last (go "identity") then stripped
  else if word_is last (go "security") then str_eqb prev (go "social")
  else if word_is last (go "record") then stripped && str_eqb prev (go "medical")
  else word_in last idDocumentWords.

Definition sessionKeyWords : list gostring :=
  [ go "cookie"; go "session"; go "sessionid"; go "sid"; go "jsessionid"; go "phpsessid"; go "sessid" ].

(** [isSessionKeyWords]. *)
Definition isSessionKeyWords (parts : list gostring) : bool :=
  let last := last_word parts 0 in
  if word_is last (go "id") && (2 <=? length parts)%nat
  then word_is (last_word parts 1) (go "session")
  else word_in last sessionKeyWords.

Definition otpKeyWords : list gostring :=
  [ go "otp"; go "totp"; go "hotp"; go "passcode"; go "otpcode"; go "onetimecode"; go "mfacode";
    go "smscode" ].

Definition otpCodeWords : list gostring :=
  [ go "otp"; go "totp"; go "hotp"; go "mfa"; go "2fa"; go "tfa"; go "verification"; go "verify";
    go "confirmation"; go "confirm"; go "reset"; go "recovery"; go "activation"; go "login";
    go "signin"; go "auth"; go "security"; go "sms"; go "onetime"; go "pass" ].

(** [isOTPKeyWords]. *)
Definition isOTPKeyWords (parts : list gostring) : bool :=
  let last := last_word parts 0 in
  if negb (word_is last (go "code")) then word_in last otpKeyWords
  else if word_is (last_word parts 1) (go "time") then word_is (last_word parts 2) (go "one")
  else word_in (last_word parts 1) otpCodeWords.

Definition dobKeyWords : list gostring :=
  [ go "dob"; go "birthdate"; go "birthday"; go "dateofbirth"; go "born" ].

(** [isDOBKeyWords]. *)
Definition isDOBKeyWords (parts : list gostring) : bool :=
  let last := last_word parts 0 in
  if word_is last (go "date") then word_is (last_word parts 1) (go "birth")
  else if word_is last (go "birth") then
    word_is (last_word parts 1) (go "of") && word_is (last_word parts 2) (go "date")
  else word_in last dobKeyWords.

Definition key_words_are (f : list gostring -> bool) (key : gostring) : bool :=
  let parts := splitKeyWords key in negb (is_empty parts) && f parts.

Definition isPhoneKey (key : gostring) : bool := key_words_are isPhoneKeyWords key.
Definition isIDKey (key : gostring) : bool := key_words_are isIDKeyWords key.
Definition isOTPKey (key : gostring) : bool := key_words_are isOTPKeyWords key.
Definition isDOBKey (key : gostring) : bool := key_words_are isDOBKeyWords key.

(** [isSessionKey], with its cheap test on the last letter. *)
Definition isSessionKey (key : gostring) : bool :=
  let k := TrimRight key (go "_-.") in
  match last k with
  | None => false
  | Some c =>
    ContainsByte (go "end") (Z.lor c 32) && key_words_are isSessionKeyWords key
  end.

(** ** The scan *)

Definition key_byte (c : byte) : bool := isASCIILetter c || isASCIIDigit c || key_sep c.

(** Drop one byte if it satisfies [p]. *)
Definition drop_one (p : byte -> bool) (s : gostring) : gostring :=
  match s with c :: t => if p c then t else s | [] => [] end.

Definition drop_spaces (s : gostring) : gostring := drop (span_len (Z.eqb (ch " ")) s) s.

(** [phoneKeyBefore], reading the bytes before [i] from the nearest back. *)
Definition phoneKeyBefore (line : gostring) (i : nat) : gostring :=
  let r := rev (take i line) in
  let r := drop_spaces (drop_one is_quote (drop_one (Z.eqb (ch "(")) r)) in
  match r with
  | c :: r' =>
    if (c =? ch ":") || (c =? ch "=") then
      let r' := drop_one is_quote (drop_spaces r') in
      rev (take (span_len key_byte r') r')
    else []
  | [] => []
  end.

(** [matchKeyedNumber]: the end index, or 0, and the label. *)
Definition matchKeyedNumber (line : gostring) (i : nat) : nat * gostring :=
  let key := phoneKeyBefore line i in
  if is_empty key then (O, [])
  else
    let words := splitKeyWords key in
    if is_empty words then (O, [])
    else if isPhoneKeyWords words then (matchKeyedPhone line i, go "phone")
    else if isIDKeyWords words then (matchKeyedIDNumber line i, go "id-number")
    else if isSessionKeyWords words then (matchSessionNumber line i, go "key")
    else if isOTPKeyWords words then (matchKeyedOTP line i, go "key")
    else if isDOBKeyWords words then (matchKeyedDate line i, go "dob")
    else (O, []).

(** [phoneGlue]. *)
Definition phoneGlue (c : byte) : bool :=
  isASCIILetter c || isASCIIDigit c || ContainsByte (go "+-./@_%") c.

(** [phoneGluedAfter]. *)
Definition phoneGluedAfter (line : gostring) (end_ : nat) : bool :=
  match line !! end_ with
  | None => false
  | Some c =>
    if isASCIILetter c || isASCIIDigit c || ContainsByte (go "_@/%+") c then true
    else ((c =? ch "-") || (c =? ch ".")) && is_digit_at line (S end_)
  end.

(** [skipPhoneRun]. *)
Definition skipPhoneRun (line : gostring) (i : nat) : nat :=
  if negb (is_digit_at line i) then S i else (i + digit_run line i)%nat.

(** [insideURL]: the bytes before [i], from [i-1] down to 0. *)
Fixpoint insideURL (line : gostring) (i : nat) : bool :=
  match i with
  | O => false
  | S j =>
    let c := byte_at line j in
    if (c =? ch " ") || (c =? tab) || is_quote c then false
    else if c =? ch "?" then true
    else if (c =? ch ":") && HasPrefix (drop j line) (go "://") then true
    else insideURL line j
  end.

Record shapedNumber := { snRange : Range; snLabel : gostring }.

(** The candidate at [line[i:]]: its end, or 0, and its label. *)
Definition shape_at (line : gostring) (i : nat) (c : byte) : nat * gostring :=
  if c =? ch "+" then (matchInternationalPhone line i, go "phone")
  else if c =? ch "(" then (matchNANPPhone line i, go "phone")
  else
    let e := matchNANPPhone line i in
    if (e =? 0)%nat then matchKeyedNumber line i else (e, go "phone").

(** The loop of [findShapedNumbers]. *)
Fixpoint shaped_loop (fuel : nat) (line : gostring) (i : nat) : list shapedNumber :=
  match fuel with
  | O => []
  | S k =>
    match line !! i with
    | None => []
    | Some c =>
      if negb (c =? ch "+") && negb (c =? ch "(") && negb (isASCIIDigit c)
      then shaped_loop k line (S i)
      else if (0 <? i)%nat && at_is line (i - 1) phoneGlue
      then shaped_loop k line (skipPhoneRun line i)
      else
        let '(e, lab) := shape_at line i c in
        if (0 <? e)%nat && negb (phoneGluedAfter line e) && negb (insideURL line i)
        then {| snRange := {| rStart := i; rEnd := e |}; snLabel := lab |} :: shaped_loop k line e
        else shaped_loop k line (skipPhoneRun line i)
    end
  end.

(** [findShapedNumbers]. *)
Definition findShapedNumbers (line : gostring) : list shapedNumber :=
  if negb (ContainsAny line (go "0123456789")) then []
  else shaped_loop (S (length line)) line 0.

(** [FindPhoneSequences]. *)
Definition FindPhoneSequences (line : gostring) : list Range :=
  snRange <$> filter (fun sn => snLabel sn = go "phone") (findShapedNumbers line).

(** ** Whole values of URL parameters *)

(** The digit count of [isPhoneValue] under a phone key; [None] is [return false]. *)
Fixpoint keyed_value_digits (val : gostring) (prev_digit : bool) (digits : nat) : option nat :=
  match val with
  | [] => Some digits
  | c :: t =>
    if isASCIIDigit c then keyed_value_digits t true (S digits)
    else if ((c =? ch "-") || (c =? ch ".")) && prev_digit then keyed_value_digits t false digits
    else None
  end.

(** [isPhoneValue]. *)
Definition isPhoneValue (val : gostring) (keyed : bool) : bool :=
  match val with
  | [] => false
  | c :: _ =>
    if negb (at_is val (length val - 1) isASCIIDigit) then false
    else if c =? ch "+" then (matchInternationalPhone val 0 =? length val)%nat
    else if c =? ch "(" then (matchNANPPhone val 0 =? length val)%nat
    else if negb (isASCIIDigit c) then false
    else if (matchNANPPhone val 0 =? length val)%nat then true
    else if negb keyed then false
    else match keyed_value_digits val false 0 with
         | Some d => phone_total_ok minKeyedDigits d
         | None => false
         end
  end.

Definition whole_digits (match_ : gostring -> nat -> nat) (val : gostring) : bool :=
  at_is val 0 isASCIIDigit && (match_ val 0 =? length val)%nat.

Definition isIDNumberValue (val : gostring) : bool := whole_digits matchKeyedIDNumber val.
Definition isOTPValue (val : gostring) : bool := whole_digits matchKeyedOTP val.
Definition isDOBValue (val : gostring) : bool := whole_digits matchKeyedDate val.
Definition isSessionNumberValue (val : gostring) : bool := whole_digits matchSessionNumber val.

End keys.

(** ** Shaped-number ranges

    Every matcher of a number returns 0 or an index after its start and inside
    the line, so the list of [findShapedNumbers] is in line order and disjoint. *)

(** An index returned by a matcher that started at [i]. *)
Definition match_end (line : gostring) (i e : nat) : Prop := e = O \/ (i < e <= length line)%nat.

(** Leave the outermost guard of a matcher, whose body is [return 0]. *)
Ltac pass_guard :=
  match goal with |- match_end _ _ (if ?b then O else _) =>
    destruct b eqn:?; [by left|] end.

Lemma match_end_0 line i : match_end line i 0.
Proof. by left. Qed.
#[export] Hint Resolve match_end_0 : gostr.

Lemma digit_run_le line j : (digit_run line j <= length line - j)%nat.
Proof.
  unfold digit_run. pose proof (span_len_le isASCIIDigit (drop j line)) as H.
  by rewrite length_drop in H.
Qed.

Lemma digitGroup_bound line j k : digitGroup line j k = true -> (j + k <= length line)%nat.
Proof. unfold digitGroup. intros H. by boolp. Qed.

Lemma nanpGroup_bound line j k : nanpGroup line j k = true -> (j + k <= length line)%nat.
Proof. unfold nanpGroup. intros H. boolp. by apply digitGroup_bound. Qed.

Lemma at_byte_lt line j c : at_byte line j c = true -> (j < length line)%nat.
Proof. apply at_is_lt. Qed.

Ltac bounds :=
  repeat match goal with
  | H : digitGroup _ _ _ = true |- _ => apply digitGroup_bound in H
  | H : nanpGroup _ _ _ = true |- _ => apply nanpGroup_bound in H
  | H : at_byte _ _ _ = true |- _ => apply at_byte_lt in H
  | H : is_digit_at _ _ = true |- _ => apply at_is_lt in H
  | H : at_is _ _ _ = true |- _ => apply at_is_lt in H
  | H : _ !! _ = Some _ |- _ => apply lookup_lt_Some in H
  end.

Lemma grouped_digits_spec line quoted fuel j digits :
  (j <= length line)%nat ->
  let '(j', d') := grouped_digits line quoted fuel j digits in
  (j <= j' <= length line)%nat /\ (digits <= d')%nat /\ (d' - digits <= j' - j)%nat.
Proof.
  revert j digits. induction fuel as [|k IH]; intros j digits Hj; simpl; [lia|].
  destruct (line !! j) as [c|] eqn:Ec; [|simpl; lia]. apply lookup_lt_Some in Ec.
  destruct (isASCIIDigit c); [|destruct (_ && _)].
  - specialize (IH (S j) (S digits) ltac:(lia)). destruct (grouped_digits _ _ _ _ _). lia.
  - specialize (IH (S j) digits ltac:(lia)). destruct (grouped_digits _ _ _ _ _). lia.
  - lia.
Qed.

Lemma matchGroupedDigits_end line i lo_ hi_ :
  (0 < lo_)%nat -> (i <= length line)%nat -> match_end line i (matchGroupedDigits line i lo_ hi_).
Proof.
  intros Hlo Hi. unfold matchGroupedDigits.
  pose proof (grouped_digits_spec line ((0 <? i)%nat && at_is line (i - 1) is_quote) (S (length line - i)) i 0 Hi) as H.
  destruct (grouped_digits _ _ _ _ _) as [j d]. destruct (_ || _) eqn:E; boolp; [auto with gostr|].
  right. lia.
Qed.

Lemma matchSessionNumber_end line i :
  (i <= length line)%nat -> match_end line i (matchSessionNumber line i).
Proof.
  intros Hi. unfold matchSessionNumber, minSessionDigits. pose proof (digit_run_le line i).
  destruct (_ <? _)%nat eqn:E; boolp; [auto with gostr|]. right. lia.
Qed.

Lemma skip_zone_bound line k : (k <= length line)%nat -> (k <= skip_zone line k <= length line)%nat.
Proof. intros Hk. unfold skip_zone. cases; boolp; bounds; lia. Qed.

Lemma skip_seconds_bound line k : (k <= length line)%nat -> (k <= skip_seconds line k <= length line)%nat.
Proof.
  intros Hk. unfold skip_seconds. pose proof (digit_run_le line (S (k + 3))).
  cases; boolp; bounds; lia.
Qed.

Lemma skipTimeOfDay_bound line j :
  (j <= length line)%nat -> (j <= skipTimeOfDay line j <= length line)%nat.
Proof.
  intros Hj. unfold skipTimeOfDay. destruct (at_is _ _ _) eqn:E0; [|lia].
  destruct (_ || _) eqn:E; [lia|]. boolp. bounds.
  pose proof (skip_seconds_bound line (S j + 5) ltac:(lia)).
  pose proof (skip_zone_bound line (skip_seconds line (S j + 5)) ltac:(lia)). lia.
Qed.

Lemma matchISODate_end line i : match_end line i (matchISODate line i).
Proof.
  unfold matchISODate. destruct (line !! (i + 4)%nat) as [sep|] eqn:E; [|auto with gostr].
  destruct (negb (date_sep sep)); [auto with gostr|]. destruct (_ || _) eqn:E1; [auto with gostr|].
  boolp. bounds. destruct (_ || _); [auto with gostr|]. right.
  pose proof (skipTimeOfDay_bound line (i + 4 + 6) ltac:(lia)). lia.
Qed.

Lemma readDigits_bound line i max a j :
  readDigits line i max = (Some a, j) -> (i < j)%nat.
Proof.
  unfold readDigits. destruct (_ =? 0)%nat eqn:E; [done|]. boolp. intros [= _ <-]. lia.
Qed.

Lemma matchKeyedDate_end line i : match_end line i (matchKeyedDate line i).
Proof.
  unfold matchKeyedDate. destruct (_ && _); [apply matchISODate_end|].
  destruct (readDigits line i 2) as [[a|] j] eqn:E1; [|auto with gostr].
  destruct (line !! j) as [sep|]; [|auto with gostr].
  destruct (negb _); [auto with gostr|].
  destruct (readDigits line (S j) 2) as [[b|] j2] eqn:E2; [|auto with gostr].
  apply readDigits_bound in E1, E2.
  destruct (_ || _) eqn:E3; [auto with gostr|]. boolp. bounds.
  destruct (_ || _); [auto with gostr|]. right. lia.
Qed.

(** ** Telephone numbers *)

Definition group_inv (line : gostring) (j : nat) (g : groupState) : Prop :=
  (j <= gJ g <= length line)%nat /\ match_end line j (gEnd g).

Lemma group_sep_bound line first g k sep dots :
  group_sep line first g = Some (k, sep, dots) -> (gJ g <= length line)%nat ->
  (gJ g <= k <= length line)%nat.
Proof.
  unfold group_sep. destruct (line !! gJ g) as [c|] eqn:E; [apply lookup_lt_Some in E|];
    cases; intros; simplify_eq; lia.
Qed.

Lemma group_round_inv line j parens first g :
  group_inv line j g -> group_inv line j (fst (group_round line parens first g)).
Proof.
  intros [Hj He]. unfold group_round.
  destruct (group_sep line first g) as [[[k sep] dots]|] eqn:Es; [|done].
  apply group_sep_bound in Es; [|lia]. destruct (parens && first && _) eqn:Ep.
  - destruct (_ || _) eqn:E; [done|]. boolp. bounds.
    set (d := Nat.min maxAreaCodeDigits (digit_run line (S k))) in *.
    split; simpl; [|right; lia].
    match goal with |- context [if ?b then _ else _] => destruct b eqn:Ea end; boolp; bounds; lia.
  - pose proof (digit_run_le line k). destruct (_ || _) eqn:E; [done|]. boolp.
    split; cbn [fst gJ gEnd]; [lia|right; lia].
Qed.

Lemma group_loop_inv line j parens rounds first g :
  group_inv line j g -> group_inv line j (group_loop line parens rounds first g).
Proof.
  revert first g. induction rounds as [|n IH]; intros first g H; simpl; [done|].
  apply (group_round_inv line j parens first) in H.
  destruct (group_round line parens first g) as [g' []]; simpl in H; auto.
Qed.

Lemma matchPhoneGroups_end line j have_ parens :
  (j <= length line)%nat -> match_end line j (fst (matchPhoneGroups line j have_ parens)).
Proof.
  intros Hj. unfold matchPhoneGroups.
  match goal with |- context [group_loop ?a ?b ?c ?d ?g] =>
    pose proof (group_loop_inv a j b c d g) as [_ He]; [split; simpl; [lia|auto with gostr]|] end.
  destruct (_ || _); simpl; auto with gostr.
Qed.

Lemma matchInternationalPhone_end line i :
  (i < length line)%nat -> match_end line i (matchInternationalPhone line i).
Proof.
  intros Hi. unfold matchInternationalPhone. pose proof (digit_run_le line (S i)).
  destruct (_ =? 0)%nat eqn:E; [auto with gostr|]. boolp.
  destruct (_ <? _)%nat eqn:E2.
  - destruct (phone_total_ok _ _); [|auto with gostr]. right. lia.
  - pose proof (matchPhoneGroups_end line (S i + Nat.min 3 (digit_run line (S i)))
                  (Nat.min 3 (digit_run line (S i))) true ltac:(lia)) as He.
    destruct (matchPhoneGroups _ _ _ _) as [e more]. simpl in He.
    destruct (_ || _); [auto with gostr|]. destruct He as [->|He]; [auto with gostr|right; lia].
Qed.

Lemma matchNANPPhone_end line i : match_end line i (matchNANPPhone line i).
Proof.
  unfold matchNANPPhone. set (paren := at_byte line i (ch "(")).
  set (j := if paren then S i else i). pass_guard.
  match goal with |- match_end _ _ (match ?o with Some _ => _ | None => _ end) =>
    destruct o as [[j2 sep]|] eqn:Eo; [|auto with gostr] end.
  assert (i < j2)%nat as Hj2.
  { revert Eo. unfold j. destruct paren; cases; intros; simplify_eq; lia. }
  clear Eo. pass_guard. pass_guard. pass_guard. boolp. bounds. right. lia.
Qed.

Lemma matchKeyedPhone_end line i :
  (i <= length line)%nat -> match_end line i (matchKeyedPhone line i).
Proof.
  intros Hi. unfold matchKeyedPhone. pose proof (digit_run_le line i).
  unfold minKeyedDigits, phone_total_ok. destruct (_ <? _)%nat eqn:E1.
  - destruct (_ && _) eqn:E2; [|auto with gostr]. boolp. right. lia.
  - set (d := Nat.min maxPhoneGroup (digit_run line i)).
    pose proof (matchPhoneGroups_end line (i + d) d false ltac:(lia)) as He.
    destruct (matchPhoneGroups _ _ _ _) as [e more]. simpl in He.
    destruct (e =? 0)%nat eqn:E0; destruct (_ && _) eqn:E2; auto with gostr; boolp; right; lia ||
      (destruct He; lia).
Qed.

(** ** The scan *)

Section shaped.
Context `{U : Unicode}.

Lemma matchKeyedNumber_end line i :
  (i < length line)%nat -> match_end line i (fst (matchKeyedNumber line i)).
Proof.
  intros Hi. unfold matchKeyedNumber. cases; auto with gostr.
  - apply matchKeyedPhone_end. lia.
  - apply matchGroupedDigits_end; unfold minIDDigits; lia.
  - apply matchSessionNumber_end. lia.
  - apply matchGroupedDigits_end; unfold minOTPDigits; lia.
  - apply matchKeyedDate_end.
Qed.

Lemma shape_at_end line i c :
  (i < length line)%nat -> match_end line i (fst (shape_at line i c)).
Proof.
  intros Hi. unfold shape_at. cases.
  - by apply matchInternationalPhone_end.
  - apply matchNANPPhone_end.
  - by apply matchKeyedNumber_end.
  - apply matchNANPPhone_end.
Qed.

Lemma skipPhoneRun_gt line i : (i < skipPhoneRun line i)%nat.
Proof.
  unfold skipPhoneRun, is_digit_at, digit_run. destruct (negb _) eqn:E; [lia|]. boolp.
  apply at_is_true in E as (c & Hc & Hd). rewrite (drop_S _ _ _ Hc). simpl. rewrite Hd. lia.
Qed.

Lemma shaped_loop_ok fuel line i lo_ :
  (lo_ <= i)%nat -> ranges_from line 0 lo_ (snRange <$> shaped_loop fuel line i).
Proof.
  revert i lo_. induction fuel as [|k IH]; intros i lo_ Hlo; simpl; [done|].
  destruct (line !! i) as [c|] eqn:Ec; [|done]. pose proof (lookup_lt_Some _ _ _ Ec) as Hi.
  pose proof (skipPhoneRun_gt line i).
  destruct (negb (c =? ch "+") && negb (c =? ch "(") && negb (isASCIIDigit c)) eqn:E1; [apply IH; lia|].
  destruct ((0 <? i)%nat && at_is line (i - 1) phoneGlue); [apply IH; lia|].
  pose proof (shape_at_end line i c Hi) as He. destruct (shape_at line i c) as [e lab]. simpl in He.
  destruct ((0 <? e)%nat && negb (phoneGluedAfter line e) && negb (insideURL line i)) eqn:E2;
    [|apply IH; lia]. boolp. simpl.
  destruct He as [->|He]; [lia|]. split_and!; [lia|lia|lia| |apply IH; lia].
  apply at_is_true. exists c. split; [done|]. unfold number_start.
  destruct (c =? ch "+"), (c =? ch "("), (isASCIIDigit c); done.
Qed.

Lemma findShaped_ranges_from line : ranges_from line 0 0 (snRange <$> findShapedNumbers line).
Proof. unfold findShapedNumbers. destruct (negb _); [done|]. by apply shaped_loop_ok. Qed.

End shaped.
