(* ===== verification/Whitelist.v ===== *)
(** * Safety whitelists

    The shapes of [pkg/scanner/scanner.go] that are written as they are: paths,
    file names, hashes, timestamps, decimals, SSH public keys. *)

From Stdlib Require Import ZArith Lia Bool.
From stdpp Require Import base list option sets.
From S2P Require Import Prelude GoStrings Regex Signatures Float64 KeyMatcher Config Entropy.

Definition isHex (r : rune) : bool := between 48 r 57 || between 97 r 102 || between 65 r 70.

Definition isHexStr (s : gostring) : bool := forallb isHex (runes s).

(** [isHexString]: bytes, and not empty. *)
Definition isHexString (s : gostring) : bool := negb (is_empty s) && forallb isHex s.

(** [uuidRegex], case-insensitive. *)
Definition uuidRegex : pattern :=
  let h n := PRep isHex n (Some n) in
  let dash := PLit (go "-") in
  PCat (h 8%nat) (PCat dash (PCat (h 4%nat) (PCat dash (PCat (h 4%nat) (PCat dash
    (PCat (h 4%nat) (PCat dash (h 12%nat)))))))).

Definition isUUID (s : gostring) : bool := (length s =? 36)%nat && match_full uuidRegex s.

Section whitelists.
Context `{U : Unicode}.

Definition isDigits (s : gostring) : bool := forallb IsDigit (runes s).

Definition digits_at (s : gostring) (i j : nat) : bool := isDigits (slice s i j).

(** [isTimestamp]. *)
Definition isTimestamp (token : gostring) : bool :=
  ((length token =? 10)%nat && isDigits token &&
   (HasPrefix token (go "17") || HasPrefix token (go "18") || HasPrefix token (go "19") ||
    HasPrefix token (go "20"))) ||
  ((10 <=? length token)%nat && digits_at token 0 4 && at_is token 4 (Z.eqb (ch "-")) &&
   digits_at token 5 7 && at_is token 7 (Z.eqb (ch "-"))).

(** [isISO8601Timestamp]: the optional fraction, then the zone. *)
Definition iso_zone (s : gostring) (i : nat) : bool :=
  match s !! i with
  | None => true
  | Some c =>
    if (c =? ch "Z") || (c =? ch "z") then (S i =? length s)%nat
    else if (c =? ch "+") || (c =? ch "-") then
      let zone := drop (S i) s in
      if ((length zone =? 2) || (length zone =? 4))%nat then isDigits zone
      else if (length zone =? 5)%nat then
        digits_at zone 0 2 && at_is zone 2 (Z.eqb (ch ":")) && digits_at zone 3 5
      else false
    else false
  end.

Definition isISO8601Timestamp (s : gostring) : bool :=
  if (length s <? 19)%nat then false
  else if negb (digits_at s 0 4 && at_is s 4 (Z.eqb (ch "-")) && digits_at s 5 7 &&
                at_is s 7 (Z.eqb (ch "-")) && digits_at s 8 10) then false
  else if negb (at_is s 10 (fun c => (c =? ch "T") || (c =? ch "t"))) then false
  else if negb (digits_at s 11 13 && at_is s 13 (Z.eqb (ch ":")) && digits_at s 14 16 &&
                at_is s 16 (Z.eqb (ch ":")) && digits_at s 17 19) then false
  else if at_is s 19 (fun c => (c =? ch ".") || (c =? ch ",")) then
    let k := Nat.min 9 (span_len isASCIIDigit (drop 20 s)) in
    if (k =? 0)%nat then false else iso_zone s (20 + k)
  else iso_zone s 19.

(** [isImage]. *)
Definition isImage (token : gostring) : bool :=
  Contains token (go "docker.io") || Contains token (go "gcr.io") || Contains token (go "quay.io").

(** [isIPv6]. *)
Definition isIPv6 (token : gostring) : bool :=
  (2 <=? CountByte token (ch ":"))%nat && forallb (fun r => isHex r || (r =? ch ":")) (runes token).

(** [isSnakeCaseWords]: the loop; [None] for the previous byte at the start. *)
Fixpoint snake_loop (s : gostring) (prevUnderscore : bool) : bool :=
  match s with
  | [] => true
  | c :: t =>
    if isLowerASCII c then snake_loop t false
    else if c =? ch "_" then if prevUnderscore then false else snake_loop t true
    else false
  end.

Definition isSnakeCaseWords (token : gostring) : bool :=
  if (length token <? 3)%nat || at_is token 0 (Z.eqb (ch "_")) ||
     at_is token (length token - 1) (Z.eqb (ch "_")) || negb (ContainsByte token (ch "_"))
  then false
  else snake_loop token false.

(** [isPlainDecimal]. *)
Definition isPlainDecimal (token : gostring) : bool :=
  let s := if (1 <? length token)%nat && at_is token 0 (fun c => (c =? ch "+") || (c =? ch "-"))
           then drop 1 token else token in
  let i := span_len isASCIIDigit s in
  if (i =? 0)%nat || negb (at_is s i (Z.eqb (ch "."))) then false
  else
    let frac := S i in
    let i := (frac + span_len isASCIIDigit (drop frac s))%nat in
    if (i =? frac)%nat then false
    else if (i =? length s)%nat then true
    else if negb (at_is s i (fun c => (c =? ch "e") || (c =? ch "E"))) then false
    else
      let i := S i in
      let exp := if at_is s i (fun c => (c =? ch "+") || (c =? ch "-")) then S i else i in
      let i := (exp + span_len isASCIIDigit (drop exp s))%nat in
      (exp <? i)%nat && (i =? length s)%nat.

(** ** File names *)

Definition randomPartMinLength : nat := 32.

Record fileAcc := {
  faPart : nat; faUpper : bool; faLower : bool; faDigit : bool;  (* the current part *)
  faPrev : byte; faLastDot : Z; faLastSlash : Z;
}.

(** The test at the end of a part. *)
Definition random_part (a : fileAcc) : bool :=
  (randomPartMinLength <=? faPart a)%nat && faUpper a && faLower a && faDigit a.

(** The loop of [isFileName]; [None] is [return false]. *)
Fixpoint file_loop (s : gostring) (i : Z) (a : fileAcc) : option fileAcc :=
  match s with
  | [] => if random_part a then None else Some a
  | c :: t =>
    let next up lw dg :=
      file_loop t (i + 1) {| faPart := S (faPart a); faUpper := faUpper a || up;
        faLower := faLower a || lw; faDigit := faDigit a || dg; faPrev := c;
        faLastDot := faLastDot a; faLastSlash := faLastSlash a |} in
    if (c =? ch ".") || (c =? ch "/") then
      if random_part a then None
      else if c =? ch "." then
        if (0 <? i) && (faPrev a =? ch ".") then None
        else file_loop t (i + 1) {| faPart := 0; faUpper := false; faLower := false;
               faDigit := false; faPrev := c; faLastDot := i; faLastSlash := faLastSlash a |}
      else
        if (i =? 0) || (faPrev a =? ch "/") then None
        else file_loop t (i + 1) {| faPart := 0; faUpper := false; faLower := false;
               faDigit := false; faPrev := c; faLastDot := faLastDot a; faLastSlash := i |}
    else if isLowerASCII c then next false true false
    else if isUpperASCII c then next true false false
    else if isASCIIDigit c then next false false true
    else if (c =? ch "_") || (c =? ch "-") then next false false false
    else None
  end.

(** [isFileName]. *)
Definition isFileName (token : gostring) : bool :=
  if (length token <? 3)%nat || (256 <? length token)%nat || HasPrefix token (go "./") then false
  else if negb (ContainsByte token (ch ".")) then false
  else
    match file_loop token 0 {| faPart := 0; faUpper := false; faLower := false; faDigit := false;
            faPrev := 0; faLastDot := -1; faLastSlash := -1 |} with
    | None => false
    | Some a =>
      if faLastDot a <=? faLastSlash a + 1 then false
      else
        let ext := drop (Z.to_nat (faLastDot a + 1)) token in
        negb (is_empty ext) && (length ext <=? 5)%nat && at_is ext 0 isASCIILetter &&
        forallb (fun c => isASCIILetter c || isASCIIDigit c) (drop 1 ext)
    end.

(** ** Field names and paths *)

(** The loop of [looksLikeFieldName] over the runes of the key. *)
Fixpoint field_name_loop (key : gostring) (rs : list rune) (first digits : bool) : bool :=
  match rs with
  | [] => true
  | r :: rs' =>
    if IsDigit r then if first then false else field_name_loop key rs' false true
    else if IsLetter r then
      if digits then isCamelCaseWithDigits key else field_name_loop key rs' false digits
    else false
  end.

Definition looksLikeFieldName (key : gostring) : bool :=
  if ContainsAny key (go "_-.:&;%") then true else field_name_loop key (runes key) true false.

(** [isPath]. *)
Definition isPath (token : gostring) : bool :=
  if HasPrefix token (go "/") then
    ContainsByte (drop 1 token) (ch "/") || looksLikeFieldName (drop 1 token)
  else if HasPrefix token (go "./") || HasPrefix token (go "../") then true
  else if (3 <=? length token)%nat && at_is token 0 IsLetter && at_is token 1 (Z.eqb (ch ":")) &&
          at_is token 2 (Z.eqb backslash) then true
  else if HasPrefix token [backslash; backslash] then true
  else (2 <=? CountByte token backslash)%nat.

(** ** Hashes and identifiers *)

Definition isGitHash (token : gostring) : bool := (length token =? 40)%nat && isHexStr token.

Definition isAbbrevHash (s : gostring) : bool :=
  (7 <=? length s)%nat && (length s <=? 40)%nat && isHexStr s.

(** [isGitHashRange]. *)
Definition isGitHashRange (token : gostring) : bool :=
  match Index token (go "..") with
  | None => false
  | Some i =>
    (7 <=? i)%nat && isAbbrevHash (take i token) &&
    isAbbrevHash (TrimPrefix (drop (i + 2) token) (go "."))
  end.

Definition isMongoObjectID (token : gostring) : bool := (length token =? 24)%nat && isHexStr token.

Definition gitDiffHeaderPrefixes : list gostring :=
  [ go "diff --git "; go "diff --cc "; go "diff --combined "; go "--- a/"; go "+++ b/";
    go "--- " ++ [dquote] ++ go "a/"; go "+++ " ++ [dquote] ++ go "b/"; go "--- /dev/null";
    go "+++ /dev/null"; go "rename from "; go "rename to "; go "copy from "; go "copy to ";
    go "Binary files " ].

(** [isGitDiffHeader]. *)
Definition isGitDiffHeader (line : gostring) : bool :=
  existsb (HasPrefix line) gitDiffHeaderPrefixes.

(** [isGeneratedUsername]. *)
Definition isGeneratedUsername (token : gostring) : bool :=
  HasPrefix token (go "user_") &&
  (let rest := drop 5 token in
   negb (is_empty rest) && (length rest <? 12)%nat &&
   forallb (fun r => isHex r || (r =? ch "_")) (runes rest)).

(** ** SSH public keys *)

(** The value of a base64 digit of the standard alphabet. *)
Definition base64_value (c : byte) : option Z :=
  if between 65 c 90 then Some (c - 65)
  else if between 97 c 122 then Some (c - 71)
  else if between 48 c 57 then Some (c + 4)
  else if c =? ch "+" then Some 62
  else if c =? ch "/" then Some 63
  else None.

(** [base64.StdEncoding.DecodeString] on a text whose length is a multiple of four. *)
Fixpoint base64_decode (s : gostring) : option gostring :=
  match s with
  | [] => Some []
  | a :: b :: c :: d :: t =>
    va ← base64_value a;
    vb ← base64_value b;
    let b0 := va * 4 + vb / 16 in
    match base64_value c, base64_value d with
    | Some vc, Some vd =>
      rest ← base64_decode t;
      Some (b0 :: (vb mod 16) * 16 + vc / 4 :: (vc mod 4) * 64 + vd :: rest)
    | Some vc, None =>
      if (d =? ch "=") && is_empty t then Some [b0; (vb mod 16) * 16 + vc / 4] else None
    | None, _ =>
      if (c =? ch "=") && (d =? ch "=") && is_empty t then Some [b0] else None
    end
  | _ => None
  end.

Definition sshKeyTypes : list gostring :=
  [ go "ssh-rsa"; go "ssh-dss"; go "ssh-ed25519"; go "ssh-ed448"; go "ecdsa-sha2-nistp256";
    go "ecdsa-sha2-nistp384"; go "ecdsa-sha2-nistp521"; go "sk-ssh-ed25519@openssh.com";
    go "sk-ecdsa-sha2-nistp256@openssh.com" ].

(** [binary.BigEndian.Uint32]. *)
Definition be_uint32 (raw : gostring) : Z := foldl (fun v b => v * 256 + b) 0 (take 4 raw).

(** [isSSHKeyBody]. *)
Definition isSSHKeyBody (token : gostring) : bool :=
  if negb (HasPrefix token (go "AAAA")) || (length token <=? 20)%nat then false
  else if negb (forallb (fun c => isAlnumByte c || ContainsByte (go "+/=") c) token) then false
  else
    let head := take 64 token in
    let head := take (length head / 4 * 4) head in
    match base64_decode head with
    | None => false
    | Some raw =>
      if (length raw <? 8)%nat then false
      else
        let n := be_uint32 raw in
        if (n <? 7) || (40 <? n) || (Z.of_nat (length raw) <? 4 + n) then false
        else in_words (slice raw 4 (4 + Z.to_nat n)) sshKeyTypes
    end.

Definition isSSHKey (token : gostring) : bool :=
  HasPrefix token (go "ssh-") || isSSHKeyBody token.

(** ** isSafe *)

Definition isSafe (token : gostring) : bool :=
  Contains token (go "://") || isIPv6 token || isTimestamp token || isImage token ||
  isPath token || isFileName token || isGitHash token || isGitHashRange token ||
  isMongoObjectID token || isSSHKey token || isGeneratedUsername token || isPlainDecimal token ||
  (isSnakeCaseWords token && is_empty (matchSignature token)).

End whitelists.
