(* ===== verification/Tokens.v ===== *)
(** * Token shapes

    The predicates of [pkg/scanner/scanner.go], [sqlliteral.go] and [sqlident.go]
    that decide how a token is cut: quotes, padding, chains of assignments, URLs,
    log prefixes, pairs. *)

From Stdlib Require Import ZArith Lia Bool SpecFloat.
From stdpp Require Import base list option sets.
From S2P Require Import Prelude GoStrings Regex Signatures Float64 KeyMatcher Config Entropy Whitelist.

(** ** Separators and quotes *)

Definition ascii_sep (r : rune) : bool := ContainsByte (go " ,;[]{}()<>") r || (r =? tab).

(** The CJK and full-width brackets of [isSepRune]. *)
Definition cjk_brackets : list rune :=
  [ 12304; 12305; 12300; 12301; 12302; 12303; 12308; 12309; 12296; 12297; 12298; 12299; 12310; 12311;
    65288; 65289; 65339; 65341; 65371; 65373 ].

(** [isSepRune]. *)
Definition isSepRune (r : rune) : bool :=
  if r <? RuneSelf then (0 <=? r) && ascii_sep r else existsb (Z.eqb r) cjk_brackets.

Definition hasNonASCII (s : gostring) : bool := existsb (fun b => RuneSelf <=? b) s.
Definition hasASCII (s : gostring) : bool := existsb (fun b => b <? RuneSelf) s.

(** [apostropheCloses]: [j] is the index after the quote. *)
Definition apostropheCloses (segment : gostring) (j : nat) : bool :=
  if (length segment <=? j)%nat then true
  else
    let r := fst (DecodeRune (drop j segment)) in
    isSepRune r || ContainsByte (go ",.;:)]}") r.

(** [apostropheOpens]: the loop from [k]. *)
Fixpoint apostrophe_opens_from (fuel : nat) (segment : gostring) (k : nat) : bool :=
  match fuel with
  | O => false
  | S f =>
    if (length segment <=? k)%nat then false
    else
      let '(r, w) := DecodeRune (drop k segment) in
      if r =? backslash then
        let k := (k + w)%nat in
        if (k <? length segment)%nat
        then apostrophe_opens_from f segment (k + snd (DecodeRune (drop k segment)))
        else apostrophe_opens_from f segment k
      else if (r =? squote) && apostropheCloses segment (k + w) then true
      else apostrophe_opens_from f segment (k + w)
  end.

Definition apostropheOpens (segment : gostring) (j : nat) : bool :=
  apostrophe_opens_from (S (length segment)) segment j.

Definition is_quote_byte (c : byte) : bool := (c =? dquote) || (c =? squote).

(** [trimQuotes]. *)
Definition trimQuotes (s : gostring) : gostring :=
  if (length s <? 2)%nat then s
  else if (at_is s 0 (Z.eqb dquote) && at_is s (length s - 1) (Z.eqb dquote)) ||
          (at_is s 0 (Z.eqb squote) && at_is s (length s - 1) (Z.eqb squote))
  then slice s 1 (length s - 1)
  else s.

(** [isBalancedQuoted]. *)
Definition isBalancedQuoted (s : gostring) : bool :=
  (2 <=? length s)%nat &&
  match s !! O with
  | Some q => ((q =? dquote) || (q =? squote)) && at_is s (length s - 1) (Z.eqb q)
  | None => false
  end.

(** The content of a token of two or more bytes without its first and last byte. *)
Definition inner_of (s : gostring) : gostring := slice s 1 (length s - 1).

(** [isBytesLiteral]. *)
Definition isBytesLiteral (s : gostring) : bool :=
  (3 <=? length s)%nat && at_is s 0 (fun c => (c =? ch "b") || (c =? ch "B")) &&
  match s !! 1%nat with
  | Some q => ((q =? dquote) || (q =? squote)) && at_is s (length s - 1) (Z.eqb q)
  | None => false
  end.

(** [escapedOrBacktickWrap]: the length of the framing on either side. *)
Definition backtick : byte := 96.

Definition escapedOrBacktickWrap (token : gostring) : option nat :=
  let n := length token in
  let q := byte_at token 1 in
  if (5 <=? n)%nat && at_is token 0 (Z.eqb backslash) && ((q =? squote) || (q =? dquote)) &&
     at_is token (n - 2) (Z.eqb backslash) && at_is token (n - 1) (Z.eqb q) &&
     negb (Contains (slice token 2 (n - 2)) (take 2 token))
  then Some 2%nat
  else if (3 <=? n)%nat && at_is token 0 (Z.eqb backtick) && at_is token (n - 1) (Z.eqb backtick) &&
          negb (ContainsByte (slice token 1 (n - 1)) backtick)
  then Some 1%nat
  else None.

(** [isRedacted]. *)
Definition hiddenOpen : gostring := go "[HIDDEN".

Definition isRedacted (content : gostring) : bool :=
  HasPrefix content hiddenOpen && HasSuffix content (go "]").

(** ** JSON documents in SQL literals *)

(** [jsonDocumentEnd]: the scan; [esc] is set after a backslash in a string. *)
Fixpoint json_end_from (s : gostring) (j : nat) (depth : nat) (inStr esc : bool) : option nat :=
  match s with
  | [] => None
  | c :: t =>
    if esc then json_end_from t (S j) depth inStr false
    else if inStr then
      json_end_from t (S j) depth (negb (c =? dquote)) (c =? backslash)
    else if c =? dquote then json_end_from t (S j) depth true false
    else if (c =? ch "{") || (c =? ch "[") then json_end_from t (S j) (S depth) false false
    else if (c =? ch "}") || (c =? ch "]") then
      if (depth =? 1)%nat then Some (S j) else json_end_from t (S j) (depth - 1) false false
    else json_end_from t (S j) depth false false
  end.

Definition jsonDocumentEnd (s : gostring) (i : nat) : option nat :=
  json_end_from (drop i s) i 0 false false.

(** ** Assignments *)

Definition name_byte (c : byte) : bool :=
  isASCIILetter c || isASCIIDigit c || (c =? ch "_") || (c =? ch ".") || (c =? ch "-").

(** [assignmentFollows]. *)
Definition assignmentFollows (s : gostring) : bool :=
  if (length s <? 2)%nat || negb (at_is s 0 (fun c => isASCIILetter c || (c =? ch "_"))) then false
  else at_is (drop 1 s) (span_len name_byte (drop 1 s)) (Z.eqb (ch "=")).

(** [isBareAssignment]. *)
Definition isBareAssignment (tok : gostring) : bool :=
  ContainsByte tok (ch "=") && negb (ContainsByte tok (ch "?")) && negb (Contains tok (go "://")).

(** [chainBoundary]: the width of the separator at [segment[i]], or 0. *)
Definition chainBoundary (segment : gostring) (start i : nat) : nat :=
  match segment !! i with
  | None => O
  | Some c =>
    if c =? backslash then
      if HasPrefix (drop i segment) [backslash; ch "n"] && assignmentFollows (drop (i + 2) segment)
      then 2%nat else O
    else if c =? newline then
      if assignmentFollows (drop (S i) segment) then 1%nat else O
    else if c =? ch "&" then
      if (start <? i)%nat && assignmentFollows (drop (S i) segment) &&
         isBareAssignment (slice segment start i)
      then 1%nat else O
    else O
  end.

(** [hasChainBoundary]. *)
Definition hasChainBoundary (tok : gostring) : bool :=
  existsb (fun i => (0 <? chainBoundary tok 0 i)%nat) (seq 0 (length tok)).

(** ** base64 and binary data *)

(** [isBase64Body]. *)
Definition base64_byte (c : byte) : bool := isAlnumByte c || ContainsByte (go "+/-_") c.

Definition isBase64Body (s : gostring) : bool := forallb base64_byte s && negb (is_empty s).

(** [isPaddedBase64Token]. *)
Definition isPaddedBase64Token (s : gostring) : bool :=
  let body := TrimRight s (go "=") in
  let pad := (length s - length body)%nat in
  if (length body <? 2)%nat || (2 <? pad)%nat || (pad =? 0)%nat then false else isBase64Body body.

Definition minElidedPart : nat := 8.

(** [isElidedBase64]. *)
Definition isElidedBase64 (s : gostring) : bool :=
  if negb (HasSuffix s (go "=")) then false
  else
    let body := TrimRight s (go "=") in
    if (2 <? length s - length body)%nat then false
    else
      let '(head, tail, ok) := CutString body (go "...") in
      ok && (minElidedPart <=? length head)%nat && (minElidedPart <=? length tail)%nat &&
      isBase64Body head && isBase64Body tail.

Definition blob_stop : gostring := go "-_ " ++ [tab; newline].

(** [isPaddedBase64Blob]. *)
Definition isPaddedBase64Blob (s : gostring) : bool :=
  if (length s <=? 64)%nat || negb (HasSuffix s (go "=")) || ContainsAny s blob_stop then false
  else
    let body := TrimRight s (go "=") in
    (length s - length body <=? 2)%nat && negb (ContainsByte body (ch "=")).

Definition minBinaryEscapes : nat := 4.

(** [hexByteValue]. *)
Definition hexByteValue (c : byte) : byte :=
  if c <=? ch "9" then c - 48 else if ch "a" <=? c then c - 87 else c - 55.

(** [isEscapedBinary]: the decoding loop, with the number of \xNN escapes. *)
Fixpoint decode_escapes (fuel : nat) (s : gostring) : gostring * nat :=
  match fuel with
  | O => ([], O)
  | S f =>
    match s with
    | [] => ([], O)
    | c :: t =>
      if negb (c =? backslash) || is_empty t then
        let '(d, n) := decode_escapes f t in (c :: d, n)
      else
        match t with
        | x :: h :: l :: t' =>
          if (x =? ch "x") && isHex h && isHex l then
            let '(d, n) := decode_escapes f t' in (hexByteValue h * 16 + hexByteValue l :: d, S n)
          else let '(d, n) := decode_escapes f (h :: l :: t') in (x :: d, n)
        | x :: t' => let '(d, n) := decode_escapes f t' in (x :: d, n)
        | [] => ([], O)
        end
    end
  end.

Definition isEscapedBinary (s : gostring) : bool :=
  let '(decoded, n) := decode_escapes (S (length s)) s in
  (minBinaryEscapes <=? n)%nat && negb (ValidUTF8 decoded).

(** ** Phrases, queries and User-Agents *)

Definition product_byte (c : byte) : bool := isAlnumByte c || ContainsByte (go "._-") c.

(** [startsWithProductToken]. *)
Definition startsWithProductToken (s : gostring) : bool :=
  let i := span_len product_byte s in
  (0 <? i)%nat && at_is s i (Z.eqb (ch "/")) &&
  at_is s (S i) (fun c => isASCIIDigit c || (c =? ch "v")).

(** [isQuotedPhrase]. *)
Definition isQuotedPhrase (s : gostring) : bool :=
  isBalancedQuoted s &&
  (let inner := inner_of s in
   ContainsAny inner [ch " "; tab] && negb (ContainsByte inner (byte_at s 0)) &&
   negb (startsWithProductToken inner)).

(** [hasQueryShape]. *)
Definition hasQueryShape (token : gostring) : bool :=
  match IndexByte token (ch "?") with
  | Some q => ContainsByte (drop (S q) token) (ch "=")
  | None => false
  end.

(** [isUserAgentProduct]. *)
Definition isUserAgentProduct (s : gostring) : bool :=
  match IndexByte s (ch "/") with
  | None => false
  | Some slash =>
    if (slash <? 1)%nat || (40 <? slash)%nat || negb (at_is s 0 isASCIILetter) then false
    else if negb (forallb product_byte (slice s 1 slash)) then false
    else
      let v := drop (S slash) s in
      let v := if at_is v 0 (fun c => (c =? ch "v") || (c =? ch "V")) then drop 1 v else v in
      if is_empty v || (24 <? length v)%nat || negb (at_is v 0 isASCIIDigit) then false
      else forallb (fun c => isAlnumByte c || ContainsByte (go "._~+-") c) (drop 1 v)
  end.

(** ** URLs *)

(** [indexWhitespace]. *)
Definition indexWhitespace (s : gostring) : option nat :=
  match IndexByte s (ch " "), IndexByte s tab with
  | Some i, Some j => Some (if (j <? i)%nat then j else i)
  | Some i, None => Some i
  | None, o => o
  end.

Definition closing_punct (c : byte) : bool := ContainsByte (go ":,.;)]}>") c.

(** Go's index results as integers, -1 for "not found". *)
Definition index_Z (o : option nat) : Z := match o with Some i => Z.of_nat i | None => -1 end.

(** [urlClosingTail]: the last quote of either kind, if it is not before the '?'
    and only closing punctuation follows; the backslash that escapes it goes too.
    Like the code, it is -1 for a text of nothing but closing punctuation. *)
Definition urlClosingTail (url : gostring) : Z :=
  let q := Z.max (index_Z (LastIndexByte url dquote)) (index_Z (LastIndexByte url squote)) in
  if q <? index_Z (IndexByte url (ch "?")) then Z.of_nat (length url)
  else if negb (forallb closing_punct (drop (Z.to_nat (q + 1)) url)) then Z.of_nat (length url)
  else
    let backs := span_len (Z.eqb backslash) (rev (take (Z.to_nat q) url)) in
    if Nat.odd backs then q - 1 else q.

Definition url_ws : gostring := [ch " "; tab].

(** The last '@' of the userinfo: extended while no host byte ends it. *)
Fixpoint extend_at (fuel : nat) (s : gostring) (at_ : nat) : nat :=
  match fuel with
  | O => at_
  | S f =>
    match IndexByte (drop (S at_) s) (ch "@") with
    | None => at_
    | Some next =>
      if ContainsAny (slice s (S at_) (S at_ + next)) (go "/?#" ++ url_ws) then at_
      else extend_at f s (S at_ + next)
    end
  end.

(** [urlPassword]: the bounds of the password in [user:password@]. *)
Section url.
Context `{U : Unicode}.

Definition urlPassword (s : gostring) : option (nat * nat) :=
  match Index s (go "://") with
  | None => None
  | Some i =>
    let auth := (i + 3)%nat in
    match IndexByte (drop auth s) (ch "@") with
    | None => None
    | Some rel =>
      let at_ := extend_at (length s) s (auth + rel) in
      match IndexByte (slice s auth at_) (ch ":") with
      | None => None
      | Some colon =>
        if ContainsAny (slice s auth (auth + colon)) (go "/?#=&" ++ url_ws) ||
           ContainsAny (slice s auth at_) url_ws
        then None
        else
          let start := (auth + colon + 1)%nat in
          if (start =? at_)%nat then None
          else
            let pw := slice s start at_ in
            match IndexByte pw (ch "/") with
            | Some slash => if (0 <? slash)%nat && isDigits (take slash pw) then None else Some (start, at_)
            | None => Some (start, at_)
            end
      end
    end
  end.

End url.

(** ** Log prefixes and pairs *)

Definition pythonLogLevels : list gostring :=
  [ go "DEBUG"; go "INFO"; go "WARNING"; go "WARN"; go "ERROR"; go "CRITICAL"; go "FATAL";
    go "TRACE"; go "NOTICE" ].

(** [pythonLogPrefixEnd]: the index after the second colon, or 0. *)
Definition pythonLogPrefixEnd (tok : gostring) : nat :=
  match IndexByte tok (ch ":") with
  | None => O
  | Some colon =>
    if (colon <? 4)%nat || (8 <? colon)%nat || negb (in_words (take colon tok) pythonLogLevels) then O
    else
      let i := S colon in
      if negb (at_is tok i (fun c => isASCIILetter c || (c =? ch "_"))) then O
      else
        let e := (i + span_len name_byte (drop i tok))%nat in
        if at_is tok e (Z.eqb (ch ":")) then S e else O
  end.

(** [splitCompactPair]: the key and value of ["k":"v"], unquoted. *)
Definition splitCompactPair (tok : gostring) : option (gostring * gostring) :=
  match tok with
  | q :: t =>
    if (length tok <? 5)%nat || negb (is_quote_byte q) then None
    else
      match IndexByte t q with
      | None => None
      | Some e =>
        let end_ := S e in
        if (length tok <=? S end_)%nat || negb (at_is tok (S end_) (Z.eqb (ch ":"))) then None
        else
          let v := drop (end_ + 2) tok in
          if (length v <? 2)%nat || negb (isBalancedQuoted v) then None
          else Some (slice tok 1 end_, inner_of v)
      end
  | [] => None
  end.

(** [pairKey]. *)
Definition pairKey (tok : gostring) : option gostring :=
  match splitCompactPair tok with
  | Some (k, _) => Some k
  | None =>
    match IndexAny tok (go ":=") with
    | Some i =>
      let k := trimQuotes (take i tok) in
      if (0 <? i)%nat && negb (is_empty k) && negb (ContainsAny k [ch " "; dquote; squote])
      then Some k else None
    | None => None
    end
  end.

(** [isAuthSchemeWord]. *)
Definition isAuthSchemeWord (s : gostring) : bool :=
  (3 <=? length s)%nat && (length s <=? 24)%nat && at_is s 0 isUpperASCII &&
  forallb (fun c => isASCIILetter c || isASCIIDigit c || (c =? ch "-")) (drop 1 s).

(** [isSchemeParameter]. *)
Definition isSchemeParameter (s : gostring) : bool :=
  match IndexByte s (ch "="), IndexByte s (ch ":") with
  | None, _ => false
  | Some _, None => true
  | Some e, Some c => (e <? c)%nat
  end.

Definition isShortHex (s : gostring) : bool :=
  (7 <=? length s)%nat && (length s <=? 40)%nat && isHexStr s.

(** [isSCPTarget]. *)
Definition isSCPTarget (val : gostring) : bool :=
  is_empty val || at_is val 0 (Z.eqb (ch "/")) || at_is val 0 (Z.eqb (ch "~")) ||
  ContainsByte val (ch "/") || HasSuffix val (go ".git") || isFileName val ||
  forallb isASCIIDigit val.

(** [isWordsName]. *)
Definition isWordsName (k : gostring) : bool :=
  forallb (fun c => isLowerASCII c || (c =? ch "_") || (c =? ch "-")) k &&
  ContainsAny k (go "_-") && at_is k 0 isLowerASCII.

(** ** Words *)

Section words.
Context `{U : Unicode}.

(** [isAllLetters]. *)
Definition isAllLetters (s : gostring) : bool := negb (is_empty s) && forallb IsLetter (runes s).

(** [looksLikeSecretWord]. *)
Definition looksLikeSecretWord (s : gostring) : bool :=
  existsb (fun r => IsDigit r ||
    (negb (IsLetter r) && negb (ContainsByte (go "-._") r) && negb (r =? squote))) (runes s).

(** [isHashKeyName]. *)
Definition isHashKeyName (k : gostring) : bool :=
  let lk := ToLower (trimQuotes k) in
  if Contains lk (go "commit") then true
  else
    let lk := match LastIndexAny lk (go "_-.") with Some i => drop (S i) lk | None => lk end in
    in_words lk [go "sha"; go "sha1"; go "hash"; go "rev"; go "revision"].

Definition genericValueKeys : list gostring := [go "value"; go "val"; go "values"; go "data"].

(** [isGenericValueKey].  The index [i] comes from the length of [k], and [lk[i:]]
    slices its lowered copy, which can be shorter: [None] is the resulting panic. *)
Definition isGenericValueKey (k : gostring) : option bool :=
  let lk := ToLower k in
  if in_words lk genericValueKeys then Some true
  else if (length k <=? 5)%nat then Some false
  else
    let i := (length k - 5)%nat in
    if (length lk <? i)%nat then None
    else if negb (str_eqb (drop i lk) (go "value")) then Some false
    else Some (at_is k i (Z.eqb (ch "V")) || at_is k (i - 1) (fun c => ContainsByte (go "_-.") c)).

(** [hasPasswordAbbrevComponent]: the components of a key, split on separators and
    on a lower-to-upper change, each with the flag "ends before the key does". *)
Fixpoint pw_components (s cur : gostring) (prevLower : bool) : list (gostring * bool) :=
  let flush (more : bool) := if is_empty cur then [] else [(cur, more)] in
  match s with
  | [] => flush false
  | c :: t =>
    if ContainsByte (go "_-.:") c then flush true ++ pw_components t [] false
    else if isUpperASCII c && prevLower then flush true ++ pw_components t [c] false
    else pw_components t (cur ++ [c]) (isLowerASCII c)
  end.

Definition pw_component (i : nat) (part : gostring * bool) : bool :=
  EqualFold (fst part) (go "pw") ||
  (EqualFold (fst part) (go "pwd") && ((0 <? i)%nat || snd part)).

Definition hasPasswordAbbrevComponent (key : gostring) : bool :=
  if (length key <? 2)%nat || ContainsAny key (go "/0123456789") ||
     (2 <? CountByte key (ch "_") + CountByte key (ch "-") + CountByte key (ch "."))%nat
  then false
  else
    let parts := pw_components key [] false in
    existsb (fun '(i, p) => pw_component i p) (zip (seq 0 (length parts)) parts).

End words.

(** ** Database identifiers *)

(** [isIdentifierName]. *)
Section identifiers.
Context `{RT : GoRuntime}.

Definition ident_sep (c : byte) : bool := (c =? ch ".") || (c =? ch "_").

(** All the parts between separators, empty ones included. *)
Fixpoint ident_parts (s cur : gostring) : list gostring :=
  match s with
  | [] => [cur]
  | c :: t => if ident_sep c then cur :: ident_parts t [] else ident_parts t (cur ++ [c])
  end.

Definition ident_part_ok (p : gostring) : bool :=
  let letters := span_len isASCIILetter p in
  negb (is_empty p) && forallb isASCIIDigit (drop letters p) && (2 <=? letters)%nat.

Definition isIdentifierName (st : configState) (s : gostring) : bool :=
  if DisableBigramCheck (config st) || (length s <? 3)%nat || (64 <? length s)%nat then false
  else
    let ps := ident_parts s [] in
    if negb (forallb ident_part_ok ps) then false
    else
      let lead p := take (span_len isASCIILetter p) p in
      let acc := foldl (fun acc p => pair_sum st (fun _ => true) (lead p) acc) (fzero, O) ps in
      if (length ps <? 2)%nat || negb (existsb (fun p => (3 <=? length (lead p))%nat) ps) ||
         pairs_too_rare acc
      then false
      else negb (namesSecret st s).

End identifiers.
