(* ===== verification/JsonString.v ===== *)
(** * JSON strings

    [escapedJSONString] and [jsonQuote] of [pkg/scanner/scanner.go], with the part of
    Go's [encoding/json] they use: decoding and encoding one string. *)

From Stdlib Require Import ZArith Lia Bool.
From stdpp Require Import base list option sets.
From S2P Require Import Prelude GoStrings KeyMatcherFind Whitelist Tokens.

(** ** Decoding *)

(** The value of four hexadecimal digits. *)
Definition hex_value (c : byte) : option Z := if isHex c then Some (hexByteValue c) else None.

Definition hex4 (a b c d : byte) : option Z :=
  va ← hex_value a; vb ← hex_value b; vc ← hex_value c; vd ← hex_value d;
  Some (va * 4096 + vb * 256 + vc * 16 + vd).

(** [getu4] on the text after a first \uXXXX. *)
Definition getu4 (s : gostring) : option Z :=
  match s with
  | x :: u :: a :: b :: c :: d :: _ =>
    if (x =? backslash) && (u =? ch "u") then hex4 a b c d else None
  | _ => None
  end.

Definition is_surrogate (r : rune) : bool := between 55296 r 57343.

(** [utf16.DecodeRune], [None] for U+FFFD. *)
Definition utf16_pair (r1 r2 : rune) : option rune :=
  if between 55296 r1 56319 && between 56320 r2 57343
  then Some ((r1 - 55296) * 1024 + (r2 - 56320) + 65536) else None.

(** The one-letter escapes. *)
Definition simple_escape (e : byte) : option byte :=
  if (e =? dquote) || (e =? backslash) || (e =? ch "/") then Some e
  else if e =? ch "b" then Some 8
  else if e =? ch "f" then Some 12
  else if e =? ch "n" then Some 10
  else if e =? ch "r" then Some 13
  else if e =? ch "t" then Some 9
  else None.

(** The text between the outer quotes, decoded; [None] when it is not valid. *)
Fixpoint json_body (fuel : nat) (s : gostring) : option gostring :=
  match fuel with
  | O => None
  | S f =>
    match s with
    | [] => Some []
    | c :: t =>
      if (c =? dquote) || (c <? 32) then None
      else if c =? backslash then
        match t with
        | e :: t' =>
          if e =? ch "u" then
            match t' with
            | h1 :: h2 :: h3 :: h4 :: t'' =>
              rr ← hex4 h1 h2 h3 h4;
              if is_surrogate rr then
                match (rr1 ← getu4 t''; utf16_pair rr rr1) with
                | Some r => app (EncodeRune r) <$> json_body f (drop 6 t'')
                | None => app RuneErrorBytes <$> json_body f t''
                end
              else app (EncodeRune rr) <$> json_body f t''
            | _ => None
            end
          else
            b ← simple_escape e;
            cons b <$> json_body f t'
        | [] => None
        end
      else
        let '(r, w) := DecodeRune s in
        app (EncodeRune r) <$> json_body f (drop w s)
    end
  end.

(** [json.Unmarshal] of a token into a string; anything but one double-quoted string
    is an error. *)
Definition json_unquote (tok : gostring) : option gostring :=
  if (length tok <? 2)%nat || negb (at_is tok 0 (Z.eqb dquote)) || negb (at_is tok (length tok - 1) (Z.eqb dquote))
  then None
  else json_body (S (length tok)) (inner_of tok).

(** [escapedJSONString]. *)
Definition escapedJSONString (tok : gostring) : option gostring :=
  if (length tok <? 4)%nat || negb (at_is tok 0 (Z.eqb dquote)) ||
     negb (at_is tok (length tok - 1) (Z.eqb dquote)) || negb (Contains tok [backslash; dquote])
  then None
  else json_unquote tok.

(** ** Encoding *)

Definition hex_digit (d : Z) : byte := if d <? 10 then d + 48 else d + 87.

Definition unicode_escape (r : rune) : gostring :=
  [backslash; ch "u"; hex_digit (r / 4096 mod 16); hex_digit (r / 256 mod 16);
   hex_digit (r / 16 mod 16); hex_digit (r mod 16)].

(** One rune, as the encoder writes it without HTML escaping. *)
Definition encode_chunk (c : rune * gostring) : gostring :=
  let '(r, b) := c in
  if r <? RuneSelf then
    if (r =? dquote) || (r =? backslash) then [backslash; r]
    else if 32 <=? r then b
    else if r =? 8 then [backslash; ch "b"]
    else if r =? 12 then [backslash; ch "f"]
    else if r =? 10 then [backslash; ch "n"]
    else if r =? 13 then [backslash; ch "r"]
    else if r =? 9 then [backslash; ch "t"]
    else unicode_escape r
  else if is_invalid r (length b) then unicode_escape RuneError
  else if (r =? 8232) || (r =? 8233) then unicode_escape r
  else b.

(** [jsonQuote]. *)
Definition jsonQuote (s : gostring) : gostring :=
  [dquote] ++ concat (encode_chunk <$> chunks s) ++ [dquote].

Example json_example :
  (x ← json_unquote ([dquote] ++ go "a\" ++ [dquote] ++ go "b\n\u00e9\ud83d\ude00\ud800x" ++ [dquote]);
   Some (x, jsonQuote x)) =
  Some ([97; 34; 98; 10; 195; 169; 240; 159; 152; 128; 239; 191; 189; 120],
        [34; 97; 92; 34; 98; 92; 110; 195; 169; 240; 159; 152; 128; 239; 191; 189; 120; 34]).
Proof. vm_compute. reflexivity. Qed.

(** ** JSON strings round-trip

    What [jsonQuote] writes is read back by the decoder as the same text. *)

(** ** Runes and the bytes they come from *)

Definition is_bytes (s : gostring) : Prop := Forall (fun b => 0 <= b < 256) s.

(** A rune is read from its own bytes, whatever follows. *)
Lemma DecodeRune_take s r w t :
  DecodeRune s = (r, w) -> is_invalid r w = false -> w <> O -> DecodeRune (take w s ++ t) = (r, w).
Proof.
  intros H Hi Hw. unfold DecodeRune in H. destruct s as [|b0 s]; [naive_solver|].
  destruct (b0 <? 128) eqn:E0; [simplify_eq; unfold DecodeRune; simpl; by rewrite E0|].
  repeat match type of H with context [match ?x with _ => _ end] => destruct x eqn:? end;
    simplify_eq; try done; unfold DecodeRune; simpl; rewrite E0;
    repeat match goal with H : _ = true |- _ => rewrite H | H : _ = false |- _ => rewrite H end; done.
Qed.

Lemma DecodeRune_nonneg s : is_bytes s -> 0 <= fst (DecodeRune s).
Proof.
  intros H. destruct s as [|b t]; [by unfold DecodeRune, RuneError; simpl|].
  destruct (Z.lt_ge_cases b 128) as [Hb|Hb].
  - rewrite DecodeRune_ascii by done. apply Forall_cons in H as [? _]. simpl. lia.
  - destruct (DecodeRune (b :: t)) as [r w] eqn:E. simpl. unfold DecodeRune, is_cont, between in E.
    rewrite (proj2 (Z.ltb_ge _ _) Hb) in E.
    repeat match type of E with context [match ?x with _ => _ end] => destruct x eqn:? end;
      simplify_eq; unfold RuneError; boolp; repeat case_match; boolp; lia.
Qed.

(** The text, chunk by chunk. *)
Lemma chunks_from_skip k s : chunks_from k s = chunks_from 0 (drop k s).
Proof.
  revert k. induction s as [|b t IH]; intros k; [by destruct k|].
  destruct k as [|k]; [done|]. simpl. apply IH.
Qed.

Lemma chunks_cons s r w :
  s <> [] -> DecodeRune s = (r, w) -> chunks s = (r, take w s) :: chunks (drop w s).
Proof.
  intros Hs Hr. pose proof (DecodeRune_width s Hs) as Hw. rewrite Hr in Hw. simpl in Hw.
  destruct s as [|b t]; [done|]. unfold chunks. simpl. rewrite Hr. f_equal.
  rewrite chunks_from_skip. destruct w as [|w]; [lia|]. simpl. by rewrite Nat.sub_0_r.
Qed.

(** ** Escapes *)

Lemma hex_value_digit d : 0 <= d < 16 -> hex_value (hex_digit d) = Some d.
Proof.
  intros Hd. assert (forallb (fun d => bool_decide (hex_value (hex_digit (Z.of_nat d)) = Some (Z.of_nat d)))
    (seq 0 16) = true) as H by reflexivity.
  rewrite forallb_forall in H. specialize (H (Z.to_nat d)).
  rewrite Z2Nat.id in H by lia. eapply bool_decide_eq_true, H. apply in_seq. lia.
Qed.

Lemma hex4_escape r : 0 <= r < 65536 ->
  hex4 (hex_digit (r / 4096 mod 16)) (hex_digit (r / 256 mod 16)) (hex_digit (r / 16 mod 16))
    (hex_digit (r mod 16)) = Some r.
Proof.
  intros Hr. unfold hex4. rewrite !hex_value_digit by (apply Z.mod_pos_bound; lia).
  simpl. f_equal. lia_div.
Qed.

(** An escape of a rune of the basic plane is read as the rune. *)
Lemma json_body_escape f r t :
  0 <= r < 65536 -> is_surrogate r = false ->
  json_body (S f) (unicode_escape r ++ t) = app (EncodeRune r) <$> json_body f t.
Proof.
  intros Hr Hs. unfold unicode_escape. cbn [app json_body].
  replace ((backslash =? dquote) || (backslash <? 32)) with false by done.
  replace (backslash =? backslash) with true by done.
  replace (ch "u" =? ch "u") with true by done.
  rewrite hex4_escape by done. cbn [mbind option_bind]. by rewrite Hs.
Qed.

Lemma json_body_simple f e b t :
  simple_escape e = Some b -> e <> ch "u" ->
  json_body (S f) ([backslash; e] ++ t) = cons b <$> json_body f t.
Proof.
  intros He Hu. cbn [app json_body].
  replace ((backslash =? dquote) || (backslash <? 32)) with false by done.
  replace (backslash =? backslash) with true by done.
  rewrite (proj2 (Z.eqb_neq _ _) Hu), He. done.
Qed.

(** A chunk that is written as it is. *)
Lemma json_body_plain f c t r w :
  c <> dquote -> c <> backslash -> 32 <= c -> DecodeRune (c :: t) = (r, w) ->
  json_body (S f) (c :: t) = app (EncodeRune r) <$> json_body f (drop w (c :: t)).
Proof.
  intros H1 H2 H3 Hr. cbn [json_body].
  rewrite (proj2 (Z.eqb_neq _ _) H1), (proj2 (Z.eqb_neq _ _) H2), (proj2 (Z.ltb_ge _ _) H3).
  simpl orb. by rewrite Hr.
Qed.

Lemma json_body_chunk f s r w t :
  is_bytes s -> s <> [] -> DecodeRune s = (r, w) -> is_invalid r w = false ->
  json_body (S f) (encode_chunk (r, take w s) ++ t) = app (take w s) <$> json_body f t.
Proof.
  intros Hb Hne Hr Hi. pose proof (DecodeRune_width s Hne) as Hw. rewrite Hr in Hw. simpl in Hw.
  pose proof (DecodeRune_nonneg s Hb) as H0. rewrite Hr in H0. simpl in H0.
  pose proof (EncodeRune_Decode s r w Hr H0 Hi ltac:(lia)) as Henc.
  unfold encode_chunk. destruct (r <? RuneSelf) eqn:Eself; unfold RuneSelf in *; boolp.
  - destruct s as [|b s]; [done|]. assert (b = r /\ w = 1%nat) as [-> ->].
    { destruct (Z.lt_ge_cases b 128) as [Hlt|Hge].
      - rewrite DecodeRune_ascii in Hr by done. by simplify_eq.
      - exfalso. unfold DecodeRune, is_cont, between in Hr. rewrite (proj2 (Z.ltb_ge _ _) Hge) in Hr.
        repeat match type of Hr with context [match ?x with _ => _ end] => destruct x eqn:? end;
          simplify_eq; unfold RuneError in *; boolp; repeat case_match; boolp; lia. }
    change (take 1 (r :: s)) with [r] in *.
    destruct ((r =? dquote) || (r =? backslash)) eqn:Eq.
    { rewrite (json_body_simple f r r); [done|unfold simple_escape; by rewrite Eq|].
      apply orb_true_iff in Eq as [?|?]; boolp; subst; done. }
    boolp. destruct (32 <=? r) eqn:E32; boolp.
    { cbn [app]. rewrite (json_body_plain f r t r 1); [|done|done|done|by apply DecodeRune_ascii].
      rewrite Henc. simpl. by rewrite drop_0. }
    repeat (case_match; boolp; [subst; by apply json_body_simple|]).
    rewrite json_body_escape; [by rewrite Henc|lia|]. unfold is_surrogate, between.
    destruct (55296 <=? r) eqn:E; [boolp; lia|done].
  - assert (length (take w s) = w) as Hlen by (rewrite length_take; lia). rewrite Hlen, Hi.
    destruct ((r =? 8232) || (r =? 8233)) eqn:Els.
    { rewrite json_body_escape; [by rewrite Henc| |];
        apply orb_true_iff in Els as [?|?]; boolp; subst; done. }
    pose proof (DecodeRune_take s r w t Hr Hi ltac:(lia)) as Hd.
    destruct s as [|b s]; [done|]. destruct w as [|w]; [lia|]. cbn [take app] in *.
    assert (128 <= b).
    { destruct (Z.lt_ge_cases b 128) as [Hlt|]; [|done]. rewrite DecodeRune_ascii in Hr by done.
      simplify_eq. lia. }
    rewrite (json_body_plain f b _ r (S w)); [|unfold dquote; lia|unfold backslash; lia|lia|done].
    rewrite Henc. f_equal. simpl. f_equal. rewrite drop_app_ge by (simpl in *; lia).
    replace (w - length (take w s))%nat with O; [by rewrite drop_0|]. simpl in Hlen. lia.
Qed.

Lemma json_body_chunks f s :
  is_bytes s -> ValidUTF8 s = true -> (length (chunks s) < f)%nat ->
  json_body f (concat (encode_chunk <$> chunks s)) = Some s.
Proof.
  revert s. induction f as [|f IH]; intros s Hb Hv Hf; [lia|].
  destruct (decide (s = [])) as [->|Hne]; [done|].
  destruct (DecodeRune s) as [r w] eqn:Hr. pose proof (DecodeRune_width s Hne) as Hw. rewrite Hr in Hw. simpl in Hw.
  unfold ValidUTF8 in *. rewrite (chunks_cons s r w Hne Hr) in *. simpl in Hv. boolp.
  rewrite length_take, Nat.min_l in H by lia.
  cbn [fmap list_fmap concat]. rewrite json_body_chunk by done.
  rewrite IH; [|by apply Forall_drop|done|simpl in Hf; lia].
  simpl. f_equal. apply take_drop.
Qed.

Lemma chunks_nonempty k s : Forall (fun c => snd c <> []) (chunks_from k s).
Proof.
  revert k. induction s as [|b t IH]; intros k; [constructor|].
  destruct k as [|k]; [|apply IH]. simpl. destruct (DecodeRune (b :: t)) as [r w] eqn:E.
  pose proof (DecodeRune_width (b :: t) ltac:(done)) as Hw. rewrite E in Hw. simpl in Hw.
  constructor; [|apply IH]. simpl. destruct w; [lia|done].
Qed.

Lemma encode_chunk_nonempty c : snd c <> [] -> encode_chunk c <> [].
Proof. destruct c as [r b]. simpl. intros H. repeat case_match; done. Qed.

Lemma encoded_length s : (length (chunks s) <= length (concat (encode_chunk <$> chunks s)))%nat.
Proof.
  pose proof (chunks_nonempty 0 s) as H. fold (chunks s) in H.
  induction H as [|c l Hc _ IH]; [done|]. simpl. rewrite length_app.
  pose proof (encode_chunk_nonempty c Hc). destruct (encode_chunk c); [done|]. cbn [length].
  unfold fmap in IH. lia.
Qed.

(** Between its quotes a token is read by [json_body]. *)
Lemma json_unquote_body body :
  json_unquote ([dquote] ++ body ++ [dquote]) = json_body (S (length body + 2)) body.
Proof.
  unfold json_unquote. rewrite !length_app. cbn [length].
  replace (1 + (length body + 1) <? 2)%nat with false by (symmetry; apply Nat.ltb_ge; lia).
  replace (at_is ([dquote] ++ body ++ [dquote]) 0 (Z.eqb dquote)) with true by done.
  replace (at_is ([dquote] ++ body ++ [dquote]) (1 + (length body + 1) - 1) (Z.eqb dquote)) with true.
  2: { unfold at_is. rewrite app_assoc.
       rewrite (list_lookup_middle ([dquote] ++ body) [] dquote) by (rewrite length_app; simpl; lia). done. }
  cbn [negb orb]. replace (1 + (length body + 1))%nat with (length body + 2)%nat by lia. f_equal.
  unfold inner_of, slice. simpl. rewrite length_app. simpl.
  replace (length body + 1 - 0 - 1)%nat with (length body) by lia. by rewrite drop_0, take_app_length.
Qed.

(** The decoder reads what the encoder wrote. *)
Lemma json_unquote_quote s : is_bytes s -> ValidUTF8 s = true -> json_unquote (jsonQuote s) = Some s.
Proof.
  intros Hb Hv. unfold jsonQuote. rewrite json_unquote_body.
  apply json_body_chunks; [done|done|]. pose proof (encoded_length s). lia.
Qed.

(** ** What the decoder returns is valid *)

Lemma DecodeRune_Encode_width r t : snd (DecodeRune (EncodeRune r ++ t)) = length (EncodeRune r).
Proof.
  unfold EncodeRune, between.
  repeat match goal with |- context [if ?b then _ else _] => destruct b eqn:? end; boolp; cbn [length app];
    try reflexivity; unfold DecodeRune, is_cont, between;
    repeat match goal with |- context [if ?b then _ else _] => destruct b eqn:? end; try reflexivity; exfalso;
    repeat match goal with H : context [if ?b then _ else _] |- _ => destruct b eqn:? end;
    repeat match goal with
    | H : _ || _ = true |- _ => apply orb_true_iff in H as [H|H]
    | H : _ && _ = true |- _ => apply andb_true_iff in H as [? ?]
    | H : _ && _ = false |- _ => apply andb_false_iff in H as [H|H]
    end; boolp; try lia; lia_div.
Qed.

Lemma DecodeRune_Encode r t :
  exists r', DecodeRune (EncodeRune r ++ t) = (r', length (EncodeRune r)) /\ is_invalid r' (length (EncodeRune r)) = false.
Proof.
  exists (fst (DecodeRune (EncodeRune r ++ t))). rewrite <-(DecodeRune_Encode_width r t) at 1.
  split; [by destruct (DecodeRune _)|]. unfold is_invalid, EncodeRune.
  destruct (between 0 r 127) eqn:E1.
  - unfold between in E1. boolp. cbn [app]. rewrite DecodeRune_ascii by lia. cbn [fst].
    rewrite (proj2 (Z.eqb_neq _ _)); [done|]. unfold RuneError. lia.
  - by repeat match goal with |- context [if ?b then _ else _] => destruct b eqn:? end; rewrite andb_false_r.
Qed.

Lemma ValidUTF8_rune r t : ValidUTF8 (EncodeRune r ++ t) = ValidUTF8 t.
Proof.
  destruct (DecodeRune_Encode r t) as (r' & Hd & Hi).
  assert (EncodeRune r ++ t <> []) as Hne.
  { unfold EncodeRune. by repeat match goal with |- context [if ?b then _ else _] => destruct b end. }
  unfold ValidUTF8. rewrite (chunks_cons _ _ _ Hne Hd), take_app_length, drop_app_length. simpl. by rewrite Hi.
Qed.


Definition valid_bytes (s : gostring) : Prop := is_bytes s /\ ValidUTF8 s = true.

Lemma valid_bytes_rune r t : valid_bytes t -> valid_bytes (EncodeRune r ++ t).
Proof. intros [Hb Hv]. split; [|by rewrite ValidUTF8_rune]. apply Forall_app. split; [apply EncodeRune_bytes|done]. Qed.

Lemma simple_escape_ascii e b : simple_escape e = Some b -> 0 <= b < 128.
Proof.
  unfold simple_escape, dquote, backslash. intros H.
  repeat match type of H with context [if ?x then _ else _] => destruct x eqn:? end; boolp; simplify_eq; lia.
Qed.

(** Whatever it reads, the decoder returns valid UTF-8. *)
Lemma json_body_valid f s o : json_body f s = Some o -> valid_bytes o.
Proof.
  revert s o. induction f as [|f IH]; intros s o; [done|]. simpl.
  destruct s as [|c t]; [intros [= <-]; split; [constructor|done]|].
  assert (forall r o' s', app (EncodeRune r) <$> json_body f s' = Some o' -> valid_bytes o') as Hrune.
  { intros r o' s'. destruct (json_body f s') as [x|] eqn:E; [|done]. intros [= <-].
    apply valid_bytes_rune. by eapply IH. }
  destruct (_ || _); [done|]. destruct (c =? backslash).
  - destruct t as [|e t]; [done|]. destruct (e =? ch "u").
    + destruct t as [|h1 [|h2 [|h3 [|h4 t]]]]; try done.
      destruct (hex4 h1 h2 h3 h4) as [rr|]; [|done]. cbn [mbind option_bind].
      destruct (is_surrogate rr); [|apply Hrune].
      destruct (getu4 t ≫= _); [apply Hrune|]. apply (Hrune RuneError).
    + destruct (simple_escape e) as [b|] eqn:Eb; [|done]. cbn [mbind option_bind].
      apply simple_escape_ascii in Eb. intros H. apply (Hrune b o t).
      rewrite EncodeRune_single by done. exact H.
  - destruct (DecodeRune (c :: t)) as [r w]. apply Hrune.
Qed.

(** A string that [escapedJSONString] decoded is read back from its encoding. *)
Lemma escapedJSONString_round tok inner :
  escapedJSONString tok = Some inner -> json_unquote (jsonQuote inner) = Some inner.
Proof.
  unfold escapedJSONString, json_unquote at 1. destruct (_ || _ || _ || _); [done|]. destruct (_ || _ || _); [done|].
  intros [Hb Hv]%json_body_valid. by apply json_unquote_quote.
Qed.

Lemma json_unquote_quoted tok : is_Some (json_unquote tok) -> exists body, tok = [dquote] ++ body ++ [dquote].
Proof.
  intros [x Hx]. unfold json_unquote in Hx. destruct (_ || _ || _) eqn:E; [done|]. clear Hx.
  apply orb_false_iff in E as [[Hlen H0]%orb_false_iff H1]. apply Nat.ltb_ge in Hlen.
  apply negb_false_iff, at_is_true in H0 as (c & H0 & <-%Z.eqb_eq).
  apply negb_false_iff, at_is_true in H1 as (d & H1 & <-%Z.eqb_eq).
  destruct tok as [|c t]; [done|]. destruct t as [|d' t _] using rev_ind; [simpl in *; lia|].
  exists t. injection H0 as ->. cbn [length] in H1. rewrite length_app, Nat.sub_succ, Nat.sub_0_r, Nat.add_1_r in H1.
  change ((t ++ [d']) !! length t = Some dquote) in H1.
  rewrite list_lookup_middle in H1 by done. by injection H1 as ->.
Qed.

(** ** What the encoder leaves alone *)

Lemma chunks_concat s : concat (snd <$> chunks s) = s.
Proof.
  induction s as [s IH] using (induction_ltof1 _ length). unfold ltof in IH.
  destruct (decide (s = [])) as [->|Hne]; [done|].
  destruct (DecodeRune s) as [r w] eqn:Hr. pose proof (DecodeRune_width s Hne) as Hw. rewrite Hr in Hw. simpl in Hw.
  rewrite (chunks_cons s r w Hne Hr). cbn [fmap list_fmap concat snd].
  rewrite IH by (rewrite length_drop; lia). apply take_drop.
Qed.

(** Everything but quotes, backslashes, control characters and the two separators
    U+2028 and U+2029. *)
Definition unescaped_rune (r : rune) : bool :=
  (32 <=? r) && negb (r =? dquote) && negb (r =? backslash) && negb (r =? 8232) && negb (r =? 8233).

Lemma jsonQuote_unescaped s :
  ValidUTF8 s = true -> forallb unescaped_rune (runes s) = true -> jsonQuote s = [dquote] ++ s ++ [dquote].
Proof.
  intros Hv Hu. unfold jsonQuote. do 2 f_equal. rewrite <-(chunks_concat s) at 2. f_equal.
  unfold ValidUTF8, runes in *. induction (chunks s) as [|[r b] l IH]; [done|].
  simpl in *. boolp. f_equal; [|auto]. unfold unescaped_rune in *. boolp. unfold encode_chunk.
  rewrite (proj2 (Z.leb_le 32 r)), (proj2 (Z.eqb_neq r dquote)), (proj2 (Z.eqb_neq r backslash)),
    (proj2 (Z.eqb_neq r 8232)), (proj2 (Z.eqb_neq r 8233)) by done.
  destruct (is_invalid r (length b)); [done|]. by destruct (r <? RuneSelf).
Qed.
