(* ===== verification/Keys.v ===== *)
(** * Sensitive keys and configured rules

    Which keys make a value sensitive ([isSensitiveKey] and its relatives), and
    the operator's own safe and custom rules, from [pkg/scanner/scanner.go] and
    [session.go]. *)

From Stdlib Require Import ZArith Lia Bool SpecFloat.
From stdpp Require Import base list option sets.
From S2P Require Import Prelude GoStrings Regex Float64 KeyMatcher Config Entropy Signatures Whitelist Tokens.

Section keys.
Context `{RT : GoRuntime}.

Definition strongNames : list gostring :=
  [go "password"; go "passwd"; go "passphrase"; go "secret"; go "token"].

(** [isWordsSecretName]. *)
Definition isWordsSecretName (st : configState) (k : gostring) : bool :=
  in_words k (SensitiveKeys (config st)) ||
  (isWordsName k &&
   existsb (fun seg => in_words seg strongNames)
     (FieldsBytes (fun c => (c =? ch "_") || (c =? ch "-")) k [])).

Definition regex_match (o : option Regexp) (s : gostring) : bool :=
  match o with Some re => MatchString re s | None => false end.

(** [isSensitiveKey]. *)
Definition isSensitiveKey (st : configState) (key : gostring) : bool :=
  let '(found, k) := find (keymatcher st) key in
  if found then
    let k := if is_empty k then ToLower key else k in
    if Contains k (go "pub") && Contains k (go "key") then false
    else if (15 <? length key)%nat &&
            fgtb (calculateComplexity st key) (EntropyThreshold (config st)) &&
            negb (isWordsSecretName st k)
    then false
    else true
  else
    let k := if is_empty k then key else k in
    (containsFoldPW k && looksLikeFieldName key && hasPasswordAbbrevComponent key) ||
    regex_match (sensitiveRegex st) key.

(** [isSensitivePairKey]. *)
Definition isSensitivePairKey (st : configState) (key : gostring) : bool :=
  isSensitiveKey st key ||
  match LastIndexByte key (ch ":") with
  | Some i => (S i <? length key)%nat && isSensitiveKey st (drop (S i) key)
  | None => false
  end.

(** The words of a key in [keyNamesSecret], lowered. *)
Fixpoint secret_words (rs : list rune) (cur : gostring) (prevLower : bool) : list gostring :=
  let flush rest := if is_empty cur then rest else cur :: rest in
  match rs with
  | [] => flush []
  | r :: rs' =>
    if ContainsByte (go "_-. ") r then flush (secret_words rs' [] false)
    else
      let low := EncodeRune (ToLowerRune r) in
      let pl := IsLower r || IsDigit r in
      if IsUpper r && prevLower then flush (secret_words rs' low pl)
      else secret_words rs' (cur ++ low) pl
  end.

Definition weakWords : list gostring := [go "key"; go "auth"; go "sign"; go "pass"].

(** The runs [words[i:j]] of two or more words from position [i] on. *)
Definition word_runs (words : list gostring) (i : nat) : list gostring :=
  (fun j => Join (slice words i j) (go "_")) <$> seq (i + 2) (length words - (i + 1)).

Definition word_in_strong (o : option gostring) : bool :=
  match o with Some w => in_words w strongNames | None => false end.

(** [keyNamesSecret]. *)
Definition keyNamesSecret (st : configState) (key : gostring) : bool :=
  let lk := ToLower key in
  if regex_match (sensitiveRegex st) key then true
  else if Contains lk (go "pw") && looksLikeFieldName key && hasPasswordAbbrevComponent key then true
  else
    let words := secret_words (runes key) [] false in
    let listed s := in_words s (SensitiveKeys (config st)) in
    let weak s := in_words s weakWords in
    if (listed lk && negb (weak lk)) ||
       match words with [w] => listed w && negb (weak w) | _ => false end
    then true
    else existsb (fun i => word_in_strong (words !! i) || existsb listed (word_runs words i))
           (seq 0 (length words)).

(** [isSessionTokenValue]. *)
Definition isSessionTokenValue (st : configState) (val : gostring) : bool :=
  let val := TrimRight val (go ";,") in
  if (Z.of_nat (length val) <? MinSecretLength (config st)) || negb (looksLikeSecretWord val) ||
     ContainsAny val (go " ;") || ContainsByte (TrimRight val (go "=")) (ch "=")
  then false
  else existsb IsLetter (runes val).

(** [isShortHashUnderHashKey]. *)
Definition isShortHashUnderHashKey (st : configState) (tok : gostring) (afterHashKey : bool) : bool :=
  if afterHashKey then isShortHex (trimQuotes (TrimSuffix tok (go ",")))
  else
    let '(k, v, ok) :=
      match splitCompactPair tok with
      | Some (k, v) => (k, v, true)
      | None => let '(k, v, ok) := Cut tok (ch "=") in (trimQuotes k, trimQuotes v, ok)
      end in
    ok && isShortHex v && isHashKeyName k && negb (isSensitiveKey st k).

(** ** Rules and labels *)

(** [entityLabel]. *)
Definition entityLabel (st : configState) (entityType : gostring) : gostring :=
  if EntityTypeLabels (config st) then entityType else [].

Definition rule_matches (content : gostring) (r : CustomRegexRule) : bool :=
  MatchString (RuleRegexp r) content.

(** [isSafeRegexWhitelisted]. *)
Definition isSafeRegexWhitelisted (st : configState) (content : gostring) : bool :=
  if (length content <? 3)%nat then false
  else existsb (rule_matches content) (SafeRegexes (config st)).

(** The first named group that took part in the match. *)
Fixpoint matched_name (loc : list Z) (i : nat) (names : list gostring) : option gostring :=
  match names with
  | [] => None
  | nm :: rest =>
    if at_is loc (2 + i * 2) (fun z => negb (z =? -1)) && negb (is_empty nm) then Some nm
    else matched_name loc (S i) rest
  end.

(** [customRuleName]: the marker name when a rule matches. *)
Definition customRuleName (st : configState) (content : gostring) : option gostring :=
  match CombinedCustomRegex (config st) with
  | None => None
  | Some re =>
    match FindStringSubmatchIndex re content with
    | None => None
    | Some loc =>
      Some (default (entityLabel st (go "regex")) (matched_name loc 0 (CustomRegexNames (config st))))
    end
  end.

(** ** URL paths *)

(** [isSecretPathSegment]. *)
Definition isSecretPathSegment (st : configState) (seg : gostring) : bool :=
  if (length seg <? 20)%nat || (128 <? length seg)%nat then false
  else if negb (forallb urlsafe seg) then false
  else if negb (existsb isASCIILetter seg) || negb (existsb isASCIIDigit seg) then false
  else if isGitHash seg || isGitHashRange seg || isMongoObjectID seg || isUUID seg then false
  else if ((length seg =? 64) || (length seg =? 128))%nat && isHexString seg then false
  else if isSnakeCaseWords seg then false
  else fgtb (calculateComplexity st seg) (EntropyThreshold (config st)).

(** [hasSecretPathSegment]. *)
Definition hasSecretPathSegment (st : configState) (path : gostring) : bool :=
  (minSignatureLength <=? length path)%nat &&
  existsb (isSecretPathSegment st) (Split path (ch "/")).

End keys.
