(* ===== verification/Adaptive.v ===== *)
(** * The adaptive baseline

    [pkg/scanner/adaptive.go]: a bounded sample of the scores of safe tokens, and
    the threshold mean + 2 standard deviations once it is full. *)

From Stdlib Require Import ZArith Lia Bool SpecFloat.
From stdpp Require Import base list option sets.
From S2P Require Import Prelude Float64.

Record BaselineStats := {
  samples : list float64;
  maxSamples : nat;
  ready : bool;
}.

Definition newBaselineStats (max : nat) : BaselineStats :=
  {| samples := []; maxSamples := max; ready := false |}.

(** [Update]. *)
Definition Update (bs : BaselineStats) (entropy : float64) : BaselineStats :=
  if (length (samples bs) <? maxSamples bs)%nat then
    let s := samples bs ++ [entropy] in
    {| samples := s; maxSamples := maxSamples bs;
       ready := ready bs || (length s =? maxSamples bs)%nat |}
  else bs.

(** [Reset]. *)
Definition Reset (bs : BaselineStats) : BaselineStats :=
  {| samples := []; maxSamples := maxSamples bs; ready := false |}.

Definition IsReady (bs : BaselineStats) : bool := ready bs.

Definition fsum (l : list float64) : float64 := foldl fadd fzero l.

Definition mean (l : list float64) : float64 := fdiv (fsum l) (float_of_nat (length l)).

Definition variance_sum (l : list float64) : float64 :=
  let m := mean l in
  foldl (fun v x => let diff := fsub x m in fadd v (fmul diff diff)) fzero l.

(** [GetThreshold]; [fallback] is the configured threshold, returned while not ready. *)
Definition GetThreshold (bs : BaselineStats) (fallback : float64) : float64 * bool :=
  if negb (ready bs) then (fallback, false)
  else
    let l := samples bs in
    let stddev := fsqrt (fdiv (variance_sum l) (float_of_nat (length l))) in
    (fadd (mean l) (fmul ftwo stddev), true).

(** ** The states of the adaptive baseline

    The baseline as a state machine: what holds of every state reached by
    [Update] and [Reset] in any order. *)

Inductive baseline_step : BaselineStats -> BaselineStats -> Prop :=
| step_update bs x : baseline_step bs (Update bs x)
| step_reset bs : baseline_step bs (Reset bs).

Inductive baseline_reachable (max : nat) : BaselineStats -> Prop :=
| reach_new : baseline_reachable max (newBaselineStats max)
| reach_step bs bs' : baseline_reachable max bs -> baseline_step bs bs' -> baseline_reachable max bs'.

(** The sample is bounded, and the threshold is served exactly when it is full. *)
Definition baseline_ok (max : nat) (bs : BaselineStats) : Prop :=
  maxSamples bs = max /\ (length (samples bs) <= max)%nat /\
  (ready bs = true <-> (0 < max)%nat /\ length (samples bs) = max).

Lemma baseline_step_ok max bs bs' : baseline_ok max bs -> baseline_step bs bs' -> baseline_ok max bs'.
Proof.
  intros (Hm & Hl & Hr) Hstep. inversion Hstep; subst.
  - unfold Update. destruct (_ <? _)%nat eqn:E; [|done]. boolp. unfold baseline_ok. cbn [maxSamples samples ready].
    rewrite length_app. cbn [length]. split_and!; [done|lia|].
    rewrite orb_true_iff, Nat.eqb_eq, Hr. lia.
  - unfold baseline_ok. simpl. split_and!; [done|lia|]. split; [done|lia].
Qed.

Lemma baseline_reachable_ok max bs : baseline_reachable max bs -> baseline_ok max bs.
Proof.
  induction 1; [|by eapply baseline_step_ok]. unfold baseline_ok. simpl. split_and!; [done|lia|]. split; [done|lia].
Qed.

(** A full sample is frozen. *)
Lemma Update_full bs x : maxSamples bs = length (samples bs) -> Update bs x = bs.
Proof. intros H. unfold Update. rewrite H. by rewrite Nat.ltb_irrefl. Qed.

Lemma Update_many_full bs l : maxSamples bs = length (samples bs) -> foldl Update bs l = bs.
Proof. intros H. induction l as [|x l IH]; [done|]. simpl. by rewrite Update_full. Qed.
