(* ===== verification/Machine.v ===== *)
(** * The scanner's machine

    The effects of the redaction engine as a small state monad: the output
    builder, the global adaptive baseline and the strategies reported to
    [RedactionCallback].  A computation may also panic (a Go run-time error), which
    keeps what it did to the shared state until then, or, in the model only, run
    out of fuel. *)

From Stdlib Require Import ZArith Lia Bool SpecFloat.
From stdpp Require Import base list option sets.
From S2P Require Import Prelude GoStrings Float64 Adaptive.

Record ES := {
  sb : gostring;
  baseline : BaselineStats;
  callbacks : list gostring;
}.

Inductive outcome (A : Type) :=
| Ok (a : A) (s : ES)
| Panic (s : ES)
| NoFuel.
Arguments Ok {A} a s.
Arguments Panic {A} s.
Arguments NoFuel {A}.

Definition M (A : Type) : Type := ES -> outcome A.

#[export] Instance M_ret : MRet M := fun A a s => Ok a s.

#[export] Instance M_bind : MBind M := fun A B f m s =>
  match m s with
  | Ok a s' => f a s'
  | Panic s' => Panic s'
  | NoFuel => NoFuel
  end.

(** [sb.WriteString], [WriteByte], [WriteRune]. *)
Definition write (w : gostring) : M unit := fun s =>
  Ok tt {| sb := sb s ++ w; baseline := baseline s; callbacks := callbacks s |}.

Definition panic {A} : M A := fun s => Panic s.
Definition no_fuel {A} : M A := fun _ => NoFuel.

(** [RedactionCallback(strategy)]. *)
Definition report (strategy : gostring) : M unit := fun s =>
  Ok tt {| sb := sb s; baseline := baseline s; callbacks := callbacks s ++ [strategy] |}.

(** [globalBaseline.GetThreshold()] and [Update]. *)
Definition get_threshold (fallback : float64) : M (float64 * bool) := fun s =>
  Ok (GetThreshold (baseline s) fallback) s.

Definition update_baseline (score : float64) : M unit := fun s =>
  Ok tt {| sb := sb s; baseline := Update (baseline s) score; callbacks := callbacks s |}.

(** Run [m] on a builder of its own and return what it wrote. *)
Definition with_builder {A} (m : M A) : M (A * gostring) := fun s =>
  match m {| sb := []; baseline := baseline s; callbacks := callbacks s |} with
  | Ok a s' => Ok (a, sb s') {| sb := sb s; baseline := baseline s'; callbacks := callbacks s' |}
  | Panic s' => Panic {| sb := sb s; baseline := baseline s'; callbacks := callbacks s' |}
  | NoFuel => NoFuel
  end.

(** A slice [s[:i]] with a Go [int] bound: out of range is a panic. *)
Definition slice_to (s : gostring) (i : Z) : M gostring :=
  if (0 <=? i) && (i <=? Z.of_nat (length s)) then mret (take (Z.to_nat i) s) else panic.

(** [for _, x := range l { f(x) }]. *)
Fixpoint for_each {A} (f : A -> M unit) (l : list A) : M unit :=
  match l with
  | [] => mret tt
  | x :: l' => f x;; for_each f l'
  end.

(** ** The monad laws, run from a state *)

Lemma M_assoc {A B C} (m : M A) (f : A -> M B) (g : B -> M C) s :
  ((m ≫= f) ≫= g) s = (m ≫= fun a => f a ≫= g) s.
Proof. unfold mbind, M_bind. by destruct (m s). Qed.

Lemma M_left_id {A B} (a : A) (f : A -> M B) s : (mret a ≫= f) s = f a s.
Proof. done. Qed.

Lemma M_right_id {A} (m : M A) s : (m ≫= mret) s = m s.
Proof. unfold mbind, M_bind. by destruct (m s). Qed.
