(* ===== verification/Engine.v ===== *)
(** * The redaction engine

    Section 2 of [pkg/scanner/scanner.go]: from a log line to its redacted form.
    The functions of the code call each other recursively with a depth counter;
    here each is a definition over a record of the functions it may call
    ([Engine]), and [engine] ties the knot on a fuel argument. *)

From Stdlib Require Import ZArith Lia Bool SpecFloat.
From stdpp Require Import base list option sets.
From S2P Require Import Prelude GoStrings Sha256 Regex Float64 KeyMatcher Config Entropy Signatures Whitelist.
From S2P Require Import Tokens JsonString Keys Luhn Shapes Adaptive Machine.

(** ** Carves *)

(** [carve]: a range of the line hidden as one value; label [""] is a card. *)
Record carve := { cvRange : Range; cvLabel : gostring }.

Definition card_carve (r : Range) : carve := {| cvRange := r; cvLabel := [] |}.
Definition number_carve (n : shapedNumber) : carve :=
  {| cvRange := snRange n; cvLabel := snLabel n |}.

(** [mergeCarves]; [fuel] is the total length of the two lists. *)
Fixpoint merge_carves_from (fuel : nat) (cards : list Range) (nums : list shapedNumber) : list carve :=
  match fuel with
  | O => []
  | S f =>
    match cards, nums with
    | [], [] => []
    | c :: cs, [] => card_carve c :: merge_carves_from f cs []
    | [], n :: ns => number_carve n :: merge_carves_from f [] ns
    | c :: cs, n :: ns =>
      if (rEnd (snRange n) <=? rStart c)%nat then number_carve n :: merge_carves_from f cards ns
      else if (rEnd c <=? rStart (snRange n))%nat then card_carve c :: merge_carves_from f cs nums
      else merge_carves_from f cs nums
    end
  end.

Definition mergeCarves (cards : list Range) (nums : list shapedNumber) : list carve :=
  merge_carves_from (length cards + length nums) cards nums.

(** ** Segment state *)

Record segmentState := {
  pendingKeySensitive : bool;
  pendingContextSensitive : bool;
  isInValuePos : bool;
  valueOfQuotedKey : bool;
  lastTokenQuoted : bool;
  pendingGenericKey : bool;
  nextValueIsSensitive : bool;
  pendingBearer : bool;
  bearerAfterKey : bool;
  pendingBasic : bool;
  pendingScheme : bool;
  sepAfterSensitiveKey : bool;
  prevClean : gostring;
  pendingHashKey : bool;
  pendingSessionKey : bool;
  pendingAfterCopula : bool;
  prevStrongSecretWord : bool;
  afterMarker : bool;
  bracketAfterContext : bool;
  stKeyNamesSecret : bool;
}.

Definition initState : segmentState := {|
  pendingKeySensitive := false; pendingContextSensitive := false; isInValuePos := false;
  valueOfQuotedKey := false; lastTokenQuoted := false; pendingGenericKey := false;
  nextValueIsSensitive := false; pendingBearer := false; bearerAfterKey := false;
  pendingBasic := false; pendingScheme := false; sepAfterSensitiveKey := false; prevClean := [];
  pendingHashKey := false; pendingSessionKey := false; pendingAfterCopula := false;
  prevStrongSecretWord := false; afterMarker := false; bracketAfterContext := false;
  stKeyNamesSecret := false |}.

Definition valueLiterals : list gostring := [go "true"; go "false"; go "null"; go "none"].
Definition strongSecretWords : list gostring :=
  [go "pass"; go "password"; go "passwd"; go "passphrase"; go "secret"; go "token"].
Definition copulaWords : list gostring := [go "is"; go "was"; go "are"; go "were"].
Definition longAuthSchemes : list gostring := [go "bearer"; go "digest"; go "negotiate"].
Definition ContextKeywords : list gostring :=
  [ go "error"; go "failed"; go "exception"; go "invalid"; go "fatal"; go "panic"; go "warning";
    go "bad"; go "denied"; go "unauthorized"; go "broken"; go "password"; go "secret"; go "token";
    go "key"; go "auth" ].

(** [fullWidthColon], U+FF1A. *)
Definition fullWidthColon : gostring := [239; 188; 154].

(** [hex.Encode]. *)
Definition hex_encode (s : gostring) : gostring :=
  s ≫= fun b => [hex_digit (b / 16); hex_digit (b mod 16)].

(** The arguments of [processTokenLogic]. *)
Record tokenArgs := {
  rawToken : gostring;
  forcedSensitive : bool;
  contextSensitive : bool;
  isValuePos : bool;
  autoQuote : bool;
  overrideSensitivity : bool;
}.

Definition token_args (raw : gostring) (forced context valuePos quote override : bool) : tokenArgs :=
  {| rawToken := raw; forcedSensitive := forced; contextSensitive := context;
     isValuePos := valuePos; autoQuote := quote; overrideSensitivity := override |}.

(** The functions a function of the engine may call, with the depth first. *)
Record Engine := {
  e_line : nat -> gostring -> M unit;
  e_segment : nat -> gostring -> bool -> rune -> M (bool * rune);
  e_token : nat -> tokenArgs -> M bool;
  e_mask : nat -> gostring -> M unit;
  e_agent : nat -> gostring -> M unit;
}.

Section engine.
Context `{RT : GoRuntime} (st : configState).

Let cfg := config st.

(** ** Markers *)

(** What [redactWithHMAC] writes: the first three bytes of the HMAC in hex. *)
Definition marker (sensitiveData name : gostring) : gostring :=
  go "[HIDDEN" ++ (if is_empty name then [] else go ":" ++ name) ++ go ":" ++
  hex_encode (take 3 (hmac_sha256 (Salt cfg) sensitiveData)) ++ go "]".

(** [redactWithHMAC]. *)
Definition redactWithHMAC (sensitiveData name strategy : gostring) : M unit :=
  report (if is_empty strategy then go "entropy" else strategy);;
  write (marker sensitiveData name).

(** The quote written around a marker: the token's own, or with [autoQuote] a double
    quote around a hidden number or literal. *)
Definition quoteChar (content original : gostring) (autoQuote : bool) : gostring :=
  if HasPrefix original [dquote] then [dquote]
  else if HasPrefix original [squote] then [squote]
  else if autoQuote &&
          (isDigits content || in_words (ToLower content) [go "true"; go "false"; go "null"])
  then [dquote]
  else [].

Definition redact_quoted (content original name strategy trail : gostring) (autoQuote : bool) : M unit :=
  let q := quoteChar content original autoQuote in
  write q;; redactWithHMAC content name strategy;; write trail;; write q.

(** ** Single tokens *)

(** Step 2: the name of the custom rule that matches, through the combined pattern
    when there is one and rule by rule otherwise. *)
Definition custom_match (content : gostring) : option gostring :=
  match CombinedCustomRegex cfg with
  | Some _ => customRuleName st content
  | None =>
    match List.find (rule_matches content) (CustomRegexes cfg) with
    | Some r => Some (if is_empty (RuleName r) then entityLabel st (go "regex") else RuleName r)
    | None => None
    end
  end.

(** Step 2.5: a signature label or an e-mail address, with the text hidden and the
    punctuation left after it. *)
Definition signature_match (content : gostring) : option (gostring * gostring * gostring) :=
  let label := matchSignature content in
  if negb (is_empty label) then Some (label, content, [])
  else
    match IndexByte content (ch "@") with
    | Some (S _) =>
      let n := length content in
      let '(body, trail) :=
        if (1 <? n)%nat && at_is content (n - 1) (fun c => (c =? ch ".") || (c =? ch ","))
        then (take (n - 1) content, drop (n - 1) content) else (content, []) in
      if isEmailAddress body then Some (go "email", body, trail) else None
    | _ => None
    end.

(** Steps 3 and 3.5: [None] writes the token as it is, [Some f] scores it, forced
    when [f]. *)
Definition heuristics (content : gostring) (forced contextSensitive : bool) : option bool :=
  if forced then Some true
  else if (Z.of_nat (length content) <? MinSecretLength cfg) || ContainsByte content (ch " ") then None
  else if isUUID content && negb contextSensitive then None
  else
    let forced := isUUID content in
    if (64 <? length content)%nat && HasSuffix content (go "=") && negb (ContainsAny content blob_stop)
    then
      if contextSensitive || fleb (ConfidenceThreshold cfg) (flit 12 10) then Some true else None
    else Some forced.

(** The threshold a token is scored against. *)
Definition token_threshold (forced contextSensitive : bool) : M float64 :=
  threshold ←
    (if forced then mret fone
     else if contextSensitive then mret (fsub (EntropyThreshold cfg) (flit 13 10))
     else if AdaptiveThreshold cfg then
       r ← get_threshold (EntropyThreshold cfg);
       mret (if (snd r : bool) then fst r else EntropyThreshold cfg)
     else mret (EntropyThreshold cfg) : M float64);
  mret (fmul threshold (ConfidenceThreshold cfg)).

(** Step 4: score, then hide or keep. *)
Definition score_token (content original : gostring) (forced contextSensitive autoQuote : bool)
    (strategy : gostring) : M unit :=
  let score := calculateComplexity st content in
  threshold ← token_threshold forced contextSensitive;
  if forced || fgtb score threshold then
    let entityType := if forced then go "key" else if contextSensitive then go "context" else go "entropy" in
    redact_quoted content original (entityLabel st entityType) strategy [] autoQuote
  else
    (if negb forced && AdaptiveThreshold cfg then update_baseline score else mret tt);;
    write original.

(** [processSingleToken]. *)
Definition processSingleToken (content original : gostring) (forced contextSensitive autoQuote : bool) :
    M unit :=
  if is_empty content || isRedacted content then write original
  else
    let strategy := if forced then go "key" else go "entropy" in
    if negb forced && isSafe content then write original
    else if existsb (rule_matches content) (SafeRegexes cfg) then write original
    else
      match custom_match content with
      | Some name => redact_quoted content original name (go "regex") [] autoQuote
      | None =>
        match signature_match content with
        | Some (label, body, trail) =>
          redact_quoted body original (entityLabel st label) (go "signature") trail false
        | None =>
          match heuristics content forced contextSensitive with
          | None => write original
          | Some forced' => score_token content original forced' contextSensitive autoQuote strategy
          end
        end
      end.

(** [processBinaryBlob]. *)
Definition processBinaryBlob (content : gostring) (contextSensitive : bool) : M unit :=
  if existsb (rule_matches content) (SafeRegexes cfg) then write content
  else
    threshold ← token_threshold false contextSensitive;
    if fleb (calculateComplexity st content) threshold then write content
    else
      redactWithHMAC content
        (entityLabel st (if contextSensitive then go "context" else go "entropy")) (go "entropy").

(** [writeKeyHalf]. *)
Definition writeKeyHalf (key : gostring) : M unit :=
  if is_empty key || (looksLikeFieldName key && is_empty (matchSignature key)) then write key
  else processSingleToken key key false false false.

(** ** URLs *)

(** One segment of a path in [writeURLPath]. *)
Definition write_path_segment (seg : gostring) : M unit :=
  let '(keep, label) := urlPathSignature seg in
  if is_empty label then
    if isSecretPathSegment st seg
    then redactWithHMAC seg (entityLabel st (go "url")) (go "entropy")
    else write seg
  else
    write (take keep seg);;
    redactWithHMAC (drop keep seg) (entityLabel st label) (go "signature").

(** Write [parts] with [sep] between them. *)
Definition write_joined (sep : gostring) (f : gostring -> M unit) (parts : list gostring) : M unit :=
  match parts with
  | [] => mret tt
  | p :: ps => f p;; for_each (fun q => write sep;; f q) ps
  end.

(** [writeURLPath]. *)
Definition writeURLPath (path : gostring) : M unit :=
  if negb (hasPathSignature path) && negb (hasSecretPathSegment st path) then write path
  else write_joined (go "/") write_path_segment (Split path (ch "/")).

(** One parameter of a query. *)
Definition write_param (param : gostring) : M unit :=
  match IndexByte param (ch "=") with
  | None => write param
  | Some i =>
    let key := take i param in
    let val := drop (S i) param in
    let hide label strategy :=
      write key;; write (go "=");; redactWithHMAC val (entityLabel st label) strategy in
    if is_empty val || isRedacted val || isSafeRegexWhitelisted st val then write param
    else if isEmailAddress val then hide (go "email") (go "signature")
    else if isPhoneValue val (isPhoneKey key) then hide (go "phone") (go "signature")
    else if isIDNumberValue val && isIDKey key then hide (go "id-number") (go "signature")
    else if isSessionNumberValue val && isSessionKey key then hide (go "key") (go "signature")
    else if isOTPValue val && isOTPKey key then hide (go "key") (go "signature")
    else if isDOBValue val && isDOBKey key then hide (go "dob") (go "signature")
    else if isSensitiveKey st key then hide (go "key") (go "key")
    else if fgtb (calculateComplexity st val) (EntropyThreshold cfg) then hide (go "url") (go "entropy")
    else if isSessionTokenValue st val && isSessionKey key then hide (go "key") (go "signature")
    else write param
  end.

(** One '?'-separated section of a query. *)
Definition write_query (section : gostring) : M unit :=
  write (go "?");; write_joined (go "&") write_param (Split section (ch "&")).

(** [maskURLParameters]. *)
Definition maskURLParameters (E : Engine) (depth : nat) (url : gostring) : M unit :=
  match urlPassword url with
  | Some (pwStart, pwEnd) =>
    let pw := slice url pwStart pwEnd in
    write (take pwStart url);;
    (if isRedacted pw then write pw
     else
       let label := matchSignature pw in
       if negb (is_empty label) then redactWithHMAC pw (entityLabel st label) (go "signature")
       else redactWithHMAC pw (entityLabel st (go "key")) (go "key"));;
    e_mask E depth (drop pwEnd url)
  | None =>
    let tail := urlClosingTail url in
    if negb (ContainsByte url (ch "?")) then
      path ← slice_to url tail;
      writeURLPath path;;
      write (drop (length path) url)
    else if tail <? Z.of_nat (length url) then
      body ← slice_to url tail;
      e_mask E depth body;;
      write (drop (length body) url)
    else
      match indexWhitespace url with
      | Some i =>
        e_mask E depth (take i url);;
        e_segment E depth (drop i url) false 0;;
        mret tt
      | None =>
        match Split url (ch "?") with
        | [] => mret tt
        | path :: sections => writeURLPath path;; for_each write_query sections
        end
      end
  end.

(** ** User-Agents *)

Definition ua_space (c : byte) : bool := (c =? ch " ") || (c =? tab).
(** [strings.IndexByte(core, '@') > 0]. *)
Definition at_email (core : gostring) : bool :=
  match IndexByte core (ch "@") with Some (S _) => true | _ => false end.

Definition ua_trail (c : byte) : bool := (c =? ch ";") || (c =? ch ")") || (c =? ch ",").

(** The loop of [scanUserAgent]: [i] the position, [runStart] the start of the text
    not yet written, [paren] the depth of open parentheses. *)
Fixpoint agent_loop (E : Engine) (depth : nat) (ua : gostring) (fuel i runStart : nat) (paren : Z) :
    M nat :=
  match fuel with
  | O => no_fuel
  | S f =>
    match ua !! i with
    | None => mret runStart
    | Some c =>
      if ua_space c then agent_loop E depth ua f (S i) runStart paren
      else
        let e := (i + span_len (fun c => negb (ua_space c)) (drop i ua))%nat in
        let word := slice ua i e in
        let lead := span_len (Z.eqb (ch "(")) word in
        let coreStart := (i + lead)%nat in
        let coreEnd := (e - span_len ua_trail (rev (slice ua coreStart e)))%nat in
        let core := slice ua coreStart coreEnd in
        let paren' :=
          Z.max 0 (paren + Z.of_nat (CountByte word (ch "(")) - Z.of_nat (CountByte word (ch ")"))) in
        if isUserAgentProduct core ||
           ((0 <? paren + Z.of_nat lead) && at_email core && isEmailAddress core)
        then
          (if (runStart <? coreStart)%nat
           then e_segment E depth (slice ua runStart coreStart) false 0;; mret tt else mret tt);;
          write core;;
          agent_loop E depth ua f e coreEnd paren'
        else agent_loop E depth ua f e runStart paren'
    end
  end.

(** [scanUserAgent]. *)
Definition scanUserAgent (E : Engine) (depth : nat) (ua : gostring) : M unit :=
  runStart ← agent_loop E depth ua (S (length ua)) 0 0 0;
  if (runStart <? length ua)%nat
  then e_segment E depth (drop runStart ua) false 0;; mret tt
  else mret tt.

End engine.

#[global] Arguments marker : simpl never.
