(* ===== verification/Redaction.v ===== *)
(** * What a redacted line may look like

    The specification of the engine.  [Redacts n src out] relates a text to a
    form of it with [n] markers: parts are kept or replaced by the marker of
    exactly that part, in order.  [scans] lifts the relation to the computations
    of the machine, and the lemmas here are its calculus: one per construct of
    the monad. *)

From Stdlib Require Import ZArith Lia Bool SpecFloat.
From stdpp Require Import base list option sets.
From S2P Require Import Prelude GoStrings Regex Float64 KeyMatcher Config Entropy Signatures Whitelist Tokens.
From S2P Require Import JsonString Keys Luhn Shapes Adaptive Machine Engine.

(** ** ASCII bytes

    The recursion of the engine is bounded by the number of ASCII bytes of a
    text: sanitising and decoding may lengthen a text but never add one. *)

Fixpoint ascii_count (s : gostring) : nat :=
  match s with
  | [] => O
  | b :: t => ((if (b <? 128)%Z then 1 else 0) + ascii_count t)%nat
  end.

Lemma ascii_count_app s t : ascii_count (s ++ t) = (ascii_count s + ascii_count t)%nat.
Proof. induction s as [|b s IH]; simpl; lia. Qed.

Lemma ascii_count_le_length s : (ascii_count s <= length s)%nat.
Proof. induction s as [|b s IH]; simpl; [done|]. destruct (b <? 128); lia. Qed.

Lemma ascii_count_take s n : (ascii_count (take n s) <= ascii_count s)%nat.
Proof. rewrite <-(take_drop n s) at 2. rewrite ascii_count_app. lia. Qed.

Lemma ascii_count_drop s n : (ascii_count (drop n s) <= ascii_count s)%nat.
Proof. rewrite <-(take_drop n s) at 2. rewrite ascii_count_app. lia. Qed.

Lemma ascii_count_slice s i j : (ascii_count (slice s i j) <= ascii_count s)%nat.
Proof.
  unfold slice. pose proof (ascii_count_take (drop i s) (j - i)).
  pose proof (ascii_count_drop s i). lia.
Qed.

(** Leaving an ASCII byte out makes the count smaller. *)
Lemma ascii_count_drop_lt s i c :
  s !! i = Some c -> c < 128 -> (ascii_count (drop (S i) s) < ascii_count s)%nat.
Proof.
  intros H Hc. rewrite <-(take_drop_middle s i c H) at 2. rewrite ascii_count_app. simpl.
  rewrite (proj2 (Z.ltb_lt _ _) Hc). lia.
Qed.

Lemma ascii_count_take_lt s i c :
  s !! i = Some c -> c < 128 -> (ascii_count (take i s) < ascii_count s)%nat.
Proof.
  intros H Hc. rewrite <-(take_drop_middle s i c H) at 2. rewrite ascii_count_app. simpl.
  rewrite (proj2 (Z.ltb_lt _ _) Hc). lia.
Qed.

#[export] Hint Resolve ascii_count_take ascii_count_drop ascii_count_slice : gostr.

Lemma is_invalid_ascii b t r w :
  DecodeRune (b :: t) = (r, w) -> is_invalid r w = true -> 128 <= b.
Proof.
  intros H Hi. destruct (Z.lt_ge_cases b 128) as [Hb|]; [|done].
  rewrite DecodeRune_ascii in H by done. unfold is_invalid, RuneError in Hi.
  simplify_eq. boolp. lia.
Qed.

Lemma to_valid_ascii rep skip inrun s :
  ascii_count rep = O -> ascii_count (to_valid_from rep skip inrun s) = ascii_count s.
Proof.
  intros Hrep. revert skip inrun. induction s as [|b t IH]; intros skip inrun; [done|].
  simpl to_valid_from. destruct skip as [|k].
  - destruct (DecodeRune (b :: t)) as [r w] eqn:E. destruct (is_invalid r w) eqn:Ei.
    + assert (128 <= b) by (by eapply is_invalid_ascii).
      rewrite ascii_count_app, IH. simpl. rewrite (proj2 (Z.ltb_ge _ _)) by done.
      destruct inrun; simpl; lia.
    + simpl. by rewrite IH.
  - simpl. by rewrite IH.
Qed.

Lemma ToValidUTF8_ascii s : ascii_count (ToValidUTF8 s RuneErrorBytes) = ascii_count s.
Proof. by apply to_valid_ascii. Qed.

(** On ASCII text sanitising changes nothing. *)
Lemma to_valid_plain rep inrun s :
  Forall (fun b => b < 128) s -> to_valid_from rep 0 inrun s = s.
Proof.
  intros H. revert inrun. induction H as [|b t Hb Ht IH]; intros inrun; [done|].
  simpl. rewrite DecodeRune_ascii by done.
  replace (is_invalid b 1) with false; [by rewrite IH|].
  symmetry. unfold is_invalid, RuneError. destruct (b =? 65533) eqn:E; [|done]. boolp. lia.
Qed.

Lemma EncodeRune_ascii r : (ascii_count (EncodeRune r) <= 1)%nat.
Proof.
  unfold EncodeRune, between. cases; simpl; boolp;
    rewrite ?(proj2 (Z.ltb_ge _ _)); simpl; try lia; try (destruct (_ <? _); lia); lia_div.
Qed.

(** A rune that is not ASCII is encoded without ASCII bytes. *)
Lemma EncodeRune_wide r : 128 <= r -> ascii_count (EncodeRune r) = O.
Proof.
  intros. unfold EncodeRune, between. cases; simpl; boolp; try lia;
    rewrite ?(proj2 (Z.ltb_ge _ _)); simpl; try lia; lia_div.
Qed.

Lemma DecodeRune_wide b t r w : DecodeRune (b :: t) = (r, w) -> 128 <= b -> 128 <= r.
Proof.
  intros H Hb. unfold DecodeRune, is_cont, between in H.
  rewrite (proj2 (Z.ltb_ge _ _) Hb) in H.
  repeat match type of H with
  | context [match ?x with _ => _ end] => destruct x eqn:?
  end; simplify_eq; unfold RuneError; repeat case_match; boolp; lia.
Qed.

(** Decoding a JSON string adds no ASCII byte. *)
Lemma json_body_ascii fuel s o : json_body fuel s = Some o -> (ascii_count o <= ascii_count s)%nat.
Proof.
  revert s o. induction fuel as [|f IH]; intros s o; simpl; [done|].
  destruct s as [|c t]; [by intros [= <-]|].
  destruct ((c =? dquote) || (c <? 32)); [done|].
  destruct (c =? backslash) eqn:Ec; boolp; subst.
  - destruct t as [|e t']; [done|].
    assert (forall r u v n, app (EncodeRune r) <$> json_body f u = Some o ->
      u = drop n v -> (ascii_count o <= S (ascii_count v))%nat) as Hrune.
    { intros r u v n Hu ->. destruct (json_body f _) as [o'|] eqn:Eo; [|done]. simpl in Hu. simplify_eq.
      apply IH in Eo. rewrite ascii_count_app. pose proof (EncodeRune_ascii r).
      pose proof (ascii_count_drop v n). lia. }
    destruct (e =? ch "u").
    + destruct t' as [|h1 [|h2 [|h3 [|h4 t'']]]]; try done.
      destruct (hex4 h1 h2 h3 h4) as [rr|]; [|done]. simpl.
      assert (forall r n, app (EncodeRune r) <$> json_body f (drop n t'') = Some o ->
        (ascii_count o <= S (ascii_count t''))%nat) as H2 by (intros r n Hr; by eapply Hrune).
      cases; intros Ho;
        first [apply (H2 _ 6%nat) in Ho | apply (H2 65533 0%nat) in Ho | apply (H2 rr 0%nat) in Ho]; lia.
    + destruct (simple_escape e) as [b|]; [|done]. simpl.
      destruct (json_body f t') as [o'|] eqn:Eo; [|done]. intros [= <-]. apply IH in Eo.
      simpl. destruct (_ <? _); destruct (_ <? _); simpl; lia.
  - destruct (DecodeRune (c :: t)) as [r w] eqn:Er.
    destruct (json_body f (drop w (c :: t))) as [o'|] eqn:Eo; [|done]. intros [= <-].
    apply IH in Eo. rewrite ascii_count_app.
    destruct (Z.lt_ge_cases c 128) as [Hc|Hc].
    + rewrite DecodeRune_ascii in Er by done. simplify_eq. simpl in *. rewrite drop_0 in Eo.
      rewrite (proj2 (Z.ltb_lt _ _) Hc).
      pose proof (EncodeRune_ascii r). lia.
    + rewrite EncodeRune_wide by (by eapply (DecodeRune_wide c t)).
      pose proof (ascii_count_drop (c :: t) w). simpl in *. lia.
Qed.

Lemma escapedJSONString_ascii tok o :
  escapedJSONString tok = Some o -> (ascii_count o <= ascii_count tok)%nat.
Proof.
  unfold escapedJSONString, json_unquote. destruct (_ || _ || _ || _); [done|]. destruct (_ || _ || _); [done|].
  intros H%json_body_ascii. pose proof (ascii_count_slice tok 1 (length tok - 1)).
  unfold inner_of in H. lia.
Qed.

(** ** Tame text

    ASCII text without a backslash and without a question mark: nothing in it is
    sanitised or decoded, and no part of it is read as a URL with a query. *)

Definition tame_byte (b : byte) : bool := (b <? 128) && negb (b =? backslash) && negb (b =? ch "?").
Definition tame (s : gostring) : bool := forallb tame_byte s.

Lemma tame_app s t : tame (s ++ t) = tame s && tame t.
Proof. apply forallb_app. Qed.

(** Text made of bytes of a tame text is tame. *)
Lemma tame_incl s t : incl s t -> tame t = true -> tame s = true.
Proof. unfold tame. rewrite !forallb_forall. auto. Qed.

Lemma tame_take n s : tame s = true -> tame (take n s) = true.
Proof. rewrite <-(take_drop n s) at 1. rewrite tame_app. intros. by boolp. Qed.

Lemma tame_drop n s : tame s = true -> tame (drop n s) = true.
Proof. rewrite <-(take_drop n s) at 1. rewrite tame_app. intros. by boolp. Qed.

Lemma tame_slice s i j : tame s = true -> tame (slice s i j) = true.
Proof. intros. by apply tame_take, tame_drop. Qed.

Lemma tame_ascii s : tame s = true -> Forall (fun b => b < 128) s.
Proof.
  intros H. apply Forall_forall. intros b Hb. unfold tame in H. rewrite forallb_forall in H.
  apply list_elem_of_In, H in Hb. unfold tame_byte in Hb. by boolp.
Qed.

Lemma tame_sanitize s : tame s = true -> ToValidUTF8 s RuneErrorBytes = s.
Proof. intros. by apply to_valid_plain, tame_ascii. Qed.

Lemma tame_no_byte s c : tame s = true -> tame_byte c = false -> ~ In c s.
Proof. unfold tame. rewrite forallb_forall. intros H Hc Hin. apply H in Hin. congruence. Qed.

Lemma escapedJSONString_wild s inner : escapedJSONString s = Some inner -> tame s = false.
Proof.
  intros H. apply not_true_iff_false. intros Ht. revert H. unfold escapedJSONString. case_ifs. boolp.
  match goal with H : Contains _ _ = true |- _ => rename H into Hc end.
  unfold Contains in Hc. apply bool_decide_eq_true in Hc as [i Hi]. apply Index_Some in Hi.
  apply HasPrefix_app in Hi as [t Hs]. exfalso. apply (tame_no_byte s backslash Ht); [done|].
  rewrite <-(take_drop i s), Hs. apply in_app_iff. right. by left.
Qed.

#[export] Hint Resolve tame_take tame_drop tame_slice : gostr.

(** ** Marker names *)

(** The fixed entity types and the issuer names of the built-in signatures. *)
Definition entity_types : list gostring :=
  [ go "card"; go "key"; go "context"; go "url"; go "regex"; go "entropy"; go "email"; go "phone";
    go "id-number"; go "dob"; go "private-key"; go "telegram-bot-token" ] ++ (label <$> signatureRules).

(** The name in a marker is missing, an entity type, or the name of one of the
    operator's rules. *)
Definition marker_name (st : configState) (name : gostring) : Prop :=
  name = [] \/ In name entity_types \/ In name (CustomRegexNames (config st)) \/
  In name (RuleName <$> CustomRegexes (config st)).

Definition entity_type (l : gostring) : bool := in_words l entity_types.

Lemma entityLabel_name st l : entity_type l = true -> marker_name st (entityLabel st l).
Proof.
  intros H. unfold entityLabel, marker_name. destruct (EntityTypeLabels _); [|by left].
  right. left. by apply in_words_In.
Qed.

Lemma matchSignature_type tok : is_empty (matchSignature tok) = false -> entity_type (matchSignature tok) = true.
Proof.
  assert (forall rules, (forall r, In r rules -> entity_type (label r) = true) ->
    is_empty (first_rule rules tok) = false -> entity_type (first_rule rules tok) = true) as Hrules.
  { intros rules. induction rules as [|r rs IH]; simpl; intros Hr; [done|].
    destruct (_ && _); [by auto|]. by auto. }
  unfold matchSignature. destruct (_ <? _)%nat; [done|].
  set (l := first_rule signatureRules tok). destruct (is_empty l) eqn:E; cbn [negb].
  - by destruct (_ && _).
  - intros _. apply Hrules; [|done]. clear. simpl. intros r Hr. naive_solver.
Qed.

Lemma urlPathSignature_type seg :
  is_empty (snd (urlPathSignature seg)) = false -> entity_type (snd (urlPathSignature seg)) = true.
Proof.
  unfold urlPathSignature. pose proof (matchSignature_type seg).
  destruct (is_empty (matchSignature seg)) eqn:E; simpl; [by destruct (_ && _)|auto].
Qed.

Lemma matched_name_In loc i names n : matched_name loc i names = Some n -> In n names.
Proof.
  revert i. induction names as [|x l IH]; intros i; simpl; [done|].
  repeat case_match; intros; simplify_eq; eauto.
Qed.

Lemma customRuleName_name st content name :
  customRuleName st content = Some name -> marker_name st name.
Proof.
  unfold customRuleName. destruct (CombinedCustomRegex _); [|done].
  destruct (FindStringSubmatchIndex _ _) as [loc|]; [|done]. intros [= <-].
  destruct (matched_name loc 0 _) as [n|] eqn:En; simpl.
  - right. right. left. by eapply matched_name_In.
  - by apply entityLabel_name.
Qed.

(** ** The relation *)

Section redacts.
Context `{RT : GoRuntime} (st : configState).

(** [Redacts n src out]: [out] is [src] with [n] markers.
    - [R_keep], [R_hide], [R_app]: parts are kept or hidden, in order;
    - [R_hide_quoted]: a value hidden in quotes that are not in the text (a JSON
      number becomes a string; an unbalanced quote is balanced), with the
      punctuation after an address kept;
    - [R_shared_hide], [R_shared_keep]: a carved value repeats the quote it shares
      with the value before it;
    - [R_sanitize]: invalid UTF-8 is replaced before a token is read;
    - [R_json], [R_json_value]: an escaped JSON string is read decoded, and
      written encoded again, or as one value in its quotes. *)
Inductive Redacts : nat -> gostring -> gostring -> Prop :=
| R_keep s : Redacts 0 s s
| R_hide s name : marker_name st name -> Redacts 1 s (marker st s name)
| R_hide_quoted s t name q :
    is_quote_byte q = true -> marker_name st name -> Redacts 1 (s ++ t) ([q] ++ marker st s name ++ t ++ [q])
| R_shared_hide s name q :
    is_quote_byte q = true -> marker_name st name -> Redacts 1 s (q :: marker st s name)
| R_shared_keep s q :
    is_quote_byte q = true -> isSafeRegexWhitelisted st s = true -> Redacts 0 s (q :: s)
| R_app n m s t o p : Redacts n s o -> Redacts m t p -> Redacts (n + m) (s ++ t) (o ++ p)
| R_sanitize n s o : Redacts n (ToValidUTF8 s RuneErrorBytes) o -> Redacts n s o
| R_json n s inner o :
    escapedJSONString s = Some inner -> Redacts n inner o -> Redacts n s (jsonQuote o)
| R_json_value n s inner o :
    escapedJSONString s = Some inner -> Redacts n inner o -> Redacts n s ([dquote] ++ o ++ [dquote]).

(** ** Computations that redact

    A run from [s] to [s'] that wrote [o] with [n] markers: at least [n]
    redactions were reported, and the baseline was only fed samples, none when
    the adaptive threshold is off. *)
Definition ran (s s' : ES) (n : nat) (o : gostring) : Prop :=
  sb s' = sb s ++ o /\ (length (callbacks s) + n <= length (callbacks s'))%nat /\
  exists scores, baseline s' = foldl Update (baseline s) scores /\
    (AdaptiveThreshold (config st) = false -> scores = []).

(** What a run does to the shared state, also one that panics: the reports grow, and
    the baseline is only fed samples, none when the adaptive threshold is off. *)
Definition fed (s s' : ES) : Prop :=
  (length (callbacks s) <= length (callbacks s'))%nat /\
  exists scores, baseline s' = foldl Update (baseline s) scores /\
    (AdaptiveThreshold (config st) = false -> scores = []).

Lemma fed_refl s : fed s s.
Proof. split; [lia|]. by exists []. Qed.

Lemma ran_fed s1 s2 s3 n o : ran s1 s2 n o -> fed s2 s3 -> fed s1 s3.
Proof.
  intros (_ & H2 & l & H3 & H4) (K2 & l' & K3 & K4). split; [lia|].
  exists (l ++ l'). rewrite foldl_app, K3, H3. split; [done|]. intros Ha. by rewrite H4, K4.
Qed.

Lemma fed_frame s s' :
  fed s s' -> (exists scores, baseline s' = foldl Update (baseline s) scores) /\
    (AdaptiveThreshold (config st) = false -> baseline s' = baseline s).
Proof. intros (_ & l & Hb & Ha). split; [by exists l|]. intros Hoff. by rewrite Hb, Ha. Qed.

Lemma ran_trans s1 s2 s3 n m o p : ran s1 s2 n o -> ran s2 s3 m p -> ran s1 s3 (n + m) (o ++ p).
Proof.
  intros (H1 & H2 & l & H3 & H4) (K1 & K2 & l' & K3 & K4). split_and!.
  - by rewrite K1, H1, app_assoc.
  - lia.
  - exists (l ++ l'). rewrite foldl_app, K3, H3. split; [done|]. intros Ha. by rewrite H4, K4.
Qed.

(** A run that leaves the baseline alone. *)
Lemma ran_write s s' n o :
  sb s' = sb s ++ o -> (length (callbacks s) + n <= length (callbacks s'))%nat -> baseline s' = baseline s ->
  ran s s' n o.
Proof. intros. split_and!; [done..|]. by exists []. Qed.

(** [scans_if T m src]: run from any state, [m] does not run out of fuel, and does not
    panic when [T]; when it returns, it has appended a redacted form of [src]. *)
Definition scans_if (T : Prop) {A} (m : M A) (src : gostring) : Prop :=
  forall s, match m s with
            | Ok _ s' => exists n o, ran s s' n o /\ Redacts n src o
            | Panic s' => ~ T /\ fed s s'
            | NoFuel => False
            end.

(** A text on which no run panics is promised to return. *)
Definition scans {A} (m : M A) (src : gostring) : Prop := scans_if (tame src = true) m src.

Lemma scans_if_weaken (T T' : Prop) {A} (m : M A) src : (T' -> T) -> scans_if T m src -> scans_if T' m src.
Proof. intros HT Hm s. specialize (Hm s). destruct (m s); tauto. Qed.

(** Read the source as a concatenation. *)
Lemma scans_as {A} (m : M A) s1 s2 : s1 = s2 -> scans m s1 -> scans m s2.
Proof. by intros ->. Qed.

Lemma scans_if_as T {A} (m : M A) s1 s2 : s1 = s2 -> scans_if T m s1 -> scans_if T m s2.
Proof. by intros ->. Qed.

Lemma scans_if_bind T {A B} (m : M A) (f : A -> M B) s1 s2 :
  scans_if T m s1 -> (forall a, scans_if T (f a) s2) -> scans_if T (m ≫= f) (s1 ++ s2).
Proof.
  intros Hm Hf s. unfold mbind, M_bind. specialize (Hm s). destruct (m s) as [a s'| |]; [|done..].
  destruct Hm as (n & o & Hr & HR). specialize (Hf a s').
  destruct (f a s') as [b s''|s''|]; [|destruct Hf; split; eauto using ran_fed|done]. destruct Hf as (n' & o' & Hr' & HR').
  exists (n + n')%nat, (o ++ o'). split; [by eapply ran_trans|by apply R_app].
Qed.

Lemma scans_ret {A} (a : A) : scans (mret a) [].
Proof.
  intros s. exists O, []. split; [apply ran_write; [by rewrite app_nil_r|lia|done]|apply R_keep].
Qed.

Lemma scans_if_ret T {A} (a : A) : scans_if T (mret a) [].
Proof. eapply scans_if_weaken, scans_ret. done. Qed.

Lemma scans_write w : scans (write w) w.
Proof.
  intros s. exists O, w. split; [apply ran_write; simpl; [done|lia|done]|apply R_keep].
Qed.

Lemma scans_if_write T w : scans_if T (write w) w.
Proof. intros s. pose proof (scans_write w s) as H. destruct (write w s) eqn:E; [done|done|done]. Qed.

Lemma scans_bind {A B} (m : M A) (f : A -> M B) s1 s2 :
  scans m s1 -> (forall a, scans (f a) s2) -> scans (m ≫= f) (s1 ++ s2).
Proof.
  intros Hm Hf. apply scans_if_bind; [|intros a]; (eapply scans_if_weaken; [|done || apply Hf]);
    rewrite tame_app; intros; by boolp.
Qed.

(** A step that writes nothing, first or last. *)
Lemma scans_bind_l {A B} (m : M A) (f : A -> M B) src :
  scans_if (tame src = true) m [] -> (forall a, scans (f a) src) -> scans (m ≫= f) src.
Proof. intros. by apply (scans_if_bind _ m f [] src). Qed.

Lemma scans_bind_r {A B} (m : M A) (f : A -> M B) src :
  scans m src -> (forall a, scans (f a) []) -> scans (m ≫= f) src.
Proof. intros. rewrite <-(app_nil_r src). by apply scans_bind. Qed.

(** A result that is only mapped. *)
Lemma scans_then_ret {A B} (m : M A) (b : A -> B) src :
  scans m src -> scans (m ≫= fun a => mret (b a)) src.
Proof. intros. apply scans_bind_r; [done|]. intros. apply scans_ret. Qed.

Lemma scans_sanitize {A} (m : M A) src :
  scans m (ToValidUTF8 src RuneErrorBytes) -> scans m src.
Proof.
  intros Hm s. specialize (Hm s). destruct (m s); [| |done].
  - destruct Hm as (n & o & Hr & HR). exists n, o. split; [done|by apply R_sanitize].
  - destruct Hm as [Hm Hf]. split; [|done]. intros Ht. apply Hm. by rewrite tame_sanitize.
Qed.

Lemma scans_get_threshold T x : scans_if T (get_threshold x) [].
Proof.
  intros s. exists O, []. split; [apply ran_write; [by rewrite app_nil_r|lia|done]|apply R_keep].
Qed.

(** The baseline takes a sample only in adaptive mode. *)
Lemma scans_update_baseline T x :
  AdaptiveThreshold (config st) = true -> scans_if T (update_baseline x) [].
Proof.
  intros Ha s. exists O, []. split; [|apply R_keep]. split_and!; simpl; [by rewrite app_nil_r|lia|].
  exists [x]. split; [done|]. by rewrite Ha.
Qed.

(** What [redactWithHMAC] appends, and that it reports it. *)
Lemma redactWithHMAC_run data name strategy s :
  exists s', redactWithHMAC st data name strategy s = Ok tt s' /\
    sb s' = sb s ++ marker st data name /\ length (callbacks s') = S (length (callbacks s)) /\
    baseline s' = baseline s.
Proof.
  eexists. split; [reflexivity|]. simpl. split_and!; [done| |done].
  rewrite length_app. simpl. lia.
Qed.

Lemma scans_redact data name strategy :
  marker_name st name -> scans (redactWithHMAC st data name strategy) data.
Proof.
  intros Hname s. destruct (redactWithHMAC_run data name strategy s) as (s' & -> & Ho & Hn & Hb).
  exists 1%nat, (marker st data name). split; [by apply ran_write; [|lia|]|by apply R_hide].
Qed.

(** A slice that is in range whenever [T]. *)
Lemma scans_slice_to (T : Prop) url i (f : gostring -> M unit) :
  (T -> 0 <= i <= Z.of_nat (length url)) ->
  (0 <= i <= Z.of_nat (length url) -> scans_if T (f (take (Z.to_nat i) url)) url) ->
  scans_if T (slice_to url i ≫= f) url.
Proof.
  intros HT Hf s. unfold slice_to, mbind, M_bind.
  destruct ((0 <=? i) && (i <=? Z.of_nat (length url))) eqn:E.
  - boolp. simpl. by apply Hf.
  - simpl. split; [|apply fed_refl]. intros HT'. apply HT in HT' as [H1 H2].
    by rewrite (proj2 (Z.leb_le _ _) H1), (proj2 (Z.leb_le _ _) H2) in E.
Qed.

(** *** Computations whose source depends on their result

    The loops return how far they came: [emits T m P] says that the text redacted is
    one that [P] allows for the result. *)
Definition emits (T : Prop) {A} (m : M A) (P : A -> gostring -> Prop) : Prop :=
  forall s, match m s with
            | Ok a s' => exists n src o, ran s s' n o /\ Redacts n src o /\ P a src
            | Panic s' => ~ T /\ fed s s'
            | NoFuel => False
            end.

Lemma scans_emits T {A} (m : M A) src : scans_if T m src <-> emits T m (fun _ s => s = src).
Proof.
  split; intros H s; specialize (H s); destruct (m s); try done.
  - destruct H as (n & o & ? & ?). by exists n, src, o.
  - destruct H as (n & src' & o & ? & ? & ->). by exists n, o.
Qed.

Lemma emits_ret T {A} (a : A) (P : A -> gostring -> Prop) : P a [] -> emits T (mret a) P.
Proof.
  intros HP s. exists O, [], [].
  split; [apply ran_write; [by rewrite app_nil_r|lia|done]|]. split; [apply R_keep|done].
Qed.

Lemma emits_bind T {A B} (m : M A) (f : A -> M B) (P : A -> gostring -> Prop) (Q : B -> gostring -> Prop) :
  emits T m P -> (forall a s1, P a s1 -> emits T (f a) (fun b s2 => Q b (s1 ++ s2))) -> emits T (m ≫= f) Q.
Proof.
  intros Hm Hf s. unfold mbind, M_bind. specialize (Hm s). destruct (m s) as [a s'| |]; [|done..].
  destruct Hm as (n & src & o & Hr & HR & HP). specialize (Hf a src HP s').
  destruct (f a s') as [b s''|s''|]; [|destruct Hf; split; eauto using ran_fed|done]. destruct Hf as (n' & src' & o' & Hr' & HR' & HQ).
  exists (n + n')%nat, (src ++ src'), (o ++ o').
  split; [by eapply ran_trans|]. split; [by apply R_app|done].
Qed.

Lemma emits_weaken (T T' : Prop) {A} (m : M A) (P Q : A -> gostring -> Prop) :
  emits T m P -> (T' -> T) -> (forall a s, P a s -> Q a s) -> emits T' m Q.
Proof.
  intros Hm HT HPQ s. specialize (Hm s). destruct (m s); [|tauto|done].
  destruct Hm as (n & src & o & ? & ? & ?). exists n, src, o. naive_solver.
Qed.

(** A step with a known source before one whose source depends on its result. *)
Lemma emits_scans_bind (T : Prop) {A B} (m : M A) (f : A -> M B) s1 (Q : B -> gostring -> Prop) :
  scans m s1 -> (T -> tame s1 = true) ->
  (forall a, emits T (f a) (fun b s2 => Q b (s1 ++ s2))) -> emits T (m ≫= f) Q.
Proof.
  intros Hm HT Hf. eapply emits_bind; [by eapply scans_emits, scans_if_weaken|]. by intros a ? ->.
Qed.

(** A list of parts, each with its own source. *)
Lemma scans_for_each {A} (f : A -> M unit) (src : A -> gostring) l :
  (forall x, x ∈ l -> scans (f x) (src x)) -> scans (for_each f l) (concat (src <$> l)).
Proof.
  induction l as [|x l IH]; intros H; simpl; [apply scans_ret|].
  apply scans_bind; [apply H; set_solver|]. intros _. apply IH. set_solver.
Qed.

Lemma scans_write_joined sep f parts :
  parts <> [] -> (forall p, p ∈ parts -> scans (f p) p) -> scans (write_joined sep f parts) (Join parts sep).
Proof.
  intros Hne H. destruct parts as [|p ps]; [done|]. simpl write_joined.
  replace (Join (p :: ps) sep) with (p ++ concat ((fun q => sep ++ q) <$> ps)).
  - apply scans_bind; [apply H; set_solver|]. intros _. apply scans_for_each.
    intros q Hq. apply scans_bind; [apply scans_write|]. intros _. apply H. set_solver.
  - clear. revert p. induction ps as [|q ps IH]; intros p; [by rewrite app_nil_r|].
    change (Join (p :: q :: ps) sep) with (p ++ sep ++ Join (q :: ps) sep).
    rewrite <-IH. simpl. by rewrite <-app_assoc.
Qed.

End redacts.

#[export] Hint Resolve scans_ret scans_write scans_redact entityLabel_name : scans.
#[export] Hint Extern 1 (entity_type _ = true) => reflexivity : scans.
