(* ===== verification/EngineProofs.v ===== *)
(** * The functions that write: tokens, paths, URLs, User-Agents

    Each is shown to write a redacted form of its text, given that the functions
    it calls do so on smaller inputs ([good]). *)

From Stdlib Require Import ZArith Lia Bool SpecFloat.
From stdpp Require Import base list option sets.
From S2P Require Import Prelude GoStrings Regex Float64 KeyMatcher Config Entropy Signatures Whitelist Tokens.
From S2P Require Import JsonString Keys Luhn Shapes Adaptive Machine Engine Redaction.

(** [original] is [content], or [content] in a pair of quotes. *)
Definition framed (content original : gostring) : Prop :=
  original = content \/ exists q, is_quote_byte q = true /\ original = [q] ++ content ++ [q].

Lemma framed_refl s : framed s s.
Proof. by left. Qed.

Lemma isBalancedQuoted_inner s :
  isBalancedQuoted s = true ->
  exists q, is_quote_byte q = true /\ s = [q] ++ inner_of s ++ [q] /\ take 1 s = [q].
Proof.
  unfold isBalancedQuoted, inner_of. intros H. boolp.
  destruct s as [|q s]; [simpl in *; lia|]. simpl in H0. boolp.
  apply at_is_true in H1 as (c & Hc & Hq). boolp. subst c. exists q.
  split; [done|]. split; [|done]. simpl in Hc, H. rewrite Nat.sub_0_r in Hc. simpl. f_equal.
  destruct s as [|b s] using rev_ind; [simpl in *; lia|]. clear IHs.
  rewrite length_app in *. simpl in *. replace (length s + 1)%nat with (S (length s)) in Hc by lia.
  simpl in Hc. rewrite list_lookup_middle in Hc by done. simplify_eq.
  unfold slice. simpl. rewrite drop_0. f_equal.
  replace (length s + 1 - 0 - 1)%nat with (length s) by lia. by rewrite take_app_length.
Qed.

Lemma trimQuotes_balanced s : isBalancedQuoted s = true -> trimQuotes s = inner_of s.
Proof.
  unfold isBalancedQuoted, trimQuotes. intros H. boolp.
  destruct s as [|q s]; [simpl in *; lia|].
  rewrite (proj2 (Nat.ltb_ge _ _)) by done. unfold lookup in H0. simpl in H0. boolp.
  unfold at_is at 1 3. simpl. unfold is_quote_byte in *.
  apply orb_true_iff in H0 as [H0|H0]; boolp; subst q.
  - rewrite H1. done.
  - rewrite H1. by destruct (_ && _).
Qed.

Lemma trimQuotes_framed s : framed (trimQuotes s) s.
Proof.
  destruct (isBalancedQuoted s) eqn:E.
  - rewrite trimQuotes_balanced by done. right.
    destruct (isBalancedQuoted_inner _ E) as (q & Hq & Hs & _). by exists q.
  - left. unfold trimQuotes. destruct (_ <? _)%nat eqn:El; [done|]. boolp.
    destruct (_ || _) eqn:Eq; [|done]. exfalso.
    assert (isBalancedQuoted s = true); [|congruence]. unfold isBalancedQuoted.
    rewrite (proj2 (Nat.leb_le _ _)) by done. simpl.
    apply orb_true_iff in Eq as [Eq|Eq]; boolp;
      apply at_is_true in H as (c & Hc & He); boolp; subst; rewrite Hc; simpl; done.
Qed.

(** ** Tokens *)

Section tokens.
Context `{RT : GoRuntime} (st : configState).

Notation scans := (scans st).

Lemma quoteChar_framed content c q auto :
  is_quote_byte q = true -> quoteChar content ([q] ++ c) auto = [q].
Proof.
  intros Hq. unfold quoteChar, is_quote_byte in *. simpl.
  apply orb_true_iff in Hq as [Hq|Hq]; boolp; subst; done.
Qed.

Lemma quoteChar_cases content original auto :
  quoteChar content original auto = [] \/
  exists q, is_quote_byte q = true /\ quoteChar content original auto = [q].
Proof.
  unfold quoteChar. cases; auto; right; [exists dquote|exists squote|exists dquote]; done.
Qed.

(** The run of [redact_quoted]: one report, and the marker in its quotes. *)
Lemma redact_quoted_run content original name strategy trail auto s :
  exists s', redact_quoted st content original name strategy trail auto s = Ok tt s' /\
    sb s' = sb s ++ quoteChar content original auto ++ marker st content name ++ trail ++
            quoteChar content original auto /\
    length (callbacks s') = S (length (callbacks s)) /\ baseline s' = baseline s.
Proof.
  unfold redact_quoted, redactWithHMAC, write, report, mbind, M_bind.
  eexists. split; [reflexivity|]. cbn [sb callbacks baseline].
  split_and!; [by rewrite <-!app_assoc| |done]. rewrite length_app. simpl. lia.
Qed.

Lemma scans_redact_quoted content original name strategy trail auto :
  framed (content ++ trail) original -> marker_name st name ->
  scans (redact_quoted st content original name strategy trail auto) original.
Proof.
  intros Hf Hname s. destruct (redact_quoted_run content original name strategy trail auto s)
    as (s' & -> & Ho & Hn & Hb).
  eexists 1%nat, _. split; [apply ran_write; [exact Ho|lia|done]|].
  destruct Hf as [->|(q & Hq & ->)].
  - destruct (quoteChar_cases content (content ++ trail) auto) as [->|(q & Hq & ->)].
    + rewrite app_nil_l, app_nil_r. apply (R_app st 1 0); [by apply R_hide|apply R_keep].
    + by apply R_hide_quoted.
  - rewrite quoteChar_framed, <-app_assoc by done. apply (R_app st 0 1); [apply R_keep|].
    apply (R_app st 1 0); [by apply R_hide|]. apply (R_app st 0 0); apply R_keep.
Qed.

Lemma scans_token_threshold T forced context : scans_if st T (token_threshold st forced context) [].
Proof.
  apply scans_if_weaken with (T := tame [] = true); [done|].
  unfold token_threshold. apply scans_then_ret. destruct forced; [auto with scans|].
  destruct context; [auto with scans|]. destruct (AdaptiveThreshold _); [|auto with scans].
  apply scans_then_ret, scans_get_threshold.
Qed.

Lemma scans_score_token content original forced context auto strategy :
  framed content original -> scans (score_token st content original forced context auto strategy) original.
Proof.
  intros Hf. unfold score_token. apply scans_bind_l; [apply scans_token_threshold|]. intros t.
  destruct (_ || _).
  - apply scans_redact_quoted; [by rewrite app_nil_r|]. destruct forced, context; auto with scans.
  - apply scans_bind_l; [|auto with scans].
    destruct (negb forced && AdaptiveThreshold (config st)) eqn:Ea; [boolp|apply scans_if_ret].
    by apply scans_update_baseline.
Qed.

Lemma custom_match_name content name : custom_match st content = Some name -> marker_name st name.
Proof.
  unfold custom_match. destruct (CombinedCustomRegex _); [apply customRuleName_name|].
  destruct (List.find _ _) as [r|] eqn:Ef; [|done]. apply List.find_some in Ef as [Hin _].
  intros [= <-]. destruct (is_empty (RuleName r)); [auto with scans|].
  right. right. right. apply in_map_iff. eauto.
Qed.

Lemma signature_match_type content label body trail :
  signature_match content = Some (label, body, trail) -> entity_type label = true.
Proof.
  unfold signature_match. pose proof (matchSignature_type content).
  destruct (is_empty (matchSignature content)); cbn [negb]; [|intros [= <- _ _]; auto].
  repeat case_match; intros; by simplify_eq.
Qed.

Lemma signature_match_split content label body trail :
  signature_match content = Some (label, body, trail) -> content = body ++ trail.
Proof.
  unfold signature_match. cases; intros; simplify_eq; rewrite ?app_nil_r; try done.
  by rewrite take_drop.
Qed.

(** What is left after the text that is hidden: nothing, or the punctuation after an
    e-mail address. *)
Definition trailing (content trail : gostring) : Prop :=
  trail = [] \/ (ContainsByte content (ch "@") = true /\ (trail = go "." \/ trail = go ",")).

Lemma signature_match_trail content label body trail :
  signature_match content = Some (label, body, trail) -> trailing content trail.
Proof.
  unfold signature_match, trailing. destruct (negb _); [naive_solver|].
  destruct (IndexByte content (ch "@")) as [[|i]|] eqn:Ei; [done| |done].
  assert (ContainsByte content (ch "@") = true) as Hat.
  { apply ContainsByte_In. apply IndexByte_Some in Ei as [Ei _]. by eapply list_elem_of_In, list_elem_of_lookup_2. }
  set (n := length content). destruct ((1 <? n)%nat && _) eqn:Et.
  - case_ifs. intros [= _ _ <-]. boolp. right. split; [done|].
    apply at_is_true in H0 as (c & Hc & Hcc). apply lookup_lt_Some in Hc as Hlt. rewrite (drop_S _ _ _ Hc), drop_ge by lia.
    apply orb_true_iff in Hcc as [Hcc|Hcc]; boolp; subst; auto.
  - case_ifs. naive_solver.
Qed.

(** A forced token is hidden, unless it is empty, already a marker, or a safe rule
    of the operator matches it. *)
Lemma forced_token_run content original context auto s :
  content <> [] -> isRedacted content = false -> existsb (rule_matches content) (SafeRegexes (config st)) = false ->
  exists name body trail auto' s',
    processSingleToken st content original true context auto s = Ok tt s' /\
    content = body ++ trail /\ trailing content trail /\ marker_name st name /\ (auto' = auto \/ auto' = false) /\
    (let q := quoteChar body original auto' in sb s' = sb s ++ q ++ marker st body name ++ trail ++ q) /\
    length (callbacks s') = S (length (callbacks s)) /\ baseline s' = baseline s.
Proof.
  intros Hne Hr Hsafe. unfold processSingleToken. destruct content as [|c content']; [done|].
  set (content := c :: content') in *. cbn [is_empty negb]. rewrite Hr, Hsafe. cbn [orb andb negb].
  destruct (custom_match st content) as [name|] eqn:Ec.
  { destruct (redact_quoted_run content original name (go "regex") [] auto s) as (s' & Hrun & Ho & Hn & Hb).
    exists name, content, [], auto, s'. split_and!; [done|by rewrite app_nil_r|by left|by eapply custom_match_name|auto..]. }
  destruct (signature_match content) as [[[label body] trail]|] eqn:Es.
  { destruct (redact_quoted_run body original (entityLabel st label) (go "signature") trail false s)
      as (s' & Hrun & Ho & Hn & Hb).
    exists (entityLabel st label), body, trail, false, s'.
    split_and!; [done|by eapply signature_match_split|by eapply signature_match_trail| |auto..].
    eapply entityLabel_name, signature_match_type, Es. }
  destruct (redact_quoted_run content original (entityLabel st (go "key")) (go "key") [] auto s)
    as (s' & Hrun & Ho & Hn & Hb).
  exists (entityLabel st (go "key")), content, [], auto, s'.
  split_and!; [exact Hrun|by rewrite app_nil_r|by left|by apply entityLabel_name|auto..].
Qed.

(** Whatever it decides, [processSingleToken] writes a redacted form of the token. *)
Lemma scans_processSingleToken content original forced context auto :
  framed content original -> scans (processSingleToken st content original forced context auto) original.
Proof.
  intros Hf. unfold processSingleToken.
  destruct (_ || _); [auto with scans|]. destruct (_ && _); [auto with scans|].
  destruct (existsb _ _); [auto with scans|].
  destruct (custom_match st content) eqn:Ec.
  { apply scans_redact_quoted; [by rewrite app_nil_r|by eapply custom_match_name]. }
  destruct (signature_match content) as [[[label body] trail]|] eqn:Es.
  - apply scans_redact_quoted; [by rewrite <-(signature_match_split _ _ _ _ Es)|].
    eapply entityLabel_name, signature_match_type, Es.
  - destruct (heuristics _ _ _ _); [by apply scans_score_token|auto with scans].
Qed.

Lemma scans_processSingleToken_same content forced context auto :
  scans (processSingleToken st content content forced context auto) content.
Proof. apply scans_processSingleToken, framed_refl. Qed.

Lemma scans_processSingleToken_trim raw forced context auto :
  scans (processSingleToken st (trimQuotes raw) raw forced context auto) raw.
Proof. apply scans_processSingleToken, trimQuotes_framed. Qed.

Lemma scans_processBinaryBlob content context : scans (processBinaryBlob st content context) content.
Proof.
  unfold processBinaryBlob. destruct (existsb _ _); [auto with scans|].
  apply scans_bind_l; [apply scans_token_threshold|]. intros t. destruct (fleb _ _); [|destruct context]; auto with scans.
Qed.

Lemma scans_writeKeyHalf key : scans (writeKeyHalf st key) key.
Proof.
  unfold writeKeyHalf. destruct (_ || _); [auto with scans|apply scans_processSingleToken_same].
Qed.

(** ** Paths and queries *)

Lemma scans_write_path_segment seg : scans (write_path_segment st seg) seg.
Proof.
  unfold write_path_segment. pose proof (urlPathSignature_type seg) as Ht.
  destruct (urlPathSignature seg) as [keep label]. simpl in Ht. destruct (is_empty label).
  - destruct (isSecretPathSegment st seg); auto with scans.
  - eapply scans_as; [apply (take_drop keep seg)|]. apply scans_bind; auto with scans.
Qed.

Lemma scans_writeURLPath path : scans (writeURLPath st path) path.
Proof.
  unfold writeURLPath. destruct (_ && _); [auto with scans|].
  eapply scans_as; [apply (Join_Split path (ch "/"))|]. apply scans_write_joined; [apply Split_not_nil|].
  intros p _. apply scans_write_path_segment.
Qed.

Lemma scans_write_param param : scans (write_param st param) param.
Proof.
  unfold write_param. destruct (IndexByte param (ch "=")) as [i|] eqn:Ei; [|auto with scans].
  assert (forall label strategy, entity_type label = true -> scans (write (take i param);; write (go "=");;
    redactWithHMAC st (drop (S i) param) (entityLabel st label) strategy) param) as Hhide.
  { intros label strategy Hl. eapply scans_as; [symmetry; apply (IndexByte_split _ _ _ Ei)|].
    apply scans_bind; [auto with scans|]. intros _.
    apply (scans_bind st _ _ (go "=")); auto with scans. }
  repeat match goal with |- context [if ?b then _ else _] => destruct b end; auto with scans.
Qed.

Lemma scans_write_query section : scans (write_query st section) ([ch "?"] ++ section).
Proof.
  unfold write_query. apply scans_bind; [auto with scans|]. intros _.
  eapply scans_as; [apply (Join_Split section (ch "&"))|]. apply scans_write_joined; [apply Split_not_nil|].
  intros p _. apply scans_write_param.
Qed.

End tokens.

#[export] Hint Resolve scans_processSingleToken_same scans_processSingleToken_trim
  scans_processBinaryBlob scans_writeKeyHalf scans_writeURLPath : scans.

(** ** The measure

    A call at depth [d] on a text with [a] ASCII bytes costs
    [5 * (34 - d) + 5 * a + rank]; every call of the engine costs less than its
    caller.  A segment that starts with a space or tab outside quotes costs as
    much as what follows it: the tokenizer cuts there first. *)

Definition cost (rank d : nat) (s : gostring) : nat := (5 * (34 - d) + 5 * ascii_count s + rank)%nat.

Definition is_blank (c : byte) : bool := (c =? ch " ") || (c =? tab).

Definition segment_rest (s : gostring) (inq : bool) : gostring :=
  if negb inq && at_is s 0 is_blank then drop 1 s else s.

Lemma segment_rest_le s inq : (ascii_count (segment_rest s inq) <= ascii_count s)%nat.
Proof. unfold segment_rest. destruct (_ && _); [apply ascii_count_drop|done]. Qed.

Lemma segment_rest_blank s i :
  at_is s i is_blank = true -> segment_rest (drop i s) false = drop (S i) s.
Proof.
  intros (c & Hc & Hb)%at_is_true. unfold segment_rest. rewrite (drop_S _ _ _ Hc).
  unfold at_is. simpl. rewrite Hb. by rewrite drop_0.
Qed.

Lemma blank_ascii s i :
  at_is s i is_blank = true ->
  (ascii_count (take i s) < ascii_count s /\ ascii_count (drop (S i) s) < ascii_count s)%nat.
Proof.
  intros (c & Hc & Hb)%at_is_true.
  assert (c < 128) by (unfold is_blank in Hb; apply orb_true_iff in Hb as [|]; boolp; subst; done).
  split; [by eapply ascii_count_take_lt|by eapply ascii_count_drop_lt].
Qed.

Section good.
Context `{RT : GoRuntime} (st : configState).

(** A text with something other than closing punctuation in it: on the others
    [urlClosingTail] is -1. *)
Definition url_body (s : gostring) : Prop := forallb closing_punct s = false.

(** The functions of [E] redact every input that costs less than [k]. *)
Record good (E : Engine) (k : nat) : Prop := {
  good_line d s : (d <= 33)%nat -> (cost 3 d s < k)%nat -> scans st (e_line E d s) s;
  good_segment d s inq q :
    (d <= 33)%nat -> (cost 2 d (segment_rest s inq) < k)%nat -> scans st (e_segment E d s inq q) s;
  good_token d a : (d <= 33)%nat -> (cost 1 d (rawToken a) < k)%nat -> scans st (e_token E d a) (rawToken a);
  good_mask d s :
    (d <= 33)%nat -> (cost 0 d s < k)%nat -> scans_if st (tame s = true /\ url_body s) (e_mask E d s) s;
  good_agent d s : (d <= 33)%nat -> (cost 3 d s < k)%nat -> scans st (e_agent E d s) s;
}.

Context (E : Engine) (k : nat) (HE : good E k).

Lemma call_segment d s inq q :
  (d <= 33)%nat -> (cost 2 d s < k)%nat -> scans st (e_segment E d s inq q) s.
Proof.
  intros Hd Hc. apply (good_segment _ _ HE); [done|]. pose proof (segment_rest_le s inq).
  unfold cost in *. lia.
Qed.

(** *** URLs *)

Lemma extend_at_spec fuel s a :
  s !! a = Some (ch "@") -> (a <= extend_at fuel s a)%nat /\ s !! extend_at fuel s a = Some (ch "@").
Proof.
  revert a. induction fuel as [|f IH]; intros a Ha; simpl; [done|].
  destruct (IndexByte (drop (S a) s) (ch "@")) as [n|] eqn:En; [|done].
  destruct (ContainsAny _ _); [done|]. apply IndexByte_Some in En as [En _]. rewrite lookup_drop in En.
  destruct (IH _ En) as [Hle Hat]. simpl in *. split; [lia|done].
Qed.

Lemma urlPassword_bounds url i j :
  urlPassword url = Some (i, j) ->
  (i <= j <= length url)%nat /\ (ascii_count (drop j url) < ascii_count url)%nat /\
  url !! j = Some (ch "@").
Proof.
  unfold urlPassword. destruct (Index url (go "://")) as [p|]; [|done].
  destruct (IndexByte (drop (p + 3) url) (ch "@")) as [rel|] eqn:Erel; [|done].
  apply IndexByte_Some in Erel as [Erel _]. rewrite lookup_drop in Erel.
  destruct (extend_at_spec (length url) url _ Erel) as [Hle Hat].
  set (at_ := extend_at _ _ _) in *. apply lookup_lt_Some in Hat as Hlen.
  destruct (IndexByte (slice url (p + 3) at_) (ch ":")) as [colon|] eqn:Ec; [|done].
  pose proof (IndexByte_lt _ _ _ Ec) as Hlt. rewrite slice_length in Hlt by lia.
  apply IndexByte_Some in Ec as [Ec _]. rewrite slice_lookup in Ec by lia.
  intros H. assert (i = p + 3 + colon + 1 /\ j = at_)%nat as [-> ->]
    by (revert H; cases; naive_solver).
  split_and!; [lia|lia| |done].
  pose proof (ascii_count_drop_lt url (p + 3 + colon) (ch ":") Ec ltac:(done)).
  pose proof (ascii_count_drop (drop (S (p + 3 + colon)) url) (at_ - S (p + 3 + colon))) as Hd.
  rewrite drop_drop in Hd. replace (S (p + 3 + colon) + (at_ - S (p + 3 + colon)))%nat with at_ in Hd by lia.
  lia.
Qed.

Lemma index_Z_max_quote url q :
  q = Z.max (index_Z (LastIndexByte url dquote)) (index_Z (LastIndexByte url squote)) -> 0 <= q ->
  exists c, url !! Z.to_nat q = Some c /\ c < 128.
Proof.
  intros Hq H0.
  destruct (LastIndexByte url dquote) as [i|] eqn:Ei, (LastIndexByte url squote) as [j|] eqn:Ej;
    simpl in Hq; try apply LastIndexByte_Some in Ei as [Ei _]; try apply LastIndexByte_Some in Ej as [Ej _].
  - destruct (Z.max_spec (Z.of_nat i) (Z.of_nat j)) as [[_ Hm]|[_ Hm]]; rewrite Hm in Hq; subst q;
      rewrite Nat2Z.id; eexists; done.
  - exists dquote. replace (Z.to_nat q) with i by lia. done.
  - exists squote. replace (Z.to_nat q) with j by lia. done.
  - lia.
Qed.

(** Cutting a query at its closing quote leaves the quote out. *)
Lemma urlClosingTail_smaller url :
  ContainsByte url (ch "?") = true -> 0 <= urlClosingTail url < Z.of_nat (length url) ->
  (ascii_count (take (Z.to_nat (urlClosingTail url)) url) < ascii_count url)%nat.
Proof.
  intros Hc. unfold urlClosingTail.
  set (q := Z.max _ _). destruct (IndexByte url (ch "?")) as [i|] eqn:Ei;
    [|apply ContainsByte_In in Hc; by apply IndexByte_None in Ei].
  cbn [index_Z]. destruct (q <? Z.of_nat i) eqn:E1; [lia|]. destruct (negb _); [lia|]. boolp.
  destruct (index_Z_max_quote url q eq_refl ltac:(lia)) as (c & Hq & Hlt).
  pose proof (ascii_count_take_lt url (Z.to_nat q) c Hq Hlt) as Hcnt.
  intros Ht.
  match goal with |- context [Z.to_nat ?t] => assert (Z.to_nat t <= Z.to_nat q)%nat as Hle end.
  { destruct (Nat.odd _); lia. }
  pose proof (ascii_count_take (take (Z.to_nat q) url) (Z.to_nat (if Nat.odd (span_len (Z.eqb backslash) (rev (take (Z.to_nat q) url))) then q - 1 else q))) as Htt.
  rewrite take_take, Nat.min_l in Htt by done. lia.
Qed.

Lemma indexWhitespace_Some url i :
  indexWhitespace url = Some i -> at_is url i is_blank = true.
Proof.
  unfold indexWhitespace. intros H. apply at_is_true.
  destruct (IndexByte url (ch " ")) as [a|] eqn:Ea, (IndexByte url tab) as [b|] eqn:Eb;
    try apply IndexByte_Some in Ea as [Ea _]; try apply IndexByte_Some in Eb as [Eb _]; simplify_eq; eauto.
  destruct (_ <? _)%nat; eauto.
Qed.

(** On a tame text with a body the closing tail is in range. *)
Lemma urlClosingTail_range url :
  tame url = true -> url_body url -> 0 <= urlClosingTail url <= Z.of_nat (length url).
Proof.
  intros Ht Hb. unfold urlClosingTail. set (q := Z.max _ _).
  destruct (_ <? _); [lia|]. destruct (negb _) eqn:En; [lia|]. boolp.
  destruct (Z.le_gt_cases 0 q) as [Hq|Hq].
  - destruct (index_Z_max_quote url q eq_refl Hq) as (c & Hc & _). apply lookup_lt_Some in Hc.
    replace (span_len _ _) with O; [simpl; lia|].
    destruct (rev (take (Z.to_nat q) url)) as [|b l] eqn:El; [done|]. cbn [span_len].
    destruct (backslash =? b) eqn:Eb; [|done]. exfalso. boolp. subst b.
    apply (tame_no_byte (take (Z.to_nat q) url) backslash); [by apply tame_take|done|].
    apply in_rev. rewrite El. by left.
  - exfalso. unfold url_body in Hb. replace (Z.to_nat (q + 1)) with O in En by lia. rewrite drop_0 in En. congruence.
Qed.

(** A text with a '?' is not tame. *)
Lemma query_wild url : ContainsByte url (ch "?") = true -> tame url = true -> False.
Proof. intros Hq Ht. apply ContainsByte_In in Hq. by eapply (tame_no_byte url (ch "?")). Qed.

(** A part of the text written as it is after a scanned one. *)
Lemma scans_then_rest T (m : M unit) url i :
  0 <= i <= Z.of_nat (length url) -> scans_if st T m (take (Z.to_nat i) url) ->
  scans_if st T (m;; write (drop (length (take (Z.to_nat i) url)) url)) url.
Proof.
  intros Hi Hm. rewrite length_take, Nat.min_l by lia.
  eapply scans_if_as; [apply (take_drop (Z.to_nat i) url)|]. apply scans_if_bind; [done|].
  intros _. apply scans_if_write.
Qed.

Lemma scans_mask_query url :
  scans st (match Split url (ch "?") with
            | [] => mret tt
            | path :: sections => writeURLPath st path;; for_each (write_query st) sections
            end) url.
Proof.
  eapply scans_as; [apply (Join_Split url (ch "?"))|]. pose proof (Split_not_nil url (ch "?")).
  destruct (Split url (ch "?")) as [|path sections]; [done|].
  eapply scans_as; [|apply scans_bind; [apply scans_writeURLPath|]].
  2: { intros _. apply (scans_for_each st _ (fun s => [ch "?"] ++ s)). intros s _. apply scans_write_query. }
  clear. revert path. induction sections as [|s l IH]; intros path; [by rewrite app_nil_r|].
  change (Join (path :: s :: l) [ch "?"]) with (path ++ [ch "?"] ++ Join (s :: l) [ch "?"]).
  by rewrite <-IH.
Qed.

Lemma scans_maskURLParameters d url :
  (d <= 33)%nat -> (cost 0 d url <= k)%nat ->
  scans_if st (tame url = true /\ url_body url) (maskURLParameters st E d url) url.
Proof.
  intros Hd Hc. unfold cost in Hc. unfold maskURLParameters.
  destruct (urlPassword url) as [[i j]|] eqn:Ep.
  - destruct (urlPassword_bounds _ _ _ Ep) as (Hij & Ha & Hat).
    eapply scans_if_as; [apply (take_drop i url)|]. apply scans_if_bind; [apply scans_if_write|]. intros _.
    eapply scans_if_as; [apply (slice_drop url i j); lia|]. apply scans_if_bind.
    + apply scans_if_weaken with (T := tame (slice url i j) = true); [intros [? _]; auto with gostr|].
      destruct (isRedacted _); [apply scans_write|].
      destruct (is_empty (matchSignature (slice url i j))) eqn:El; cbn [negb];
        apply scans_redact, entityLabel_name; [done|by apply matchSignature_type].
    + intros _. eapply scans_if_weaken; [|apply (good_mask _ _ HE); [done|unfold cost; lia]].
      intros [? _]. split; [auto with gostr|]. unfold url_body. by rewrite (drop_S _ _ _ Hat).
  - destruct (negb (ContainsByte url (ch "?"))) eqn:Eq; [|boolp; pose proof (query_wild url Eq) as Hw].
    + apply scans_slice_to; [intros []; by apply urlClosingTail_range|]. intros Ht.
      apply scans_then_rest; [done|].
      eapply scans_if_weaken; [|apply scans_writeURLPath]. intros [? _]. auto with gostr.
    + eapply scans_if_weaken with (T := False); [tauto|].
      destruct (urlClosingTail url <? Z.of_nat (length url)) eqn:El; boolp.
      * apply scans_slice_to; [done|]. intros Ht. apply scans_then_rest; [done|].
        pose proof (urlClosingTail_smaller url Eq ltac:(lia)).
        eapply scans_if_weaken; [|apply (good_mask _ _ HE); [done|unfold cost; lia]]. done.
      * destruct (indexWhitespace url) as [i|] eqn:Ew.
        -- apply indexWhitespace_Some in Ew. destruct (blank_ascii _ _ Ew) as [Ht Hr].
           eapply scans_if_as; [apply (take_drop i url)|]. apply scans_if_bind; [|intros _].
           { eapply scans_if_weaken; [|apply (good_mask _ _ HE); [done|unfold cost; lia]]. done. }
           eapply scans_if_weaken; [|apply scans_then_ret, (good_segment _ _ HE); [done|]]; [done|].
           rewrite segment_rest_blank by done. unfold cost. lia.
        -- eapply scans_if_weaken; [|apply scans_mask_query]. done.
Qed.

(** Nothing but closing punctuation: the slice at -1 panics. *)
Lemma mask_closing_panics d url s :
  forallb closing_punct url = true -> maskURLParameters st E d url s = Panic s.
Proof.
  intros H. assert (forall c, closing_punct c = false -> ~ In c url) as Hno.
  { rewrite forallb_forall in H. intros c Hc Hin. apply H in Hin. congruence. }
  assert (forall c, closing_punct c = false -> LastIndexByte url c = None /\ IndexByte url c = None) as Hidx.
  { intros c Hc. split; [|by apply IndexByte_None, Hno]. destruct (LastIndexByte url c) as [i|] eqn:Ei; [|done].
    apply LastIndexByte_Some in Ei as [Ei _]. exfalso. apply (Hno c Hc). by eapply list_elem_of_In, list_elem_of_lookup_2. }
  unfold maskURLParameters, urlPassword. destruct (Index url (go "://")) as [i|] eqn:Ei.
  { exfalso. apply Index_Some, HasPrefix_app in Ei as [t Ht]. apply (Hno (ch "/")); [done|].
    rewrite <-(take_drop i url), Ht, !in_app_iff. right. left. simpl. auto. }
  assert (ContainsByte url (ch "?") = false) as ->.
  { apply not_true_iff_false. rewrite ContainsByte_In. by apply Hno. }
  unfold urlClosingTail. rewrite (proj1 (Hidx dquote eq_refl)), (proj1 (Hidx squote eq_refl)), (proj2 (Hidx (ch "?") eq_refl)).
  simpl. by rewrite drop_0, H.
Qed.

(** *** User-Agents *)

Lemma agent_loop_emits d ua fuel i runStart paren :
  (d <= 33)%nat -> (cost 3 d ua <= k)%nat ->
  (runStart <= i <= length ua)%nat -> (length ua - i < fuel)%nat ->
  emits st (tame ua = true) (agent_loop E d ua fuel i runStart paren)
    (fun r src => (runStart <= r <= length ua)%nat /\ src = slice ua runStart r).
Proof.
  intros Hd Hc. unfold cost in Hc. revert i runStart paren.
  induction fuel as [|f IH]; intros i runStart paren Hi Hf; [lia|].
  simpl. destruct (ua !! i) as [c|] eqn:Ec; [|apply emits_ret; split; [lia|by rewrite slice_nil]].
  apply lookup_lt_Some in Ec as Hlt. destruct (ua_space c) eqn:Es; [apply IH; lia|].
  set (e := (i + span_len (fun c => negb (ua_space c)) (drop i ua))%nat).
  assert (i < e <= length ua)%nat as He.
  { unfold e. pose proof (span_len_le (fun c => negb (ua_space c)) (drop i ua)) as Hl.
    rewrite length_drop in Hl. split; [|lia]. rewrite (drop_S _ _ _ Ec). simpl. rewrite Es. simpl. lia. }
  set (coreStart := (i + span_len (Z.eqb (ch "(")) (slice ua i e))%nat).
  set (coreEnd := (e - span_len ua_trail (rev (slice ua coreStart e)))%nat).
  assert (i <= coreStart <= e)%nat as Hs.
  { unfold coreStart. pose proof (span_len_le (Z.eqb (ch "(")) (slice ua i e)) as Hl.
    rewrite slice_length in Hl by lia. lia. }
  assert (coreStart <= coreEnd <= e)%nat as Hce.
  { unfold coreEnd. pose proof (span_len_le ua_trail (rev (slice ua coreStart e))) as Hl.
    rewrite length_rev, slice_length in Hl by lia. lia. }
  destruct (_ || _); [|apply IH; lia].
  eapply emits_scans_bind with (s1 := slice ua runStart coreStart).
  { destruct (_ <? _)%nat eqn:E1; boolp.
    - apply scans_then_ret, call_segment; [done|]. pose proof (ascii_count_slice ua runStart coreStart).
      unfold cost. lia.
    - replace coreStart with runStart by lia. rewrite slice_nil. auto with scans. }
  { auto with gostr. }
  intros _. eapply emits_scans_bind; [apply scans_write|auto with gostr|]. intros _.
  eapply emits_weaken; [apply IH; lia|done|]. intros r src [Hr ->]. split; [lia|].
  rewrite !slice_app by lia. done.
Qed.

Lemma scans_scanUserAgent d ua :
  (d <= 33)%nat -> (cost 3 d ua <= k)%nat -> scans st (scanUserAgent E d ua) ua.
Proof.
  intros Hd Hc. unfold scanUserAgent. apply scans_emits.
  eapply emits_bind; [apply agent_loop_emits; (done || lia)|].
  intros r src [Hr ->]. rewrite slice_0. destruct (_ <? _)%nat eqn:E1; boolp.
  - eapply emits_weaken; [apply scans_emits, scans_then_ret, call_segment; [done|]|..].
    + pose proof (ascii_count_drop ua r). unfold cost in *. lia.
    + auto with gostr.
    + intros _ s ->. by rewrite take_drop.
  - apply emits_ret. rewrite take_ge by lia. by rewrite app_nil_r.
Qed.

End good.
