(* ===== verification/TokenLogic.v ===== *)
(** * Cutting a token

    [processTokenLogic] of [pkg/scanner/scanner.go] with its pair splitters.  The
    function is a chain of guarded early returns; each guard with its body is a
    definition here, [None] where the guard fails and the chain goes on, and
    [processTokenLogic] tries them in the order of the code. *)

From Stdlib Require Import ZArith Lia Bool SpecFloat.
From stdpp Require Import base list option sets.
From S2P Require Import Prelude GoStrings Float64 Regex Signatures KeyMatcher Config Entropy Luhn Shapes.
From S2P Require Import Whitelist Tokens JsonString Keys Adaptive Machine Engine Redaction EngineProofs.

(** Write [q] on both sides of what [m] writes. *)
Definition wrapped {A} (q : gostring) (m : M A) : M A := write q;; r ← m; write q;; mret r.

Definition quote_of (s : gostring) : gostring := take 1 s.

Definition contains_pair_sep (val : gostring) : bool :=
  ContainsByte val (ch "=") || ContainsByte val (ch ":").

(** [strings.IndexFunc(s, isSepRune) != -1]. *)
Definition has_sep (s : gostring) : bool := existsb isSepRune (runes s).

Definition starts_quoted (s : gostring) : bool := at_is s 0 is_quote_byte.

Section token.
Context `{RT : GoRuntime} (st : configState) (E : Engine).

(** A phrase goes back to the tokenizer, a User-Agent to its own scanner. *)
Definition scan_phrase (depth : nat) (s : gostring) : M unit :=
  if startsWithProductToken s then e_agent E depth s
  else e_segment E depth s false 0;; mret tt.

(** A pair whose value is written; the pair is a pending key when the value is empty. *)
Definition pending_key (keySensitive : bool) (val : gostring) : bool := keySensitive && is_empty val.

(** The branch of [processEqualPair] for a token in matching quotes. *)
Definition equal_pair_quoted (depth : nat) (raw : gostring) (forced override : bool) : option (M bool) :=
  let quote := quote_of raw in
  let trimmed := trimQuotes raw in
  if isPaddedBase64Blob trimmed || isElidedBase64 trimmed then
    Some (wrapped quote (processSingleToken st trimmed trimmed forced false false);; mret false)
  else
    match IndexByte trimmed (ch "=") with
    | None => None
    | Some tIdx =>
      if forced then
        Some (wrapped quote (processSingleToken st trimmed trimmed true false false);; mret false)
      else
        let key := take tIdx trimmed in
        let val := drop (S tIdx) trimmed in
        if has_sep key then Some (wrapped quote (scan_phrase (S depth) trimmed);; mret false)
        else
          let keySensitive := isSensitivePairKey st key || override in
          Some (wrapped quote (
            writeKeyHalf st key;;
            write (go "=");;
            (if keySensitive then processSingleToken st val val true false false
             else if contains_pair_sep val && has_sep val then e_line E (S depth) val
             else if contains_pair_sep val then
               e_token E (S depth) (token_args val false false false false override);; mret tt
             else e_line E (S depth) val));;
            mret (pending_key keySensitive val))
    end.

(** The branch of [processEqualPair] for a token that is not quoted, cut at [idx]. *)
Definition equal_pair_bare (depth : nat) (raw : gostring) (idx : nat) (override : bool) : M bool :=
  let key := take idx raw in
  let val := drop (S idx) raw in
  let keySensitive :=
    isSensitivePairKey st key || override || (isSessionKey key && isSessionTokenValue st val) in
  writeKeyHalf st key;;
  write (go "=");;
  (if contains_pair_sep val && negb keySensitive then
     e_token E (S depth) (token_args val false false false false override);; mret tt
   else if isBalancedQuoted val || isBytesLiteral val then
     e_token E (S depth) (token_args val keySensitive false true false false);; mret tt
   else processSingleToken st val val keySensitive false false);;
  mret (pending_key keySensitive val).

(** [processEqualPair]; [None] is [handled = false]. *)
Definition processEqualPair (depth : nat) (raw : gostring) (forced override : bool) : option (M bool) :=
  match IndexByte raw (ch "=") with
  | None => None
  | Some idx =>
    if isPaddedBase64Blob raw || isElidedBase64 raw then None
    else if forced && isPaddedBase64Token raw then None
    else if isBalancedQuoted raw then equal_pair_quoted depth raw forced override
    else Some (equal_pair_bare depth raw idx override)
  end.

(** Where [processColonPair] cuts: the first colon, or in a quoted token the first
    after the closing quote. *)
Definition colon_index (raw : gostring) : option nat :=
  if starts_quoted raw then
    match IndexByte (drop 1 raw) (byte_at raw 0) with
    | Some endQ => (fun c => endQ + 2 + c)%nat <$> IndexByte (drop (endQ + 2) raw) (ch ":")
    | None => IndexByte raw (ch ":")
    end
  else IndexByte raw (ch ":").

(** A pair with nothing after its colon. *)
Definition colon_pair_empty (raw keyRaw key : gostring) (keySensitive : bool) : M bool :=
  if at_email key && (str_eqb keyRaw key || isBalancedQuoted keyRaw) && isEmailAddress key then
    processSingleToken st key keyRaw false false false;;
    write (go ":");; mret keySensitive
  else if str_eqb keyRaw key && negb keySensitive && (negb (length key =? 12)%nat || negb (isHexString key))
  then writeKeyHalf st key;; write (go ":");; mret false
  else write raw;; mret keySensitive.

(** The pair [raw], cut at the colon [idx]. *)
Definition colon_pair_at (depth : nat) (raw : gostring) (idx : nat) (override : bool) : M bool :=
  if isImage raw then write raw;; mret false
  else
    let keyRaw := take idx raw in
    let val := drop (S idx) raw in
    let key := trimQuotes keyRaw in
    let keySensitive :=
      isSensitiveKey st key || override || (isSessionKey key && isSessionTokenValue st (trimQuotes val)) in
    if is_empty val then colon_pair_empty raw keyRaw key keySensitive
    else if str_eqb keyRaw key && at_email key && isEmailAddress key && negb (isSCPTarget val) then
      processSingleToken st key keyRaw false false false;;
      write (go ":");;
      processSingleToken st val val true false false;;
      mret false
    else
      write keyRaw;;
      write (go ":");;
      e_token E (S depth) (token_args val keySensitive false true (starts_quoted keyRaw) false).

(** [processColonPair]; [None] is [handled = false]. *)
Definition processColonPair (depth : nat) (raw : gostring) (override : bool) : option (M bool) :=
  if Contains raw (go "://") then None
  else
    match colon_index raw with
    | None => None
    | Some idx => Some (colon_pair_at depth raw idx override)
    end.

(** ** The stages of [processTokenLogic] *)

(** A value between escaped quotes or backticks. *)
Definition wrap_stage (depth : nat) (a : tokenArgs) : option (M bool) :=
  let raw := rawToken a in
  match escapedOrBacktickWrap raw with
  | Some w =>
    let n := length raw in
    Some (write (take w raw);;
          inner ← e_token E (S depth) (token_args (slice raw w (n - w)) (forcedSensitive a)
                    (contextSensitive a) (isValuePos a) false (overrideSensitivity a));
          write (drop (n - w) raw);;
          mret inner)
  | None => None
  end.

(** The password slot of a URL holds a marker. *)
Definition url_password_redacted (raw : gostring) : bool :=
  match urlPassword raw with
  | Some (s, e) => isRedacted (slice raw s e)
  | None => false
  end.

(** A token with a marker of an earlier pass in it. *)
Definition marker_stage (depth : nat) (a : tokenArgs) : option (M bool) :=
  let raw := rawToken a in
  if Contains raw hiddenOpen then
    if url_password_redacted raw then Some (e_mask E depth raw;; mret false)
    else if isRedacted (trimQuotes raw) then Some (write raw;; mret false)
    else if negb (ContainsAny raw [dquote; squote]) then Some (e_line E (S depth) raw;; mret false)
    else None
  else None.

(** A JSON string with escaped quotes inside. *)
Definition json_stage (depth : nat) (a : tokenArgs) : option (M bool) :=
  let raw := rawToken a in
  match escapedJSONString raw with
  | Some inner =>
    Some (
      if forcedSensitive a then
        wrapped [dquote] (processSingleToken st inner inner true (contextSensitive a) false);;
        mret false
      else
        r ← with_builder (e_line E (S depth) inner);
        write (if str_eqb r.2 inner then raw else jsonQuote r.2);;
        mret false)
  | None => None
  end.

(** A Python bytes literal. *)
Definition bytes_stage (depth : nat) (a : tokenArgs) : option (M bool) :=
  let raw := rawToken a in
  if isBytesLiteral raw then
    let inner := slice raw 2 (length raw - 1) in
    Some (
      write (take 2 raw);;
      (if forcedSensitive a then processSingleToken st inner inner true (contextSensitive a) false
       else if isEscapedBinary inner then processBinaryBlob st inner (contextSensitive a)
       else e_segment E (S depth) inner false 0;; mret tt);;
      write (slice raw 1 2);;
      mret false)
  else None.

(** A quoted chain of assignments, on its own or as the value of a compact pair. *)
Definition chain_stage (depth : nat) (a : tokenArgs) : option (M bool) :=
  let raw := rawToken a in
  if negb (forcedSensitive a) && starts_quoted raw && ContainsByte raw (ch "=") &&
     ContainsAny raw [ch "&"; backslash; newline]
  then
    if isBalancedQuoted raw && negb (ContainsByte (inner_of raw) (byte_at raw 0)) &&
       hasChainBoundary (inner_of raw)
    then Some (wrapped (quote_of raw) (e_segment E (S depth) (inner_of raw) false 0);; mret false)
    else
      match splitCompactPair raw with
      | Some (k, v) =>
        if hasChainBoundary v then
          Some (write (take (length k + 2) raw);;
                write (go ":");;
                e_token E (S depth) (token_args (drop (length k + 3) raw)
                  (isSensitiveKey st k || overrideSensitivity a) false true true false);;
                mret false)
        else None
      | None => None
      end
  else None.

(** [eq > 0 && !ContainsAny(raw[:eq], ...) && isQuotedPhrase(raw[eq+1:])]. *)
Definition logfmt_phrase (raw : gostring) : option nat :=
  match IndexByte raw (ch "=") with
  | Some eq =>
    if (0 <? eq)%nat && negb (ContainsAny (take eq raw) (dquote :: squote :: go " :/?&")) &&
       isQuotedPhrase (drop (S eq) raw)
    then Some eq else None
  | None => None
  end.

(** The key of a compact pair whose value is a quoted phrase. *)
Definition compact_phrase (raw : gostring) : option gostring :=
  match splitCompactPair raw with
  | Some (k, _) => if isQuotedPhrase (drop (length k + 3) raw) then Some k else None
  | None => None
  end.

(** A token with a URL in it. *)
Definition url_stage (depth : nat) (a : tokenArgs) : option (M bool) :=
  let raw := rawToken a in
  if Contains raw (go "://") || hasQueryShape raw then
    Some (
      if isQuotedPhrase raw then
        (if forcedSensitive a
         then processSingleToken st (trimQuotes raw) raw true (contextSensitive a) (isValuePos a)
         else wrapped (quote_of raw) (e_segment E (S depth) (inner_of raw) false 0);; mret tt);;
        mret false
      else
        match compact_phrase raw with
        | Some k =>
          write (take (length k + 3) raw);;
          e_token E (S depth) (token_args (drop (length k + 3) raw)
            (isSensitiveKey st k || overrideSensitivity a) false true true false);;
          mret false
        | None =>
          match logfmt_phrase raw with
          | Some eq =>
            write (take (S eq) raw);;
            e_token E (S depth) (token_args (drop (S eq) raw)
              (isSensitiveKey st (take eq raw) || overrideSensitivity a) false true false false);;
            mret false
          | None => e_mask E depth raw;; mret false
          end
        end)
  else None.

(** A Telegram bot token, on its own or in a path. *)
Definition telegram_stage (a : tokenArgs) : option (M bool) :=
  let raw := rawToken a in
  if hasTelegramShape raw then
    if negb (is_empty (matchSignature (trimQuotes raw))) then
      Some (processSingleToken st (trimQuotes raw) raw (forcedSensitive a) (contextSensitive a) (isValuePos a);;
            mret false)
    else if ContainsByte raw (ch "/") && hasPathSignature raw then Some (writeURLPath st raw;; mret false)
    else None
  else None.

(** A complete ISO 8601 timestamp, then Python's LEVEL:logger:message prefix. *)
Definition prefix_stage (depth : nat) (a : tokenArgs) : option (M bool) :=
  let raw := rawToken a in
  if forcedSensitive a then None
  else if isISO8601Timestamp (trimQuotes raw) then Some (write raw;; mret false)
  else
    let end_ := pythonLogPrefixEnd raw in
    if (0 <? end_)%nat then
      Some (write (take end_ raw);;
            if (end_ =? length raw)%nat then mret false
            else e_token E (S depth) (token_args (drop end_ raw) false (contextSensitive a) false false
                   (overrideSensitivity a)))
    else None.

(** A compact JSON pair with a quoted value. *)
Definition compact_stage (depth : nat) (a : tokenArgs) : option (M bool) :=
  match splitCompactPair (rawToken a) with
  | Some _ => processColonPair depth (rawToken a) (overrideSensitivity a)
  | None => None
  end.

(** An unquoted forced value with a colon inside it. *)
Definition forced_colon_stage (a : tokenArgs) : option (M bool) :=
  let raw := rawToken a in
  if forcedSensitive a && (1 <? length raw)%nat && negb (starts_quoted raw) then
    match IndexByte raw (ch ":") with
    | Some colon =>
      if (0 <? colon)%nat && (colon <? length raw - 1)%nat
      then Some (processSingleToken st raw raw true (contextSensitive a) (isValuePos a);; mret false)
      else None
    | None => None
    end
  else None.

(** A pair cut at a full-width colon. *)
Definition wide_colon_stage (depth : nat) (a : tokenArgs) : option (M bool) :=
  let raw := rawToken a in
  match IndexByte raw (byte_at fullWidthColon 0) with
  | Some i =>
    if (0 <? i)%nat && HasPrefix (drop i raw) fullWidthColon &&
       negb (ContainsAny raw [ch ":"; ch "="; dquote; squote])
    then
      let key := take i raw in
      let val := drop (i + length fullWidthColon) raw in
      let keySensitive := isSensitiveKey st key || overrideSensitivity a in
      Some (writeKeyHalf st key;;
            write fullWidthColon;;
            if is_empty val then mret keySensitive
            else e_token E (S depth) (token_args val keySensitive false true false false))
    else None
  | None => None
  end.

(** The token is one word, a key or a value. *)
Definition single_stage (depth : nat) (a : tokenArgs) : M bool :=
  let raw := rawToken a in
  let trimmed := trimQuotes raw in
  if negb (isValuePos a) && (isSensitiveKey st trimmed || overrideSensitivity a) then
    write raw;; mret true
  else if negb (forcedSensitive a) && isBalancedQuoted raw then
    wrapped (quote_of raw) (scan_phrase (S depth) trimmed);; mret false
  else
    processSingleToken st trimmed raw (forcedSensitive a) (contextSensitive a) (autoQuote a);;
    mret false.

(** The first stage that takes the token, or [d]. *)
Fixpoint first_stage {A} (stages : list (option A)) (d : A) : A :=
  match stages with
  | [] => d
  | Some m :: _ => m
  | None :: l => first_stage l d
  end.

(** [processTokenLogic]. *)
Definition processTokenLogic (depth : nat) (a : tokenArgs) : M bool :=
  let raw := rawToken a in
  if (maxTokenRecursionDepth <? depth)%nat then
    processSingleToken st (trimQuotes raw) raw (forcedSensitive a) (contextSensitive a) true;;
    mret false
  else
    first_stage
      [ wrap_stage depth a;
        marker_stage depth a;
        json_stage depth a;
        bytes_stage depth a;
        chain_stage depth a;
        url_stage depth a;
        telegram_stage a;
        prefix_stage depth a;
        compact_stage depth a;
        forced_colon_stage a;
        processEqualPair depth raw (forcedSensitive a) (overrideSensitivity a);
        wide_colon_stage depth a;
        processColonPair depth raw (overrideSensitivity a) ]
      (single_stage depth a).

End token.

(** ** Cutting a token keeps its text

    [processTokenLogic] writes a redacted form of its token, stage by stage. *)

Section wrapped.
Context `{RT : GoRuntime} (st : configState).

Lemma scans_wrapped {A} q (m : M A) src : scans st m src -> scans st (wrapped q m) (q ++ src ++ q).
Proof.
  intros Hm. unfold wrapped. apply scans_bind; [auto with scans|]. intros _.
  apply scans_bind; [done|]. intros a. apply scans_then_ret. auto with scans.
Qed.

(** A balanced token, its content scanned between the quotes. *)
Lemma scans_balanced {A} raw (m : M A) :
  isBalancedQuoted raw = true -> scans st m (inner_of raw) -> scans st (wrapped (quote_of raw) m) raw.
Proof.
  intros Hb Hm. destruct (isBalancedQuoted_inner _ Hb) as (q & _ & Hs & Hq). unfold quote_of. rewrite Hq.
  eapply scans_as; [symmetry; exact Hs|]. by apply scans_wrapped.
Qed.

(** A decoded JSON string, scanned on a builder of its own. *)
Lemma scans_json {A} raw inner (m : M A) :
  escapedJSONString raw = Some inner -> scans st m inner ->
  scans st (r ← with_builder m; write (if str_eqb r.2 inner then raw else jsonQuote r.2);; mret false) raw.
Proof.
  intros Hj Hm s. unfold mbind, M_bind, with_builder. specialize (Hm {| sb := []; baseline := baseline s; callbacks := callbacks s |}).
  destruct (m _) as [a s'| |]; [|split; [by rewrite (escapedJSONString_wild _ _ Hj)|apply Hm]|done].
  destruct Hm as (n & o & (Ho & Hn & Hb) & HR). simpl in *.
  destruct (str_eqb (sb s') inner) eqn:Ee.
  - exists O, raw. simpl. split; [|apply R_keep]. split_and!; [done|simpl; lia|done].
  - exists n, (jsonQuote o). rewrite Ho. split; [done|]. by eapply R_json.
Qed.

Lemma scans_json_value {A} raw inner (m : M A) :
  escapedJSONString raw = Some inner -> scans st m inner -> scans st (wrapped [dquote] m) raw.
Proof.
  intros Hj Hm s. unfold wrapped, mbind, M_bind. simpl.
  specialize (Hm {| sb := sb s ++ [dquote]; baseline := baseline s; callbacks := callbacks s |}).
  destruct (m _) as [a s'| |]; [|split; [by rewrite (escapedJSONString_wild _ _ Hj)|apply Hm]|done].
  destruct Hm as (n & o & (Ho & Hn & Hb) & HR). simpl in *.
  exists n, ([dquote] ++ o ++ [dquote]).
  split; [split_and!; simpl; [by rewrite Ho, <-!app_assoc|done|done]|].
  by eapply R_json_value.
Qed.

End wrapped.

(** ** Where tokens are cut *)

Lemma colon_index_lookup raw i : colon_index raw = Some i -> raw !! i = Some (ch ":").
Proof.
  unfold colon_index. intros H.
  destruct (starts_quoted raw); [destruct (IndexByte (drop 1 raw) _) as [e|]|].
  - destruct (IndexByte (drop (e + 2) raw) (ch ":")) as [c|] eqn:Ec; [|done]. simpl in H. simplify_eq.
    apply IndexByte_Some in Ec as [Ec _]. by rewrite lookup_drop in Ec.
  - by apply IndexByte_Some in H as [H _].
  - by apply IndexByte_Some in H as [H _].
Qed.

Lemma escapedOrBacktickWrap_le raw w :
  escapedOrBacktickWrap raw = Some w -> (w <= length raw - w)%nat.
Proof.
  unfold escapedOrBacktickWrap. case_ifs; intros [= <-]; boolp; lia.
Qed.

Lemma isBytesLiteral_split raw :
  isBytesLiteral raw = true ->
  raw = take 2 raw ++ slice raw 2 (length raw - 1) ++ slice raw 1 2 /\ (3 <= length raw)%nat.
Proof.
  unfold isBytesLiteral. intros H. boolp. split; [|done].
  destruct (raw !! 1%nat) as [q|] eqn:Eq; [|done]. boolp.
  apply at_is_true in H2 as (c & Hc & Hcq). boolp. subst c.
  assert (slice raw 1 2 = [q]) as ->.
  { unfold slice. rewrite (drop_S _ _ _ Eq). done. }
  assert (drop (length raw - 1) raw = [q]) as Hl.
  { rewrite (drop_S _ _ _ Hc). f_equal. apply drop_ge. lia. }
  rewrite <-Hl, slice_drop, take_drop by lia. done.
Qed.

Lemma splitCompactPair_length raw key v :
  splitCompactPair raw = Some (key, v) ->
  (length key + 3 <= length raw)%nat /\ raw !! (length key + 2)%nat = Some (ch ":").
Proof.
  unfold splitCompactPair. destruct raw as [|q t]; [done|]. case_ifs.
  destruct (IndexByte t q) as [e|] eqn:Ee; [|done]. apply IndexByte_lt in Ee.
  case_ifs. intros [= <- <-]. boolp.
  match goal with H : at_is _ _ _ = true |- _ => apply at_is_true in H as (c & Hc & Hq) end.
  boolp. subst c. rewrite slice_length by (simpl in *; lia). replace (S e - 1 + 2)%nat with (S (S e)) by lia.
  split; [simpl in *; lia|done].
Qed.

Lemma pythonLogPrefixEnd_le tok : (pythonLogPrefixEnd tok <= length tok)%nat.
Proof.
  unfold pythonLogPrefixEnd. cases; try lia.
  all: repeat match goal with H : at_is _ _ _ = true |- _ => apply at_is_lt in H end; lia.
Qed.

(** *** What makes a token a URL *)

Lemma url_body_lookup s i c : s !! i = Some c -> closing_punct c = false -> url_body s.
Proof.
  intros Hi Hc. unfold url_body. apply not_true_iff_false. rewrite forallb_forall. intros H.
  apply list_elem_of_lookup_2, list_elem_of_In, H in Hi. congruence.
Qed.

Lemma url_password_body `{RT : GoRuntime} s : url_password_redacted s = true -> url_body s.
Proof.
  unfold url_password_redacted. destruct (urlPassword s) as [[i j]|] eqn:Ep; [intros _|done].
  destruct (urlPassword_bounds _ _ _ Ep) as (_ & _ & Hat). by eapply url_body_lookup.
Qed.

Lemma url_shape_body s : Contains s (go "://") || hasQueryShape s = true -> tame s = true -> url_body s.
Proof.
  intros H Ht. apply orb_true_iff in H as [H|H].
  - unfold Contains in H. apply bool_decide_eq_true in H as [i Hi]. apply Index_Some in Hi.
    apply HasPrefix_app in Hi as [t Hs]. apply (url_body_lookup s (i + 1) (ch "/")); [|done].
    by rewrite <-lookup_drop, Hs.
  - unfold hasQueryShape in H. destruct (IndexByte s (ch "?")) as [q|] eqn:Eq; [|done].
    exfalso. apply IndexByte_Some in Eq as [Eq _]. apply list_elem_of_lookup_2, list_elem_of_In in Eq.
    by eapply (tame_no_byte s (ch "?")).
Qed.

(** ** The stages *)

Section stages.
Context `{RT : GoRuntime} (st : configState) (E : Engine) (k : nat) (HE : good st E k).
Context (d : nat) (raw : gostring) (Hd : (d <= 32)%nat) (Hc : (cost 1 d raw <= k)%nat).

Notation scans := (scans st).

(** Calls on a part of the token, one level deeper. *)
Lemma sub_token s f c v q o :
  (ascii_count s <= ascii_count raw)%nat -> scans (e_token E (S d) (token_args s f c v q o)) s.
Proof.
  intros Hs. apply (good_token _ _ _ HE _ (token_args s f c v q o)); [lia|].
  unfold cost in *. simpl rawToken. lia.
Qed.

Lemma sub_line s : (ascii_count s <= ascii_count raw)%nat -> scans (e_line E (S d) s) s.
Proof. intros Hs. apply (good_line _ _ _ HE); [lia|]. unfold cost in *. lia. Qed.

Lemma sub_segment s inq q :
  (ascii_count s <= ascii_count raw)%nat -> scans (e_segment E (S d) s inq q) s.
Proof. intros Hs. eapply call_segment; [done|lia|]. unfold cost in *. lia. Qed.

Lemma sub_phrase s : (ascii_count s <= ascii_count raw)%nat -> scans (scan_phrase E (S d) s) s.
Proof.
  intros Hs. unfold scan_phrase. destruct (startsWithProductToken s).
  - apply (good_agent _ _ _ HE); [lia|]. unfold cost in *. lia.
  - by apply scans_then_ret, sub_segment.
Qed.

Lemma sub_mask : (tame raw = true -> url_body raw) -> scans (e_mask E d raw) raw.
Proof.
  intros Hb. eapply scans_if_weaken; [|apply (good_mask _ _ _ HE); [lia|]]; [auto|]. unfold cost in *. lia.
Qed.

Lemma inner_of_le s : (ascii_count (inner_of s) <= ascii_count s)%nat.
Proof. apply ascii_count_slice. Qed.

Lemma trimQuotes_le s : (ascii_count (trimQuotes s) <= ascii_count s)%nat.
Proof. unfold trimQuotes. repeat case_match; try done; apply ascii_count_slice. Qed.

Hint Resolve sub_token sub_line sub_segment sub_phrase sub_mask inner_of_le trimQuotes_le scans_then_ret
  ascii_count_take ascii_count_drop ascii_count_slice : scans.

(** The token cut around the byte [c] at [i]. *)
Lemma scans_cut_at {A} (m : M unit) (f : unit -> M A) i c :
  raw !! i = Some c -> scans m (take i raw) ->
  scans (f tt) (c :: drop (S i) raw) -> scans (m ≫= f) raw.
Proof.
  intros Hi Hm Hf. eapply scans_as; [apply (take_drop_middle raw i c Hi)|].
  apply scans_bind; [done|]. by intros [].
Qed.

Definition stage_ok {A} (o : option (M A)) : Prop := forall m, o = Some m -> scans m raw.

Lemma equal_pair_quoted_ok forced override :
  isBalancedQuoted raw = true -> stage_ok (equal_pair_quoted st E d raw forced override).
Proof.
  intros Hb m. unfold equal_pair_quoted. rewrite trimQuotes_balanced by done.
  set (inner := inner_of raw).
  assert (ascii_count inner <= ascii_count raw)%nat as Hin by apply inner_of_le.
  destruct (isPaddedBase64Blob inner || isElidedBase64 inner).
  { intros [= <-]. apply scans_then_ret, scans_balanced; auto with scans. }
  destruct (IndexByte inner (ch "=")) as [i|] eqn:Ei; [|done].
  destruct forced; [intros [= <-]; apply scans_then_ret, scans_balanced; auto with scans|].
  destruct (has_sep _); [intros [= <-]; apply scans_then_ret, scans_balanced; auto with scans|].
  intros [= <-]. apply scans_then_ret, scans_balanced; [done|].
  eapply scans_as; [symmetry; apply (IndexByte_split _ _ _ Ei)|].
  apply scans_bind; [auto with scans|]. intros _. apply (scans_bind st _ _ (go "=")); [auto with scans|].
  intros _. pose proof (ascii_count_drop inner (S i)).
  repeat match goal with |- context [if ?b then _ else _] => destruct b end; auto with scans.
  - apply sub_line. lia.
  - apply scans_then_ret, sub_token. lia.
  - apply sub_line. lia.
Qed.

Lemma equal_pair_bare_ok i override :
  raw !! i = Some (ch "=") -> scans (equal_pair_bare st E d raw i override) raw.
Proof.
  intros Hi. unfold equal_pair_bare. eapply scans_cut_at; [done|auto with scans|].
  apply (scans_bind st _ _ (go "=")); [auto with scans|]. intros _. apply scans_then_ret.
  repeat match goal with |- context [if ?b then _ else _] => destruct b end; auto with scans.
Qed.

Lemma processEqualPair_ok forced override : stage_ok (processEqualPair st E d raw forced override).
Proof.
  intros m. unfold processEqualPair. destruct (IndexByte raw (ch "=")) as [i|] eqn:Ei; [|done].
  case_ifs; [by apply equal_pair_quoted_ok|]. intros [= <-].
  apply equal_pair_bare_ok. by apply IndexByte_Some in Ei as [? _].
Qed.

Lemma colon_pair_at_ok i override :
  raw !! i = Some (ch ":") -> scans (colon_pair_at st E d raw i override) raw.
Proof.
  intros Hi. unfold colon_pair_at. destruct (isImage raw); [auto with scans|].
  destruct (is_empty (drop (S i) raw)) eqn:Ev.
  - unfold colon_pair_empty. destruct (drop (S i) raw) eqn:Ed; [|done].
    assert (forall (m : M unit) (b : bool), scans m (take i raw) ->
      scans (m;; write (go ":");; mret b) raw) as Hkey.
    { intros m b Hm. eapply scans_cut_at; [done..|]. rewrite Ed. auto with scans. }
    destruct (_ && isEmailAddress _); [apply Hkey; auto with scans|].
    destruct (str_eqb (take i raw) (trimQuotes (take i raw))) eqn:Ek; [|simpl; auto with scans].
    apply str_eqb_eq in Ek. match goal with |- context [if ?b then _ else _] => destruct b end; [|auto with scans].
    apply Hkey. rewrite <-Ek. auto with scans.
  - match goal with |- context [if ?b then _ else _] => destruct b end.
    + eapply scans_cut_at; [done|auto with scans|].
      apply (scans_bind st _ _ (go ":")); auto with scans.
    + eapply scans_cut_at; [done|auto with scans|].
      apply (scans_bind st _ _ (go ":")); auto with scans.
Qed.

Lemma processColonPair_ok override : stage_ok (processColonPair st E d raw override).
Proof.
  intros m. unfold processColonPair. destruct (Contains _ _); [done|].
  destruct (colon_index raw) as [i|] eqn:Ei; [|done]. intros [= <-].
  by apply colon_pair_at_ok, colon_index_lookup.
Qed.

Context (a : tokenArgs) (Ha : rawToken a = raw).

Lemma wrap_stage_ok : stage_ok (wrap_stage E d a).
Proof.
  intros m. unfold wrap_stage. rewrite Ha.
  destruct (escapedOrBacktickWrap raw) as [w|] eqn:Ew; [|done]. intros [= <-].
  apply escapedOrBacktickWrap_le in Ew.
  eapply scans_as; [apply (take_drop w raw)|]. apply scans_bind; [auto with scans|]. intros _.
  eapply scans_as; [apply (slice_drop raw w (length raw - w)); lia|].
  apply scans_bind; [auto with scans|]. intros b. auto with scans.
Qed.

Lemma marker_stage_ok : stage_ok (marker_stage E d a).
Proof.
  intros m. unfold marker_stage. rewrite Ha.
  case_ifs; intros [= <-]; auto with scans. apply scans_then_ret, sub_mask. intros _. by apply url_password_body.
Qed.

Lemma json_stage_ok : stage_ok (json_stage st E d a).
Proof.
  intros m. unfold json_stage. rewrite Ha.
  destruct (escapedJSONString raw) as [inner|] eqn:Ej; [|done]. intros [= <-].
  destruct (forcedSensitive a).
  - apply scans_then_ret. eapply scans_json_value; [done|auto with scans].
  - apply scans_json; [done|]. by apply sub_line, escapedJSONString_ascii.
Qed.

Lemma bytes_stage_ok : stage_ok (bytes_stage st E d a).
Proof.
  intros m. unfold bytes_stage. rewrite Ha. case_ifs. intros [= <-].
  destruct (isBytesLiteral_split raw) as [Hs _]; [done|].
  eapply scans_as; [symmetry; exact Hs|]. apply scans_bind; [auto with scans|]. intros _.
  apply scans_bind; [|intros _; auto with scans].
  repeat match goal with |- context [if ?b then _ else _] => destruct b end; auto with scans.
Qed.

(** A compact pair with its key written as it is. *)
Lemma compact_rest (key v : gostring) f :
  splitCompactPair raw = Some (key, v) ->
  scans (e_token E (S d) (token_args (drop (length key + 3) raw) f false true true false);; mret false)
    (drop (length key + 3) raw).
Proof. intros _. auto with scans. Qed.

Lemma chain_stage_ok : stage_ok (chain_stage st E d a).
Proof.
  intros m. unfold chain_stage. rewrite Ha. case_ifs; boolp.
  - intros [= <-]. apply scans_then_ret, scans_balanced; auto with scans.
  - destruct (splitCompactPair raw) as [[key v]|] eqn:Es; [|done]. case_ifs. intros [= <-].
    destruct (splitCompactPair_length _ _ _ Es) as [_ Hcol].
    eapply scans_cut_at; [exact Hcol|auto with scans|].
    apply (scans_bind st _ _ (go ":")); [auto with scans|]. intros _.
    replace (S (length key + 2)) with (length key + 3)%nat by lia. by eapply compact_rest.
Qed.

Lemma url_stage_ok : stage_ok (url_stage st E d a).
Proof.
  intros m. unfold url_stage. rewrite Ha. case_ifs. intros [= <-].
  pose proof (url_shape_body raw) as Hbody.
  destruct (isQuotedPhrase raw) eqn:Eq.
  - unfold isQuotedPhrase in Eq. boolp. apply scans_then_ret.
    destruct (forcedSensitive a); [auto with scans|].
    apply scans_then_ret, scans_balanced; auto with scans.
  - destruct (compact_phrase raw) as [key|] eqn:Ecp.
    + unfold compact_phrase in Ecp. destruct (splitCompactPair raw) as [[key' v]|] eqn:Es; [|done].
      destruct (isQuotedPhrase (drop (length key' + 3) raw)); [|done]. injection Ecp as ->.
      eapply scans_as; [apply (take_drop (length key + 3) raw)|]. apply scans_bind; [auto with scans|].
      intros _. by eapply compact_rest.
    + destruct (logfmt_phrase raw) as [eq|]; [|auto with scans].
      eapply scans_as; [apply (take_drop (S eq) raw)|]. apply scans_bind; auto with scans.
Qed.

Lemma telegram_stage_ok : stage_ok (telegram_stage st a).
Proof. intros m. unfold telegram_stage. rewrite Ha. case_ifs; intros [= <-]; auto with scans. Qed.

Lemma prefix_stage_ok : stage_ok (prefix_stage E d a).
Proof.
  intros m. unfold prefix_stage. rewrite Ha. case_ifs; intros [= <-]; [auto with scans|].
  eapply scans_as; [apply (take_drop (pythonLogPrefixEnd raw) raw)|].
  apply scans_bind; [auto with scans|]. intros _. destruct (_ =? _)%nat eqn:El; boolp; [|auto with scans].
  rewrite El, drop_all. auto with scans.
Qed.

Lemma compact_stage_ok : stage_ok (compact_stage st E d a).
Proof.
  intros m. unfold compact_stage. rewrite Ha. destruct (splitCompactPair raw); [|done].
  by apply processColonPair_ok.
Qed.

Lemma forced_colon_stage_ok : stage_ok (forced_colon_stage st a).
Proof.
  intros m. unfold forced_colon_stage. rewrite Ha. case_ifs.
  destruct (IndexByte raw (ch ":")); [|done]. case_ifs. intros [= <-]. auto with scans.
Qed.

Lemma wide_colon_stage_ok : stage_ok (wide_colon_stage st E d a).
Proof.
  intros m. unfold wide_colon_stage. rewrite Ha. destruct (IndexByte raw _) as [i|]; [|done].
  case_ifs. boolp. intros [= <-].
  match goal with H : HasPrefix _ _ = true |- _ => apply HasPrefix_take in H as Hp end.
  eapply scans_as; [apply (take_drop i raw)|]. apply scans_bind; [auto with scans|]. intros _.
  eapply scans_as; [apply (take_drop (length fullWidthColon) (drop i raw))|].
  rewrite Hp, drop_drop. apply scans_bind; [auto with scans|]. intros _.
  change (length fullWidthColon) with 3%nat.
  destruct (is_empty (drop (i + 3) raw)) eqn:Ev.
  - destruct (drop (i + 3) raw); [auto with scans|done].
  - apply sub_token, ascii_count_drop.
Qed.

Lemma single_stage_ok : scans (single_stage st E d a) raw.
Proof.
  unfold single_stage. rewrite Ha. destruct (negb (isValuePos a) && _); [auto with scans|].
  destruct (negb (forcedSensitive a) && isBalancedQuoted raw) eqn:Eb; [boolp|auto with scans].
  apply scans_then_ret, scans_balanced; [done|]. rewrite trimQuotes_balanced by done. auto with scans.
Qed.

Lemma first_stage_ok {A} (l : list (option (M A))) dflt :
  Forall stage_ok l -> scans dflt raw -> scans (first_stage l dflt) raw.
Proof.
  intros Hl Hdf. induction Hl as [|[m|] l Ho Hl IH]; simpl; [done| |done]. by apply Ho.
Qed.

Lemma scans_stages : scans (processTokenLogic st E d a) raw.
Proof.
  unfold processTokenLogic, maxTokenRecursionDepth. rewrite Ha.
  rewrite (proj2 (Nat.ltb_ge _ _)) by done. apply first_stage_ok; [|apply single_stage_ok].
  repeat constructor;
    auto using wrap_stage_ok, marker_stage_ok, json_stage_ok, bytes_stage_ok, chain_stage_ok, url_stage_ok,
      telegram_stage_ok, prefix_stage_ok, compact_stage_ok, forced_colon_stage_ok, processEqualPair_ok,
      wide_colon_stage_ok, processColonPair_ok.
Qed.

End stages.

Lemma scans_processTokenLogic `{RT : GoRuntime} st E k d a :
  good st E k -> (d <= 33)%nat -> (cost 1 d (rawToken a) <= k)%nat ->
  scans st (processTokenLogic st E d a) (rawToken a).
Proof.
  intros HE Hd Hc. destruct (decide (d <= 32)%nat) as [Hle|Hgt].
  - by eapply scans_stages.
  - unfold processTokenLogic, maxTokenRecursionDepth. rewrite (proj2 (Nat.ltb_lt _ _)) by lia.
    apply scans_then_ret. auto with scans.
Qed.

(** ** Markers of an earlier pass *)

Lemma marker_token_run `{RT : GoRuntime} st E depth a s :
  isRedacted (trimQuotes (rawToken a)) = true -> Contains (rawToken a) (go "://") = false ->
  processTokenLogic st E depth a s =
  Ok false {| sb := sb s ++ rawToken a; baseline := baseline s; callbacks := callbacks s |}.
Proof.
  intros Hr Hurl. unfold processTokenLogic. destruct (_ <? _)%nat.
  - unfold processSingleToken. by rewrite Hr, orb_true_r.
  - assert (exists t, trimQuotes (rawToken a) = hiddenOpen ++ t) as [t Ht].
    { unfold isRedacted in Hr. boolp. by apply HasPrefix_app. }
    assert (escapedOrBacktickWrap (rawToken a) = None /\ Contains (rawToken a) hiddenOpen = true) as [Hw Hc].
    { destruct (trimQuotes_framed (rawToken a)) as [Hf|(q & Hq & Hf)].
      - split; [by rewrite Hf, Ht|]. unfold Contains. apply bool_decide_eq_true, (Index_is_Some _ _ 0).
        rewrite drop_0, Hf, Ht. apply HasPrefix_app. by exists t.
      - split.
        + rewrite Hf. unfold is_quote_byte in Hq. apply orb_true_iff in Hq as [Hq|Hq]; boolp; subst q;
            unfold escapedOrBacktickWrap; cbn [at_is app lookup list_lookup]; by rewrite !andb_false_r.
        + unfold Contains. apply bool_decide_eq_true, (Index_is_Some _ _ 1).
          rewrite Hf, Ht. simpl drop. apply HasPrefix_app. exists (t ++ [q]). by rewrite ?drop_0. }
    unfold wrap_stage, marker_stage. rewrite Hw, Hc, Hr.
    assert (url_password_redacted (rawToken a) = false) as ->.
    { unfold url_password_redacted, urlPassword. unfold Contains in Hurl. apply bool_decide_eq_false in Hurl.
      destruct (Index (rawToken a) (go "://")); [exfalso; eauto|done]. }
    reflexivity.
Qed.
