(* ===== verification/Append.v ===== *)
(** * One token of a segment

    [processAndAppend] of [pkg/scanner/scanner.go]: the state a segment keeps
    from token to token, what forces a token, and the state after it. *)

From Stdlib Require Import ZArith Lia Bool SpecFloat.
From stdpp Require Import base list option sets.
From S2P Require Import Prelude GoStrings Float64 Regex Signatures KeyMatcher Config Entropy Luhn Shapes.
From S2P Require Import Whitelist Tokens JsonString Keys Adaptive Machine Engine TokenLogic.

(** ** The lowered token *)

(** [loweredToken]: [lt_low] is [buf[:n]] when [lt_ascii] and [heap] otherwise. *)
Record loweredToken := { lt_src : gostring; lt_ascii : bool; lt_low : gostring }.

(** [newLoweredToken]. *)
Definition newLoweredToken `{Unicode} (src : gostring) : loweredToken :=
  if (length src <=? 64)%nat && negb (hasNonASCII src)
  then {| lt_src := src; lt_ascii := true; lt_low := lowerASCIIByte <$> src |}
  else {| lt_src := src; lt_ascii := false; lt_low := ToLower src |}.

(** [is], [in] and [forBigrams]. *)
Definition low_is (t : loweredToken) (lit : gostring) : bool := str_eqb (lt_low t) lit.
Definition low_in (t : loweredToken) (words : list gostring) : bool := in_words (lt_low t) words.
Definition forBigrams (t : loweredToken) : gostring := if lt_ascii t then lt_src t else lt_low t.

(** ** Pre-analysis *)

Definition ends_sep (s : gostring) : bool := HasSuffix s (go ":") || HasSuffix s (go "=").
Definition lone_sep (s : gostring) : bool := str_eqb s (go "=") || str_eqb s (go ":").

(** [cleanToken]: without a trailing separator and quotes. *)
Definition clean_token (trimmed : gostring) : gostring :=
  trimQuotes (if ends_sep trimmed then take (length trimmed - 1) trimmed else trimmed).

Definition generic_names : list gostring := [go "key"; go "name"; go "setting"].

(** [trimmed[n-1]|0x20 == 'c' || trimmed[n-1]|0x20 == 'r']. *)
Definition ends_c_or_r (s : gostring) : bool :=
  at_is s (length s - 1) (fun c => (Z.lor c 32 =? ch "c") || (Z.lor c 32 =? ch "r")).

(** The key and value of a compact JSON pair, or of the token cut at its first '='. *)
Definition compact_or_equal (trimmed : gostring) : option (gostring * gostring) :=
  match splitCompactPair trimmed with
  | Some kv => Some kv
  | None =>
    match Cut trimmed (ch "=") with
    | (k, v, true) => Some (trimQuotes k, trimQuotes v)
    | _ => None
    end
  end.

Section append.
Context `{RT : GoRuntime} (st : configState) (E : Engine).

Let cfg := config st.

(** [k], [v] of "Authorization=Basic" in one token: [Some true] for bearer. *)
Definition auth_pair (trimmed : gostring) : option bool :=
  if ends_c_or_r trimmed then
    match Cut trimmed (ch "=") with
    | (k, v, true) =>
      if negb (is_empty k) && (EqualFold v (go "basic") || EqualFold v (go "bearer")) &&
         isSensitiveKey st (trimQuotes k)
      then Some (EqualFold v (go "bearer")) else None
    | _ => None
    end
  else None.

(** The state after such a token, with the scheme Bearer or Basic pending. *)
Definition auth_pair_state (s : segmentState) (bearer : bool) : segmentState := {|
  pendingKeySensitive := false; pendingContextSensitive := false; isInValuePos := false;
  valueOfQuotedKey := valueOfQuotedKey s; lastTokenQuoted := lastTokenQuoted s;
  pendingGenericKey := pendingGenericKey s; nextValueIsSensitive := nextValueIsSensitive s;
  pendingBearer := bearer; bearerAfterKey := bearer; pendingBasic := negb bearer;
  pendingScheme := false; sepAfterSensitiveKey := false; prevClean := [];
  pendingHashKey := false; pendingSessionKey := pendingSessionKey s; pendingAfterCopula := false;
  prevStrongSecretWord := false; afterMarker := false; bracketAfterContext := false;
  stKeyNamesSecret := stKeyNamesSecret s |}.

(** ** What forces a token *)

(** The token may be an ordinary word that the key before it does not force. *)
Definition reads_as_english (clean : gostring) : bool :=
  isAllLetters clean && fltb (calculateBigramAdjustment st (forBigrams (newLoweredToken clean))) fzero.

Definition short (clean : gostring) : bool := Z.of_nat (length clean) <? MinSecretLength cfg.

(** The rules that give the forced slot of a key up, in the order of the code. *)
Definition key_force (s : segmentState) (clean : gostring) : bool :=
  let lower := newLoweredToken clean in
  let schemeSlot := pendingKeySensitive s || sepAfterSensitiveKey s in
  pendingKeySensitive s &&
  negb (short clean && isAllLetters clean &&
        (negb (isInValuePos s) || negb (stKeyNamesSecret s) || low_in lower valueLiterals)) &&
  negb (negb (isInValuePos s) && (RuneCount clean <? 3)%nat) &&
  negb (negb (isInValuePos s) && isAllLetters clean &&
        (fltb (calculateBigramAdjustment st (forBigrams lower)) fzero || negb (hasASCII clean))) &&
  negb (negb (isInValuePos s) && EqualFold (prevClean s) (go "key") &&
        isIdentifierName st (Trim clean [backtick; backslash; squote; dquote])) &&
  negb (schemeSlot && low_in lower longAuthSchemes).

(** A token that can be the credential of an auth scheme. *)
Definition credential_shape (clean : gostring) : bool :=
  looksLikeSecretWord clean && negb (isISO8601Timestamp clean) && negb (isSchemeParameter clean).

(** The token after Bearer, Basic or another scheme word is its credential. *)
Definition scheme_credential (s : segmentState) (clean : gostring) : bool :=
  (pendingBearer s && (minBearerCredentialLength <=? length clean)%nat) ||
  (bearerAfterKey s && negb (short clean) && credential_shape clean) ||
  (pendingBasic s && negb (short clean) && isBase64Body (TrimRight clean (go "=")) &&
   (CountByte clean (ch "=") <=? 2)%nat && negb (reads_as_english clean)) ||
  (pendingScheme s && (minBearerCredentialLength <=? length clean)%nat && credential_shape clean).

(** The value after "password is". *)
Definition after_copula_value (clean : gostring) : bool :=
  let core := TrimRightFunc clean (fun r => IsPunct r && negb (r =? ch "_")) in
  negb (short core) && looksLikeSecretWord core.

Definition token_forced (s : segmentState) (clean : gostring) : bool :=
  key_force s clean || scheme_credential s clean ||
  (pendingSessionKey s && isSessionTokenValue st clean) ||
  (pendingAfterCopula s && after_copula_value clean).

(** [override]: the pair carries the value of a generic pair.  The slice of
    [isGenericValueKey] may be out of range. *)
Definition override_pair (s : segmentState) (trimmed : gostring) : M bool :=
  if nextValueIsSensitive s then
    match pairKey trimmed with
    | Some k => match isGenericValueKey k with Some b => mret b | None => panic end
    | None => mret false
    end
  else mret false.

(** ** The state after a token *)

Definition next_generic (s : segmentState) (trimmed clean : gostring) (isKey override : bool) : bool * bool :=
  let isGenericKeyName := low_in (newLoweredToken clean) generic_names in
  let armed := nextValueIsSensitive s && negb override in
  if isKey then (isGenericKeyName, false)
  else
    let consumes := isInValuePos s && pendingGenericKey s in
    let armed := armed || (consumes && isSensitiveKey st clean) in
    let pending := (pendingGenericKey s && negb consumes) || (isGenericKeyName && ends_sep trimmed) in
    let compact :=
      match compact_or_equal trimmed with
      | Some (k, v) => negb (is_empty v) && in_words (ToLower k) generic_names && isSensitiveKey st v
      | None => false
      end in
    (pending, armed || compact).

Definition next_state (s : segmentState) (trimmed clean : gostring) (isKey override : bool) : segmentState :=
  let lower := newLoweredToken clean in
  let schemeSlot := pendingKeySensitive s || sepAfterSensitiveKey s in
  let prevSensitive := negb (is_empty (prevClean s)) && isSensitiveKey st (prevClean s) in
  let '(pendingGeneric, armed) := next_generic s trimmed clean isKey override in
  let key := if ends_sep trimmed then pairKey trimmed else None in
  let hasSuffixSep := ends_sep trimmed || HasSuffix trimmed fullWidthColon in
  {| pendingKeySensitive := isKey;
     pendingContextSensitive := low_in lower ContextKeywords;
     isInValuePos :=
       if lone_sep trimmed || hasSuffixSep then true
       else if negb (is_empty trimmed) then false else isInValuePos s;
     valueOfQuotedKey :=
       if lone_sep trimmed then lastTokenQuoted s
       else if hasSuffixSep then starts_quoted trimmed else valueOfQuotedKey s;
     lastTokenQuoted := starts_quoted trimmed;
     pendingGenericKey := pendingGeneric;
     nextValueIsSensitive := armed;
     pendingBearer := low_is lower (go "bearer");
     bearerAfterKey := low_is lower (go "bearer") && schemeSlot;
     pendingBasic := low_is lower (go "basic") && schemeSlot;
     pendingScheme := schemeSlot && isAuthSchemeWord clean;
     sepAfterSensitiveKey := lone_sep trimmed && (pendingKeySensitive s || prevSensitive);
     prevClean := clean;
     pendingHashKey :=
       match key with Some k => isHashKeyName k && negb (isSensitiveKey st k) | None => false end;
     pendingSessionKey := match key with Some k => isSessionKey k | None => false end;
     pendingAfterCopula :=
       (prevStrongSecretWord s && (low_in lower copulaWords || str_eqb trimmed (go "="))) ||
       (lone_sep trimmed && prevSensitive);
     prevStrongSecretWord := isKey && low_in lower strongSecretWords;
     afterMarker := false;
     bracketAfterContext := false;
     stKeyNamesSecret :=
       if isKey then HasPrefix trimmed [dquote] && keyNamesSecret st clean else stKeyNamesSecret s |}.

(** A token written as it is: a query tail after a marker, or a short hash under its key. *)
Definition kept_token (s : segmentState) (trimmed : gostring) : bool :=
  (afterMarker s && HasPrefix trimmed (go "&") && negb (ContainsByte trimmed (ch "="))) ||
  isShortHashUnderHashKey st trimmed (pendingHashKey s).

(** [processAndAppend]. *)
Definition processAndAppend (depth : nat) (token : gostring) (s : segmentState) : M segmentState :=
  let trimmed := TrimSpace token in
  let clean := clean_token trimmed in
  match auth_pair trimmed with
  | Some bearer => write token;; mret (auth_pair_state s bearer)
  | None =>
    override ← override_pair s trimmed;
    isKey ←
      (if kept_token s trimmed then write token;; mret false
       else
         let context :=
           pendingContextSensitive s && negb (bracketAfterContext s && readsAsWords st clean) in
         e_token E depth (token_args token (token_forced s clean) context
           (isInValuePos s || scheme_credential s clean) (isInValuePos s && valueOfQuotedKey s) override)
       : M bool);
    mret (next_state s trimmed clean isKey override)
  end.

End append.

(** ** Lowered tokens

    [loweredToken] avoids a [strings.ToLower] copy for short ASCII tokens; its
    answers are those of the copy. *)

Lemma hasNonASCII_false s : hasNonASCII s = false -> isASCIIString s = true.
Proof.
  unfold hasNonASCII, isASCIIString. intros H. apply forallb_forall. intros b Hb.
  apply Z.ltb_lt. destruct (Z.lt_ge_cases b RuneSelf) as [|Hge]; [done|].
  assert (existsb (fun b => RuneSelf <=? b) s = true); [|congruence].
  apply existsb_exists. exists b. split; [done|]. by apply Z.leb_le.
Qed.

Lemma newLoweredToken_low `{Unicode} s : lt_low (newLoweredToken s) = ToLower s.
Proof.
  unfold newLoweredToken. destruct (_ && _) eqn:E; [|done]. boolp. simpl.
  unfold ToLower. by rewrite hasNonASCII_false.
Qed.
