(* ===== verification/Segment.v ===== *)
(** * Segments and lines

    [scanSegmentFrom], the quote-aware tokenizer, and [scanLine], which carves
    cards and shaped numbers out of a line and tokenizes the rest. *)

From Stdlib Require Import ZArith Lia Bool SpecFloat.
From stdpp Require Import base list option sets.
From S2P Require Import Prelude GoStrings Regex Float64 KeyMatcher Config Entropy Signatures Whitelist Tokens.
From S2P Require Import JsonString Keys Luhn Shapes Adaptive Machine Engine TokenLogic Append.

(** ** The tokenizer *)

(** The variables of the loop of [scanSegmentFrom]. *)
Record segLoop := {
  li : nat;
  lstart : nat;
  seenInvalid : bool;
  inQuote : bool;
  lquote : rune;
  lstate : segmentState;
}.

Definition advance (L : segLoop) (i : nat) : segLoop :=
  {| li := i; lstart := lstart L; seenInvalid := seenInvalid L; inQuote := inQuote L;
     lquote := lquote L; lstate := lstate L |}.

Definition see_invalid (L : segLoop) (b : bool) : segLoop :=
  {| li := li L; lstart := lstart L; seenInvalid := seenInvalid L || b; inQuote := inQuote L;
     lquote := lquote L; lstate := lstate L |}.

Definition set_quote (L : segLoop) (inq : bool) (q : rune) : segLoop :=
  {| li := li L; lstart := lstart L; seenInvalid := seenInvalid L; inQuote := inq;
     lquote := q; lstate := lstate L |}.

(** [start = i; seenInvalid = false] after a cut that leaves the state [s]. *)
Definition restart (L : segLoop) (i : nat) (s : segmentState) : segLoop :=
  {| li := i; lstart := i; seenInvalid := false; inQuote := inQuote L; lquote := lquote L; lstate := s |}.

(** The state a marker in the text leaves. *)
Definition marker_state (s : segmentState) : segmentState := {|
  pendingKeySensitive := false; pendingContextSensitive := false; isInValuePos := false;
  valueOfQuotedKey := valueOfQuotedKey s; lastTokenQuoted := lastTokenQuoted s;
  pendingGenericKey := pendingGenericKey s; nextValueIsSensitive := nextValueIsSensitive s;
  pendingBearer := false; bearerAfterKey := bearerAfterKey s; pendingBasic := false;
  pendingScheme := false; sepAfterSensitiveKey := sepAfterSensitiveKey s; prevClean := prevClean s;
  pendingHashKey := pendingHashKey s; pendingSessionKey := pendingSessionKey s;
  pendingAfterCopula := pendingAfterCopula s; prevStrongSecretWord := prevStrongSecretWord s;
  afterMarker := true; bracketAfterContext := bracketAfterContext s;
  stKeyNamesSecret := stKeyNamesSecret s |}.

(** The state a separator leaves when no token is in front of it. *)
Definition sep_state (s : segmentState) (r : rune) : segmentState := {|
  pendingKeySensitive := pendingKeySensitive s; pendingContextSensitive := pendingContextSensitive s;
  isInValuePos := isInValuePos s;
  valueOfQuotedKey := valueOfQuotedKey s; lastTokenQuoted := lastTokenQuoted s;
  pendingGenericKey := pendingGenericKey s; nextValueIsSensitive := nextValueIsSensitive s;
  pendingBearer := pendingBearer s; bearerAfterKey := bearerAfterKey s; pendingBasic := pendingBasic s;
  pendingScheme := pendingScheme s; sepAfterSensitiveKey := sepAfterSensitiveKey s;
  prevClean := prevClean s;
  pendingHashKey := pendingHashKey s; pendingSessionKey := pendingSessionKey s;
  pendingAfterCopula := pendingAfterCopula s; prevStrongSecretWord := prevStrongSecretWord s;
  afterMarker := false;
  bracketAfterContext :=
    bracketAfterContext s || (((r =? ch "(") || (r =? ch "[")) && pendingContextSensitive s);
  stKeyNamesSecret := stKeyNamesSecret s |}.

Section segment.
Context `{RT : GoRuntime} (st : configState) (E : Engine) (depth : nat) (segment : gostring).

(** The token between [lstart] and [li], sanitised when it held invalid UTF-8. *)
Definition loop_token (L : segLoop) : gostring :=
  let token := slice segment (lstart L) (li L) in
  if seenInvalid L then ToValidUTF8 token RuneErrorBytes else token.

(** Hand the pending token, if any, to [processAndAppend]. *)
Definition flush (L : segLoop) : M segmentState :=
  if (lstart L <? li L)%nat then processAndAppend st E depth (loop_token L) (lstate L)
  else mret (lstate L).

(** Flush, copy the [w] bytes at [li] and start the next token after them. *)
Definition cut (L : segLoop) (w : nat) (f : segmentState -> segmentState) : M segLoop :=
  s ← flush L;
  write (slice segment (li L) (li L + w));;
  mret (restart L (li L + w) (f s)).

(** A rune inside a quoted string. *)
Definition quoted_step (L : segLoop) (r : rune) (width : nat) : segLoop :=
  let i := (li L + width)%nat in
  if r =? backslash then
    if (i <? length segment)%nat then
      let '(r2, w2) := DecodeRune (drop i segment) in
      see_invalid (advance L (i + w2)) ((r2 =? RuneError) && (w2 =? 1)%nat)
    else advance L i
  else if (r =? lquote L) && (negb (r =? squote) || apostropheCloses segment i) then
    set_quote (advance L i) false (lquote L)
  else advance L i.

(** The end of a single-quoted SQL literal that holds a JSON document. *)
Definition sql_literal_end (i : nat) (r : rune) : option nat :=
  if (r =? squote) && at_is segment (S i) (fun c => (c =? ch "{") || (c =? ch "[")) then
    match jsonDocumentEnd segment (S i) with
    | Some e => if at_is segment e (Z.eqb squote) then Some (S e) else None
    | None => None
    end
  else None.

(** The marker at [i] is the password of a URL. *)
Definition marker_in_url (L : segLoop) (e : nat) : bool :=
  let before := slice segment (lstart L) (li L) in
  (lstart L <? li L)%nat && HasPrefix (drop (li L + e + 1) segment) (go "@") &&
  HasSuffix before (go ":") && Contains before (go "://").

(** A marker of an earlier pass: the length of its text up to the ']'. *)
Definition marker_at (i : nat) (r : rune) : option nat :=
  if (r =? ch "[") && HasPrefix (drop i segment) hiddenOpen
  then IndexByte (drop i segment) (ch "]") else None.

Definition crlf_literal : gostring := [backslash; ch "r"; backslash; ch "n"].

(** A rune outside quotes that is neither a quote nor a marker. *)
Definition plain_step (L : segLoop) (r : rune) (width : nat) : M segLoop :=
  let i := li L in
  if (r =? backslash) && HasPrefix (drop i segment) crlf_literal then cut L 4 id
  else
    let w :=
      if (r =? ch "&") || (r =? backslash) || (r =? newline)
      then chainBoundary segment (lstart L) i else O in
    if (0 <? w)%nat then cut L w id
    else if isSepRune r then
      s ← (if (i =? lstart L)%nat then mret (sep_state (lstate L) r) else flush L : M segmentState);
      write (EncodeRune r);;
      mret (restart L (i + width) s)
    else mret (advance L (i + width)).

(** One iteration of the loop. *)
Definition segment_step (L : segLoop) : M segLoop :=
  let i := li L in
  let '(r, width) := DecodeRune (drop i segment) in
  if r =? RuneError then mret (see_invalid (advance L (S i)) (width =? 1)%nat)
  else if inQuote L then mret (quoted_step L r width)
  else
    match sql_literal_end i r with
    | Some i' => mret (advance L i')
    | None =>
      if (r =? dquote) || ((r =? squote) && apostropheOpens segment (i + width)) then
        mret (set_quote (advance L (i + width)) true r)
      else
        match marker_at i r with
        | Some e =>
          if marker_in_url L e then mret (advance L (i + e + 1)) else cut L (e + 1) marker_state
        | None => plain_step L r width
        end
    end.

Fixpoint segment_loop (fuel : nat) (L : segLoop) : M segLoop :=
  if (li L <? length segment)%nat then
    match fuel with
    | O => no_fuel
    | S f => L' ← segment_step L; segment_loop f L'
    end
  else mret L.

(** [scanSegmentFrom]; each iteration advances, so the length is enough fuel. *)
Definition scanSegmentFrom (inq : bool) (q : rune) : M (bool * rune) :=
  L ← segment_loop (length segment)
        {| li := 0; lstart := 0; seenInvalid := false; inQuote := inq; lquote := q; lstate := initState |};
  flush (advance L (length segment));;
  mret (inQuote L, lquote L).

End segment.

(** ** Lines *)

Definition is_diff_marker (c : byte) : bool := (c =? ch "+") || (c =? ch "-").

(** The diff marker of a line, at most two bytes and never the whole line. *)
Definition diff_marker_len (line : gostring) : nat :=
  let n := span_len is_diff_marker (take 2 line) in
  if (n <? length line)%nat then n else O.

(** [hasContext] of the hybrid validation. *)
Definition card_context `{Unicode} (line : gostring) : bool :=
  existsb (Contains (ToLower line)) [go "card"; go "cc"; go "pan"; go "visa"].

Section line.
Context `{RT : GoRuntime} (st : configState) (E : Engine).

Let cfg := config st.

(** The cards and shaped numbers of a line, in line order. *)
Definition line_carves (line : gostring) : list carve :=
  let luhn := FindLuhnSequences line in
  mergeCarves
    (if fgtb (ConfidenceThreshold cfg) (flit 12 10) && negb (card_context line) then [] else luhn)
    (findShapedNumbers line).

(** The quote a carved value takes with it, [""] or one byte. *)
Definition carve_quote (line : gostring) (r : Range) : gostring :=
  match rStart r with
  | O => []
  | S i =>
    let q := byte_at line i in
    if (rEnd r <? length line)%nat && is_quote_byte q && at_is line (rEnd r) (Z.eqb q) then [q] else []
  end.

(** What is written for a carved value. *)
Definition write_carve (secret label : gostring) : M unit :=
  if isSafeRegexWhitelisted st secret then write secret
  else
    match customRuleName st secret with
    | Some name => redactWithHMAC st secret name (go "regex")
    | None =>
      if negb (is_empty label) then redactWithHMAC st secret (entityLabel st label) (go "signature")
      else redactWithHMAC st secret (entityLabel st (go "card")) (go "luhn")
    end.

(** The loop over the carves, from [chunkStart] with the quote state of the text before. *)
Fixpoint carve_loop (depth : nat) (line : gostring) (carves : list carve) (chunkStart : nat)
    (inq : bool) (q : rune) : M unit :=
  match carves with
  | [] =>
    if (chunkStart <? length line)%nat
    then e_segment E depth (drop chunkStart line) inq q;; mret tt
    else mret tt
  | cv :: cvs =>
    let quote := carve_quote line (cvRange cv) in
    let start := (rStart (cvRange cv) - length quote)%nat in
    let end_ := (rEnd (cvRange cv) + length quote)%nat in
    s ← (if (chunkStart <? start)%nat then e_segment E depth (slice line chunkStart start) inq q
         else mret (inq, q) : M (bool * rune));
    wrapped quote (write_carve (slice line (rStart (cvRange cv)) (rEnd (cvRange cv))) (cvLabel cv));;
    carve_loop depth line cvs end_ s.1 s.2
  end.

(** The line without its diff marker. *)
Definition scan_carved (depth : nat) (line : gostring) : M unit :=
  carve_loop depth line (line_carves line) 0 false 0.

(** [scanLine]. *)
Definition scanLine (depth : nat) (line : gostring) : M unit :=
  if is_empty line then mret tt
  else if (depth =? 0)%nat && isGitDiffHeader line then write line
  else if (depth =? 0)%nat && isPrivateKeyMarker line then
    redactWithHMAC st line (entityLabel st (go "private-key")) (go "signature")
  else
    let n := if (depth =? 0)%nat then diff_marker_len line else O in
    write (take n line);;
    scan_carved depth (drop n line).

End line.

(** ** The engine *)

(** The functions with their recursive calls bounded by [fuel]. *)
Fixpoint engine `{RT : GoRuntime} (st : configState) (fuel : nat) : Engine :=
  match fuel with
  | O => {| e_line := fun _ _ => no_fuel; e_segment := fun _ _ _ _ => no_fuel;
            e_token := fun _ _ => no_fuel; e_mask := fun _ _ => no_fuel; e_agent := fun _ _ => no_fuel |}
  | S f =>
    let E := engine st f in
    {| e_line := scanLine st E;
       e_segment := fun depth s => scanSegmentFrom st E depth s;
       e_token := processTokenLogic st E;
       e_mask := maskURLParameters st E;
       e_agent := scanUserAgent E |}
  end.
