(* ===== verification/SegmentProofs.v ===== *)
(** * The tokenizer keeps the text

    [scanSegmentFrom] and [scanLine] cut their text into tokens, separators and
    carves without losing or moving a byte; with the token functions this ties
    the knot: every function of the engine redacts its input, whatever it is. *)

From Stdlib Require Import ZArith Lia Bool SpecFloat.
From stdpp Require Import base list option sets.
From S2P Require Import Prelude GoStrings Regex Float64 KeyMatcher Config Entropy Signatures Whitelist Tokens.
From S2P Require Import JsonString Keys Luhn Shapes Adaptive Machine Engine Redaction EngineProofs TokenLogic.
From S2P Require Import Append Segment.

(** ** The key of a pair *)

Lemma chunks_from_incl skip s c : c ∈ chunks_from skip s -> incl c.2 s.
Proof.
  revert skip. induction s as [|b t IH]; intros skip; cbn [chunks_from]; [set_solver|].
  destruct skip as [|n].
  - destruct (DecodeRune (b :: t)) as [r w]. intros [->|H]%elem_of_cons.
    + intros x Hx. apply list_elem_of_In in Hx. apply list_elem_of_In.
      by eapply subseteq_take.
    + intros x Hx. right. by eapply IH.
  - intros H x Hx. right. by eapply IH.
Qed.

Lemma chunks_bytes_incl l s : (forall c, c ∈ l -> c ∈ chunks s) -> incl (chunks_bytes l) s.
Proof.
  intros H x Hx. unfold chunks_bytes in Hx. apply in_concat in Hx as (b & Hb & Hx).
  apply list_elem_of_In, list_elem_of_fmap in Hb as (c & -> & Hc).
  eapply chunks_from_incl; [by apply H|done].
Qed.

Lemma TrimSpace_incl s : incl (TrimSpace s) s.
Proof.
  unfold TrimSpace. eapply incl_tran.
  - apply chunks_bytes_incl. intros c Hc. apply list_elem_of_In in Hc. rewrite <-in_rev in Hc.
    apply list_elem_of_In in Hc. apply list_elem_of_In, in_rev, list_elem_of_In.
    by eapply subseteq_drop.
  - apply chunks_bytes_incl. intros c Hc.
    by eapply subseteq_drop.
Qed.

Lemma trimQuotes_tame s : tame s = true -> tame (trimQuotes s) = true.
Proof. intros. unfold trimQuotes. repeat case_match; auto with gostr. Qed.

Lemma pairKey_tame tok key : pairKey tok = Some key -> tame tok = true -> tame key = true.
Proof.
  unfold pairKey, splitCompactPair. intros H Ht.
  destruct (match tok with [] => None | _ => _ end) as [[k v]|] eqn:E1.
  - simplify_eq. destruct tok as [|q t]; [done|]. repeat case_match; simplify_eq. by apply tame_slice.
  - destruct (IndexAny _ _); [|done]. case_match; [|done]. simplify_eq. by apply trimQuotes_tame, tame_take.
Qed.

(** The slice of [isGenericValueKey] is in range on ASCII keys. *)
Lemma isGenericValueKey_tame `{Unicode} key : tame key = true -> isGenericValueKey key <> None.
Proof.
  intros Ht. unfold isGenericValueKey.
  assert (length (ToLower key) = length key) as Hl.
  { unfold ToLower. replace (isASCIIString key) with true; [by rewrite length_fmap|].
    symmetry. apply forallb_forall. intros b Hb. apply list_elem_of_In in Hb.
    apply tame_ascii in Ht. rewrite Forall_forall in Ht. apply Ht in Hb. by apply Z.ltb_lt. }
  rewrite Hl. replace (length key <? length key - 5)%nat with false by (symmetry; apply Nat.ltb_ge; lia).
  by repeat case_match.
Qed.

Section append.
Context `{RT : GoRuntime} (st : configState) (E : Engine) (k : nat) (HE : good st E k).

Lemma scans_processAndAppend d token s :
  (d <= 33)%nat -> (cost 1 d token < k)%nat -> scans st (processAndAppend st E d token s) token.
Proof.
  intros Hd Hc. unfold processAndAppend.
  destruct (auth_pair st (TrimSpace token)) as [b|]; [apply scans_then_ret; auto with scans|].
  apply scans_bind_l.
  - unfold override_pair. destruct (nextValueIsSensitive s); [|apply scans_if_ret].
    destruct (pairKey (TrimSpace token)) as [key|] eqn:Ek; [|apply scans_if_ret].
    destruct (isGenericValueKey key) eqn:Eg; [apply scans_if_ret|]. intros s'.
    split; [intros Ht|apply fed_refl].
    eapply isGenericValueKey_tame; [|exact Eg]. eapply pairKey_tame; [exact Ek|].
    eapply tame_incl; [apply TrimSpace_incl|done].
  - intros override. apply scans_then_ret. destruct (kept_token _ _ _).
    + apply scans_then_ret. auto with scans.
    + by apply (good_token _ _ _ HE d (token_args token _ _ _ _ _)).
Qed.

End append.

(** ** Bounds of the cuts *)

Lemma json_end_from_bound s j depth inStr esc e :
  json_end_from s j depth inStr esc = Some e -> (j < e <= j + length s)%nat.
Proof.
  revert j depth inStr esc. induction s as [|c s IH]; intros j depth inStr esc; simpl; [done|].
  case_ifs; try (intros H; apply IH in H; lia). intros [= <-]. lia.
Qed.

Lemma chainBoundary_bound segment start i :
  (i + chainBoundary segment start i <= Nat.max i (length segment))%nat.
Proof.
  unfold chainBoundary. destruct (segment !! i) as [c|] eqn:Ec; [|lia]. apply lookup_lt_Some in Ec.
  repeat case_match; try lia. boolp.
  match goal with H : HasPrefix _ _ = true |- _ => apply HasPrefix_length in H; rewrite length_drop in H; simpl in H end.
  lia.
Qed.

Section steps.
Context `{RT : GoRuntime} (st : configState) (E : Engine) (k : nat) (HE : good st E k).
Context (d : nat) (segment : gostring) (lo_ : nat).
Context (Hd : (d <= 33)%nat) (Hc : (cost 2 d (drop lo_ segment) <= k)%nat).

(** The loop is at [li], the pending token starts at [lstart]. *)
Definition loop_inv (L : segLoop) : Prop := (lo_ <= lstart L <= li L)%nat /\ (li L <= length segment)%nat.

Lemma part_tame i j : (lo_ <= i)%nat -> tame (drop lo_ segment) = true -> tame (slice segment i j) = true.
Proof.
  intros Hi Ht. unfold slice. replace i with (lo_ + (i - lo_))%nat at 2 by lia. rewrite <-drop_drop.
  auto with gostr.
Qed.

Local Ltac part_tame := destruct_and?; unfold loop_inv in *; apply part_tame; simpl; lia.

Lemma scans_flush L :
  loop_inv L -> scans st (flush st E d segment L) (slice segment (lstart L) (li L)).
Proof.
  intros [Hl Hn]. unfold flush. destruct (lstart L <? li L)%nat eqn:E1; boolp.
  - assert (ascii_count (slice segment (lstart L) (li L)) <= ascii_count (drop lo_ segment))%nat as Ha.
    { replace (slice segment (lstart L) (li L)) with (slice (drop lo_ segment) (lstart L - lo_) (li L - lo_)).
      - apply ascii_count_slice.
      - unfold slice. rewrite drop_drop. f_equal; [lia|]. f_equal. lia. }
    unfold loop_token. destruct (seenInvalid L).
    + apply scans_sanitize. eapply scans_processAndAppend; [done|done|].
      unfold cost in *. rewrite ToValidUTF8_ascii. lia.
    + eapply scans_processAndAppend; [done|done|]. unfold cost in *. lia.
  - replace (li L) with (lstart L) by lia. rewrite slice_nil. auto with scans.
Qed.

(** What a step emits: the text between the two starts; the position moves on. *)
Definition step_post (L L' : segLoop) (src : gostring) : Prop :=
  loop_inv L' /\ (li L < li L')%nat /\ (lstart L <= lstart L')%nat /\
  src = slice segment (lstart L) (lstart L').

Lemma step_advance L L' :
  loop_inv L -> lstart L' = lstart L -> (li L < li L' <= length segment)%nat ->
  emits st (tame (drop lo_ segment) = true) (mret L' : M segLoop) (step_post L).
Proof.
  intros [H1 H2] Hs Hi. apply emits_ret. split_and!; [split; lia|lia|lia|]. by rewrite Hs, slice_nil.
Qed.

Lemma cut_emits L w f :
  loop_inv L -> (0 < w)%nat -> (li L + w <= length segment)%nat ->
  emits st (tame (drop lo_ segment) = true) (cut st E d segment L w f) (step_post L).
Proof.
  intros Hinv Hw Hle. unfold cut. eapply emits_scans_bind; [by apply scans_flush|part_tame|]. intros s.
  eapply emits_scans_bind; [apply scans_write|part_tame|]. intros _. apply emits_ret.
  destruct Hinv as [H1 H2]. split_and!; simpl; [split; simpl; lia|lia|lia|].
  rewrite app_nil_r. apply slice_app. lia.
Qed.

Lemma plain_step_emits L r w :
  loop_inv L -> (li L < length segment)%nat -> DecodeRune (drop (li L) segment) = (r, w) ->
  r <> RuneError -> (1 <= w <= length segment - li L)%nat ->
  emits st (tame (drop lo_ segment) = true) (plain_step st E d segment L r w) (step_post L).
Proof.
  intros Hinv Hlt Hr He Hw. unfold plain_step.
  destruct ((r =? backslash) && _) eqn:E1.
  { boolp. match goal with H : HasPrefix _ _ = true |- _ => apply HasPrefix_length in H; rewrite length_drop in H end.
    apply cut_emits; [done|lia|]. simpl in *. lia. }
  set (cw := if _ || _ then _ else O).
  assert (li L + cw <= length segment)%nat as Hcw.
  { unfold cw. destruct (_ || _); [|lia]. pose proof (chainBoundary_bound segment (lstart L) (li L)). lia. }
  destruct (0 <? cw)%nat eqn:E2; boolp; [apply cut_emits; [done|lia|lia]|].
  destruct (isSepRune r) eqn:Es; [|apply step_advance; simpl; [done|done|lia]].
  eapply emits_scans_bind with (s1 := slice segment (lstart L) (li L)).
  { destruct (li L =? lstart L)%nat eqn:E3; boolp; [|by apply scans_flush].
    rewrite E3, slice_nil. auto with scans. }
  { part_tame. }
  intros s. assert (EncodeRune r = slice segment (li L) (li L + w)) as ->.
  { unfold slice. replace (li L + w - li L)%nat with w by lia. apply EncodeRune_Decode; [done| | |lia].
    - unfold isSepRune in Es. destruct (r <? RuneSelf) eqn:E3; boolp; [lia|]. unfold RuneSelf in *. lia.
    - unfold is_invalid. apply andb_false_iff. left. by apply Z.eqb_neq. }
  eapply emits_scans_bind; [apply scans_write|part_tame|]. intros _. apply emits_ret.
  destruct Hinv as [H1 H2]. split_and!; simpl; [split; simpl; lia|lia|lia|].
  rewrite app_nil_r. apply slice_app. lia.
Qed.

Lemma quoted_step_post L r w :
  (li L < length segment)%nat -> (1 <= w <= length segment - li L)%nat ->
  lstart (quoted_step segment L r w) = lstart L /\
  (li L < li (quoted_step segment L r w) <= length segment)%nat.
Proof.
  intros Hlt Hw. unfold quoted_step. destruct (r =? backslash).
  - destruct (_ <? _)%nat eqn:E1; boolp; [|simpl; lia].
    destruct (DecodeRune (drop (li L + w) segment)) as [r2 w2] eqn:E2.
    assert (drop (li L + w) segment <> []) as Hne
      by (intros Hn; apply (f_equal length) in Hn; rewrite length_drop in Hn; simpl in Hn; lia).
    pose proof (DecodeRune_width _ Hne) as Hw2. rewrite E2, length_drop in Hw2. simpl in *. lia.
  - destruct (_ && _); simpl; lia.
Qed.

Lemma sql_literal_end_bound i r e :
  sql_literal_end segment i r = Some e -> (i < e <= length segment)%nat.
Proof.
  unfold sql_literal_end. case_ifs. destruct (jsonDocumentEnd segment (S i)) as [j|] eqn:Ej; [|done].
  case_ifs. intros [= <-]. unfold jsonDocumentEnd in Ej. apply json_end_from_bound in Ej.
  match goal with H : at_is _ j _ = true |- _ => apply at_is_lt in H end. lia.
Qed.

Lemma marker_at_bound i r e : marker_at segment i r = Some e -> (i + e < length segment)%nat.
Proof.
  unfold marker_at. case_ifs. intros H%IndexByte_lt. rewrite length_drop in H. lia.
Qed.

Lemma segment_step_emits L :
  loop_inv L -> (li L < length segment)%nat -> emits st (tame (drop lo_ segment) = true) (segment_step st E d segment L) (step_post L).
Proof.
  intros Hinv Hlt. unfold segment_step.
  destruct (DecodeRune (drop (li L) segment)) as [r w] eqn:Er.
  assert (drop (li L) segment <> []) as Hne
    by (intros Hn; apply (f_equal length) in Hn; rewrite length_drop in Hn; simpl in Hn; lia).
  pose proof (DecodeRune_width _ Hne) as Hw. rewrite Er, length_drop in Hw. simpl in Hw.
  destruct (r =? RuneError) eqn:Ee; boolp; [apply step_advance; simpl; (done || lia)|].
  destruct (inQuote L).
  { destruct (quoted_step_post L r w Hlt Hw). by apply step_advance. }
  destruct (sql_literal_end segment (li L) r) as [e|] eqn:Es.
  { apply sql_literal_end_bound in Es. apply step_advance; simpl; (done || lia). }
  destruct (_ || _); [apply step_advance; simpl; (done || lia)|].
  destruct (marker_at segment (li L) r) as [e|] eqn:Em; [|by apply plain_step_emits].
  apply marker_at_bound in Em.
  destruct (marker_in_url _ _ _); [apply step_advance; simpl; (done || lia)|].
  apply cut_emits; [done|lia|lia].
Qed.

Lemma segment_loop_emits fuel L :
  loop_inv L -> (length segment - li L <= fuel)%nat ->
  emits st (tame (drop lo_ segment) = true) (segment_loop st E d segment fuel L)
    (fun L' src => loop_inv L' /\ li L' = length segment /\ (lstart L <= lstart L')%nat /\
                   src = slice segment (lstart L) (lstart L')).
Proof.
  revert L. induction fuel as [|f IH]; intros L Hinv Hf; simpl;
    (destruct (li L <? length segment)%nat eqn:E1; boolp;
     [|destruct Hinv; apply emits_ret; split_and!; [done|lia|done|by rewrite slice_nil]]); [lia|].
  eapply emits_bind; [by apply segment_step_emits|]. intros L' src (Hinv' & Hi & Hs & ->).
  eapply emits_weaken; [apply IH; [done|lia]|done|]. intros L'' src (Hinv'' & Hi' & Hs' & ->).
  split_and!; [done|done|lia|]. apply slice_app. lia.
Qed.

(** From a loop state to the end of the segment. *)
Lemma loop_and_flush fuel L :
  loop_inv L -> (length segment - li L <= fuel)%nat ->
  scans_if st (tame (drop lo_ segment) = true) (L' ← segment_loop st E d segment fuel L;
            flush st E d segment (advance L' (length segment));;
            mret (inQuote L', lquote L')) (drop (lstart L) segment).
Proof.
  intros Hinv Hf. apply scans_emits. eapply emits_bind; [by apply segment_loop_emits|].
  intros L' src (Hinv' & Hi & Hs & ->). destruct Hinv' as [H1 H2].
  eapply emits_scans_bind; [apply (scans_flush (advance L' (length segment))); split; simpl; lia|part_tame|].
  intros s. apply emits_ret. simpl. rewrite app_nil_r, slice_end. apply slice_drop. lia.
Qed.

End steps.

(** ** Segments *)

Section segment.
Context `{RT : GoRuntime} (st : configState) (E : Engine) (k : nat) (HE : good st E k).

(** A blank at the start of a segment outside quotes is cut off first. *)
Lemma blank_step d s q st0 :
  at_is s 0 is_blank = true ->
  exists r st1, s !! O = Some r /\
    segment_step st E d s {| li := 0; lstart := 0; seenInvalid := false; inQuote := false; lquote := q; lstate := st0 |} =
    (write [r];; mret {| li := 1; lstart := 1; seenInvalid := false; inQuote := false; lquote := q; lstate := st1 |}).
Proof.
  intros (c & Hc & Hb)%at_is_true. exists c, (sep_state st0 c). split; [done|].
  destruct s as [|c' s]; [done|]. simpl in Hc. simplify_eq.
  unfold segment_step. cbn [li drop inQuote].
  unfold is_blank in Hb. apply orb_true_iff in Hb as [Hb|Hb]; boolp; subst c; reflexivity.
Qed.

Lemma scans_scanSegmentFrom d s inq q :
  (d <= 33)%nat -> (cost 2 d (segment_rest s inq) <= k)%nat ->
  scans st (scanSegmentFrom st E d s inq q) s.
Proof.
  intros Hd Hc. unfold scanSegmentFrom. unfold segment_rest in Hc.
  destruct (negb inq && at_is s 0 is_blank) eqn:Eb; boolp.
  - destruct inq; [done|]. destruct (blank_step d s q initState) as (r & st1 & Hr & Hstep); [done|].
    apply lookup_lt_Some in Hr as Hlen. destruct (length s) as [|n] eqn:En; [lia|].
    cbn [segment_loop]. cbn [li]. rewrite En. cbn [Nat.ltb Nat.leb]. rewrite Hstep.
    eapply scans_as; [apply (take_drop 1 s)|].
    pose proof (loop_and_flush st E k HE d s 1 Hd Hc n
      {| li := 1; lstart := 1; seenInvalid := false; inQuote := false; lquote := q; lstate := st1 |}) as Hloop.
    rewrite En in Hloop.
    replace (take 1 s) with [r] by (destruct s; simpl in *; by simplify_eq).
    intros s0. refine (scans_bind st (write [r]) (fun _ => _) _ _ (scans_write st [r]) (fun _ => Hloop _ _) s0);
      simpl; [split; simpl; lia|lia].
  - apply (loop_and_flush st E k HE d s 0 Hd); [by rewrite drop_0|split; simpl; lia|simpl; lia].
Qed.

End segment.

(** ** Carves *)

Definition overlap (a b : Range) : Prop := (rStart a < rEnd b /\ rStart b < rEnd a)%nat.

Lemma ranges_from_lookup line gap lo_ l r :
  ranges_from line gap lo_ l -> r ∈ l -> (lo_ <= rStart r /\ rStart r < rEnd r <= length line)%nat.
Proof.
  revert lo_. induction l as [|r' l IH]; intros lo_ H Hr; [set_solver|].
  destruct H as (H1 & H2 & _ & H4). apply elem_of_cons in Hr as [->|Hr]; [lia|].
  specialize (IH _ H4 Hr). lia.
Qed.

Lemma merge_carves_ok line fuel cards nums lo_ :
  ranges_from line 0 lo_ cards -> ranges_from line 0 lo_ (snRange <$> nums) ->
  ranges_from line 0 lo_ (cvRange <$> merge_carves_from fuel cards nums).
Proof.
  revert cards nums lo_. induction fuel as [|f IH]; intros cards nums lo_ Hc Hn; [done|]. simpl.
  destruct cards as [|c cs], nums as [|n ns]; [done|..]; simpl in *.
  - destruct Hn as (? & ? & ? & ?). split_and!; [done|lia|lia|done|]. by apply IH.
  - destruct Hc as (? & ? & ? & ?). split_and!; [done|lia|lia|done|]. by apply IH.
  - destruct Hc as (Hc1 & Hc2 & Hc3 & Hc4), Hn as (Hn1 & Hn2 & Hn3 & Hn4). case_match; boolp.
    + simpl. split_and!; [done|lia|lia|done|]. apply IH; [|done]. split_and!; [lia|lia|lia|done..].
    + case_match; boolp.
      * simpl. split_and!; [done|lia|lia|done|]. apply IH; [done|]. split_and!; [lia|lia|lia|done..].
      * apply IH; [|by repeat split; try lia]. eapply ranges_from_weaken; [done| |exact Hc4]. lia.
Qed.

(** [mergeCarves] keeps every shaped number, and a card unless it overlaps one. *)
Lemma merge_carves_elem line fuel cards nums lo_ cv :
  (length cards + length nums <= fuel)%nat ->
  ranges_from line 0 lo_ cards -> ranges_from line 0 lo_ (snRange <$> nums) ->
  cv ∈ merge_carves_from fuel cards nums <->
  (exists n, n ∈ nums /\ cv = number_carve n) \/
  (exists c, c ∈ cards /\ cv = card_carve c /\ forall n, n ∈ nums -> ~ overlap c (snRange n)).
Proof.
  revert cards nums lo_. induction fuel as [|f IH]; intros cards nums lo_ Hf Hc Hn.
  { destruct cards, nums; simpl in Hf; try lia. simpl. set_solver. }
  simpl. destruct cards as [|c cs], nums as [|n ns]; [set_solver|..]; simpl in Hf.
  - simpl in Hn. destruct Hn as (? & ? & ? & Hn). rewrite elem_of_cons, (IH [] ns _ ltac:(simpl; lia) I Hn).
    set_solver.
  - simpl in Hc. destruct Hc as (? & ? & ? & Hc). rewrite elem_of_cons, (IH cs [] _ ltac:(simpl; lia) Hc I).
    set_solver.
  - pose proof Hc as (Hc1 & Hc2 & Hc3 & Hc4). pose proof Hn as (Hn1 & Hn2 & Hn3 & Hn4). case_match; boolp.
    + rewrite elem_of_cons, (IH (c :: cs) ns (rEnd (snRange n) + 0)%nat); [|simpl; lia| |done].
      2: { split_and!; [lia|lia|lia|done..]. }
      assert (forall c', c' ∈ c :: cs -> ~ overlap c' (snRange n)) as Hno.
      { intros c' Hin [Ho _]. apply elem_of_cons in Hin as [->|Hin]; [lia|].
        apply (ranges_from_lookup _ _ _ _ _ Hc4) in Hin. lia. }
      setoid_rewrite (elem_of_cons ns _ n). naive_solver.
    + case_match; boolp.
      * rewrite elem_of_cons, (IH cs (n :: ns) (rEnd c + 0)%nat); [|simpl; lia|done|].
        2: { split_and!; [lia|lia|lia|done..]. }
        assert (forall n', n' ∈ n :: ns -> ~ overlap c (snRange n')) as Hno.
        { intros n' Hin [_ Ho]. apply elem_of_cons in Hin as [->|Hin]; [lia|].
          apply (list_elem_of_fmap_2 snRange) in Hin.
          apply (ranges_from_lookup _ _ _ _ _ Hn4) in Hin. lia. }
        setoid_rewrite (elem_of_cons cs _ c). naive_solver.
      * rewrite (IH cs (n :: ns) lo_); [|simpl; lia| |done].
        2: { eapply ranges_from_weaken; [done| |exact Hc4]. lia. }
        assert (overlap c (snRange n)) as Ho by (split; lia).
        setoid_rewrite (elem_of_cons cs _ c). split; [naive_solver|].
        intros [Hl|(c' & [->|Hin] & -> & Hno)]; [by left| |right; eauto].
        exfalso. apply (Hno n); [set_solver|done].
Qed.

(** ** Lines *)

Section line.
Context `{RT : GoRuntime} (st : configState).

Lemma line_carves_ok line : ranges_from line 0 0 (cvRange <$> line_carves st line).
Proof.
  unfold line_carves, mergeCarves. apply merge_carves_ok; [|apply findShaped_ranges_from].
  destruct (_ && _); [done|]. eapply ranges_from_weaken; [| |apply FindLuhn_ranges_from]; lia.
Qed.

(** A carve is a card or has the label of a shaped number. *)
Definition carve_label (cv : carve) : Prop := cvLabel cv = [] \/ entity_type (cvLabel cv) = true.

Lemma shape_at_label line i c : entity_type (snd (shape_at line i c)) = true \/ fst (shape_at line i c) = O.
Proof.
  unfold shape_at, matchKeyedNumber. repeat case_match; simpl; try (by left); by right.
Qed.

Lemma shaped_loop_labels fuel line i sn :
  sn ∈ shaped_loop fuel line i -> entity_type (snLabel sn) = true.
Proof.
  revert i. induction fuel as [|f IH]; intros i; cbn [shaped_loop]; [set_solver|].
  destruct (line !! i) as [c|]; [|set_solver]. pose proof (shape_at_label line i c) as Hl.
  destruct (shape_at line i c) as [e lab]. simpl in Hl.
  repeat match goal with |- _ ∈ (if ?b then _ else _) -> _ => destruct b eqn:? end; eauto.
  intros [->|H]%elem_of_cons; [|eauto]. simpl. boolp. destruct Hl; [done|lia].
Qed.

Lemma line_carves_labels line : Forall carve_label (line_carves st line).
Proof.
  apply Forall_forall. intros cv H. unfold line_carves, mergeCarves in H.
  apply (merge_carves_elem line _ _ _ 0) in H; [|done|
    destruct (_ && _); [done|eapply ranges_from_weaken; [| |apply FindLuhn_ranges_from]; lia]|apply findShaped_ranges_from].
  destruct H as [(n & Hn & ->)|(c & _ & -> & _)]; [right|by left]. simpl.
  unfold findShapedNumbers in Hn. destruct (negb _); [set_solver|]. by eapply shaped_loop_labels.
Qed.

Lemma scans_write_carve secret label :
  label = [] \/ entity_type label = true -> scans st (write_carve st secret label) secret.
Proof.
  intros Hl. unfold write_carve. destruct (isSafeRegexWhitelisted _ _); [auto with scans|].
  destruct (customRuleName st secret) eqn:Ec; [by apply scans_redact; eapply customRuleName_name|].
  destruct Hl as [->|Hl]; [cbn [is_empty negb]; auto with scans|]. destruct (negb _); auto using scans_redact, entityLabel_name with scans.
Qed.

(** A carve whose opening quote was written with the value before it. *)
Lemma scans_shared_carve q secret label :
  is_quote_byte q = true -> label = [] \/ entity_type label = true ->
  scans st (wrapped [q] (write_carve st secret label)) (secret ++ [q]).
Proof.
  intros Hq Hl.
  assert (forall name strategy, marker_name st name -> scans st (wrapped [q] (redactWithHMAC st secret name strategy)) (secret ++ [q])) as Hh.
  { intros name strategy Hn s. unfold wrapped, redactWithHMAC, write, report, mbind, M_bind.
    eexists 1%nat, ((q :: marker st secret name) ++ [q]). split.
    - apply ran_write; cbn [sb callbacks]; [by rewrite <-!app_assoc|rewrite length_app; simpl; lia|done].
    - apply (R_app st 1 0); [by apply R_shared_hide|apply R_keep]. }
  unfold write_carve. destruct (isSafeRegexWhitelisted st secret) eqn:Es.
  - intros s. unfold wrapped, write, mbind, M_bind. eexists 0%nat, ((q :: secret) ++ [q]).
    split; [apply ran_write; cbn [sb callbacks]; [by rewrite <-!app_assoc|lia|done]|].
    apply (R_app st 0 0); [by apply R_shared_keep|apply R_keep].
  - destruct (customRuleName st secret) eqn:Ec; [by eapply Hh, customRuleName_name|].
    destruct Hl as [->|Hl]; [apply Hh; auto with scans|].
    destruct (negb _); apply Hh; auto using entityLabel_name with scans.
Qed.

(** The quote of a carve stands on both sides of it. *)
Lemma carve_quote_spec line r :
  carve_quote line r = [] \/
  exists q i, carve_quote line r = [q] /\ is_quote_byte q = true /\ rStart r = S i /\
    line !! i = Some q /\ line !! rEnd r = Some q.
Proof.
  unfold carve_quote. destruct (rStart r) as [|i]; [by left|].
  match goal with |- context [if ?b then _ else _] => destruct b eqn:Eb end; [|by left]. boolp. right.
  apply at_is_true in H0 as (c & Hc & He). boolp. subst c.
  destruct (line !! i) as [q|] eqn:Ei.
  - unfold byte_at in *. rewrite Ei in *. simpl in *. by exists q, i.
  - unfold byte_at in H1. rewrite Ei in H1. done.
Qed.

Lemma number_start_not_quote line i q :
  at_is line i number_start = true -> line !! i = Some q -> is_quote_byte q = false.
Proof.
  intros (c & Hc & Hn)%at_is_true Hq. rewrite Hc in Hq. simplify_eq.
  unfold number_start, isASCIIDigit, between in Hn. unfold is_quote_byte, dquote, squote.
  apply orb_true_iff in Hn as [Hn|Hn]; [apply orb_true_iff in Hn as [Hn|Hn]|]; boolp;
    apply orb_false_iff; split; apply Z.eqb_neq; simpl in *; lia.
Qed.

Context (E : Engine) (k : nat) (HE : good st E k).

Lemma carve_loop_scans d line carves lo_ chunk inq q :
  (d <= 33)%nat -> (cost 3 d line <= k)%nat ->
  ranges_from line 0 lo_ (cvRange <$> carves) -> Forall carve_label carves ->
  (chunk <= lo_)%nat \/ (chunk = S lo_ /\ at_is line lo_ is_quote_byte = true) -> (chunk <= length line)%nat ->
  scans st (carve_loop st E d line carves chunk inq q) (drop chunk line).
Proof.
  intros Hd Hc. unfold cost in Hc. revert lo_ chunk inq q.
  assert (forall i j inq q, scans st (e_segment E d (slice line i j) inq q) (slice line i j)) as Hseg.
  { intros. eapply call_segment; [done|done|]. pose proof (ascii_count_slice line i j). unfold cost. lia. }
  induction carves as [|cv cvs IH]; intros lo_ chunk inq q Hr Hlab Hchunk Hlen; simpl.
  - destruct (chunk <? length line)%nat eqn:E1; boolp.
    + apply scans_then_ret. rewrite <-slice_end. apply Hseg.
    + rewrite drop_ge by lia. auto with scans.
  - apply Forall_cons in Hlab as [Hlab Hlabs].
    destruct Hr as (Hr1 & Hr2 & Hr3 & Hr4). set (r := cvRange cv) in *.
    assert (chunk <= rStart r)%nat as Hcs.
    { destruct Hchunk as [|[-> Hq]]; [lia|]. destruct (decide (rStart r = lo_)) as [<-|]; [|lia].
      apply at_is_true in Hq as (c & Hc' & Hq).
      by rewrite (number_start_not_quote _ _ _ Hr3 Hc') in Hq. }
    assert (forall start inq q, (chunk <= start)%nat ->
      scans st (if (chunk <? start)%nat then e_segment E d (slice line chunk start) inq q else mret (inq, q))
        (slice line chunk start)) as Hfirst.
    { intros start inq' q' Hle. destruct (chunk <? start)%nat eqn:E1; boolp; [apply Hseg|].
      replace start with chunk by lia. rewrite slice_nil. auto with scans. }
    destruct (carve_quote_spec line r) as [->|(qc & i & -> & Hqc & Hi & Hqi & Hqe)].
    + simpl. rewrite Nat.sub_0_r, Nat.add_0_r. eapply scans_as; [apply (slice_drop line chunk (rStart r)); lia|].
      apply scans_bind; [by apply Hfirst|]. intros s'.
      eapply scans_as; [apply (slice_drop line (rStart r) (rEnd r)); lia|].
      apply scans_bind; [|intros _; eapply IH; [exact Hr4|done|left; lia|lia]].
      eapply scans_as; [|apply scans_wrapped, scans_write_carve, Hlab]. by rewrite app_nil_r.
    + apply lookup_lt_Some in Hqe as Hlt. simpl. rewrite Hi. simpl. rewrite Nat.sub_0_r.
      assert (forall s', scans st (carve_loop st E d line cvs (rEnd r + 1) (fst s') (snd s')) (drop (S (rEnd r)) line)) as Hrest.
      { intros s'. rewrite Nat.add_1_r. eapply IH; [exact Hr4|done|right; split; [lia|]|lia].
        apply at_is_true. exists qc. by rewrite Nat.add_0_r. }
      rewrite Hi in Hcs. destruct (decide (chunk <= i)%nat) as [Hle|Hgt].
      * eapply scans_as; [apply (slice_drop line chunk i); lia|]. apply scans_bind; [by apply Hfirst|]. intros s'.
        rewrite (drop_S _ _ _ Hqi).
        eapply scans_as; [|apply scans_bind; [apply scans_wrapped, scans_write_carve, Hlab|intros _; apply Hrest]].
        rewrite <-!app_assoc. simpl. f_equal. rewrite <-(slice_drop line (S i) (rEnd r)) by lia. f_equal.
        by rewrite (drop_S _ _ _ Hqe).
      * replace chunk with (S i) by lia. rewrite (proj2 (Nat.ltb_ge _ _)) by lia.
        apply scans_bind_l; [apply scans_if_ret|]. intros s'.
        eapply scans_as; [|apply scans_bind; [by apply scans_shared_carve|intros _; apply Hrest]].
        rewrite <-!app_assoc. simpl. rewrite <-(slice_drop line (S i) (rEnd r)) by lia. f_equal.
        by rewrite (drop_S _ _ _ Hqe).
Qed.

Lemma scans_scanLine d line :
  (d <= 33)%nat -> (cost 3 d line <= k)%nat -> scans st (scanLine st E d line) line.
Proof.
  intros Hd Hc. unfold scanLine. destruct (is_empty line) eqn:El; [destruct line; [auto with scans|done]|].
  destruct (_ && isGitDiffHeader line); [auto with scans|].
  destruct (_ && isPrivateKeyMarker line); [auto with scans|].
  set (n := if (d =? 0)%nat then _ else _).
  eapply scans_as; [apply (take_drop n line)|]. apply scans_bind; [auto with scans|]. intros _.
  unfold scan_carved. rewrite <-(drop_0 (drop n line)) at 3.
  apply (carve_loop_scans d (drop n line) _ 0); [done| |apply line_carves_ok|apply line_carves_labels|by left; lia|lia].
  pose proof (ascii_count_drop line n). unfold cost in *. lia.
Qed.

(** ** The engine *)

End line.

(** With fuel [f] every call that costs less than [f] is good. *)
Lemma engine_good `{RT : GoRuntime} st f : good st (engine st f) f.
Proof.
  induction f as [|f IH]; [split; intros; lia|]. split; simpl.
  - intros. eapply scans_scanLine; [done|done|lia].
  - intros. eapply scans_scanSegmentFrom; [done|done|lia].
  - intros. eapply scans_processTokenLogic; [done|done|lia].
  - intros. eapply scans_maskURLParameters; [done|done|lia].
  - intros. eapply scans_scanUserAgent; [done|done|lia].
Qed.
