(* ===== verification/Scanner.v ===== *)
(** * The scanner

    The entry points of [pkg/scanner/scanner.go]: [buildConfigState],
    [NewScanner], [ScanAndRedact] and [ScanAndRedactText]. *)

From Stdlib Require Import ZArith Lia Bool SpecFloat.
From stdpp Require Import base list option sets.
From S2P Require Import Prelude GoStrings Regex Float64 KeyMatcher Config Entropy Tokens Adaptive Machine Engine.
From S2P Require Import TokenLogic Append Segment.

(** [regexp.Compile] on the operator's own patterns. *)
Class RegexpCompiler := { Compile : gostring -> option Regexp }.

(** ** Snapshots *)

Definition clean_patterns `{Unicode} (patterns : list gostring) : list gostring :=
  filter (fun p => p <> []) (TrimSpace <$> patterns).

(** [compileSensitiveKeyPatterns]: [Some None] when there is nothing to compile,
    [None] when the combined pattern does not compile. *)
Definition compileSensitiveKeyPatterns `{Unicode} `{RegexpCompiler} (patterns : list gostring) :
    option (option Regexp) :=
  match clean_patterns patterns with
  | [] => Some None
  | valid => Some <$> Compile (go "(?i)(" ++ Join valid (go "|") ++ go ")")
  end.

(** [buildConfigState]; the HMAC pool is keyed by [Salt], see [marker]. *)
Definition buildConfigState `{Unicode} `{RegexpCompiler} (cfg : Config) : configState := {|
  config := cfg;
  sensitiveRegex := default None (compileSensitiveKeyPatterns (SensitiveKeyPatterns cfg));
  keymatcher := newKeyMatcher (SensitiveKeys cfg);
  bigrams := newBigramTable (BigramDefaultScore cfg);
|}.

(** [NewScanner]: the snapshot is private to the instance and never changes. *)
Definition NewScanner `{Unicode} `{RegexpCompiler} (cfg : Config) : configState := buildConfigState cfg.

(** ** Scanning *)

Section scan.
Context `{RT : GoRuntime} (st : configState).

(** Enough fuel for a line: see [scan_terminates]. *)
Definition scan_fuel (line : gostring) : nat := 5 * 34 + 5 * length line + 4.

(** [ScanAndRedact], on a builder of its own. *)
Definition ScanAndRedact (line : gostring) : M gostring :=
  if is_empty line then mret []
  else r ← with_builder (e_line (engine st (scan_fuel line)) 0 line); mret r.2.

(** The line in front of the first newline, its ending and the text after it. *)
Definition next_line (text : gostring) : gostring * gostring * gostring :=
  let '(line, ending, rest) :=
    match IndexByte text newline with
    | Some i => (take i text, [newline], drop (S i) text)
    | None => (text, [], [])
    end in
  if HasSuffix line [13] then (take (length line - 1) line, 13 :: ending, rest) else (line, ending, rest).

(** The loop of [ScanAndRedactText]; every round consumes text. *)
Fixpoint text_loop (fuel : nat) (text : gostring) : M unit :=
  match text with
  | [] => mret tt
  | _ =>
    match fuel with
    | O => no_fuel
    | S f =>
      let '(line, ending, rest) := next_line text in
      out ← ScanAndRedact line;
      write out;; write ending;; text_loop f rest
    end
  end.

(** [ScanAndRedactText]. *)
Definition ScanAndRedactText (text : gostring) : M gostring :=
  if ContainsByte text newline then r ← with_builder (text_loop (length text) text); mret r.2
  else ScanAndRedact text.

End scan.
