(* ===== verification/ConfigSources.v ===== *)
(** * Where a configuration comes from

    The operations on [Config] of [pkg/scanner/scanner.go], [config_file.go] and
    [sdk_config.go]: the regex rules, the environment, the policy file and the
    JSON of the SDKs.  Warnings on standard error are not modelled. *)

From Stdlib Require Import ZArith Lia Bool SpecFloat.
From stdpp Require Import base list option sets.
From S2P Require Import Prelude GoStrings Float64 Regex KeyMatcher Config Scanner.

(** ** Assignment to one field *)

Definition set_EntropyThreshold (v : float64) (c : Config) : Config := {|
  EntropyThreshold := v; ConfidenceThreshold := ConfidenceThreshold c; MinSecretLength := MinSecretLength c;
  Salt := Salt c; SensitiveKeys := SensitiveKeys c; DisableBigramCheck := DisableBigramCheck c;
  BigramDefaultScore := BigramDefaultScore c; AdaptiveThreshold := AdaptiveThreshold c;
  SensitiveKeyPatterns := SensitiveKeyPatterns c; AdaptiveBaselineSamples := AdaptiveBaselineSamples c;
  EntityTypeLabels := EntityTypeLabels c; CustomRegexes := CustomRegexes c; SafeRegexes := SafeRegexes c;
  CombinedCustomRegex := CombinedCustomRegex c; CustomRegexNames := CustomRegexNames c |}.

Definition set_ConfidenceThreshold (v : float64) (c : Config) : Config := {|
  EntropyThreshold := EntropyThreshold c; ConfidenceThreshold := v; MinSecretLength := MinSecretLength c;
  Salt := Salt c; SensitiveKeys := SensitiveKeys c; DisableBigramCheck := DisableBigramCheck c;
  BigramDefaultScore := BigramDefaultScore c; AdaptiveThreshold := AdaptiveThreshold c;
  SensitiveKeyPatterns := SensitiveKeyPatterns c; AdaptiveBaselineSamples := AdaptiveBaselineSamples c;
  EntityTypeLabels := EntityTypeLabels c; CustomRegexes := CustomRegexes c; SafeRegexes := SafeRegexes c;
  CombinedCustomRegex := CombinedCustomRegex c; CustomRegexNames := CustomRegexNames c |}.

Definition set_MinSecretLength (v : Z) (c : Config) : Config := {|
  EntropyThreshold := EntropyThreshold c; ConfidenceThreshold := ConfidenceThreshold c; MinSecretLength := v;
  Salt := Salt c; SensitiveKeys := SensitiveKeys c; DisableBigramCheck := DisableBigramCheck c;
  BigramDefaultScore := BigramDefaultScore c; AdaptiveThreshold := AdaptiveThreshold c;
  SensitiveKeyPatterns := SensitiveKeyPatterns c; AdaptiveBaselineSamples := AdaptiveBaselineSamples c;
  EntityTypeLabels := EntityTypeLabels c; CustomRegexes := CustomRegexes c; SafeRegexes := SafeRegexes c;
  CombinedCustomRegex := CombinedCustomRegex c; CustomRegexNames := CustomRegexNames c |}.

Definition set_Salt (v : gostring) (c : Config) : Config := {|
  EntropyThreshold := EntropyThreshold c; ConfidenceThreshold := ConfidenceThreshold c;
  MinSecretLength := MinSecretLength c; Salt := v; SensitiveKeys := SensitiveKeys c;
  DisableBigramCheck := DisableBigramCheck c; BigramDefaultScore := BigramDefaultScore c;
  AdaptiveThreshold := AdaptiveThreshold c; SensitiveKeyPatterns := SensitiveKeyPatterns c;
  AdaptiveBaselineSamples := AdaptiveBaselineSamples c; EntityTypeLabels := EntityTypeLabels c;
  CustomRegexes := CustomRegexes c; SafeRegexes := SafeRegexes c;
  CombinedCustomRegex := CombinedCustomRegex c; CustomRegexNames := CustomRegexNames c |}.

Definition set_SensitiveKeys (v : list gostring) (c : Config) : Config := {|
  EntropyThreshold := EntropyThreshold c; ConfidenceThreshold := ConfidenceThreshold c;
  MinSecretLength := MinSecretLength c; Salt := Salt c; SensitiveKeys := v;
  DisableBigramCheck := DisableBigramCheck c; BigramDefaultScore := BigramDefaultScore c;
  AdaptiveThreshold := AdaptiveThreshold c; SensitiveKeyPatterns := SensitiveKeyPatterns c;
  AdaptiveBaselineSamples := AdaptiveBaselineSamples c; EntityTypeLabels := EntityTypeLabels c;
  CustomRegexes := CustomRegexes c; SafeRegexes := SafeRegexes c;
  CombinedCustomRegex := CombinedCustomRegex c; CustomRegexNames := CustomRegexNames c |}.

Definition set_DisableBigramCheck (v : bool) (c : Config) : Config := {|
  EntropyThreshold := EntropyThreshold c; ConfidenceThreshold := ConfidenceThreshold c;
  MinSecretLength := MinSecretLength c; Salt := Salt c; SensitiveKeys := SensitiveKeys c;
  DisableBigramCheck := v; BigramDefaultScore := BigramDefaultScore c;
  AdaptiveThreshold := AdaptiveThreshold c; SensitiveKeyPatterns := SensitiveKeyPatterns c;
  AdaptiveBaselineSamples := AdaptiveBaselineSamples c; EntityTypeLabels := EntityTypeLabels c;
  CustomRegexes := CustomRegexes c; SafeRegexes := SafeRegexes c;
  CombinedCustomRegex := CombinedCustomRegex c; CustomRegexNames := CustomRegexNames c |}.

Definition set_BigramDefaultScore (v : float64) (c : Config) : Config := {|
  EntropyThreshold := EntropyThreshold c; ConfidenceThreshold := ConfidenceThreshold c;
  MinSecretLength := MinSecretLength c; Salt := Salt c; SensitiveKeys := SensitiveKeys c;
  DisableBigramCheck := DisableBigramCheck c; BigramDefaultScore := v;
  AdaptiveThreshold := AdaptiveThreshold c; SensitiveKeyPatterns := SensitiveKeyPatterns c;
  AdaptiveBaselineSamples := AdaptiveBaselineSamples c; EntityTypeLabels := EntityTypeLabels c;
  CustomRegexes := CustomRegexes c; SafeRegexes := SafeRegexes c;
  CombinedCustomRegex := CombinedCustomRegex c; CustomRegexNames := CustomRegexNames c |}.

Definition set_AdaptiveThreshold (v : bool) (c : Config) : Config := {|
  EntropyThreshold := EntropyThreshold c; ConfidenceThreshold := ConfidenceThreshold c;
  MinSecretLength := MinSecretLength c; Salt := Salt c; SensitiveKeys := SensitiveKeys c;
  DisableBigramCheck := DisableBigramCheck c; BigramDefaultScore := BigramDefaultScore c;
  AdaptiveThreshold := v; SensitiveKeyPatterns := SensitiveKeyPatterns c;
  AdaptiveBaselineSamples := AdaptiveBaselineSamples c; EntityTypeLabels := EntityTypeLabels c;
  CustomRegexes := CustomRegexes c; SafeRegexes := SafeRegexes c;
  CombinedCustomRegex := CombinedCustomRegex c; CustomRegexNames := CustomRegexNames c |}.

Definition set_SensitiveKeyPatterns (v : list gostring) (c : Config) : Config := {|
  EntropyThreshold := EntropyThreshold c; ConfidenceThreshold := ConfidenceThreshold c;
  MinSecretLength := MinSecretLength c; Salt := Salt c; SensitiveKeys := SensitiveKeys c;
  DisableBigramCheck := DisableBigramCheck c; BigramDefaultScore := BigramDefaultScore c;
  AdaptiveThreshold := AdaptiveThreshold c; SensitiveKeyPatterns := v;
  AdaptiveBaselineSamples := AdaptiveBaselineSamples c; EntityTypeLabels := EntityTypeLabels c;
  CustomRegexes := CustomRegexes c; SafeRegexes := SafeRegexes c;
  CombinedCustomRegex := CombinedCustomRegex c; CustomRegexNames := CustomRegexNames c |}.

Definition set_AdaptiveBaselineSamples (v : Z) (c : Config) : Config := {|
  EntropyThreshold := EntropyThreshold c; ConfidenceThreshold := ConfidenceThreshold c;
  MinSecretLength := MinSecretLength c; Salt := Salt c; SensitiveKeys := SensitiveKeys c;
  DisableBigramCheck := DisableBigramCheck c; BigramDefaultScore := BigramDefaultScore c;
  AdaptiveThreshold := AdaptiveThreshold c; SensitiveKeyPatterns := SensitiveKeyPatterns c;
  AdaptiveBaselineSamples := v; EntityTypeLabels := EntityTypeLabels c; CustomRegexes := CustomRegexes c;
  SafeRegexes := SafeRegexes c; CombinedCustomRegex := CombinedCustomRegex c;
  CustomRegexNames := CustomRegexNames c |}.

Definition set_EntityTypeLabels (v : bool) (c : Config) : Config := {|
  EntropyThreshold := EntropyThreshold c; ConfidenceThreshold := ConfidenceThreshold c;
  MinSecretLength := MinSecretLength c; Salt := Salt c; SensitiveKeys := SensitiveKeys c;
  DisableBigramCheck := DisableBigramCheck c; BigramDefaultScore := BigramDefaultScore c;
  AdaptiveThreshold := AdaptiveThreshold c; SensitiveKeyPatterns := SensitiveKeyPatterns c;
  AdaptiveBaselineSamples := AdaptiveBaselineSamples c; EntityTypeLabels := v;
  CustomRegexes := CustomRegexes c; SafeRegexes := SafeRegexes c;
  CombinedCustomRegex := CombinedCustomRegex c; CustomRegexNames := CustomRegexNames c |}.

Definition set_CustomRegexes (v : list CustomRegexRule) (c : Config) : Config := {|
  EntropyThreshold := EntropyThreshold c; ConfidenceThreshold := ConfidenceThreshold c;
  MinSecretLength := MinSecretLength c; Salt := Salt c; SensitiveKeys := SensitiveKeys c;
  DisableBigramCheck := DisableBigramCheck c; BigramDefaultScore := BigramDefaultScore c;
  AdaptiveThreshold := AdaptiveThreshold c; SensitiveKeyPatterns := SensitiveKeyPatterns c;
  AdaptiveBaselineSamples := AdaptiveBaselineSamples c; EntityTypeLabels := EntityTypeLabels c;
  CustomRegexes := v; SafeRegexes := SafeRegexes c; CombinedCustomRegex := CombinedCustomRegex c;
  CustomRegexNames := CustomRegexNames c |}.

Definition set_SafeRegexes (v : list CustomRegexRule) (c : Config) : Config := {|
  EntropyThreshold := EntropyThreshold c; ConfidenceThreshold := ConfidenceThreshold c;
  MinSecretLength := MinSecretLength c; Salt := Salt c; SensitiveKeys := SensitiveKeys c;
  DisableBigramCheck := DisableBigramCheck c; BigramDefaultScore := BigramDefaultScore c;
  AdaptiveThreshold := AdaptiveThreshold c; SensitiveKeyPatterns := SensitiveKeyPatterns c;
  AdaptiveBaselineSamples := AdaptiveBaselineSamples c; EntityTypeLabels := EntityTypeLabels c;
  CustomRegexes := CustomRegexes c; SafeRegexes := v; CombinedCustomRegex := CombinedCustomRegex c;
  CustomRegexNames := CustomRegexNames c |}.

Definition set_CombinedCustomRegex (re : option Regexp) (names : list gostring) (c : Config) : Config := {|
  EntropyThreshold := EntropyThreshold c; ConfidenceThreshold := ConfidenceThreshold c;
  MinSecretLength := MinSecretLength c; Salt := Salt c; SensitiveKeys := SensitiveKeys c;
  DisableBigramCheck := DisableBigramCheck c; BigramDefaultScore := BigramDefaultScore c;
  AdaptiveThreshold := AdaptiveThreshold c; SensitiveKeyPatterns := SensitiveKeyPatterns c;
  AdaptiveBaselineSamples := AdaptiveBaselineSamples c; EntityTypeLabels := EntityTypeLabels c;
  CustomRegexes := CustomRegexes c; SafeRegexes := SafeRegexes c; CombinedCustomRegex := re;
  CustomRegexNames := names |}.
(** ** Parsing of values *)

(** The value of a run of decimal digits after [acc]; [None] on any other byte. *)
Fixpoint digits_value (acc : Z) (s : gostring) : option Z :=
  match s with
  | [] => Some acc
  | c :: s' => if isASCIIDigit c then digits_value (10 * acc + (c - 48)) s' else None
  end.

(** [strconv.Atoi]: an optional sign and digits, in the range of a 64-bit [int]. *)
Definition Atoi (s : gostring) : option Z :=
  let '(neg, ds) :=
    match s with
    | c :: r => if c =? ch "-" then (true, r) else if c =? ch "+" then (false, r) else (false, s)
    | [] => (false, [])
    end in
  if is_empty ds then None
  else
    n ← digits_value 0 ds;
    let v := if neg : bool then - n else n in
    if (- 2 ^ 63 <=? v) && (v <? 2 ^ 63) then Some v else None.

(** The fields of the SDK's JSON and of a policy file, as [json.Unmarshal] fills them:
    absent numbers are 0, absent strings and lists empty, absent flags [None]. *)
Module SDK.

Record SDKConfig := {
  EntropyThreshold : float64;
  Salt : gostring;
  ConfidenceThreshold : float64;
  FailPolicy : gostring;
  MinSecretLength : Z;
  SensitiveKeys : list gostring;
  DisableBigramCheck : option bool;
  AdaptiveThreshold : option bool;
  EntityTypeLabels : option bool;
  SensitiveKeyPatterns : list gostring;
  CustomRegexes : list CustomRegexConfig;
  SafeRegexes : list CustomRegexConfig;
}.

End SDK.

Record policyFile := { pfConfig : SDK.SDKConfig; Revision : gostring }.

(** [strconv.ParseFloat], [time.ParseDuration] in nanoseconds, and [json.Unmarshal] at
    the three types it is used at; [None] is an error. *)
Class GoDecoders := {
  ParseFloat : gostring -> option float64;
  ParseDuration : gostring -> option Z;
  UnmarshalRules : gostring -> option (list CustomRegexConfig);
  UnmarshalSDK : gostring -> option SDK.SDKConfig;
  UnmarshalPolicy : gostring -> option policyFile;
}.

Definition parseFloat `{GoDecoders} (s : gostring) : option float64 := ParseFloat (TrimSpace s).

Definition parseInt (s : gostring) : option Z := Atoi (TrimSpace s).

Definition envTruthy `{Unicode} (s : gostring) : bool :=
  in_words (ToLower (TrimSpace s)) [go "1"; go "true"; go "yes"; go "y"; go "on"].

(** ** Regex rules *)

Section rules.
Context `{RegexpCompiler} `{Unicode}.

(** [compileRegexRules]: the compiled rules, the sources of these, and the rules
    skipped (the error is nil when there are none). *)
Fixpoint compileRegexRules (raw : list CustomRegexConfig) :
    list CustomRegexRule * list CustomRegexConfig * list CustomRegexConfig :=
  match raw with
  | [] => ([], [], [])
  | r :: raw' =>
    let '(rules, valid, skipped) := compileRegexRules raw' in
    match Compile (Pattern r) with
    | None => (rules, valid, r :: skipped)
    | Some re => ({| RuleRegexp := re; RuleName := Name r |} :: rules, r :: valid, skipped)
    end
  end.

(** [ApplySensitiveKeyPatterns]: the patterns are stored whether or not they compile;
    the flag is [err == nil]. *)
Definition ApplySensitiveKeyPatterns (patterns : list gostring) (c : Config) : Config * bool :=
  let cleaned := clean_patterns patterns in
  (set_SensitiveKeyPatterns cleaned c, bool_decide (is_Some (compileSensitiveKeyPatterns cleaned))).

(** Each rule in a group of its own, joined. *)
Definition combined_pattern (raw : list CustomRegexConfig) : gostring :=
  Join ((fun r => go "(" ++ Pattern r ++ go ")") <$> raw) (go "|").

(** [ApplyCustomRegexes], with the rules it skipped. *)
Definition ApplyCustomRegexes (raw : list CustomRegexConfig) (c : Config) : Config * list CustomRegexConfig :=
  let '(rules, valid, skipped) := compileRegexRules raw in
  let c := set_CustomRegexes rules c in
  (if is_empty valid then set_CombinedCustomRegex None [] c
   else
     match Compile (combined_pattern valid) with
     | None => set_CombinedCustomRegex None [] c
     | Some combined => set_CombinedCustomRegex (Some combined) (Name <$> valid) c
     end, skipped).

(** [ApplySafeRegexes], with the rules it skipped. *)
Definition ApplySafeRegexes (raw : list CustomRegexConfig) (c : Config) : Config * list CustomRegexConfig :=
  let '(rules, _, skipped) := compileRegexRules raw in
  (set_SafeRegexes rules c, skipped).

(** [dropInvalidRegexRules]. *)
Definition dropInvalidRegexRules (raw : list CustomRegexConfig) : list CustomRegexConfig :=
  filter (fun r => is_Some (Compile (Pattern r))) raw.

End rules.

(** ** The environment *)

Section environment.
Context `{RegexpCompiler} `{Unicode} `{GoDecoders}.
Context (Getenv : gostring -> gostring).

(** A variable that is set and readable is stored; otherwise the field stays. *)
Definition override {A} (name : gostring) (parse : gostring -> option A) (store : A -> Config -> Config)
    (c : Config) : Config :=
  let v := Getenv name in
  if is_empty v then c
  else match parse v with Some x => store x c | None => c end.

(** The salt: a short one is fatal ([None]) when a strong one is required; a fresh
    random one when there is none. *)
Definition env_salt (fresh : gostring) (c : Config) : option Config :=
  let envSalt := Getenv (go "PII_SALT") in
  if negb (is_empty envSalt) then
    if (length envSalt <? 16)%nat && envTruthy (Getenv (go "PII_REQUIRE_STRONG_SALT")) then None
    else Some (set_Salt envSalt c)
  else if is_empty (Salt c) then Some (set_Salt fresh c)
  else Some c.

Definition parse_min_length (v : gostring) : option Z :=
  n ← parseInt v; if (0 <? n) && (n <=? MaxMinSecretLength) then Some n else None.

Definition parse_samples (v : gostring) : option Z :=
  n ← parseInt v; if 0 <? n then Some n else None.

(** [v == "true" || v == "1"]. *)
Definition env_flag (name : gostring) : bool := in_words (Getenv name) [go "true"; go "1"].

Definition env_bigram_check (c : Config) : Config :=
  if env_flag (go "PII_DISABLE_BIGRAM_CHECK") then set_DisableBigramCheck true c else c.

Definition env_labels (c : Config) : Config :=
  if envTruthy (Getenv (go "PII_ENTITY_TYPE_LABELS")) then set_EntityTypeLabels true c else c.

Definition env_adaptive (c : Config) : Config :=
  if env_flag (go "PII_ADAPTIVE_THRESHOLD") then
    override (go "PII_ADAPTIVE_SAMPLES") parse_samples set_AdaptiveBaselineSamples (set_AdaptiveThreshold true c)
  else c.

(** A comma-separated list of keys, normalised. *)
Definition split_keys (v : gostring) : list gostring := normalizeKey <$> Split v (ch ",").

(** The fields after the salt, in the order of the code. *)
Definition env_fields (c : Config) : Config :=
  let c := override (go "PII_ENTROPY_THRESHOLD") parseFloat set_EntropyThreshold c in
  let c := override (go "PII_CONFIDENCE_THRESHOLD") parseFloat set_ConfidenceThreshold c in
  let c := override (go "PII_MIN_SECRET_LENGTH") parse_min_length set_MinSecretLength c in
  let c := env_bigram_check c in
  let c := override (go "PII_BIGRAM_DEFAULT_SCORE") parseFloat set_BigramDefaultScore c in
  let c := env_labels c in
  let c := env_adaptive c in
  let c := override (go "PII_SENSITIVE_KEYS") (fun v => Some (split_keys v)) set_SensitiveKeys c in
  let c := override (go "PII_SENSITIVE_KEY_PATTERNS") (fun v => Some (Split v (ch ",")))
             (fun ps c => (ApplySensitiveKeyPatterns ps c).1) c in
  let c := override (go "PII_CUSTOM_REGEX_LIST") UnmarshalRules
             (fun raw c => (ApplyCustomRegexes (dropInvalidRegexRules raw) c).1) c in
  override (go "PII_SAFE_REGEX_LIST") UnmarshalRules
    (fun raw c => (ApplySafeRegexes (dropInvalidRegexRules raw) c).1) c.

(** [ApplyEnvOverrides]; [fresh] is what [randomSalt] returns and [None] is the panic on
    a weak salt. *)
Definition ApplyEnvOverrides (fresh : gostring) (c : Config) : option Config :=
  env_fields <$> env_salt fresh c.

(** [loadConfig]. *)
Definition loadConfig (fresh : gostring) : option Config := ApplyEnvOverrides fresh DefaultConfig.

End environment.

(** ** The SDK's JSON *)

Section sdk.
Context `{RegexpCompiler} `{Unicode} `{GoDecoders}.

Definition when {A} (b : bool) (f : A -> A) (a : A) : A := if b then f a else a.

Definition set_flag (v : option bool) (store : bool -> Config -> Config) (c : Config) : Config :=
  match v with Some b => store b c | None => c end.

(** The flags of an SDK document, the same in [ConfigFromSDKJSON] and
    [ParsePolicyJSON]. *)
Definition sdk_flags (sdk : SDK.SDKConfig) (c : Config) : Config :=
  let c := set_flag (SDK.DisableBigramCheck sdk) set_DisableBigramCheck c in
  let c := set_flag (SDK.AdaptiveThreshold sdk) set_AdaptiveThreshold c in
  set_flag (SDK.EntityTypeLabels sdk) set_EntityTypeLabels c.

Definition sdk_patterns (sdk : SDK.SDKConfig) (c : Config) : Config :=
  if is_empty (SDK.SensitiveKeyPatterns sdk) then c
  else
    let '(c, ok) := ApplySensitiveKeyPatterns (SDK.SensitiveKeyPatterns sdk) c in
    if ok : bool then c else set_SensitiveKeyPatterns [] c.

Definition sdk_fields (sdk : SDK.SDKConfig) (c : Config) : Config :=
  let c := when (fgtb (SDK.EntropyThreshold sdk) fzero) (set_EntropyThreshold (SDK.EntropyThreshold sdk)) c in
  let c := when (negb (is_empty (SDK.Salt sdk))) (set_Salt (SDK.Salt sdk)) c in
  let c := when (fgtb (SDK.ConfidenceThreshold sdk) fzero) (set_ConfidenceThreshold (SDK.ConfidenceThreshold sdk)) c in
  let c := when (0 <? SDK.MinSecretLength sdk) (set_MinSecretLength (SDK.MinSecretLength sdk)) c in
  let c := when (negb (is_empty (SDK.SensitiveKeys sdk)))
             (set_SensitiveKeys (normalizeKey <$> SDK.SensitiveKeys sdk)) c in
  let c := sdk_flags sdk c in
  let c := sdk_patterns sdk c in
  let c := when (negb (is_empty (SDK.CustomRegexes sdk)))
             (fun c => (ApplyCustomRegexes (SDK.CustomRegexes sdk) c).1) c in
  when (negb (is_empty (SDK.SafeRegexes sdk))) (fun c => (ApplySafeRegexes (SDK.SafeRegexes sdk) c).1) c.

(** [ConfigFromSDKJSON]; [fresh] is what [randomSalt] returns. *)
Definition ConfigFromSDKJSON (fresh b : gostring) : Config :=
  let c := set_Salt fresh DefaultConfig in
  match UnmarshalSDK b with
  | None => c
  | Some sdk => sdk_fields sdk c
  end.

End sdk.

(** ** The policy file *)

Inductive policyError :=
| ErrRead
| ErrTooLarge
| ErrJSON
| ErrEntropyThreshold
| ErrConfidenceScore
| ErrMinSecretLength
| ErrEmptySensitiveKey
| ErrKeyPattern (p : gostring)
| ErrKeyPatterns
| ErrEmptyPattern (field : gostring) (i : nat)
| ErrPattern (field : gostring) (i : nat) (p : gostring)
| ErrRules (field : gostring).

Notation result A := (policyError + A)%type.

#[export] Instance result_ret : MRet (sum policyError) := fun A a => inr a.
#[export] Instance result_bind : MBind (sum policyError) := fun A B f m =>
  match m with inl e => inl e | inr a => f a end.

Section policy.
Context `{RegexpCompiler} `{Unicode} `{GoDecoders}.

(** A threshold: negative is an error, 0 keeps the field. *)
Definition policy_threshold (v : float64) (e : policyError) (store : float64 -> Config -> Config)
    (c : Config) : result Config :=
  if fltb v fzero then inl e else mret (when (fgtb v fzero) (store v) c).

Definition policy_min_length (n : Z) (c : Config) : result Config :=
  if (n <? 0) || (MaxMinSecretLength <? n) then inl ErrMinSecretLength
  else mret (when (0 <? n) (set_MinSecretLength n) c).

Fixpoint policy_keys (l : list gostring) : result (list gostring) :=
  match l with
  | [] => mret []
  | k :: l' =>
    let k := normalizeKey k in
    if is_empty k then inl ErrEmptySensitiveKey
    else keys ← policy_keys l'; mret (k :: keys)
  end.

Definition policy_sensitive_keys (l : list gostring) (c : Config) : result Config :=
  if is_empty l then mret c else keys ← policy_keys l; mret (set_SensitiveKeys keys c).

(** The first pattern that does not compile. *)
Definition bad_pattern (l : list gostring) : option gostring :=
  snd <$> list_find (fun p => Compile p = None) l.

Definition policy_patterns (l : list gostring) (c : Config) : result Config :=
  if is_empty l then mret c
  else
    match bad_pattern l with
    | Some p => inl (ErrKeyPattern p)
    | None =>
      let '(c, ok) := ApplySensitiveKeyPatterns l c in
      if ok : bool then mret c else inl ErrKeyPatterns
    end.

(** [checkRegexRules], from the rule with index [i]. *)
Fixpoint checkRegexRules (field : gostring) (i : nat) (rules : list CustomRegexConfig) : option policyError :=
  match rules with
  | [] => None
  | r :: rules' =>
    if is_empty (Pattern r) then Some (ErrEmptyPattern field i)
    else
      match Compile (Pattern r) with
      | None => Some (ErrPattern field i (Pattern r))
      | Some _ => checkRegexRules field (S i) rules'
      end
  end.

Definition policy_rules (field : gostring) (raw : list CustomRegexConfig)
    (apply : list CustomRegexConfig -> Config -> Config * list CustomRegexConfig) (c : Config) : result Config :=
  match checkRegexRules field 0 raw with
  | Some e => inl e
  | None =>
    if is_empty raw then mret c
    else let '(c, skipped) := apply raw c in if is_empty skipped then mret c else inl (ErrRules field)
  end.

(** The fields of a decoded policy over the defaults; a salt or a fail policy in it is
    ignored. *)
Definition policy_fields (pf : SDK.SDKConfig) : result Config :=
  c ← policy_threshold (SDK.EntropyThreshold pf) ErrEntropyThreshold set_EntropyThreshold DefaultConfig;
  c ← policy_threshold (SDK.ConfidenceThreshold pf) ErrConfidenceScore set_ConfidenceThreshold c;
  c ← policy_min_length (SDK.MinSecretLength pf) c;
  c ← policy_sensitive_keys (SDK.SensitiveKeys pf) c;
  c ← policy_patterns (SDK.SensitiveKeyPatterns pf) (sdk_flags pf c);
  c ← policy_rules (go "custom_regexes") (SDK.CustomRegexes pf) ApplyCustomRegexes c;
  policy_rules (go "safe_regexes") (SDK.SafeRegexes pf) ApplySafeRegexes c.

(** [ParsePolicyJSON]. *)
Definition ParsePolicyJSON (b : gostring) : result (Config * gostring) :=
  match UnmarshalPolicy b with
  | None => inl ErrJSON
  | Some pf => c ← policy_fields (pfConfig pf); mret (c, Revision pf)
  end.

Definition MaxPolicyFileBytes : Z := Z.shiftl 4 20.

(** [io.ReadAll(io.LimitReader(f, n))]. *)
Fixpoint limit_read (n : Z) (content : gostring) : gostring :=
  match content with
  | [] => []
  | b :: content' => if n <=? 0 then [] else b :: limit_read (n - 1) content'
  end.

(** [LoadPolicyFile] on the content of the file, [None] when it cannot be read. *)
Definition LoadPolicyFile (file : option gostring) : result (Config * gostring) :=
  match file with
  | None => inl ErrRead
  | Some content =>
    let b := limit_read (MaxPolicyFileBytes + 1) content in
    if MaxPolicyFileBytes <? Z.of_nat (length b) then inl ErrTooLarge else ParsePolicyJSON b
  end.

End policy.
