(* ===== verification/ConfigProofs.v ===== *)
(** * The operations on a configuration

    What the environment, a policy file and the SDK's JSON do to each field, and the
    invariant of the configurations they make. *)

From Stdlib Require Import ZArith Lia Bool SpecFloat.
From stdpp Require Import base list option sets.
From S2P Require Import Prelude GoStrings Float64 Regex KeyMatcher Config Scanner ConfigSources.

(** ** Regex rules *)

Section rules.
Context `{RegexpCompiler} `{Unicode}.

Notation compiles r := (is_Some (Compile (Pattern r))).

Definition compile_rule (r : CustomRegexConfig) : option CustomRegexRule :=
  re ← Compile (Pattern r); Some {| RuleRegexp := re; RuleName := Name r |}.

Lemma compile_rule_eq r :
  compile_rule r = (re ← Compile (Pattern r); Some {| RuleRegexp := re; RuleName := Name r |}).
Proof. done. Qed.

Lemma compileRegexRules_spec raw :
  compileRegexRules raw =
  (omap compile_rule raw, filter (fun r => compiles r) raw, filter (fun r => ~ compiles r) raw).
Proof.
  induction raw as [|r raw IH]; [done|]. cbn [compileRegexRules omap list_omap]. rewrite IH, !filter_cons.
  rewrite compile_rule_eq. by destruct (Compile (Pattern r)).
Qed.

Lemma omap_compile_rule (raw : list CustomRegexConfig) :
  RuleName <$> omap compile_rule raw = Name <$> filter (fun r => compiles r) raw.
Proof.
  induction raw as [|r raw IH]; [done|]. rewrite filter_cons. simpl. rewrite compile_rule_eq.
  destruct (Compile (Pattern r)); simpl; [by f_equal|done].
Qed.

(** Nothing is skipped when every rule compiles. *)
Lemma skipped_none raw : Forall (fun r => compiles r) raw -> filter (fun r => ~ compiles r) raw = [].
Proof. rewrite Forall_forall. intros Hall. apply filter_none. naive_solver. Qed.

Lemma omap_dropInvalid (raw : list CustomRegexConfig) : omap compile_rule (dropInvalidRegexRules raw) = omap compile_rule raw.
Proof.
  unfold dropInvalidRegexRules. induction raw as [|r raw IH]; [done|]. rewrite filter_cons.
  destruct (decide (compiles r)) as [[re Hre]|Hn]; simpl; rewrite !compile_rule_eq.
  - rewrite Hre. simpl. by f_equal.
  - rewrite IH. destruct (Compile (Pattern r)) eqn:E; [|done]. destruct Hn. eauto.
Qed.

(** The combined pattern of the rules that compile, and their names with it. *)
Definition combined_of (raw : list CustomRegexConfig) : option Regexp :=
  let valid := filter (fun r => compiles r) raw in
  if is_empty valid then None else Compile (combined_pattern valid).

Definition names_of (raw : list CustomRegexConfig) : list gostring :=
  match combined_of raw with Some _ => Name <$> filter (fun r => compiles r) raw | None => [] end.

Lemma ApplyCustomRegexes_eq raw c :
  ApplyCustomRegexes raw c =
  (set_CombinedCustomRegex (combined_of raw) (names_of raw) (set_CustomRegexes (omap compile_rule raw) c),
   filter (fun r => ~ compiles r) raw).
Proof.
  unfold ApplyCustomRegexes, names_of, combined_of. rewrite compileRegexRules_spec.
  destruct (is_empty (filter (fun r => compiles r) raw)); [done|]. by destruct (Compile (combined_pattern _)).
Qed.

Lemma ApplySafeRegexes_eq raw c :
  ApplySafeRegexes raw c = (set_SafeRegexes (omap compile_rule raw) c, filter (fun r => ~ compiles r) raw).
Proof. unfold ApplySafeRegexes. by rewrite compileRegexRules_spec. Qed.

Lemma combined_of_dropInvalid raw : combined_of (dropInvalidRegexRules raw) = combined_of raw.
Proof.
  unfold combined_of, dropInvalidRegexRules. rewrite (filter_all _ (filter _ raw)); [done|].
  apply Forall_forall. intros r Hr. by apply list_elem_of_filter in Hr as [? _].
Qed.

Lemma names_of_dropInvalid raw : names_of (dropInvalidRegexRules raw) = names_of raw.
Proof.
  unfold names_of. rewrite combined_of_dropInvalid. destruct (combined_of raw); [|done]. f_equal.
  unfold dropInvalidRegexRules. apply filter_all, Forall_forall. intros r' Hr. by apply list_elem_of_filter in Hr as [? _].
Qed.

(** A rule that does not compile can be left out of a list. *)
Lemma filter_skip l1 r (l2 : list CustomRegexConfig) :
  Compile (Pattern r) = None ->
  filter (fun r => compiles r) (l1 ++ r :: l2) = filter (fun r => compiles r) (l1 ++ l2).
Proof.
  intros Hr. rewrite !filter_app, filter_cons, decide_False; [done|]. rewrite Hr. by intros [].
Qed.

Lemma omap_skip l1 r (l2 : list CustomRegexConfig) :
  Compile (Pattern r) = None -> omap compile_rule (l1 ++ r :: l2) = omap compile_rule (l1 ++ l2).
Proof. intros Hr. rewrite !omap_app. simpl. rewrite compile_rule_eq, Hr. done. Qed.

Lemma combined_of_skip l1 r l2 : Compile (Pattern r) = None -> combined_of (l1 ++ r :: l2) = combined_of (l1 ++ l2).
Proof. intros Hr. unfold combined_of. by rewrite filter_skip. Qed.

Lemma names_of_skip l1 r l2 : Compile (Pattern r) = None -> names_of (l1 ++ r :: l2) = names_of (l1 ++ l2).
Proof. intros Hr. unfold names_of. by rewrite combined_of_skip, filter_skip. Qed.

(** ** Well-formed configurations *)

(** With a combined expression there is one name per rule, in order. *)
Definition rules_aligned (c : Config) : Prop :=
  match CombinedCustomRegex c with
  | None => CustomRegexNames c = []
  | Some _ => CustomRegexNames c = RuleName <$> CustomRegexes c
  end.

Record config_wf (c : Config) : Prop := {
  wf_length : 0 < MinSecretLength c <= MaxMinSecretLength;
  wf_samples : 0 < AdaptiveBaselineSamples c;
  wf_rules : rules_aligned c;
}.

Lemma config_wf_default : config_wf DefaultConfig.
Proof. by split. Qed.

Lemma rules_aligned_custom raw c : rules_aligned (ApplyCustomRegexes raw c).1.
Proof.
  rewrite ApplyCustomRegexes_eq. unfold rules_aligned, names_of. simpl.
  destruct (combined_of raw); [|done]. by rewrite omap_compile_rule.
Qed.

End rules.

(** ** The environment, field by field *)

Section environment.
Context `{RegexpCompiler} `{Unicode} `{GoDecoders} (Getenv : gostring -> gostring).

(** A variable that is set and readable gives the value; otherwise it is [d]. *)
Definition from_env {A} (name : gostring) (parse : gostring -> option A) (d : A) : A :=
  if is_empty (Getenv name) then d else default d (parse (Getenv name)).

Lemma from_env_idemp {A} name (parse : gostring -> option A) d :
  from_env name parse (from_env name parse d) = from_env name parse d.
Proof. unfold from_env. destruct (is_empty _); [done|]. by destruct (parse _). Qed.

Lemma from_env_ind {A} (P : A -> Prop) name parse d :
  P d -> (forall v x, parse v = Some x -> P x) -> P (from_env name parse d).
Proof.
  intros Hd Hp. unfold from_env. destruct (is_empty _); [done|]. destruct (parse _) eqn:E; [by eapply Hp|done].
Qed.

Lemma override_set {A} (field : Config -> A) name parse store c :
  (forall c, store (field c) c = c) ->
  override Getenv name parse store c = store (from_env name parse (field c)) c.
Proof.
  intros Hset. unfold override, from_env. destruct (is_empty _); [done|]. by destruct (parse _); simpl; rewrite ?Hset.
Qed.

Definition env_rules {A} (name : gostring) (f : list CustomRegexConfig -> A) : A -> A :=
  from_env name (fun v => f <$> UnmarshalRules v).

Lemma env_rules_cases name :
  (forall A (f : list CustomRegexConfig -> A) d, env_rules name f d = d) \/
  exists raw, forall A (f : list CustomRegexConfig -> A) d, env_rules name f d = f raw.
Proof.
  unfold env_rules, from_env. destruct (is_empty _); [by left|].
  destruct (UnmarshalRules _) as [raw|]; [right; by exists raw|by left].
Qed.

Lemma override_patterns c :
  override Getenv (go "PII_SENSITIVE_KEY_PATTERNS") (fun v => Some (Split v (ch ",")))
    (fun ps c => (ApplySensitiveKeyPatterns ps c).1) c =
  set_SensitiveKeyPatterns (from_env (go "PII_SENSITIVE_KEY_PATTERNS")
    (fun v => Some (clean_patterns (Split v (ch ",")))) (SensitiveKeyPatterns c)) c.
Proof. unfold override, from_env. destruct (is_empty _); [by destruct c|done]. Qed.

Lemma override_custom c :
  let name := go "PII_CUSTOM_REGEX_LIST" in
  override Getenv name UnmarshalRules (fun raw c => (ApplyCustomRegexes (dropInvalidRegexRules raw) c).1) c =
  set_CombinedCustomRegex (env_rules name combined_of (CombinedCustomRegex c))
    (env_rules name names_of (CustomRegexNames c))
    (set_CustomRegexes (env_rules name (omap compile_rule) (CustomRegexes c)) c).
Proof.
  unfold override, env_rules, from_env. destruct (is_empty _); [by destruct c|].
  destruct (UnmarshalRules _) as [raw|]; simpl; [|by destruct c].
  by rewrite ApplyCustomRegexes_eq, combined_of_dropInvalid, names_of_dropInvalid, omap_dropInvalid.
Qed.

Lemma override_safe c :
  let name := go "PII_SAFE_REGEX_LIST" in
  override Getenv name UnmarshalRules (fun raw c => (ApplySafeRegexes (dropInvalidRegexRules raw) c).1) c =
  set_SafeRegexes (env_rules name (omap compile_rule) (SafeRegexes c)) c.
Proof.
  unfold override, env_rules, from_env. destruct (is_empty _); [by destruct c|].
  destruct (UnmarshalRules _) as [raw|]; simpl; [|by destruct c].
  by rewrite ApplySafeRegexes_eq, omap_dropInvalid.
Qed.

Lemma env_bigram_check_eq c :
  env_bigram_check Getenv c =
  set_DisableBigramCheck (env_flag Getenv (go "PII_DISABLE_BIGRAM_CHECK") || DisableBigramCheck c) c.
Proof. unfold env_bigram_check. destruct (env_flag _ _); [done|]. by destruct c. Qed.

Lemma env_labels_eq c :
  env_labels Getenv c =
  set_EntityTypeLabels (envTruthy (Getenv (go "PII_ENTITY_TYPE_LABELS")) || EntityTypeLabels c) c.
Proof. unfold env_labels. destruct (envTruthy _); [done|]. by destruct c. Qed.

(** The sample size is read only with the adaptive threshold. *)
Definition env_samples (d : Z) : Z :=
  if env_flag Getenv (go "PII_ADAPTIVE_THRESHOLD") then from_env (go "PII_ADAPTIVE_SAMPLES") parse_samples d else d.

Lemma env_adaptive_eq c :
  env_adaptive Getenv c =
  set_AdaptiveBaselineSamples (env_samples (AdaptiveBaselineSamples c))
    (set_AdaptiveThreshold (env_flag Getenv (go "PII_ADAPTIVE_THRESHOLD") || AdaptiveThreshold c) c).
Proof.
  unfold env_adaptive, env_samples. destruct (env_flag _ _); [|by destruct c].
  by rewrite (override_set AdaptiveBaselineSamples) by (by intros []).
Qed.

(** What [ApplyEnvOverrides] makes of [c] once the salt is [salt]. *)
Definition env_spec (c : Config) : Config := {|
  EntropyThreshold := from_env (go "PII_ENTROPY_THRESHOLD") parseFloat (EntropyThreshold c);
  ConfidenceThreshold := from_env (go "PII_CONFIDENCE_THRESHOLD") parseFloat (ConfidenceThreshold c);
  MinSecretLength := from_env (go "PII_MIN_SECRET_LENGTH") parse_min_length (MinSecretLength c);
  Salt := Salt c;
  SensitiveKeys := from_env (go "PII_SENSITIVE_KEYS") (fun v => Some (split_keys v)) (SensitiveKeys c);
  DisableBigramCheck := env_flag Getenv (go "PII_DISABLE_BIGRAM_CHECK") || DisableBigramCheck c;
  BigramDefaultScore := from_env (go "PII_BIGRAM_DEFAULT_SCORE") parseFloat (BigramDefaultScore c);
  AdaptiveThreshold := env_flag Getenv (go "PII_ADAPTIVE_THRESHOLD") || AdaptiveThreshold c;
  SensitiveKeyPatterns := from_env (go "PII_SENSITIVE_KEY_PATTERNS")
    (fun v => Some (clean_patterns (Split v (ch ",")))) (SensitiveKeyPatterns c);
  AdaptiveBaselineSamples := env_samples (AdaptiveBaselineSamples c);
  EntityTypeLabels := envTruthy (Getenv (go "PII_ENTITY_TYPE_LABELS")) || EntityTypeLabels c;
  CustomRegexes := env_rules (go "PII_CUSTOM_REGEX_LIST") (omap compile_rule) (CustomRegexes c);
  SafeRegexes := env_rules (go "PII_SAFE_REGEX_LIST") (omap compile_rule) (SafeRegexes c);
  CombinedCustomRegex := env_rules (go "PII_CUSTOM_REGEX_LIST") combined_of (CombinedCustomRegex c);
  CustomRegexNames := env_rules (go "PII_CUSTOM_REGEX_LIST") names_of (CustomRegexNames c) |}.

Lemma env_fields_eq c : env_fields Getenv c = env_spec c.
Proof.
  unfold env_fields. cbv zeta.
  rewrite override_safe, override_custom, override_patterns, env_adaptive_eq, env_labels_eq, env_bigram_check_eq.
  rewrite (override_set EntropyThreshold _ _ set_EntropyThreshold), (override_set ConfidenceThreshold _ _ set_ConfidenceThreshold), (override_set MinSecretLength _ _ set_MinSecretLength),
    (override_set BigramDefaultScore _ _ set_BigramDefaultScore), (override_set SensitiveKeys _ _ set_SensitiveKeys) by (by intros []).
  reflexivity.
Qed.

Lemma env_spec_idemp c : env_spec (env_spec c) = env_spec c.
Proof.
  assert (forall d, env_samples (env_samples d) = env_samples d) as Hs.
  { intros d. unfold env_samples. destruct (env_flag _ _); [apply from_env_idemp|done]. }
  unfold env_spec at 1. simpl. unfold env_rules. rewrite !from_env_idemp, Hs, !orb_assoc, !orb_diag. reflexivity.
Qed.

Lemma env_spec_wf c : config_wf c -> config_wf (env_spec c).
Proof.
  intros [Hl Hs Hr]. split; cbn [env_spec MinSecretLength AdaptiveBaselineSamples].
  - apply from_env_ind; [done|]. intros v n. unfold parse_min_length.
    destruct (parseInt v) as [m|]; simpl; [|done]. destruct (_ && _) eqn:E; [|done]. intros [= <-]. boolp. lia.
  - unfold env_samples. destruct (env_flag _ _); [|done]. apply from_env_ind; [done|]. intros v n. unfold parse_samples.
    destruct (parseInt v) as [m|]; simpl; [|done]. destruct (0 <? m) eqn:E; [|done]. intros [= <-]. boolp. lia.
  - unfold rules_aligned, env_spec; cbn [CombinedCustomRegex CustomRegexNames CustomRegexes].
    destruct (env_rules_cases (go "PII_CUSTOM_REGEX_LIST")) as [He|[raw He]]; rewrite !He; [exact Hr|].
    pose proof (rules_aligned_custom raw c) as Hal. by rewrite ApplyCustomRegexes_eq in Hal.
Qed.

(** Nothing set, nothing changed. *)
Lemma env_spec_unset c : (forall name, Getenv name = []) -> env_spec c = c.
Proof.
  intros He. unfold env_spec, env_samples, env_rules, from_env, env_flag. rewrite !He. simpl.
  replace (envTruthy []) with false by done. by destruct c.
Qed.

(** The salt a process runs with. *)
Definition env_salt_of (fresh : gostring) (c : Config) : gostring :=
  if is_empty (Getenv (go "PII_SALT")) then if is_empty (Salt c) then fresh else Salt c
  else Getenv (go "PII_SALT").

(** The variable holds a salt that is too short, and a strong one is required. *)
Definition weak_salt : bool :=
  negb (is_empty (Getenv (go "PII_SALT"))) && (length (Getenv (go "PII_SALT")) <? 16)%nat &&
  envTruthy (Getenv (go "PII_REQUIRE_STRONG_SALT")).

Lemma ApplyEnvOverrides_eq fresh c :
  ApplyEnvOverrides Getenv fresh c =
  if weak_salt then None else Some (env_spec (set_Salt (env_salt_of fresh c) c)).
Proof.
  unfold ApplyEnvOverrides, env_salt, weak_salt, env_salt_of. destruct (is_empty (Getenv _)); simpl.
  - destruct (is_empty (Salt c)); simpl; rewrite env_fields_eq; [done|]. by destruct c.
  - destruct (_ && _); simpl; [done|]. by rewrite env_fields_eq.
Qed.

(** A salt once chosen is chosen again. *)
Lemma env_salt_of_settled fresh fresh' c :
  fresh <> [] ->
  env_salt_of fresh' (env_spec (set_Salt (env_salt_of fresh c) c)) = env_salt_of fresh c.
Proof.
  intros Hf. unfold env_salt_of; simpl. destruct (Getenv (go "PII_SALT")); simpl; [|done].
  destruct (Salt c) eqn:Es; simpl; [by destruct fresh|done].
Qed.

End environment.

(** ** The policy file *)

Section policy.
Context `{RegexpCompiler} `{Unicode} `{GoDecoders}.

(** [decides m P a]: [m] is [a] when [P] and an error when not. *)
Definition decides {A} (m : result A) (P : Prop) (a : A) : Prop :=
  (P /\ m = inr a) \/ (~ P /\ exists e, m = inl e).

Lemma decides_bind {A B} (m : result A) (f : A -> result B) P Q a b :
  decides m P a -> decides (f a) Q b -> decides (m ≫= f) (P /\ Q) b.
Proof.
  intros [[HP ->]|[HP [e ->]]] Hf; [|right; split; [tauto|by exists e]].
  destruct Hf as [[HQ Hf]|[HQ [e Hf]]]; [by left|right; split; [tauto|by exists e]].
Qed.

Lemma decides_ret {A} (a : A) : decides (mret a) True a.
Proof. by left. Qed.

Lemma decides_iff {A} (m : result A) P Q a : P <-> Q -> decides m P a -> decides m Q a.
Proof. unfold decides. tauto. Qed.

Lemma decides_as {A} (m : result A) P a b : a = b -> decides m P a -> decides m P b.
Proof. by intros ->. Qed.

Lemma decides_if {A} (b : bool) e (a : A) : decides (if b then inl e else mret a) (b = false) a.
Proof. destruct b; [right|left]; naive_solver. Qed.

Definition rule_ok (r : CustomRegexConfig) : Prop := Pattern r <> [] /\ is_Some (Compile (Pattern r)).

(** What a policy file must be to be accepted. *)
Record valid_policy (pf : SDK.SDKConfig) : Prop := {
  vp_entropy : fltb (SDK.EntropyThreshold pf) fzero = false;
  vp_confidence : fltb (SDK.ConfidenceThreshold pf) fzero = false;
  vp_length : 0 <= SDK.MinSecretLength pf <= MaxMinSecretLength;
  vp_keys : Forall (fun k => normalizeKey k <> []) (SDK.SensitiveKeys pf);
  vp_patterns : Forall (fun p => is_Some (Compile p)) (SDK.SensitiveKeyPatterns pf) /\
    is_Some (compileSensitiveKeyPatterns (clean_patterns (SDK.SensitiveKeyPatterns pf)));
  vp_custom : Forall rule_ok (SDK.CustomRegexes pf);
  vp_safe : Forall rule_ok (SDK.SafeRegexes pf);
}.

(** [v] when the file gives it, the default otherwise. *)
Definition given {A} (b : bool) (v d : A) : A := if b then v else d.

(** The configuration of a policy: every field the file gives, every rule, no salt. *)
Definition policy_spec (pf : SDK.SDKConfig) : Config :=
  let rules l := omap compile_rule l in
  {| EntropyThreshold := given (fgtb (SDK.EntropyThreshold pf) fzero) (SDK.EntropyThreshold pf) DefaultEntropyThreshold;
     ConfidenceThreshold := given (fgtb (SDK.ConfidenceThreshold pf) fzero) (SDK.ConfidenceThreshold pf) fone;
     MinSecretLength := given (0 <? SDK.MinSecretLength pf) (SDK.MinSecretLength pf) DefaultMinSecretLength;
     Salt := [];
     SensitiveKeys := given (negb (is_empty (SDK.SensitiveKeys pf))) (normalizeKey <$> SDK.SensitiveKeys pf)
                        (normalizeKey <$> defaultSensitiveKeys);
     DisableBigramCheck := default false (SDK.DisableBigramCheck pf);
     BigramDefaultScore := bigramUnknown;
     AdaptiveThreshold := default false (SDK.AdaptiveThreshold pf);
     SensitiveKeyPatterns := clean_patterns (SDK.SensitiveKeyPatterns pf);
     AdaptiveBaselineSamples := 100;
     EntityTypeLabels := default false (SDK.EntityTypeLabels pf);
     CustomRegexes := rules (SDK.CustomRegexes pf);
     SafeRegexes := rules (SDK.SafeRegexes pf);
     CombinedCustomRegex := combined_of (SDK.CustomRegexes pf);
     CustomRegexNames := names_of (SDK.CustomRegexes pf) |}.

Lemma policy_keys_decides l :
  decides (policy_keys l) (Forall (fun k => normalizeKey k <> []) l) (normalizeKey <$> l).
Proof.
  induction l as [|k l IH]; [by left|]. simpl policy_keys. destruct (normalizeKey k) as [|b k'] eqn:Ek; simpl.
  - right. split; [|eauto]. by intros [? _]%Forall_cons.
  - rewrite Ek. eapply decides_iff; [|eapply decides_bind; [exact IH|apply decides_ret]].
    rewrite Forall_cons, Ek. naive_solver.
Qed.

Lemma bad_pattern_none l : bad_pattern l = None <-> Forall (fun p => is_Some (Compile p)) l.
Proof.
  unfold bad_pattern. rewrite fmap_None, list_find_None. split; intros Hall; (eapply Forall_impl; [exact Hall|]);
    intros p; simpl; rewrite <-not_eq_None_Some; tauto.
Qed.

Lemma checkRegexRules_none field i l : checkRegexRules field i l = None <-> Forall rule_ok l.
Proof.
  revert i. induction l as [|r l IH]; intros i; simpl; [by split|]. rewrite Forall_cons. unfold rule_ok at 1.
  destruct (Pattern r) as [|b p] eqn:Ep; simpl; [naive_solver|].
  destruct (Compile (b :: p)) eqn:Ec; [rewrite IH; naive_solver|]. split; [done|]. by intros [[_ [? ?]] _].
Qed.

Lemma rule_ok_compiles l : Forall rule_ok l -> Forall (fun r => is_Some (Compile (Pattern r))) l.
Proof. intros Hall. eapply Forall_impl; [exact Hall|]. by intros ? []. Qed.

(** Both lists of rules, with what they leave when empty. *)
Lemma policy_rules_decides field raw apply (f : Config -> Config) c :
  apply raw c = (f c, filter (fun r => ~ is_Some (Compile (Pattern r))) raw) -> (raw = [] -> f c = c) ->
  decides (policy_rules field raw apply c) (Forall rule_ok raw) (f c).
Proof.
  intros Ha Hf. unfold policy_rules. destruct (checkRegexRules field 0 raw) as [e|] eqn:Ec.
  - right. split; [|eauto]. rewrite <-(checkRegexRules_none field 0), Ec. done.
  - apply checkRegexRules_none in Ec as Hok. left. split; [done|]. rewrite Ha.
    rewrite skipped_none by (by apply rule_ok_compiles). destruct raw; simpl; [by rewrite Hf|done].
Qed.

Lemma policy_custom_decides field raw c :
  CustomRegexes c = [] -> CombinedCustomRegex c = None -> CustomRegexNames c = [] ->
  decides (policy_rules field raw ApplyCustomRegexes c) (Forall rule_ok raw)
    (set_CombinedCustomRegex (combined_of raw) (names_of raw) (set_CustomRegexes (omap compile_rule raw) c)).
Proof.
  intros Hc Hre Hn. apply (policy_rules_decides _ _ _ (fun c => set_CombinedCustomRegex _ _ (set_CustomRegexes _ c)));
    [apply ApplyCustomRegexes_eq|]. intros ->. destruct c; simpl in *; by subst.
Qed.

Lemma policy_safe_decides field raw c :
  SafeRegexes c = [] ->
  decides (policy_rules field raw ApplySafeRegexes c) (Forall rule_ok raw) (set_SafeRegexes (omap compile_rule raw) c).
Proof.
  intros Hs. apply (policy_rules_decides _ _ _ (set_SafeRegexes _)); [apply ApplySafeRegexes_eq|].
  intros ->. destruct c; simpl in *; by subst.
Qed.

Lemma policy_patterns_decides l c :
  SensitiveKeyPatterns c = [] ->
  decides (policy_patterns l c)
    (Forall (fun p => is_Some (Compile p)) l /\ is_Some (compileSensitiveKeyPatterns (clean_patterns l)))
    (set_SensitiveKeyPatterns (clean_patterns l) c).
Proof.
  intros Hc. unfold policy_patterns. destruct l as [|p l]; [|remember (p :: l) as ps; destruct (is_empty ps) eqn:Ee].
  - left. split; [split; [done|by exists None]|]. destruct c; simpl in Hc; by subst.
  - by subst.
  - clear Heqps Ee. destruct (bad_pattern ps) as [q|] eqn:Eb; unfold ApplySensitiveKeyPatterns.
    + right. split; [|eauto]. rewrite <-bad_pattern_none, Eb. by intros [].
    + apply bad_pattern_none in Eb. case_bool_decide as Hi; [by left|right]. split; [tauto|eauto].
Qed.

Lemma when_set {A} (field : Config -> A) (store : A -> Config -> Config) b v c :
  (forall c, store (field c) c = c) -> when b (store v) c = store (given b v (field c)) c.
Proof. intros Hset. destruct b; simpl; by rewrite ?Hset. Qed.

Lemma sdk_flags_eq pf c :
  sdk_flags pf c =
  set_EntityTypeLabels (default (EntityTypeLabels c) (SDK.EntityTypeLabels pf))
    (set_AdaptiveThreshold (default (AdaptiveThreshold c) (SDK.AdaptiveThreshold pf))
      (set_DisableBigramCheck (default (DisableBigramCheck c) (SDK.DisableBigramCheck pf)) c)).
Proof.
  unfold sdk_flags, set_flag. destruct c.
  by destruct (SDK.DisableBigramCheck pf), (SDK.AdaptiveThreshold pf), (SDK.EntityTypeLabels pf).
Qed.

Lemma policy_threshold_decides v e store (field : Config -> float64) c :
  (forall c, store (field c) c = c) ->
  decides (policy_threshold v e store c) (fltb v fzero = false) (store (given (fgtb v fzero) v (field c)) c).
Proof. intros Hset. unfold policy_threshold. rewrite (when_set field) by done. apply decides_if. Qed.

Lemma policy_min_length_decides n c :
  decides (policy_min_length n c) (0 <= n <= MaxMinSecretLength)
    (set_MinSecretLength (given (0 <? n) n (MinSecretLength c)) c).
Proof.
  unfold policy_min_length. rewrite (when_set MinSecretLength) by (by intros []).
  eapply decides_iff; [|apply decides_if]. rewrite orb_false_iff, !Z.ltb_ge. done.
Qed.

Lemma policy_sensitive_keys_decides l c :
  decides (policy_sensitive_keys l c) (Forall (fun k => normalizeKey k <> []) l)
    (set_SensitiveKeys (given (negb (is_empty l)) (normalizeKey <$> l) (SensitiveKeys c)) c).
Proof.
  unfold policy_sensitive_keys. destruct l as [|k l]; [left; split; [done|by destruct c]|].
  eapply decides_iff; [|eapply decides_bind; [apply policy_keys_decides|apply decides_ret]]. tauto.
Qed.

(** [ParsePolicyJSON] after the decoding: exactly the valid policies are accepted, and
    give the configuration of the specification. *)
Lemma policy_fields_decides pf : decides (policy_fields pf) (valid_policy pf) (policy_spec pf).
Proof.
  eapply decides_iff; [|eapply decides_as]; cycle 2.
  - unfold policy_fields.
    eapply decides_bind; [apply (policy_threshold_decides _ _ _ EntropyThreshold); by intros []|].
    eapply decides_bind; [apply (policy_threshold_decides _ _ _ ConfidenceThreshold); by intros []|].
    eapply decides_bind; [apply policy_min_length_decides|].
    eapply decides_bind; [apply policy_sensitive_keys_decides|]. rewrite sdk_flags_eq.
    eapply decides_bind; [by apply policy_patterns_decides|].
    eapply decides_bind; [by apply policy_custom_decides|]. by apply policy_safe_decides.
  - split; [intros (? & ? & ? & ? & ? & ? & ?); by split|by intros []].
  - reflexivity.
Qed.

Lemma policy_spec_wf pf : valid_policy pf -> config_wf (policy_spec pf).
Proof.
  intros [_ _ Hl _ _ _ _]. split; simpl; [|done|].
  - unfold given. destruct (0 <? SDK.MinSecretLength pf) eqn:E; [|done]. apply Z.ltb_lt in E. lia.
  - unfold rules_aligned, policy_spec, names_of; cbn [CombinedCustomRegex CustomRegexNames CustomRegexes].
    destruct (combined_of _); [|done]. by rewrite omap_compile_rule.
Qed.

Lemma ParsePolicyJSON_decides b pf :
  UnmarshalPolicy b = Some pf ->
  decides (ParsePolicyJSON b) (valid_policy (pfConfig pf)) (policy_spec (pfConfig pf), Revision pf).
Proof.
  intros Hb. unfold ParsePolicyJSON. rewrite Hb. eapply decides_iff;
    [|eapply decides_bind; [apply policy_fields_decides|apply decides_ret]]. tauto.
Qed.

Lemma LoadPolicyFile_ok file cfg rev :
  LoadPolicyFile file = inr (cfg, rev) ->
  exists pf, valid_policy (pfConfig pf) /\ cfg = policy_spec (pfConfig pf) /\ rev = Revision pf.
Proof.
  unfold LoadPolicyFile. destruct file as [content|]; [|done]. destruct (_ <? _); [done|].
  set (b := limit_read _ _). destruct (UnmarshalPolicy b) as [pf|] eqn:Eb; [|unfold ParsePolicyJSON; by rewrite Eb].
  intros Hp. destruct (ParsePolicyJSON_decides b pf Eb) as [[Hv He]|[_ [e He]]]; [|congruence].
  rewrite Hp in He. exists pf. split; [done|]. by injection He as -> ->.
Qed.

End policy.
