(* ===== verification/ScannerProofs.v ===== *)
(** * What the scanner guarantees

    The theorems about [ScanAndRedact] and [ScanAndRedactText] for every
    configuration and every input. *)

From Stdlib Require Import ZArith Lia Bool SpecFloat.
From stdpp Require Import base list option sets.
From S2P Require Import Prelude GoStrings Sha256 Float64 Regex Signatures KeyMatcher KeyMatcherFind Config.
From S2P Require Import Entropy Whitelist Tokens JsonString Keys Adaptive Machine Engine Redaction EngineProofs.
From S2P Require Import TokenLogic Append Segment SegmentProofs Scanner.

Section scanner.
Context `{RT : GoRuntime} (st : configState).

(** [scan_fuel] is enough for a line at depth 0. *)
Lemma scan_line_scans line : scans st (e_line (engine st (scan_fuel line)) 0 line) line.
Proof.
  apply (good_line _ _ _ (engine_good st (scan_fuel line))); [lia|].
  pose proof (ascii_count_le_length line). unfold cost, scan_fuel. lia.
Qed.

(** The run of a scan, from any state: it returns a redacted form, or panics on a
    text that is not tame.  The builder of the caller is left alone. *)
Definition scan_post (text : gostring) (s : ES) (r : outcome gostring) : Prop :=
  match r with
  | Ok out s' => exists n, Redacts st n text out /\ sb s' = sb s /\
      ran st s {| sb := sb s ++ out; baseline := baseline s'; callbacks := callbacks s' |} n out
  | Panic s' => tame text = false /\ sb s' = sb s /\ fed st s s'
  | NoFuel => False
  end.

(** A computation that scans, run on a builder of its own. *)
Lemma scan_post_builder {A} (m : M A) text s :
  scans st m text -> scan_post text s ((r ← with_builder m; mret r.2) s).
Proof.
  intros Hm. unfold mbind, M_bind, with_builder.
  specialize (Hm {| sb := []; baseline := baseline s; callbacks := callbacks s |}).
  destruct (m _) as [a s'|s'|]; simpl; [| |done].
  2: { destruct Hm as [Hm Hf]. split_and!; [by apply not_true_iff_false|done|done]. }
  destruct Hm as (n & o & (Ho & Hn & Hb) & HR). simpl in *. exists n. rewrite Ho. by repeat split.
Qed.

Lemma ScanAndRedact_spec line s : scan_post line s (ScanAndRedact st line s).
Proof.
  unfold ScanAndRedact. destruct (is_empty line) eqn:El; [|apply scan_post_builder, scan_line_scans].
  destruct line; [|done]. exists O. split_and!; [apply R_keep|done|].
  apply ran_write; simpl; [done|lia|done].
Qed.

End scanner.

(** ** Plain text *)

(** ASCII text without a backslash: nothing to sanitise, nothing to decode. *)
Definition plain (s : gostring) : bool := forallb (fun b => (b <? 128) && negb (b =? backslash)) s.

Lemma plain_app s t : plain (s ++ t) = plain s && plain t.
Proof. apply forallb_app. Qed.

Lemma plain_ascii s : plain s = true -> Forall (fun b => b < 128) s.
Proof.
  intros H. apply Forall_forall. intros b Hb. unfold plain in H. rewrite forallb_forall in H.
  apply list_elem_of_In, H in Hb. by boolp.
Qed.

Lemma plain_sanitize s : plain s = true -> ToValidUTF8 s RuneErrorBytes = s.
Proof. intros. by apply to_valid_plain, plain_ascii. Qed.

Lemma plain_not_json s : plain s = true -> escapedJSONString s = None.
Proof.
  intros H. unfold escapedJSONString. case_match; [done|]. exfalso. boolp.
  match goal with H : Contains _ _ = true |- _ => rename H into Hc end.
  unfold Contains in Hc. apply bool_decide_eq_true in Hc as [i Hi]. apply Index_Some in Hi.
  apply HasPrefix_app in Hi as [t Ht]. unfold plain in H. rewrite forallb_forall in H.
  assert (In backslash s) as Hin.
  { rewrite <-(take_drop i s), Ht. apply in_app_iff. right. by left. }
  apply H in Hin. by boolp.
Qed.

Section plain.
Context `{RT : GoRuntime} (st : configState).

(** Without markers, and without rules that whitelist a value, a plain text is kept. *)
Lemma Redacts_plain n s o :
  Redacts st n s o -> n = O -> SafeRegexes (config st) = [] -> plain s = true -> o = s.
Proof.
  intros HR Hn Hsafe. revert Hn. induction HR as [| | | | | |n s o HR IH|n s inner o Hj HR IH|n s inner o Hj HR IH];
    intros Hn Hp; try done.
  - exfalso. unfold isSafeRegexWhitelisted in *. rewrite Hsafe in *. by destruct (_ <? _)%nat.
  - rewrite plain_app in Hp. boolp. f_equal; [apply IHHR1|apply IHHR2]; done || lia.
  - rewrite plain_sanitize in IH by done. auto.
  - by rewrite plain_not_json in Hj.
  - by rewrite plain_not_json in Hj.
Qed.

(** A plain text and its result side by side, in pieces. *)
Inductive piece :=
| Kept (s : gostring)
| Hidden (s name : gostring)
| HiddenQuoted (q : Z) (s tail name : gostring)
| HiddenShared (q : Z) (s name : gostring)
| KeptShared (q : Z) (s : gostring).

(** The bytes of the text a piece stands for. *)
Definition piece_source (p : piece) : gostring :=
  match p with
  | Kept s | Hidden s _ | HiddenShared _ s _ | KeptShared _ s => s
  | HiddenQuoted _ s t _ => s ++ t
  end.

(** What is written for it: the bytes themselves, the marker of exactly these bytes,
    or the marker in a pair of quotes or behind a quote that the value shares. *)
Definition piece_output (p : piece) : gostring :=
  match p with
  | Kept s => s
  | Hidden s name => marker st s name
  | HiddenQuoted q s t name => [q] ++ marker st s name ++ t ++ [q]
  | HiddenShared q s name => q :: marker st s name
  | KeptShared q s => q :: s
  end.

(** A marker carries the name of a rule or of an entity type; a quote is written in
    front of kept bytes only where a rule of the operator whitelists them. *)
Definition piece_ok (p : piece) : Prop :=
  match p with
  | Kept _ => True
  | Hidden _ name => marker_name st name
  | HiddenQuoted q _ _ name | HiddenShared q _ name => is_quote_byte q = true /\ marker_name st name
  | KeptShared q s => is_quote_byte q = true /\ isSafeRegexWhitelisted st s = true
  end.

Definition piece_markers (p : piece) : nat :=
  match p with Kept _ | KeptShared _ _ => 0 | _ => 1 end.

Definition pieces_of (text out : gostring) (n : nat) (ps : list piece) : Prop :=
  Forall piece_ok ps /\ concat (piece_source <$> ps) = text /\ concat (piece_output <$> ps) = out /\
  sum_list (piece_markers <$> ps) = n.

Lemma pieces_one p : piece_ok p -> pieces_of (piece_source p) (piece_output p) (piece_markers p) [p].
Proof. intros Hp. unfold pieces_of. simpl. rewrite !app_nil_r. split_and!; [by constructor|done|done|lia]. Qed.

Lemma pieces_app s t o p n m ps qs :
  pieces_of s o n ps -> pieces_of t p m qs -> pieces_of (s ++ t) (o ++ p) (n + m) (ps ++ qs).
Proof.
  intros (H1 & <- & <- & <-) (H2 & <- & <- & <-). unfold pieces_of.
  rewrite !fmap_app, !concat_app, sum_list_with_app. split_and!; [by apply Forall_app|done..].
Qed.

(** A redacted form of a plain text is made of pieces only: nothing is sanitised,
    decoded or encoded. *)
Lemma Redacts_pieces n s o : Redacts st n s o -> plain s = true -> exists ps, pieces_of s o n ps.
Proof.
  intros HR. induction HR as [s|s name Hn|s t name q Hq Hn|s name q Hq Hn|s q Hq Hs|
    n m s t o p HR1 IH1 HR2 IH2|n s o HR IH|n s inner o Hj HR IH|n s inner o Hj HR IH]; intros Hp.
  - exists [Kept s]. by apply (pieces_one (Kept s)).
  - exists [Hidden s name]. by apply (pieces_one (Hidden s name)).
  - exists [HiddenQuoted q s t name]. by apply (pieces_one (HiddenQuoted q s t name)).
  - exists [HiddenShared q s name]. by apply (pieces_one (HiddenShared q s name)).
  - exists [KeptShared q s]. by apply (pieces_one (KeptShared q s)).
  - rewrite plain_app in Hp. boolp. destruct IH1 as [ps Hps]; [done|]. destruct IH2 as [qs Hqs]; [done|].
    exists (ps ++ qs). by apply pieces_app.
  - rewrite plain_sanitize in IH by done. auto.
  - by rewrite plain_not_json in Hj.
  - by rewrite plain_not_json in Hj.
Qed.

(** The bytes of a marker. *)
Lemma hex_encode_range s : Forall (fun b => 0 <= b < 256) s -> Forall (fun c => 48 <= c <= 102) (hex_encode s).
Proof.
  intros H. unfold hex_encode. apply Forall_bind. eapply Forall_impl; [exact H|]. intros b Hb. simpl in *.
  unfold hex_digit. assert (0 <= b / 16 < 16 /\ 0 <= b mod 16 < 16) as [? ?] by lia_div.
  repeat constructor; repeat case_match; boolp; lia.
Qed.

Definition no_newline (s : gostring) : Prop := ~ In newline s.

Definition names_one_line : Prop :=
  Forall no_newline (CustomRegexNames (config st)) /\
  Forall no_newline (RuleName <$> CustomRegexes (config st)).

Lemma marker_one_line s name : names_one_line -> marker_name st name -> no_newline (marker st s name).
Proof.
  intros [H1 H2] Hname. assert (no_newline name) as Hn.
  { destruct Hname as [->|[Hn|[Hn|Hn]]]; [by intros []| | |].
    - apply (in_map (fun l => negb (ContainsByte l newline))) in Hn.
      assert (forallb id (map (fun l => negb (ContainsByte l newline)) entity_types) = true) as Hall by reflexivity.
      rewrite forallb_forall in Hall. apply Hall in Hn. unfold id in Hn. apply negb_true_iff in Hn.
      intros Hc. apply ContainsByte_In in Hc. congruence.
    - rewrite Forall_forall in H1. apply H1. by apply list_elem_of_In.
    - rewrite Forall_forall in H2. apply H2. by apply list_elem_of_In. }
  unfold marker, no_newline. rewrite !in_app_iff. intros [H|[H|[H|[H|H]]]].
  - simpl in H. unfold newline in H. lia.
  - destruct (is_empty name); [done|]. apply in_app_iff in H as [H|H]; [|done].
    simpl in H. unfold newline in H. lia.
  - simpl in H. unfold newline in H. lia.
  - pose proof (hex_encode_range (take 3 (hmac_sha256 (Salt (config st)) s))
      (Forall_take _ _ _ (hmac_sha256_bytes _ _))) as Hr. rewrite Forall_forall in Hr.
    apply list_elem_of_In, Hr in H. unfold newline in H. lia.
  - simpl in H. unfold newline in H. lia.
Qed.

Lemma quote_not_newline q : is_quote_byte q = true -> q <> newline.
Proof. unfold is_quote_byte, dquote, squote, newline. intros [H|H]%orb_true_iff; boolp; lia. Qed.

(** Redaction adds no line break to a plain line. *)
Lemma Redacts_one_line n s o :
  Redacts st n s o -> names_one_line -> plain s = true -> no_newline s -> no_newline o.
Proof.
  intros HR Hnames. induction HR as [|s name Hn|s t name q Hq Hn|s name q Hq Hn|s q Hq Hs|
    n m s t o p HR1 IH1 HR2 IH2|n s o HR IH|n s inner o Hj HR IH|n s inner o Hj HR IH]; intros Hp Hnl.
  - done.
  - by apply marker_one_line.
  - apply quote_not_newline in Hq. pose proof (marker_one_line s name Hnames Hn).
    unfold no_newline in *. rewrite !in_app_iff in *. simpl. naive_solver.
  - apply quote_not_newline in Hq. pose proof (marker_one_line s name Hnames Hn).
    unfold no_newline in *. simpl. naive_solver.
  - apply quote_not_newline in Hq. unfold no_newline in *. simpl. naive_solver.
  - rewrite plain_app in Hp. boolp. unfold no_newline in *. rewrite in_app_iff in *. naive_solver.
  - rewrite plain_sanitize in IH by done. auto.
  - by rewrite plain_not_json in Hj.
  - by rewrite plain_not_json in Hj.
Qed.

End plain.

(** ** Text of several lines *)

Lemma CountByte_no_newline s : no_newline s -> CountByte s newline = O.
Proof.
  induction s as [|b s IH]; intros Hs; [done|]. simpl. destruct (b =? newline) eqn:Eb; boolp.
  - exfalso. apply Hs. by left.
  - apply IH. intros Hin. apply Hs. by right.
Qed.

Lemma next_line_spec text line ending rest :
  text <> [] -> next_line text = (line, ending, rest) ->
  text = line ++ ending ++ rest /\ (length rest < length text)%nat /\ no_newline line /\
  CountByte text newline = (CountByte ending newline + CountByte rest newline)%nat.
Proof.
  intros Hne. unfold next_line.
  assert (exists l e, text = l ++ e ++ match IndexByte text newline with Some i => drop (S i) text | None => [] end /\
    no_newline l /\ (e = [] \/ e = [newline]) /\
    match IndexByte text newline with Some i => (take i text, [newline], drop (S i) text) | None => (text, [], []) end
      = (l, e, match IndexByte text newline with Some i => drop (S i) text | None => [] end) /\
    (length (match IndexByte text newline with Some i => drop (S i) text | None => [] end) < length text)%nat)
    as (l & e & Ht & Hl & He & Heq & Hlen).
  { destruct (IndexByte text newline) as [i|] eqn:Ei.
    - exists (take i text), [newline]. pose proof (IndexByte_split _ _ _ Ei). pose proof (IndexByte_lt _ _ _ Ei).
      apply IndexByte_Some in Ei as [_ Hi]. rewrite length_drop. split_and!; auto; lia.
    - exists text, []. rewrite !app_nil_r. apply IndexByte_None in Ei.
      split_and!; auto. destruct text; [done|simpl; lia]. }
  rewrite Heq. set (tail := match IndexByte text newline with Some i => _ | None => _ end) in *.
  destruct (HasSuffix l [13]) eqn:Es; intros [= <- <- <-].
  - apply HasSuffix_app in Es as [l' ->]. rewrite length_app. simpl.
    replace (length l' + 1 - 1)%nat with (length l') by lia. rewrite take_app_length.
    assert (no_newline l') by (intros Hin; apply Hl, in_app_iff; by left).
    split_and!; [by rewrite Ht at 1; rewrite <-app_assoc|done|done|].
    rewrite Ht at 1. rewrite !CountByte_app. simpl. rewrite (CountByte_no_newline l') by done. lia.
  - split_and!; [done|done|done|]. rewrite Ht at 1. rewrite !CountByte_app, (CountByte_no_newline l) by done. lia.
Qed.

Section text.
Context `{RT : GoRuntime} (st : configState).

(** One line of the loop, scanned and written. *)
Lemma scans_one_line line : scans st (out ← ScanAndRedact st line; write out) line.
Proof.
  intros s. unfold mbind, M_bind. pose proof (ScanAndRedact_spec st line s) as H.
  destruct (ScanAndRedact st line s) as [out s'| |]; [|destruct H as (? & _ & ?); split; [by apply not_true_iff_false|done]|done].
  destruct H as (n & HR & Hsb & Hr).
  exists n, out. simpl. rewrite Hsb. done.
Qed.

Lemma scans_text_loop fuel text : (length text <= fuel)%nat -> scans st (text_loop st fuel text) text.
Proof.
  revert text. induction fuel as [|f IH]; intros text Hf.
  - destruct text; simpl in *; [apply scans_ret|lia].
  - destruct text as [|b t] eqn:Et; [apply scans_ret|]. rewrite <-Et in *. 
    assert (text_loop st (S f) text = let '(line, ending, rest) := next_line text in
      out ← ScanAndRedact st line; write out;; write ending;; text_loop st f rest) as -> by (by rewrite Et).
    destruct (next_line text) as [[line ending] rest] eqn:En.
    apply next_line_spec in En as (Ht & Hlen & _ & _); [|by rewrite Et].
    assert (scans st ((out ← ScanAndRedact st line; write out) ≫= fun _ => write ending;; text_loop st f rest)
      (line ++ ending ++ rest)) as Hall.
    { apply scans_bind; [apply scans_one_line|]. intros _. apply scans_bind; [auto with scans|].
      intros _. apply IH. lia. }
    rewrite Ht. intros s. specialize (Hall s). by rewrite M_assoc in Hall.
Qed.

(** A run on text without bytes to sanitise or decode keeps the line breaks. *)
Lemma text_loop_lines fuel text s s' :
  (length text <= fuel)%nat -> names_one_line st -> plain text = true ->
  text_loop st fuel text s = Ok tt s' ->
  exists o, sb s' = sb s ++ o /\ CountByte o newline = CountByte text newline.
Proof.
  intros Hf Hnames. revert text s Hf. induction fuel as [|f IH]; intros text s Hf Hp Hrun.
  - destruct text; [|simpl in Hf; lia]. injection Hrun as <-. exists []. split; [by rewrite app_nil_r|done].
  - destruct (decide (text = [])) as [->|Hne]; [injection Hrun as <-; exists []; split; [by rewrite app_nil_r|done]|].
    assert (text_loop st (S f) text = let '(line, ending, rest) := next_line text in
      out ← ScanAndRedact st line; write out;; write ending;; text_loop st f rest) as He by (by destruct text).
    rewrite He in Hrun. clear He. destruct (next_line text) as [[line ending] rest] eqn:En.
    apply next_line_spec in En as (Ht & Hlen & Hnl & Hc); [|done].
    unfold mbind, M_bind in Hrun. pose proof (ScanAndRedact_spec st line s) as Hline.
    destruct (ScanAndRedact st line s) as [out s1| |]; [|done..]. destruct Hline as (n & HR & Hsb & _).
    rewrite Ht, !plain_app in Hp. boolp. apply Redacts_one_line in HR; [|done..].
    simpl in Hrun. apply IH in Hrun as (o & Ho & Hcount); [|lia|done].
    simpl in Ho. exists (out ++ ending ++ o). rewrite Ho, Hsb, <-!app_assoc. split; [done|].
    rewrite !CountByte_app, Hcount, Hc, (CountByte_no_newline out) by done. lia.
Qed.

(** The reference for [ScanAndRedactText]: the lines of a text, each with whether a
    newline ends it, by recursion on the text; then a carriage return at the end
    of a line is counted to its ending. *)
Fixpoint text_lines (text : gostring) : list (gostring * bool) :=
  match text with
  | [] => []
  | b :: t =>
    if b =? newline then ([], true) :: text_lines t
    else match text_lines t with
         | (l, e) :: ls => (b :: l, e) :: ls
         | [] => [([b], false)]
         end
  end.

Definition line_part (l : gostring * bool) : gostring * gostring :=
  let nl := if l.2 then [newline] else [] in
  if HasSuffix l.1 [13] then (take (length l.1 - 1) l.1, 13 :: nl) else (l.1, nl).

Definition line_parts (text : gostring) : list (gostring * gostring) := line_part <$> text_lines text.

(** Every line scanned on its own, in order, and joined with the endings. *)
Fixpoint scan_parts (parts : list (gostring * gostring)) : M gostring :=
  match parts with
  | [] => mret []
  | (line, ending) :: parts' =>
    out ← ScanAndRedact st line; rest ← scan_parts parts'; mret (out ++ ending ++ rest)
  end.

Lemma text_lines_none l : IndexByte l newline = None -> l <> [] -> text_lines l = [(l, false)].
Proof.
  intros Hn. apply IndexByte_None in Hn. induction l as [|b l IH]; [done|]. intros _. simpl.
  destruct (b =? newline) eqn:Eb; boolp; [exfalso; apply Hn; by left|].
  destruct l as [|c l]; [done|]. rewrite IH; [done| |done]. intros Hin. apply Hn. by right.
Qed.

Lemma text_lines_cut l rest : no_newline l -> text_lines (l ++ newline :: rest) = (l, true) :: text_lines rest.
Proof.
  induction l as [|b l IH]; intros Hn; simpl; [done|].
  destruct (b =? newline) eqn:Eb; boolp; [exfalso; apply Hn; by left|].
  rewrite IH; [done|]. intros Hin. apply Hn. by right.
Qed.

(** A round of the loop takes the first part. *)
Lemma line_parts_next text line ending rest :
  text <> [] -> next_line text = (line, ending, rest) -> line_parts text = (line, ending) :: line_parts rest.
Proof.
  intros Hne. unfold next_line, line_parts. destruct (IndexByte text newline) as [i|] eqn:Ei.
  - assert (text_lines text = (take i text, true) :: text_lines (drop (S i) text)) as ->.
    { pose proof (IndexByte_split _ _ _ Ei) as Ht. apply IndexByte_Some in Ei as [_ Hi].
      rewrite Ht at 1. simpl. by apply text_lines_cut. }
    rewrite fmap_cons. unfold line_part at 1. cbn [fst snd].
    destruct (HasSuffix _ _); by intros [= <- <- <-].
  - rewrite (text_lines_none text) by done. rewrite fmap_cons. unfold line_part at 1. cbn [fst snd].
    destruct (HasSuffix _ _); by intros [= <- <- <-].
Qed.

(** A scan does not read the caller's builder. *)
Definition with_sb (b : gostring) (s : ES) : ES :=
  {| sb := b; baseline := baseline s; callbacks := callbacks s |}.

Definition outcome_sb {A} (b : gostring) (r : outcome A) : outcome A :=
  match r with Ok a s => Ok a (with_sb b s) | Panic s => Panic (with_sb b s) | NoFuel => NoFuel end.

Lemma ScanAndRedact_sb line b s :
  ScanAndRedact st line (with_sb b s) = outcome_sb b (ScanAndRedact st line s).
Proof.
  unfold ScanAndRedact. destruct (is_empty line); [done|].
  unfold mbind, M_bind, with_builder, with_sb. cbn [sb baseline callbacks].
  by destruct (e_line (engine st (scan_fuel line)) 0 line _).
Qed.

(** The loop and the reference run side by side: the same results, reports and
    samples; the loop collects the result in the builder. *)
Definition same_run (b : gostring) (r : outcome unit) (r' : outcome gostring) : Prop :=
  match r, r' with
  | Ok _ s, Ok out s' => s = with_sb (b ++ out) s'
  | Panic s, Panic s' => with_sb [] s = with_sb [] s'
  | NoFuel, NoFuel => True
  | _, _ => False
  end.

Lemma text_loop_parts fuel text b s :
  (length text <= fuel)%nat ->
  same_run b (text_loop st fuel text (with_sb b s)) (scan_parts (line_parts text) s).
Proof.
  revert text b s. induction fuel as [|f IH]; intros text b s Hf.
  - destruct text; [|simpl in Hf; lia]. simpl. by rewrite app_nil_r.
  - destruct (decide (text = [])) as [->|Hne]; [simpl; by rewrite app_nil_r|].
    assert (text_loop st (S f) text = let '(line, ending, rest) := next_line text in
      out ← ScanAndRedact st line; write out;; write ending;; text_loop st f rest) as He by (by destruct text).
    destruct (next_line text) as [[line ending] rest] eqn:En. rewrite He, (line_parts_next _ _ _ _ Hne En).
    apply next_line_spec in En as (_ & Hlen & _ & _); [|done]. cbn [scan_parts].
    unfold mbind, M_bind. rewrite ScanAndRedact_sb.
    destruct (ScanAndRedact st line s) as [out s1|s1|]; [|done..]. cbn [outcome_sb].
    specialize (IH rest ((b ++ out) ++ ending) s1 ltac:(lia)).
    change (same_run b (text_loop st f rest (with_sb ((b ++ out) ++ ending) s1))
      match scan_parts (line_parts rest) s1 with
      | Ok rest' s' => Ok (out ++ ending ++ rest') s' | Panic s' => Panic s' | NoFuel => NoFuel end).
    destruct (scan_parts (line_parts rest) s1) as [o s2|s2|];
      destruct (text_loop st f rest _) as [[] s3|s3|]; cbn [same_run] in *; try exact IH.
    rewrite IH, <-!app_assoc. reflexivity.
Qed.

(** The reference leaves the caller's builder alone. *)
Lemma scan_parts_sb parts s :
  match scan_parts parts s with Ok _ s' | Panic s' => sb s' = sb s | NoFuel => True end.
Proof.
  revert s. induction parts as [|[line ending] parts IH]; intros s; [done|]. cbn [scan_parts].
  unfold mbind, M_bind. pose proof (ScanAndRedact_spec st line s) as Hl.
  destruct (ScanAndRedact st line s) as [out s1|s1|]; [|by destruct Hl as (_ & ? & _)|done].
  destruct Hl as (_ & _ & Hsb & _). specialize (IH s1). rewrite Hsb in IH.
  by destruct (scan_parts parts s1).
Qed.

Lemma ScanAndRedactText_parts text s :
  ContainsByte text newline = true -> ScanAndRedactText st text s = scan_parts (line_parts text) s.
Proof.
  intros Hc. unfold ScanAndRedactText. rewrite Hc. unfold mbind, M_bind, with_builder.
  pose proof (text_loop_parts (length text) text [] s (le_n _)) as Hrun. unfold with_sb at 1 in Hrun.
  pose proof (scan_parts_sb (line_parts text) s) as Hsb.
  destruct (scan_parts _ s) as [out s'|s'|], (text_loop _ _ _ _) as [[] s1|s1|]; cbn [same_run] in Hrun;
    try exact (False_ind _ Hrun).
  - subst s1. simpl. by rewrite <-Hsb; destruct s'.
  - destruct s1, s'; unfold with_sb in Hrun; simpl in *. by simplify_eq.
  - reflexivity.
Qed.

(** The parts are the text, and no line has a line break in it. *)
Definition part_ok (p : gostring * gostring) : Prop :=
  no_newline p.1 /\ p.2 ∈ [[]; [13]; [newline]; [13; newline]].

Lemma line_parts_text text :
  concat ((fun p => p.1 ++ p.2) <$> line_parts text) = text /\ Forall part_ok (line_parts text) /\
  length (filter (fun p => newline ∈ p.2) (line_parts text)) = CountByte text newline.
Proof.
  induction text as [text IH] using (induction_ltof1 _ length). unfold ltof in IH.
  destruct (decide (text = [])) as [->|Hne]; [done|].
  destruct (next_line text) as [[line ending] rest] eqn:En.
  rewrite (line_parts_next _ _ _ _ Hne En).
  pose proof (next_line_spec _ _ _ _ Hne En) as (Ht & Hlen & Hnl & Hc).
  destruct (IH rest Hlen) as (H1 & H2 & H3).
  assert (ending ∈ [[]; [13]; [newline]; [13; newline]]) as He.
  { revert En. unfold next_line. destruct (IndexByte _ _); destruct (HasSuffix _ _); intros [= _ <- _]; set_solver. }
  split_and!.
  - rewrite fmap_cons. cbn [concat fst snd]. rewrite H1, Ht at 1. by rewrite <-app_assoc.
  - by constructor.
  - rewrite filter_cons, Hc, <-H3. cbn [snd].
    repeat (apply list_elem_of_cons in He as [->|He]; [by repeat case_decide; set_solver|]). set_solver.
Qed.

Lemma ScanAndRedactText_spec text s : scan_post st text s (ScanAndRedactText st text s).
Proof.
  unfold ScanAndRedactText. destruct (ContainsByte text newline); [|apply ScanAndRedact_spec].
  by apply scan_post_builder, scans_text_loop.
Qed.

End text.

(** ** Which keys are sensitive

    [isSensitiveKey] of a snapshot in terms of its configuration: the automaton and
    the lowered copies it hands on are gone. *)

Section keys.
Context `{RT : GoRuntime} `{RC : RegexpCompiler} `{UL : !UnicodeLaws rt_unicode}.

(** The specification: a listed word in the key makes it sensitive unless it names a
    public key or is a long random token; otherwise a password abbreviation or one
    of the operator's patterns does. *)
Definition sensitive_key_spec (cfg : Config) (key : gostring) : bool :=
  let st := buildConfigState cfg in
  let low := ToLower key in
  if existsb (Contains low) (SensitiveKeys cfg) then
    negb (Contains low (go "pub") && Contains low (go "key")) &&
    negb ((15 <? length key)%nat && fgtb (calculateComplexity st key) (EntropyThreshold cfg) &&
          negb (isWordsSecretName st low))
  else
    (Contains low (go "pw") && looksLikeFieldName key && hasPasswordAbbrevComponent key) ||
    regex_match (sensitiveRegex st) key.

Lemma fold_pw_key key low :
  Forall is_byte key -> low = [] \/ low = ToLower key -> (low = [] -> Forall (fun b => 0 <= b < 128) key) ->
  containsFoldPW (if is_empty low then key else low) = Contains (ToLower key) (go "pw").
Proof.
  intros Hkey Hlow Hascii. destruct low as [|b l]; cbn [is_empty]; [by apply containsFoldPW_spec, Hascii|].
  destruct Hlow as [|Hlow]; [done|]. rewrite Hlow, containsFoldPW_lower by (by apply ToLower_bytes). by rewrite lower_lowered.
Qed.

Lemma ToLower_nil s : ToLower s = [] -> s = [].
Proof.
  unfold ToLower. destruct (isASCIIString s); [apply fmap_nil_inv|]. destruct s as [|b s]; [done|].
  unfold runes, chunks. cbn [chunks_from]. destruct (DecodeRune (b :: s)) as [r n]. cbn [fmap list_fmap fst concat].
  intros [H _]%app_eq_nil. revert H. unfold EncodeRune. by cases.
Qed.

Lemma find_from_ascii m key s w :
  fst (find_from m key s w) = false -> snd (find_from m key s w) = [] ->
  Forall (fun b => b < 128) w \/ ToLower key = [].
Proof.
  revert s. induction w as [|b w IH]; intros s; [by left|]. cbn [find_from]. unfold RuneSelf.
  destruct (128 <=? b) eqn:E; boolp; simpl; [by right|].
  destruct (default false _); [done|]. intros H1 H2. destruct (IH _ H1 H2); [left; by constructor|by right].
Qed.

(** A key that was not found and not lowered is ASCII. *)
Lemma find_not_found_ascii m key :
  Forall is_byte key -> fst (find m key) = false -> snd (find m key) = [] -> Forall (fun b => 0 <= b < 128) key.
Proof.
  intros Hkey. unfold find. destruct (always m); [done|]. intros H1 H2.
  destruct (find_from_ascii _ _ _ _ H1 H2) as [Ha|Hn%ToLower_nil]; [|by subst].
  apply Forall_forall. intros b Hb. rewrite Forall_forall in Ha, Hkey. specialize (Ha b Hb). specialize (Hkey b Hb).
  unfold is_byte in Hkey. simpl in Ha. lia.
Qed.

Lemma isSensitiveKey_spec cfg key :
  Forall (Forall is_byte) (SensitiveKeys cfg) -> Forall is_byte key ->
  isSensitiveKey (buildConfigState cfg) key = sensitive_key_spec cfg key.
Proof.
  intros Hkeys Hkey. unfold isSensitiveKey, sensitive_key_spec. cbn [keymatcher buildConfigState].
  pose proof (find_contains (SensitiveKeys cfg) key Hkeys Hkey) as Hf.
  pose proof (find_lowered (newKeyMatcher (SensitiveKeys cfg)) key) as Hl.
  pose proof (find_not_found_ascii (newKeyMatcher (SensitiveKeys cfg)) key Hkey) as Ha.
  destruct (find (newKeyMatcher (SensitiveKeys cfg)) key) as [found low]. simpl in Hf, Hl, Ha. rewrite <-Hf.
  destruct found.
  - replace (if is_empty low then ToLower key else low) with (ToLower key) by (destruct low, Hl; done).
    cbn [config buildConfigState]. destruct (Contains _ _ && Contains _ _); [done|].
    by destruct (_ && _ && _).
  - rewrite fold_pw_key by auto. done.
Qed.

End keys.
