(* ===== verification/Stats.v ===== *)
(** * Counters of the sidecar

    [cmd/cleaner/stats.go]: what was redacted and how much was read, as 64-bit
    counters, and the summary line. *)

From Stdlib Require Import ZArith Lia Bool SpecFloat.
From stdpp Require Import base list option sets.
From S2P Require Import Prelude GoStrings Float64 Regex KeyMatcher Config Scanner ConfigSources.

(** ** Counters *)

Definition u64 (n : Z) : Z := n mod 2 ^ 64.

Record statsCollector := {
  s_entropy : Z; s_regex : Z; s_luhn : Z; s_signature : Z; s_key : Z; s_other : Z;
  s_lines : Z; s_bytes : Z; s_wouldRedact : Z;
}.

Definition newStatsCollector : statsCollector :=
  {| s_entropy := 0; s_regex := 0; s_luhn := 0; s_signature := 0; s_key := 0; s_other := 0;
     s_lines := 0; s_bytes := 0; s_wouldRedact := 0 |}.

(** [atomic.Uint64.Add] on the counters, all at once. *)
Definition bump (e r l g k o lines bytes would : Z) (s : statsCollector) : statsCollector :=
  {| s_entropy := u64 (s_entropy s + e); s_regex := u64 (s_regex s + r); s_luhn := u64 (s_luhn s + l);
     s_signature := u64 (s_signature s + g); s_key := u64 (s_key s + k); s_other := u64 (s_other s + o);
     s_lines := u64 (s_lines s + lines); s_bytes := u64 (s_bytes s + bytes);
     s_wouldRedact := u64 (s_wouldRedact s + would) |}.

(** [recordRedaction]. *)
Definition recordRedaction (strategy : gostring) : statsCollector -> statsCollector :=
  if str_eqb strategy (go "entropy") then bump 1 0 0 0 0 0 0 0 0
  else if str_eqb strategy (go "regex") then bump 0 1 0 0 0 0 0 0 0
  else if str_eqb strategy (go "luhn") then bump 0 0 1 0 0 0 0 0 0
  else if str_eqb strategy (go "signature") then bump 0 0 0 1 0 0 0 0 0
  else if str_eqb strategy (go "key") then bump 0 0 0 0 1 0 0 0 0
  else bump 0 0 0 0 0 1 0 0 0.

(** [recordLine]. *)
Definition recordLine (n : Z) (s : statsCollector) : statsCollector :=
  let s := bump 0 0 0 0 0 0 1 0 0 s in
  if 0 <? n then bump 0 0 0 0 0 0 0 n 0 s else s.

(** [recordAuditLine]. *)
Definition recordAuditLine (wouldRedact : bool) (s : statsCollector) : statsCollector :=
  if wouldRedact then bump 0 0 0 0 0 0 0 0 1 s else s.

(** ** Numbers in text *)

Fixpoint decimal_loop (fuel : nat) (n : Z) (acc : gostring) : gostring :=
  match fuel with
  | O => acc
  | S f =>
    let acc := (48 + n mod 10) :: acc in
    if n <? 10 then acc else decimal_loop f (n / 10) acc
  end.

(** [fmt.Sprintf("%d", n)] for a [uint64]: at most twenty digits. *)
Definition decimal (n : Z) : gostring := decimal_loop 20 n [].

(** The groups of three of the loop of [withThousands]. *)
Fixpoint thousands_loop (s : gostring) : gostring :=
  match s with
  | a :: b :: c :: s' => [a; b; c] ++ (if is_empty s' then [] else [ch ","]) ++ thousands_loop s'
  | _ => []
  end.

(** [withThousands]. *)
Definition withThousands (n : Z) : gostring :=
  let s := decimal n in
  if (length s <=? 3)%nat then s
  else
    let pre := Nat.modulo (length s) 3 in
    (if (0 <? pre)%nat then take pre s ++ (if (pre <? length s)%nat then [ch ","] else []) else []) ++
    thousands_loop (drop pre s).

(** [fmt.Sprintf("%.1f", x)] for a finite [x] that is not negative: the exact value
    rounded to tenths, half to even. *)
Definition tenths (x : float64) : Z :=
  match x with
  | S754_finite false m e =>
    if 0 <=? e then 10 * Zpos m * 2 ^ e
    else
      let d := 2 ^ (- e) in
      let q := 10 * Zpos m / d in
      let r := (10 * Zpos m) mod d in
      if (2 * r <? d) || ((2 * r =? d) && Z.even q) then q else q + 1
  | _ => 0
  end.

Definition one_decimal (x : float64) : gostring :=
  decimal (tenths x / 10) ++ [ch "."; 48 + tenths x mod 10].

(** The loop of [humanBytes]: the divisor and the index of its unit. *)
Fixpoint unit_loop (fuel : nat) (m div : Z) (exp : nat) : Z * nat :=
  match fuel with
  | O => (div, exp)
  | S f => if 1024 <=? m then unit_loop f (m / 1024) (u64 (div * 1024)) (S exp) else (div, exp)
  end.

(** [humanBytes]; [None] is an index out of range of the unit letters. *)
Definition humanBytes (n : Z) : option gostring :=
  if n <? 1024 then Some (decimal n ++ go " B")
  else
    let '(div, exp) := unit_loop 64 (n / 1024) 1024 0 in
    letter ← go "KMGTPE" !! exp;
    Some (one_decimal (fdiv (float_of_Z n) (float_of_Z div)) ++ [ch " "; letter; ch "B"]).

(** [summary], cumulative counts. *)
Definition summary (auditMode : bool) (s : statsCollector) : option gostring :=
  let total := u64 (s_entropy s + s_regex s + s_luhn s + s_signature s + s_key s + s_other s) in
  let parts :=
    [ withThousands (s_entropy s) ++ go " high-entropy secrets";
      withThousands (s_regex s) ++ go " pattern matches";
      withThousands (s_luhn s) ++ go " card numbers";
      withThousands (s_signature s) ++ go " signatures";
      withThousands (s_key s) ++ go " sensitive-key values" ] ++
    (if 0 <? s_other s then [withThousands (s_other s) ++ go " other"] else []) in
  processed ← humanBytes (s_bytes s);
  Some (if auditMode then
          let pct :=
            if 0 <? s_lines s
            then fdiv (fmul (float_of_Z 100) (float_of_Z (s_wouldRedact s))) (float_of_Z (s_lines s))
            else fzero in
          go "PII-Shield audit: " ++ withThousands total ++ go " would-be redactions (" ++ Join parts (go ", ") ++
          go ") in " ++ withThousands (s_wouldRedact s) ++ go " of " ++ withThousands (s_lines s) ++ go " lines (" ++
          one_decimal pct ++ go "%) / " ++ processed ++ go " processed; nothing was changed"
        else
          go "PII-Shield stats: " ++ withThousands total ++ go " redactions (" ++ Join parts (go ", ") ++
          go ") across " ++ withThousands (s_lines s) ++ go " lines / " ++ processed ++ go " processed").

Example thousands_runs : withThousands <$> [0; 999; 1240; 1234567; 12345678] =
  [go "0"; go "999"; go "1,240"; go "1,234,567"; go "12,345,678"].
Proof. vm_compute. reflexivity. Qed.

Example bytes_runs : humanBytes <$> [5; 1536; 1048576; 2 ^ 64 - 1] =
  [Some (go "5 B"); Some (go "1.5 KB"); Some (go "1.0 MB"); Some (go "16.0 EB")].
Proof. vm_compute. reflexivity. Qed.

(** ** Counters count, numbers read back

    The counters of [statsCollector] as sums over the events recorded, and the
    numbers of the summary line. *)

(** ** Decimal numbers *)

Lemma decimal_loop_value f n acc :
  (0 < f)%nat -> 0 <= n < 10 ^ Z.of_nat f -> digits_value 0 (decimal_loop f n acc) = digits_value n acc.
Proof.
  revert n acc. induction f as [|f IH]; intros n acc Hf Hn; [lia|]. simpl.
  assert (Hd : 0 <= n mod 10 < 10) by (apply Z.mod_pos_bound; lia).
  assert (forall a, digits_value a ((48 + n mod 10) :: acc) = digits_value (10 * a + n mod 10) acc) as Hdig.
  { intros a. simpl. unfold isASCIIDigit, between.
    rewrite (proj2 (Z.leb_le 48 _)), (proj2 (Z.leb_le _ 57)) by lia. simpl. f_equal. lia. }
  destruct (n <? 10) eqn:En.
  - apply Z.ltb_lt in En. rewrite Hdig, Z.mod_small by lia. done.
  - apply Z.ltb_ge in En. rewrite Nat2Z.inj_succ, Z.pow_succ_r in Hn by lia.
    destruct f as [|f]; [simpl in Hn; lia|].
    rewrite IH; [|lia|split; [apply Z.div_pos; lia|apply Z.div_lt_upper_bound; lia]].
    rewrite Hdig. f_equal. pose proof (Z.div_mod n 10). lia.
Qed.

Lemma decimal_value n : 0 <= n < 2 ^ 64 -> digits_value 0 (decimal n) = Some n.
Proof. intros Hn. unfold decimal. rewrite decimal_loop_value; [done|lia|]. split; [lia|]. etrans; [apply Hn|done]. Qed.

Lemma decimal_loop_length f n acc : (0 < f)%nat -> (length acc < length (decimal_loop f n acc))%nat.
Proof.
  revert n acc. induction f as [|f IH]; intros n acc Hf; [lia|]. simpl. destruct (n <? 10); [simpl; lia|].
  destruct f as [|f]; [simpl; lia|]. etrans; [|apply IH; lia]. simpl. lia.
Qed.

Lemma decimal_nonempty n : (0 < length (decimal n))%nat.
Proof. apply (decimal_loop_length 20 n []). lia. Qed.

(** What [Atoi] makes of a run of digits: its value, when it is in range. *)
Lemma Atoi_digits s n :
  s <> [] -> digits_value 0 s = Some n -> 0 <= n ->
  Atoi s = if n <? 2 ^ 63 then Some n else None.
Proof.
  intros Hne Hv Hn. destruct s as [|c r]; [done|]. unfold Atoi.
  assert (isASCIIDigit c = true) as Hc by (simpl in Hv; by destruct (isASCIIDigit c)).
  unfold isASCIIDigit, between in Hc. boolp.
  rewrite (proj2 (Z.eqb_neq c _)), (proj2 (Z.eqb_neq c _)) by lia. cbn [is_empty]. rewrite Hv. simpl.
  by rewrite (proj2 (Z.leb_le (- 2 ^ 63) n)) by lia.
Qed.

(** ** Groups of three *)

Lemma thousands_loop_groups k s :
  length s = (3 * k)%nat ->
  exists gs, thousands_loop s = Join gs [ch ","] /\ concat gs = s /\ Forall (fun g => length g = 3%nat) gs /\
    (gs = [] <-> s = []).
Proof.
  revert s. induction k as [|k IH]; intros s Hs.
  - destruct s; [|simpl in Hs; lia]. by exists [].
  - destruct s as [|a [|b [|c s]]]; try (simpl in Hs; lia). destruct (IH s) as (gs & Hj & Hc & Hf & He); [simpl in Hs; lia|].
    exists ([a; b; c] :: gs). simpl thousands_loop. split_and!; [|by rewrite <-Hc|by constructor|done].
    rewrite Hj. destruct gs as [|g gs]; [by rewrite (proj1 He)|]. destruct s; [|done]. by rewrite (proj2 He) in *.
Qed.

Lemma withThousands_groups n :
  0 <= n < 2 ^ 64 ->
  exists h gs, withThousands n = Join (h :: gs) [ch ","] /\ (1 <= length h <= 3)%nat /\
    Forall (fun g => length g = 3%nat) gs /\ digits_value 0 (h ++ concat gs) = Some n.
Proof.
  intros Hn. unfold withThousands. pose proof (decimal_value n Hn) as Hv. pose proof (decimal_nonempty n) as Hl.
  destruct (length (decimal n) <=? 3)%nat eqn:E.
  - apply Nat.leb_le in E. exists (decimal n), []. rewrite app_nil_r. split_and!; [done|lia|lia|done|done].
  - apply Nat.leb_gt in E. set (s := decimal n) in *. set (pre := Nat.modulo (length s) 3).
    pose proof (Nat.div_mod_eq (length s) 3) as Hdm. pose proof (Nat.mod_upper_bound (length s) 3 ltac:(lia)) as Hub.
    fold pre in Hdm, Hub.
    destruct (thousands_loop_groups (length s / 3) (drop pre s)) as (gs & Hj & Hc & Hf & He).
    { rewrite length_drop. lia. }
    rewrite Hj. destruct (0 <? pre)%nat eqn:Ep.
    + apply Nat.ltb_lt in Ep. rewrite (proj2 (Nat.ltb_lt pre (length s))) by lia.
      exists (take pre s), gs. rewrite length_take, Hc, take_drop. split_and!; [|lia|lia|done|done].
      destruct gs as [|g gs]; [|by rewrite <-app_assoc].
      assert (drop pre s = []) as Hd by (by apply He). apply (f_equal length) in Hd. rewrite length_drop in Hd.
      simpl in Hd. lia.
    + apply Nat.ltb_ge in Ep. assert (pre = 0%nat) as Hp by lia. rewrite Hp, drop_0 in *.
      destruct gs as [|g gs]; [simpl in Hc; rewrite <-Hc in Hl; simpl in Hl; lia|].
      apply Forall_cons in Hf as [Hg Hgs]. exists g, gs. rewrite Hg. split_and!; [done|lia|lia|done|].
      change (g ++ concat gs) with (concat (g :: gs)). by rewrite Hc.
Qed.

(** ** Units *)

(** The divisor of [humanBytes] is the largest power of 1024 not above the count. *)
Lemma unit_loop_spec f n div exp m :
  0 < div -> m = n / div -> 1 <= m -> n < 1024 ^ Z.of_nat (S f) * div -> n < 2 ^ 64 -> div = 1024 ^ Z.of_nat (S exp) ->
  let '(d, e) := unit_loop f m div exp in d = 1024 ^ Z.of_nat (S e) /\ d <= n < 1024 * d.
Proof.
  revert div exp m. induction f as [|f IH]; intros div exp m Hdiv Hm H1 Hn H64 Hpow; simpl.
  - split; [done|]. subst m. pose proof (Z.mul_div_le n div Hdiv).
    split; [nia|]. change (Z.of_nat 1) with 1 in Hn. lia.
  - pose proof (Z.mul_div_le n div Hdiv) as Hle. pose proof (Z.mul_succ_div_gt n div Hdiv) as Hgt.
    destruct (1024 <=? m) eqn:E; [apply Z.leb_le in E|apply Z.leb_gt in E].
    + assert (u64 (div * 1024) = div * 1024) as -> by (unfold u64; apply Z.mod_small; nia).
      apply IH; [lia| | | |done|].
      * subst m. by rewrite Z.div_div by lia.
      * apply Z.div_le_lower_bound; lia.
      * rewrite (Nat2Z.inj_succ (S f)), Z.pow_succ_r in Hn by lia. lia.
      * rewrite Hpow, (Nat2Z.inj_succ (S exp)), Z.pow_succ_r by lia. lia.
    + split; [done|]. nia.
Qed.

Lemma unit_loop_bounds n :
  1024 <= n < 2 ^ 64 ->
  let '(d, e) := unit_loop 64 (n / 1024) 1024 0 in (e < 6)%nat /\ d = 1024 ^ Z.of_nat (S e) /\ d <= n < 1024 * d.
Proof.
  intros Hn. pose proof (unit_loop_spec 64 n 1024 0 (n / 1024)) as H.
  destruct (unit_loop _ _ _ _) as [d e]. destruct H as [Hd Hb]; [lia|done| | |lia|done|].
  - apply Z.div_le_lower_bound; lia.
  - etrans; [apply Hn|done].
  - split; [|done]. destruct (decide (e < 6)%nat) as [|Hge]; [done|]. exfalso.
    assert (1024 ^ 7 <= d); [|lia]. rewrite Hd. apply Z.pow_le_mono_r; lia.
Qed.

Lemma humanBytes_total n : 0 <= n < 2 ^ 64 -> is_Some (humanBytes n).
Proof.
  intros Hn. unfold humanBytes. destruct (n <? 1024) eqn:E; [eauto|]. apply Z.ltb_ge in E.
  pose proof (unit_loop_bounds n ltac:(lia)) as H. destruct (unit_loop _ _ _ _) as [d e].
  destruct H as [He _]. destruct (lookup_lt_is_Some_2 (go "KMGTPE") e) as [c Hc]; [simpl; lia|]. rewrite Hc. eauto.
Qed.
