(* ===== verification/Base64.v ===== *)
(** * Standard base64 with padding

    [base64.StdEncoding] of the standard library: carriage returns and newlines are
    skipped, the padding is required and ends the text, and the unused bits before it are
    not checked. *)

From Stdlib Require Import ZArith Lia Bool.
From stdpp Require Import base list option.
From S2P Require Import Prelude GoStrings.

(** The character of a sextet. *)
Definition b64_char (d : Z) : byte :=
  if d <? 26 then 65 + d
  else if d <? 52 then 97 + (d - 26)
  else if d <? 62 then 48 + (d - 52)
  else if d =? 62 then ch "+" else ch "/".

(** [decodeMap]. *)
Definition b64_value (c : byte) : option Z :=
  if between 65 c 90 then Some (c - 65)
  else if between 97 c 122 then Some (c - 97 + 26)
  else if between 48 c 57 then Some (c - 48 + 52)
  else if c =? ch "+" then Some 62
  else if c =? ch "/" then Some 63 else None.

(** [EncodeToString]. *)
Fixpoint b64_encode (s : gostring) : gostring :=
  match s with
  | [] => []
  | [a] => [b64_char (a / 4); b64_char (a mod 4 * 16); ch "="; ch "="]
  | [a; b] => [b64_char (a / 4); b64_char (a mod 4 * 16 + b / 16); b64_char (b mod 16 * 4); ch "="]
  | a :: b :: c :: s' =>
    b64_char (a / 4) :: b64_char (a mod 4 * 16 + b / 16) :: b64_char (b mod 16 * 4 + c / 64) :: b64_char (c mod 64) ::
    b64_encode s'
  end.

(** [decodeQuantum] in a loop, on text without line ends. *)
Fixpoint b64_quanta (s : gostring) : option gostring :=
  match s with
  | [] => Some []
  | c0 :: c1 :: c2 :: c3 :: s' =>
    d0 ← b64_value c0;
    d1 ← b64_value c1;
    let b0 := d0 * 4 + d1 / 16 in
    match b64_value c2, b64_value c3 with
    | Some d2, Some d3 =>
      rest ← b64_quanta s';
      Some (b0 :: (d1 mod 16 * 16 + d2 / 4) :: (d2 mod 4 * 64 + d3) :: rest)
    | Some d2, None => if (c3 =? ch "=") && is_empty s' then Some [b0; d1 mod 16 * 16 + d2 / 4] else None
    | None, _ => if (c2 =? ch "=") && (c3 =? ch "=") && is_empty s' then Some [b0] else None
    end
  | _ => None
  end.

Definition line_end (c : byte) : bool := (c =? 10) || (c =? 13).

(** [DecodeString]. *)
Definition b64_decode (s : gostring) : option gostring := b64_quanta (filter (fun c => line_end c = false) s).

(** ** Round trip *)

Lemma b64_value_char d : 0 <= d < 64 -> b64_value (b64_char d) = Some d.
Proof.
  intros Hd. assert (forallb (fun d => bool_decide (b64_value (b64_char (Z.of_nat d)) = Some (Z.of_nat d))) (seq 0 64) = true)
    as H by reflexivity.
  rewrite forallb_forall in H. specialize (H (Z.to_nat d)). rewrite in_seq, bool_decide_eq_true, Z2Nat.id in H by lia.
  apply H. lia.
Qed.

Lemma b64_char_ascii d : 0 <= d < 64 -> 43 <= b64_char d <= 122.
Proof. intros Hd. unfold b64_char. change (ch "+") with 43. change (ch "/") with 47. repeat case_match; lia. Qed.

Lemma three_ind {A} (P : list A -> Prop) :
  P [] -> (forall a, P [a]) -> (forall a b, P [a; b]) -> (forall a b c l, P l -> P (a :: b :: c :: l)) -> forall l, P l.
Proof.
  intros H0 H1 H2 H3 l. enough (P l /\ (forall a, P (a :: l)) /\ forall a b, P (a :: b :: l)) by tauto.
  induction l as [|x l (IH & IH1 & IH2)]; [done|]. split_and!; auto.
Qed.

Definition is_byte (b : Z) : Prop := 0 <= b < 256.

Lemma b64_encode_no_line_end s : Forall is_byte s -> filter (fun c => line_end c = false) (b64_encode s) = b64_encode s.
Proof.
  intros H. apply filter_all. revert H. induction s as [|a|a b|a b c s IH] using three_ind; intros H; simpl.
  all: repeat apply Forall_cons in H as [? H]; unfold is_byte in *.
  all: repeat apply Forall_cons_2; auto.
  all: match goal with
       | |- line_end (b64_char ?d) = false =>
         assert (43 <= b64_char d) by (apply b64_char_ascii; lia_div); unfold line_end; lia
       | |- _ => reflexivity
       end.
Qed.

Lemma b64_quanta_encode s : Forall is_byte s -> b64_quanta (b64_encode s) = Some s.
Proof.
  induction s as [|a|a b|a b c s IH] using three_ind; intros H; simpl.
  all: repeat apply Forall_cons in H as [? H]; unfold is_byte in *; rewrite ?b64_value_char by lia_div; simpl; auto.
  - do 2 f_equal. lia_div.
  - do 2 f_equal; [lia_div|f_equal; lia_div].
  - rewrite IH by done. simpl. do 2 f_equal; [lia_div|f_equal; [lia_div|f_equal; lia_div]].
Qed.

(** Decoding what was encoded gives it back. *)
Lemma b64_round_trip s : Forall is_byte s -> b64_decode (b64_encode s) = Some s.
Proof. intros H. unfold b64_decode. by rewrite b64_encode_no_line_end, b64_quanta_encode. Qed.
