(* ===== verification/PairProofs.v ===== *)
(** * A sensitive pair, end to end

    A line that is one pair of words is one token; the token is cut at its '=',
    and the value of a sensitive key is hidden. *)

From Stdlib Require Import ZArith Lia Bool SpecFloat.
From stdpp Require Import base list option sets.
From S2P Require Import Prelude GoStrings Regex Float64 KeyMatcher Config Entropy Signatures Luhn Shapes.
From S2P Require Import Whitelist Tokens JsonString Keys Adaptive Machine Engine Redaction EngineProofs.
From S2P Require Import TokenLogic Append Segment SegmentProofs Scanner ScannerProofs.

(** ** Texts over an alphabet *)

Section alphabet.
Context (f : byte -> bool) (s : gostring) (Hs : forallb f s = true).

Lemma over_In c : In c s -> f c = true.
Proof. rewrite forallb_forall in Hs. auto. Qed.

Lemma over_not_In c : f c = false -> ~ In c s.
Proof. intros Hc Hin. apply over_In in Hin. congruence. Qed.

Lemma over_IndexByte c : f c = false -> IndexByte s c = None.
Proof. intros. by apply IndexByte_None, over_not_In. Qed.

Lemma over_ContainsByte c : f c = false -> ContainsByte s c = false.
Proof. intros Hc. apply not_true_iff_false. rewrite ContainsByte_In. by apply over_not_In. Qed.

(** A literal with a byte outside the alphabet is nowhere in the text. *)
Lemma over_Contains lit : existsb (fun c => negb (f c)) lit = true -> Contains s lit = false.
Proof.
  intros (c & Hc & Hn)%existsb_exists. boolp. apply not_true_iff_false. unfold Contains.
  rewrite bool_decide_eq_true. intros [i Hi]. apply Index_Some, HasPrefix_app in Hi as [t Ht].
  apply (over_not_In c Hn). rewrite <-(take_drop i s), Ht. rewrite !in_app_iff. auto.
Qed.

Lemma over_HasPrefix lit : existsb (fun c => negb (f c)) lit = true -> HasPrefix s lit = false.
Proof.
  intros (c & Hc & Hn)%existsb_exists. boolp. apply not_true_iff_false.
  intros [t Ht]%HasPrefix_app. apply (over_not_In c Hn). rewrite Ht, in_app_iff. auto.
Qed.

Lemma over_ContainsAny chars : forallb (fun c => negb (f c)) chars = true -> ContainsAny s chars = false.
Proof.
  intros Hch. apply not_true_iff_false. intros (b & Hb & Hc)%ContainsAny_true.
  rewrite forallb_forall in Hch. apply Hch in Hc. apply over_In in Hb. rewrite Hb in Hc. done.
Qed.

Lemma over_at_is i g : (forall c, f c = true -> g c = false) -> at_is s i g = false.
Proof.
  intros Hg. unfold at_is. destruct (s !! i) as [c|] eqn:Ec; [|done]. apply Hg, over_In.
  by apply list_elem_of_In, list_elem_of_lookup_2 with i.
Qed.

Lemma over_take n : forallb f (take n s) = true.
Proof. rewrite <-(take_drop n s), forallb_app in Hs. by boolp. Qed.

Lemma over_drop n : forallb f (drop n s) = true.
Proof. rewrite <-(take_drop n s), forallb_app in Hs. by boolp. Qed.

End alphabet.

Lemma IndexByte_first s c t : ~ In c s -> IndexByte (s ++ c :: t) c = Some (length s).
Proof.
  induction s as [|b s IH]; intros Hn; simpl; [by rewrite Z.eqb_refl|].
  destruct (b =? c) eqn:E; boolp; [exfalso; apply Hn; by left|]. rewrite IH; [done|]. intros Hin. apply Hn. by right.
Qed.

(** ** Trimming ASCII *)

Lemma TrimSpace_over f s :
  forallb f s = true -> (forall c, f c = true -> c < 128 /\ IsSpace c = false) -> TrimSpace s = s.
Proof.
  intros Hs Hf. assert (Forall (fun b => b < 128) s) as Ha.
  { apply Forall_forall. intros b Hb. apply Hf. by apply (over_In f s Hs), list_elem_of_In. }
  assert (forall t, (forall c, In c t -> f c = true) ->
    span_len (fun c : rune * gostring => IsSpace (fst c)) ((fun c => (c, [c])) <$> t) = O) as Hspan.
  { intros [|b t] Ht; [done|]. simpl. by rewrite (proj2 (Hf b (Ht b ltac:(by left)))). }
  unfold TrimSpace, TrimLeftFunc. rewrite chunks_ascii by done.
  rewrite Hspan by (by apply over_In). rewrite drop_0, chunks_bytes_ascii.
  unfold TrimRightFunc. rewrite chunks_ascii by done.
  assert (forall t, rev ((fun c : Z => (c, [c])) <$> t) = (fun c => (c, [c])) <$> rev t) as Hrev
    by (intros; symmetry; apply map_rev).
  rewrite Hrev, Hspan by (intros c Hc; apply (over_In f s Hs); by apply in_rev).
  rewrite drop_0, Hrev, rev_involutive. apply chunks_bytes_ascii.
Qed.

(** ** Words *)

Definition word_byte (c : byte) : bool := isAlnumByte c || (c =? ch "_").
Definition pair_byte (c : byte) : bool := word_byte c || (c =? ch "=").

Definition ascii_codes : list Z := Z.of_nat <$> seq 0 128.

Lemma pair_byte_code c : pair_byte c = true -> In c ascii_codes.
Proof.
  intros Hc. apply in_map_iff. exists (Z.to_nat c). rewrite in_seq.
  unfold pair_byte, word_byte, isAlnumByte, isASCIILetter, isASCIIDigit, between in Hc.
  repeat (apply orb_true_iff in Hc as [Hc|Hc]); boolp; simpl in *; lia.
Qed.

(** What holds of the bytes of a pair is decided on the ASCII codes. *)
Lemma pair_bytes (g : byte -> bool) :
  forallb (fun c => implb (pair_byte c) (negb (g c))) ascii_codes = true ->
  forall c, pair_byte c = true -> g c = false.
Proof.
  intros H c Hc. rewrite forallb_forall in H. specialize (H c (pair_byte_code c Hc)).
  rewrite Hc in H. simpl in H. by apply negb_true_iff in H.
Qed.

Definition is_word (s : gostring) : bool := forallb word_byte s.
Definition is_pair_text (s : gostring) : bool := forallb pair_byte s.

Lemma word_pair_text s : is_word s = true -> is_pair_text s = true.
Proof.
  unfold is_word, is_pair_text. rewrite !forallb_forall. intros H c Hc. unfold pair_byte. by rewrite H.
Qed.

Lemma pair_text k v : is_word k = true -> is_word v = true -> is_pair_text (k ++ go "=" ++ v) = true.
Proof.
  intros Hk Hv. unfold is_pair_text. rewrite !forallb_app. simpl.
  by rewrite (word_pair_text k Hk : forallb _ _ = _), (word_pair_text v Hv : forallb _ _ = _).
Qed.

Section pair_text.
Context (s : gostring) (Hs : is_pair_text s = true).

Lemma pair_not_quoted i : at_is s i is_quote_byte = false.
Proof. by apply (over_at_is pair_byte s Hs), pair_bytes. Qed.

Lemma pair_starts_quoted : starts_quoted s = false.
Proof. apply pair_not_quoted. Qed.

Lemma pair_not_balanced : isBalancedQuoted s = false.
Proof.
  pose proof (pair_not_quoted 0) as Hq. unfold isBalancedQuoted. destruct (_ <=? _)%nat; [|done].
  destruct (s !! O) as [q|] eqn:E0; [|done]. unfold at_is in Hq. rewrite E0 in Hq. unfold is_quote_byte in Hq.
  by rewrite Hq.
Qed.

Lemma pair_trimQuotes : trimQuotes s = s.
Proof.
  destruct (trimQuotes_framed s) as [H|(q & Hq & H)]; [done|]. exfalso.
  pose proof (pair_not_quoted 0) as Hn. rewrite H in Hn. unfold at_is in Hn. simpl in Hn. congruence.
Qed.

Lemma pair_TrimSpace : TrimSpace s = s.
Proof.
  apply (TrimSpace_over pair_byte); [done|]. intros c Hc. split.
  - apply pair_byte_code, in_map_iff in Hc as (n & <- & Hn%in_seq). lia.
  - revert c Hc. by apply pair_bytes.
Qed.

Lemma pair_not_bytes : isBytesLiteral s = false.
Proof.
  unfold isBytesLiteral. destruct (_ <=? _)%nat; [|done]. destruct (at_is s 0 _); [|done]. simpl.
  destruct (s !! 1%nat) as [q|] eqn:Eq; [|done]. pose proof (pair_not_quoted 1) as Hn. unfold at_is in Hn.
  rewrite Eq in Hn. unfold is_quote_byte in Hn. by rewrite Hn.
Qed.

Lemma pair_not_compact : splitCompactPair s = None.
Proof.
  pose proof (pair_not_quoted 0) as Hn. unfold splitCompactPair. destruct s as [|q t]; [done|].
  unfold at_is in Hn. simpl lookup in Hn. cbv beta in Hn. rewrite Hn. by rewrite orb_true_r.
Qed.

Lemma pair_not_wrapped : escapedOrBacktickWrap s = None.
Proof.
  unfold escapedOrBacktickWrap.
  rewrite !(over_at_is pair_byte s Hs 0) by (by apply pair_bytes). by rewrite !andb_false_r.
Qed.

Lemma pair_not_telegram : hasTelegramShape s = false.
Proof.
  unfold hasTelegramShape. destruct (_ <=? _)%nat; [|done]. simpl. apply not_true_iff_false.
  intros (i & _ & Hi)%existsb_exists.
  by rewrite (over_at_is pair_byte s Hs i (Z.eqb (ch ":"))) in Hi by (by apply pair_bytes).
Qed.

Lemma pair_not_timestamp `{Unicode} : isISO8601Timestamp s = false.
Proof.
  unfold isISO8601Timestamp. rewrite (over_at_is pair_byte s Hs 4) by (by apply pair_bytes).
  rewrite andb_false_r. by destruct (_ <? _)%nat.
Qed.

Lemma pair_not_diff_header : isGitDiffHeader s = false.
Proof.
  unfold isGitDiffHeader. apply not_true_iff_false. intros (p & Hp & H)%existsb_exists.
  assert (forallb (fun p => existsb (fun c => negb (pair_byte c)) p) gitDiffHeaderPrefixes = true) as Hall
    by reflexivity.
  rewrite forallb_forall in Hall. apply Hall in Hp. by rewrite (over_HasPrefix pair_byte s Hs) in H.
Qed.

Lemma pair_not_private_key : isPrivateKeyMarker s = false.
Proof. unfold isPrivateKeyMarker. by rewrite pair_TrimSpace, !(over_HasPrefix pair_byte s Hs). Qed.

Lemma pair_no_diff_marker : diff_marker_len s = O.
Proof.
  pose proof (over_at_is pair_byte s Hs 0 is_diff_marker (pair_bytes is_diff_marker eq_refl)) as H0.
  unfold diff_marker_len. destruct s as [|c t]; [done|]. unfold at_is in H0. simpl in *. by rewrite H0.
Qed.

End pair_text.

(** ** The tokenizer on one token *)

Section run.
Context `{RT : GoRuntime} (st : configState).

Lemma pair_step E d s L s0 c :
  is_pair_text s = true -> inQuote L = false -> s !! li L = Some c ->
  segment_step st E d s L s0 = Ok (advance L (S (li L))) s0.
Proof.
  intros Hs Hq Hc. assert (pair_byte c = true) as Hpc.
  { apply (over_In pair_byte s Hs). by apply list_elem_of_In, list_elem_of_lookup_2 with (li L). }
  assert (forall g, forallb (fun c => implb (pair_byte c) (negb (g c))) ascii_codes = true -> g c = false) as Hg
    by (intros g Hg; by apply (pair_bytes g Hg)).
  unfold segment_step. rewrite (drop_S _ _ _ Hc), DecodeRune_ascii.
  2: { apply pair_byte_code, in_map_iff in Hpc as (n & <- & Hn%in_seq). lia. }
  rewrite (Hg (fun c => c =? RuneError)), Hq by reflexivity. unfold sql_literal_end.
  rewrite (Hg (fun c => c =? squote)), (Hg (fun c => c =? dquote)) by reflexivity. unfold marker_at.
  rewrite (Hg (fun c => c =? ch "[")) by reflexivity. unfold plain_step. cbn [andb orb].
  rewrite (Hg (fun c => c =? backslash)), (Hg (fun c => c =? ch "&")), (Hg (fun c => c =? newline)) by reflexivity.
  cbn [andb orb Nat.ltb Nat.leb]. rewrite (Hg isSepRune) by reflexivity. by rewrite Nat.add_1_r.
Qed.

Lemma pair_loop E d s fuel L s0 :
  is_pair_text s = true -> inQuote L = false -> (li L <= length s)%nat -> (length s - li L <= fuel)%nat ->
  segment_loop st E d s fuel L s0 = Ok (advance L (length s)) s0.
Proof.
  intros Hs. revert L. induction fuel as [|f IH]; intros L Hq Hle Hf; simpl;
    (destruct (li L <? length s)%nat eqn:E1; boolp;
     [|replace (length s) with (li L) by lia; by destruct L]); [lia|].
  destruct (s !! li L) as [c|] eqn:Ec; [|apply lookup_ge_None in Ec; lia].
  unfold mbind, M_bind. erewrite pair_step by done. rewrite IH; [by destruct L|done|simpl; lia..].
Qed.

(** A segment of one token, handed on with the initial state. *)
Lemma pair_segment E d s s0 :
  is_pair_text s = true -> s <> [] ->
  scanSegmentFrom st E d s false 0 s0 =
  (processAndAppend st E d s initState;; mret (false, 0)) s0.
Proof.
  intros Hs Hne. unfold scanSegmentFrom. unfold mbind at 1, M_bind at 1.
  rewrite pair_loop by (done || simpl; lia). unfold flush, loop_token. cbn [lstart li advance seenInvalid lstate].
  assert (0 < length s)%nat by (destruct s; [done|simpl; lia]).
  rewrite (proj2 (Nat.ltb_lt _ _)) by done. by rewrite slice_end, drop_0.
Qed.

(** ** The pair *)

Context (k v : gostring) (Hk : is_word k = true) (Hv : is_word v = true) (Hne : v <> []).

Let raw := k ++ go "=" ++ v.

Lemma raw_pair : is_pair_text raw = true.
Proof. by apply pair_text. Qed.

Lemma raw_index : IndexByte raw (ch "=") = Some (length k).
Proof.
  apply IndexByte_first. by apply (over_not_In word_byte k Hk).
Qed.

Lemma raw_key : take (length k) raw = k.
Proof. apply take_app_length. Qed.

Lemma raw_value : drop (S (length k)) raw = v.
Proof. unfold raw. rewrite app_assoc. apply drop_app_length'. rewrite length_app. simpl. lia. Qed.

Lemma raw_no_padding : HasSuffix raw (go "=") = false.
Proof.
  apply not_true_iff_false. intros [t Ht]%HasSuffix_app.
  destruct v as [|c v'] using rev_ind; [done|]. clear IHv'. unfold raw in Ht. rewrite !app_assoc in Ht.
  apply app_inj_tail in Ht as [_ ->]. unfold is_word in Hv. rewrite forallb_app in Hv. boolp. done.
Qed.

(** No stage before the '=' takes the pair. *)
Lemma pair_token E d a :
  (d <= 32)%nat -> rawToken a = raw -> forcedSensitive a = false -> overrideSensitivity a = false ->
  processTokenLogic st E d a = equal_pair_bare st E d raw (length k) false.
Proof.
  intros Hd Ha Hf Ho. pose proof raw_pair as Hp. unfold is_pair_text in Hp. unfold processTokenLogic, maxTokenRecursionDepth.
  rewrite (proj2 (Nat.ltb_ge _ _)) by done.
  unfold wrap_stage, marker_stage, json_stage, bytes_stage, chain_stage, url_stage, telegram_stage, prefix_stage,
    compact_stage, forced_colon_stage, processEqualPair. rewrite Ha, Hf, Ho.
  rewrite pair_not_wrapped, pair_not_bytes, pair_starts_quoted, pair_not_telegram, pair_trimQuotes,
    pair_not_timestamp, pair_not_compact, pair_not_balanced, raw_index by done.
  rewrite (over_Contains pair_byte raw Hp hiddenOpen), (over_Contains pair_byte raw Hp (go "://")) by reflexivity.
  unfold escapedJSONString, hasQueryShape, pythonLogPrefixEnd, isPaddedBase64Blob, isElidedBase64.
  rewrite raw_no_padding, (over_Contains pair_byte raw Hp [backslash; dquote]) by done.
  rewrite (over_IndexByte pair_byte raw Hp (ch "?")), (over_IndexByte pair_byte raw Hp (ch ":")) by done.
  cbn [negb orb andb first_stage]. by rewrite !orb_true_r.
Qed.

Lemma word_tame w : is_word w = true -> tame w = true.
Proof.
  intros Hw. apply forallb_forall. intros c Hc. apply (over_In _ _ (word_pair_text w Hw)) in Hc.
  apply negb_false_iff. by apply (pair_bytes (fun c => negb (tame_byte c))).
Qed.

Lemma value_quote auto : auto = false -> quoteChar v v auto = [].
Proof.
  intros ->. unfold quoteChar. pose proof (word_pair_text v Hv) as Hp.
  by rewrite !(over_HasPrefix pair_byte v Hp) by reflexivity.
Qed.

(** The forced value, hidden as it is. *)
Lemma value_run s :
  existsb (rule_matches v) (SafeRegexes (config st)) = false ->
  exists name s', processSingleToken st v v true false false s = Ok tt s' /\ marker_name st name /\
    sb s' = sb s ++ marker st v name.
Proof.
  intros Hsafe. pose proof (word_pair_text v Hv) as Hp.
  destruct (forced_token_run st v v false false s) as (name & body & trail & auto' & s' & Hrun & Hsplit & Htr & Hn & Ha & Ho & _);
    [done| |done|].
  { unfold isRedacted. by rewrite (over_HasPrefix pair_byte v Hp). }
  assert (trail = []) as ->.
  { destruct Htr as [->|[Hat _]]; [done|]. by rewrite (over_ContainsByte pair_byte v Hp) in Hat. }
  rewrite app_nil_r in Hsplit. subst body. exists name, s'. split_and!; [done..|].
  cbv zeta in Ho. by rewrite value_quote, app_nil_l, !app_nil_r in Ho by naive_solver.
Qed.

(** The two halves, written from any state. *)
Lemma pair_halves_run E d s :
  isSensitiveKey st k = true -> existsb (rule_matches v) (SafeRegexes (config st)) = false ->
  exists n ko name b s', equal_pair_bare st E d raw (length k) false s = Ok b s' /\
    Redacts st n k ko /\ marker_name st name /\ sb s' = sb s ++ ko ++ go "=" ++ marker st v name.
Proof.
  intros Hsens Hsafe. pose proof (word_pair_text v Hv) as Hp.
  unfold equal_pair_bare. rewrite raw_key, raw_value. unfold isSensitivePairKey. rewrite Hsens. cbn [orb].
  unfold contains_pair_sep. rewrite !(over_ContainsByte word_byte v Hv), pair_not_balanced, pair_not_bytes by done.
  cbn [orb andb]. unfold mbind, M_bind. pose proof (scans_writeKeyHalf st k s) as Hkey.
  destruct (writeKeyHalf st k s) as [[] s1| |]; [|by destruct Hkey; apply word_tame in Hk|done].
  destruct Hkey as (n & ko & (Ho & _) & HR). simpl.
  destruct (value_run {| sb := sb s1 ++ go "="; baseline := baseline s1; callbacks := callbacks s1 |} Hsafe)
    as (name & s2 & Hrun & Hname & Hsb). simpl in Hrun. rewrite Hrun.
  exists n, ko, name. eexists _, _. split_and!; [reflexivity|done|done|]. rewrite Hsb. simpl. by rewrite Ho, <-!app_assoc.
Qed.

Definition auth_scheme (w : gostring) : bool := EqualFold w (go "basic") || EqualFold w (go "bearer").

Lemma pair_append E s :
  auth_scheme v = false -> isSensitiveKey st k = true ->
  processAndAppend st E 0 raw initState s =
  (isKey ← e_token E 0 (token_args raw false false false false false);
   mret (next_state st initState raw (clean_token raw) isKey false)) s.
Proof.
  intros Hauth Hsens. pose proof raw_pair as Hp. unfold processAndAppend. rewrite pair_TrimSpace by done.
  assert (auth_pair st raw = None) as ->.
  { unfold auth_pair, Cut. rewrite raw_index, raw_key, raw_value. unfold auth_scheme in Hauth. rewrite Hauth, andb_false_r.
    by destruct (ends_c_or_r raw). }
  assert (kept_token st initState raw = false) as ->.
  { unfold kept_token, isShortHashUnderHashKey, Cut. cbn [afterMarker pendingHashKey initState andb orb].
    rewrite pair_not_compact, raw_index, raw_key, raw_value by done.
    rewrite (pair_trimQuotes k), Hsens by (by apply word_pair_text). by rewrite !andb_false_r. }
  reflexivity.
Qed.

(** A line that is one sensitive pair. *)
Lemma pair_line_run s :
  isSensitiveKey st k = true -> existsb (rule_matches v) (SafeRegexes (config st)) = false ->
  auth_scheme v = false -> line_carves st raw = [] ->
  exists n ko name s', ScanAndRedact st raw s = Ok (ko ++ go "=" ++ marker st v name) s' /\
    Redacts st n k ko /\ marker_name st name.
Proof.
  intros Hsens Hsafe Hauth Hcarves. pose proof raw_pair as Hp.
  assert (raw <> []) as Hraw by (unfold raw; by destruct k).
  assert (exists f, scan_fuel raw = S (S (S f))) as [f Hfuel].
  { unfold scan_fuel. exists (5 * 34 + 5 * length raw + 1)%nat. lia. }
  unfold ScanAndRedact. rewrite Hfuel. destruct (is_empty raw) eqn:Ee; [by destruct raw|].
  unfold mbind at 1, M_bind at 1, with_builder.
  change (e_line (engine st (S (S (S f))))) with (scanLine st (engine st (S (S f)))).
  unfold scanLine. rewrite Ee, pair_not_diff_header, pair_not_private_key, pair_no_diff_marker by done.
  cbn [Nat.eqb andb]. rewrite drop_0. unfold scan_carved. rewrite Hcarves. cbn [carve_loop].
  assert (0 < length raw)%nat by (destruct raw; [done|simpl; lia]).
  rewrite (proj2 (Nat.ltb_lt _ _)), drop_0 by done.
  change (e_segment (engine st (S (S f)))) with (fun d t => scanSegmentFrom st (engine st (S f)) d t). cbv beta.
  unfold mbind, M_bind. cbn [write take]. rewrite pair_segment by done. unfold mbind, M_bind.
  rewrite pair_append by done. unfold mbind, M_bind.
  change (e_token (engine st (S f))) with (processTokenLogic st (engine st f)).
  rewrite pair_token by (done || lia).
  destruct (pair_halves_run (engine st f) 0 {| sb := []; baseline := baseline s; callbacks := callbacks s |} Hsens Hsafe)
    as (n & ko & name & b & s' & Hrun & HR & Hname & Ho).
  cbn [app sb baseline callbacks]. rewrite take_0, Hrun. exists n, ko, name. eexists. split; [|done].
  cbn [sb app] in Ho. rewrite <-Ho. reflexivity.
Qed.

End run.
