(* ===== verification/Signing.v ===== *)
(** * Signed publications

    [rules/internal/signing]: the statement a publisher signs and the server checks; and
    [operator/internal/remoterules/signature.go]: how the operator checks it again from
    what it pulled.  The two sides are written apart in the code and apart here.

    [ed25519.Verify] is a parameter, a function of the key, the message and the signature;
    the JSON of a signature file is read by a parameter too. *)

From Stdlib Require Import ZArith Lia Bool.
From stdpp Require Import base list option.
From S2P Require Import Prelude GoStrings Sha256 Tokens JsonString Engine ConfigSources Stats Base64 PairProofs.

(** [strconv.FormatInt(n, 10)] for an [int64]. *)
Definition FormatInt (n : Z) : gostring := if n <? 0 then ch "-" :: decimal (- n) else decimal n.

(** [crypto/ed25519]. *)
Class Ed25519 := { ed25519_Verify : gostring -> gostring -> gostring -> bool }.

Definition PublicKeySize : nat := 32.
Definition SignatureSize : nat := 64.

(** The newline that ends a line of the statement. *)
Definition nl : gostring := [10].

(** ** The server's side: [rules/internal/signing] *)

Definition Header : gostring := go "pii-shield-policy-signature-v1".
Definition KeyPrefix : gostring := go "ed25519:".

Record Statement := { st_Set : gostring; st_Publication : Z; st_Revision : Z; st_SHA256 : gostring }.

(** [Text]. *)
Definition Text (s : Statement) : gostring :=
  Header ++ nl ++
  go "set: " ++ st_Set s ++ nl ++
  go "publication: " ++ FormatInt (st_Publication s) ++ nl ++
  go "revision: " ++ FormatInt (st_Revision s) ++ nl ++
  go "sha256: " ++ st_SHA256 s ++ nl.

(** [For]. *)
Definition For (set : gostring) (publication revision : Z) (content : gostring) : Statement :=
  {| st_Set := set; st_Publication := publication; st_Revision := revision; st_SHA256 := hex_encode (sha256 content) |}.

(** [ParsePublicKey]; [None] is an error. *)
Definition ParsePublicKey (s : gostring) : option gostring :=
  let s := TrimSpace s in
  if negb (HasPrefix s KeyPrefix) then None
  else
    raw ← b64_decode (TrimPrefix s KeyPrefix);
    if Nat.eqb (length raw) PublicKeySize then Some raw else None.

(** [FormatPublicKey]. *)
Definition FormatPublicKey (k : gostring) : gostring := KeyPrefix ++ b64_encode k.

(** [KeyID]: the first 8 bytes of the key's hash. *)
Definition SigningKeyID (k : gostring) : gostring := hex_encode (take 8 (sha256 k)).

(** [Verify]; [false] is [ErrBadSignature]. *)
Definition VerifyStatement `{Ed25519} (k : gostring) (st : Statement) (sigB64 : gostring) : bool :=
  match b64_decode (TrimSpace sigB64) with
  | Some sig => Nat.eqb (length sig) SignatureSize && ed25519_Verify k (Text st) sig
  | None => false
  end.

(** ** The operator's side: [remoterules/signature.go] *)

Definition statementHeader : gostring := go "pii-shield-policy-signature-v1".
Definition keyPrefix : gostring := go "ed25519:".

Record TrustedKey := { tk_ID : gostring; tk_Key : gostring }.

(** [KeyID]. *)
Definition TrustedKeyID (k : gostring) : gostring := hex_encode (take 8 (sha256 k)).

Definition parse_trusted_key (s : gostring) : option TrustedKey :=
  let s := TrimSpace s in
  if negb (HasPrefix s keyPrefix) then None
  else
    raw ← b64_decode (TrimPrefix s keyPrefix);
    if Nat.eqb (length raw) PublicKeySize then Some {| tk_ID := TrustedKeyID raw; tk_Key := raw |} else None.

(** [ParseTrustedKeys]: all or nothing, and at least one. *)
Definition ParseTrustedKeys (keys : list gostring) : option (list TrustedKey) :=
  out ← mapM parse_trusted_key keys;
  if is_empty out then None else Some out.

Record SignatureFile := {
  sf_Set : gostring; sf_Publication : Z; sf_Revision : Z; sf_SHA256 : gostring; sf_KeyID : gostring; sf_Signature : gostring;
}.

Record Verified := { vf_Publication : Z; vf_KeyID : gostring }.

(** The reasons of a failed pull, as in the condition of the policy. *)
Inductive remoteReason :=
| InsecureURL
| FetchFailed
| TooLarge
| SignatureMissing
| SignatureInvalid
| SignatureUntrusted
| SignatureReplayed
| SignatureConfig
| SecretNotFound
| InvalidFile.

#[global] Instance remoteReason_eq_dec : EqDecision remoteReason.
Proof. solve_decision. Defined.

(** The last key with the id: the loop of [Check] does not stop at the first. *)
Definition find_key (keys : list TrustedKey) (id : gostring) : option TrustedKey :=
  last (filter (fun k => tk_ID k = id) keys).

Section check.
Context `{Ed25519} (UnmarshalSignature : gostring -> option SignatureFile).

(** [Check]. *)
Definition CheckSignature (sigBody body set : gostring) (keys : list TrustedKey) (minPublication : Z) :
    remoteReason + Verified :=
  match UnmarshalSignature sigBody with
  | None => inl SignatureInvalid
  | Some sf =>
    match find_key keys (sf_KeyID sf) with
    | None => inl SignatureUntrusted
    | Some key =>
      let text := statementHeader ++ nl ++
        go "set: " ++ set ++ nl ++
        go "publication: " ++ FormatInt (sf_Publication sf) ++ nl ++
        go "revision: " ++ FormatInt (sf_Revision sf) ++ nl ++
        go "sha256: " ++ hex_encode (sha256 body) ++ nl in
      match b64_decode (sf_Signature sf) with
      | Some sig =>
        if negb (Nat.eqb (length sig) SignatureSize) || negb (ed25519_Verify (tk_Key key) text sig) then inl SignatureInvalid
        else if sf_Publication sf <? minPublication then inl SignatureReplayed
        else inr {| vf_Publication := sf_Publication sf; vf_KeyID := sf_KeyID sf |}
      | None => inl SignatureInvalid
      end
    end
  end.

End check.

(** [url.Parse] of the file's URL: its path. *)
Definition ExpectedSet (url_path : option gostring) (explicit : gostring) : option gostring :=
  if negb (is_empty explicit) then Some explicit
  else
    path ← url_path;
    match rev (Split (Trim path (go "/")) (ch "/")) with
    | file :: set :: org :: v1 :: _ =>
      if str_eqb v1 (go "v1") && str_eqb file (go "policy.json") then Some (org ++ go "/" ++ set) else None
    | _ => None
    end.

(** ** What a signature binds

    The text of a statement determines the statement, a printed public key reads back, and
    the operator accepts exactly the files the server would have accepted for the same set,
    number and revision. *)

(** ** Numbers *)

Definition int64 (n : Z) : Prop := - 2 ^ 63 <= n < 2 ^ 63.

Lemma Atoi_FormatInt n : int64 n -> Atoi (FormatInt n) = Some n.
Proof.
  unfold int64, FormatInt. intros Hn. destruct (n <? 0) eqn:E; [apply Z.ltb_lt in E|apply Z.ltb_ge in E].
  - pose proof (decimal_value (- n) ltac:(lia)) as Hv. pose proof (decimal_nonempty (- n)) as Hne.
    unfold Atoi. rewrite Z.eqb_refl. destruct (decimal (- n)) as [|c r] eqn:D; [simpl in Hne; lia|]. cbn [is_empty].
    rewrite Hv. simpl. replace (- - n) with n by lia.
    by rewrite (proj2 (Z.leb_le _ _)), (proj2 (Z.ltb_lt _ _)) by lia.
  - rewrite (Atoi_digits _ n); [|intros D; pose proof (decimal_nonempty n) as Hne; rewrite D in Hne; simpl in Hne; lia
                                 |apply decimal_value; lia|done].
    by rewrite (proj2 (Z.ltb_lt _ _)) by lia.
Qed.

Lemma FormatInt_inj n m : int64 n -> int64 m -> FormatInt n = FormatInt m -> n = m.
Proof. intros Hn Hm E. apply Atoi_FormatInt in Hn, Hm. congruence. Qed.

Definition no_newline (s : gostring) : Prop := Forall (fun c => c <> 10) s.

Lemma decimal_loop_no_newline f n acc : 0 <= n -> no_newline acc -> no_newline (decimal_loop f n acc).
Proof.
  revert n acc. induction f as [|f IH]; intros n acc Hn Ha; [done|]. simpl.
  assert (no_newline ((48 + n mod 10) :: acc)) by (constructor; [lia_div|done]).
  case_match; [done|]. apply IH; [lia_div|done].
Qed.

Lemma FormatInt_no_newline n : no_newline (FormatInt n).
Proof.
  unfold FormatInt. case_match; [constructor; [done|]|]; apply decimal_loop_no_newline; (lia || constructor).
Qed.

(** ** The text of a statement *)

Lemma line_inj a b x y : no_newline a -> no_newline b -> a ++ nl ++ x = b ++ nl ++ y -> a = b /\ x = y.
Proof.
  revert b. induction a as [|c a IH]; intros [|d b] Ha Hb E.
  - injection E as ->. done.
  - injection E as <- _. by apply Forall_cons in Hb as [? _].
  - injection E as -> _. by apply Forall_cons in Ha as [? _].
  - injection E as -> E. apply Forall_cons in Ha as [_ Ha], Hb as [_ Hb]. by destruct (IH b Ha Hb E) as [-> ->].
Qed.

Lemma field_inj (k a b x y : gostring) :
  no_newline a -> no_newline b -> k ++ a ++ nl ++ x = k ++ b ++ nl ++ y -> a = b /\ x = y.
Proof. intros Ha Hb E. apply app_inv_head in E. by apply line_inj. Qed.

(** A statement whose fields are lines. *)
Definition statement_ok (s : Statement) : Prop :=
  no_newline (st_Set s) /\ int64 (st_Publication s) /\ int64 (st_Revision s) /\ no_newline (st_SHA256 s).

Lemma Text_inj s t : statement_ok s -> statement_ok t -> Text s = Text t -> s = t.
Proof.
  destruct s as [s1 p1 r1 h1], t as [s2 p2 r2 h2]. intros (? & ? & ? & ?) (? & ? & ? & ?) E.
  unfold Text in E. cbn [st_Set st_Publication st_Revision st_SHA256] in *. apply app_inv_head, app_inv_head in E.
  apply field_inj in E as [-> E]; [|done|done].
  apply field_inj in E as [->%FormatInt_inj E]; [|done|done|apply FormatInt_no_newline|apply FormatInt_no_newline].
  apply field_inj in E as [->%FormatInt_inj E]; [|done|done|apply FormatInt_no_newline|apply FormatInt_no_newline].
  rewrite <-(app_nil_r nl) in E. apply field_inj in E as [-> _]; done.
Qed.

(** ** Hexadecimal *)

Lemma hex_encode_inj a b : Forall is_byte a -> Forall is_byte b -> hex_encode a = hex_encode b -> a = b.
Proof.
  revert b. induction a as [|x a IH]; intros [|y b] Ha Hb E; try done.
  apply Forall_cons in Ha as [Hx Ha], Hb as [Hy Hb]. unfold hex_encode in *. cbn in E. injection E as E1 E2 E.
  rewrite (IH b Ha Hb E). f_equal. unfold is_byte in *.
  assert (forall u v, 0 <= u < 16 -> 0 <= v < 16 -> hex_digit u = hex_digit v -> u = v) as Hh.
  { intros u v Hu Hv Huv. apply hex_value_digit in Hu, Hv. congruence. }
  apply Hh in E1; [|lia_div|lia_div]. apply Hh in E2; [|lia_div|lia_div]. lia_div.
Qed.

Lemma hex_encode_no_newline a : Forall is_byte a -> no_newline (hex_encode a).
Proof.
  induction 1 as [|x a Hx Ha IH]; [constructor|]. unfold hex_encode in *. cbn. unfold is_byte in Hx.
  assert (forall u, 0 <= u -> hex_digit u <> 10) as Hh by (intros u Hu; unfold hex_digit; case_match; lia).
  constructor; [apply Hh; lia_div|]. constructor; [apply Hh; lia_div|done].
Qed.

(** A signed text belongs to one set, one number, one revision and one file's hash. *)
Lemma Text_For_inj set pub rev content set' pub' rev' content' :
  no_newline set -> no_newline set' -> int64 pub -> int64 pub' -> int64 rev -> int64 rev' ->
  Text (For set pub rev content) = Text (For set' pub' rev' content') ->
  set = set' /\ pub = pub' /\ rev = rev' /\ sha256 content = sha256 content'.
Proof.
  intros Hs Hs' Hp Hp' Hr Hr' E.
  assert (forall c, no_newline (hex_encode (sha256 c))) as Hh by (intros; apply hex_encode_no_newline, sha256_bytes).
  apply Text_inj in E; [|by repeat split; try apply Hp; try apply Hr; try apply Hh
                        |by repeat split; try apply Hp'; try apply Hr'; try apply Hh].
  unfold For in E. injection E as -> -> -> E. apply hex_encode_inj in E; auto using sha256_bytes.
Qed.

(** ** Public keys *)

Lemma b64_encode_over s : Forall is_byte s ->
  forallb (fun c => between 43 c 122) (b64_encode s) = true.
Proof.
  intros H. apply forallb_forall. intros c Hc. apply list_elem_of_In in Hc.
  enough (Forall (fun c => 43 <= c <= 122) (b64_encode s)) as Hf.
  { rewrite Forall_forall in Hf. specialize (Hf c Hc). unfold between. lia. }
  clear c Hc. revert H. induction s as [|a|a b|a b c s IH] using three_ind; intros H; simpl.
  all: repeat apply Forall_cons in H as [? H]; unfold is_byte in *.
  all: repeat apply Forall_cons_2; auto; try (apply b64_char_ascii; lia_div); done.
Qed.

(** A printed key reads back. *)
Lemma ParsePublicKey_format k : Forall is_byte k -> length k = PublicKeySize -> ParsePublicKey (FormatPublicKey k) = Some k.
Proof.
  intros Hk Hl. unfold ParsePublicKey, FormatPublicKey.
  rewrite (TrimSpace_over (fun c => between 43 c 122)).
  - assert (HasPrefix (KeyPrefix ++ b64_encode k) KeyPrefix = true) as Hp by done.
    unfold TrimPrefix. rewrite Hp. simpl negb. cbv iota. rewrite drop_app_length, b64_round_trip by done. simpl.
    by rewrite Hl.
  - rewrite forallb_app. rewrite (b64_encode_over k Hk). done.
  - intros c Hc. unfold between in Hc. boolp. split; [lia|]. unfold IsSpace, between. lia.
Qed.

(** The operator reads a key, and names it, as the server does. *)
Lemma parse_trusted_key_eq s :
  parse_trusted_key s = (fun k => {| tk_ID := SigningKeyID k; tk_Key := k |}) <$> ParsePublicKey s.
Proof.
  unfold parse_trusted_key, ParsePublicKey. change keyPrefix with KeyPrefix. case_match; [done|].
  destruct (b64_decode _) as [raw|]; [|done]. simpl. by case_match.
Qed.

(** ** The two checks *)

Section checks.
Context `{Ed25519} (UnmarshalSignature : gostring -> option SignatureFile).

(** The operator accepts a file when a key it trusts signed the server's statement for its set and this body. *)
Lemma CheckSignature_sound sigBody body set keys minPub vf :
  CheckSignature UnmarshalSignature sigBody body set keys minPub = inr vf ->
  exists sf key sig,
    UnmarshalSignature sigBody = Some sf /\ key ∈ keys /\ tk_ID key = vf_KeyID vf /\
    vf_Publication vf = sf_Publication sf /\ minPub <= vf_Publication vf /\
    b64_decode (sf_Signature sf) = Some sig /\
    ed25519_Verify (tk_Key key) (Text (For set (sf_Publication sf) (sf_Revision sf) body)) sig = true.
Proof.
  unfold CheckSignature. intros E. destruct (UnmarshalSignature sigBody) as [sf|]; [|done].
  destruct (find_key keys (sf_KeyID sf)) as [key|] eqn:Ek; [|done].
  destruct (b64_decode (sf_Signature sf)) as [sig|] eqn:Es; [|done]. cbv zeta in E.
  case_match eqn:Ev; [done|]. apply orb_false_iff in Ev as [_ Ev]. apply negb_false_iff in Ev.
  case_match eqn:Em; [done|]. injection E as <-. apply Z.ltb_ge in Em.
  unfold find_key in Ek. apply last_Some_elem_of, list_elem_of_filter in Ek as [Hid Hin].
  exists sf, key, sig. repeat split; done.
Qed.

(** What the server accepted, the operator accepts. *)
Lemma CheckSignature_complete sigBody body set keys minPub sf pk :
  UnmarshalSignature sigBody = Some sf ->
  VerifyStatement pk (For set (sf_Publication sf) (sf_Revision sf) body) (sf_Signature sf) = true ->
  TrimSpace (sf_Signature sf) = sf_Signature sf ->
  (exists key, find_key keys (sf_KeyID sf) = Some key /\ tk_Key key = pk) ->
  minPub <= sf_Publication sf ->
  CheckSignature UnmarshalSignature sigBody body set keys minPub =
    inr {| vf_Publication := sf_Publication sf; vf_KeyID := sf_KeyID sf |}.
Proof.
  intros Hu Hv Ht (key & Hk & <-) Hm. unfold CheckSignature. rewrite Hu, Hk. unfold VerifyStatement in Hv. rewrite Ht in Hv.
  destruct (b64_decode (sf_Signature sf)) as [sig|]; [|done]. apply andb_true_iff in Hv as [-> Hv]. cbv zeta.
  change (statementHeader ++ _) with (Text (For set (sf_Publication sf) (sf_Revision sf) body)). rewrite Hv. simpl.
  by rewrite (proj2 (Z.ltb_ge _ _)) by lia.
Qed.

End checks.

(** ** White space *)

Lemma TrimSpace_space s : TrimSpace (ch " " :: s) = TrimSpace s.
Proof.
  unfold TrimSpace. f_equal.
Qed.

Lemma b64_decode_space s : b64_decode (ch " " :: s) = None.
Proof.
  unfold b64_decode. rewrite filter_cons_True by done. cbn [b64_quanta].
  destruct (filter _ s) as [|c1 [|c2 [|c3 l]]]; done.
Qed.
