(* ===== verification/PolicyFile.v ===== *)
(** * The operator's policy file

    [operator/internal/policyfile]: how the operator reads a remote rule set, lays the
    policy's own rules over it and writes the file the sidecars load.

    The struct [remoteFile] has the keys and types of the scanner's [policyFile], so
    [json.Unmarshal] at it is [UnmarshalPolicy].  Parameters: [json.MarshalIndent] of a
    document and the printing of a float32. *)

From Stdlib Require Import ZArith Lia Bool SpecFloat.
From stdpp Require Import base list option sets.
From S2P Require Import Prelude GoStrings Sha256 Float64 Regex KeyMatcher Config JsonString Engine Scanner.
From S2P Require Import ConfigSources Stats Base64 Signing.

Record Document := {
  d_Revision : gostring;
  d_EntropyThreshold : float64;
  d_ConfidenceThreshold : float64;
  d_MinSecretLength : Z;
  d_SensitiveKeys : list gostring;
  d_SensitiveKeyPatterns : list gostring;
  d_CustomRegexes : list CustomRegexConfig;
  d_SafeRegexes : list CustomRegexConfig;
  d_DisableBigramCheck : option bool;
  d_AdaptiveThreshold : option bool;
  d_EntityTypeLabels : option bool;
}.

Definition emptyDocument : Document :=
  {| d_Revision := []; d_EntropyThreshold := fzero; d_ConfidenceThreshold := fzero; d_MinSecretLength := 0;
     d_SensitiveKeys := []; d_SensitiveKeyPatterns := []; d_CustomRegexes := []; d_SafeRegexes := [];
     d_DisableBigramCheck := None; d_AdaptiveThreshold := None; d_EntityTypeLabels := None |}.

(** The reasons of a [ValidationError]. *)
Inductive invalidReason := InvalidJSON | InvalidRegex | InvalidValue.

(** The embedded document of a decoded file, with its keys normalized. *)
Definition document_of (f : policyFile) (keys : list gostring) : Document :=
  let c := pfConfig f in
  {| d_Revision := Revision f; d_EntropyThreshold := SDK.EntropyThreshold c;
     d_ConfidenceThreshold := SDK.ConfidenceThreshold c; d_MinSecretLength := SDK.MinSecretLength c;
     d_SensitiveKeys := keys; d_SensitiveKeyPatterns := SDK.SensitiveKeyPatterns c;
     d_CustomRegexes := SDK.CustomRegexes c; d_SafeRegexes := SDK.SafeRegexes c;
     d_DisableBigramCheck := SDK.DisableBigramCheck c; d_AdaptiveThreshold := SDK.AdaptiveThreshold c;
     d_EntityTypeLabels := SDK.EntityTypeLabels c |}.

Section parse.
Context `{RegexpCompiler} `{Unicode} `{GoDecoders}.

(** [checkRules]: is every pattern there, and does it compile? *)
Fixpoint checkRules (rules : list CustomRegexConfig) : bool :=
  match rules with
  | [] => true
  | r :: rules' =>
    if is_empty (Pattern r) then false
    else match Compile (Pattern r) with None => false | Some _ => checkRules rules' end
  end.

(** The keys, trimmed and lowered; [None] when one is empty. *)
Fixpoint normalize_keys (l : list gostring) : option (list gostring) :=
  match l with
  | [] => Some []
  | k :: l' =>
    let k := ToLower (TrimSpace k) in
    if is_empty k then None else cons k <$> normalize_keys l'
  end.

Definition ignored_keys (c : SDK.SDKConfig) : list gostring :=
  (if is_empty (SDK.Salt c) then [] else [go "salt"]) ++ (if is_empty (SDK.FailPolicy c) then [] else [go "fail_policy"]).

(** [Parse]. *)
Definition ParseRemote (b : gostring) : invalidReason + (Document * list gostring) :=
  match UnmarshalPolicy b with
  | None => inl InvalidJSON
  | Some f =>
    let c := pfConfig f in
    if fltb (SDK.EntropyThreshold c) fzero then inl InvalidValue
    else if fltb (SDK.ConfidenceThreshold c) fzero then inl InvalidValue
    else if (SDK.MinSecretLength c <? 0) || (MaxMinSecretLength <? SDK.MinSecretLength c) then inl InvalidValue
    else
      match normalize_keys (SDK.SensitiveKeys c) with
      | None => inl InvalidValue
      | Some keys =>
        if existsb (fun p => negb (bool_decide (is_Some (Compile p)))) (SDK.SensitiveKeyPatterns c) then inl InvalidRegex
        else if negb (checkRules (SDK.CustomRegexes c)) then inl InvalidRegex
        else if negb (checkRules (SDK.SafeRegexes c)) then inl InvalidRegex
        else inr (document_of f keys, ignored_keys c)
      end
  end.

End parse.

(** ** Merge *)

(** [strconv.FormatFloat(f, 'f', -1, 32)] and the conversion to [float64]. *)
Class Float32 := { float32 : Type; is_zero32 : float32 -> bool; FormatFloat32 : float32 -> gostring; widen32 : float32 -> float64 }.

(** The rules of a [PiiPolicy], and its generation. *)
Record PiiPolicy `{Float32} := {
  spec_EntropyThreshold : float32;
  spec_ConfidenceThreshold : float32;
  spec_MinSecretLength : Z;
  spec_SensitiveKeys : list gostring;
  spec_SensitiveKeyPatterns : list gostring;
  spec_CustomRegexList : list CustomRegexConfig;
  spec_SafeRegexList : list CustomRegexConfig;
  Generation : Z;
}.

Section merge.
Context `{GoDecoders} `{Float32}.

(** [shortest]. *)
Definition shortest (f : float32) : float64 := default (widen32 f) (ParseFloat (FormatFloat32 f)).

(** [Merge]: a field set in the policy replaces the remote one. *)
Definition Merge (remote : Document) (p : PiiPolicy) : Document :=
  let pick {A} (local : list A) (theirs : list A) := if is_empty local then theirs else local in
  let gen := FormatInt (Generation p) in
  {| d_Revision := if is_empty (d_Revision remote) then gen else d_Revision remote ++ go "+" ++ gen;
     d_EntropyThreshold :=
       if is_zero32 (spec_EntropyThreshold p) then d_EntropyThreshold remote else shortest (spec_EntropyThreshold p);
     d_ConfidenceThreshold :=
       if is_zero32 (spec_ConfidenceThreshold p) then d_ConfidenceThreshold remote else shortest (spec_ConfidenceThreshold p);
     d_MinSecretLength := if 0 <? spec_MinSecretLength p then spec_MinSecretLength p else d_MinSecretLength remote;
     d_SensitiveKeys := pick (spec_SensitiveKeys p) (d_SensitiveKeys remote);
     d_SensitiveKeyPatterns := pick (spec_SensitiveKeyPatterns p) (d_SensitiveKeyPatterns remote);
     d_CustomRegexes := pick (spec_CustomRegexList p) (d_CustomRegexes remote);
     d_SafeRegexes := pick (spec_SafeRegexList p) (d_SafeRegexes remote);
     d_DisableBigramCheck := d_DisableBigramCheck remote;
     d_AdaptiveThreshold := d_AdaptiveThreshold remote;
     d_EntityTypeLabels := d_EntityTypeLabels remote |}.

(** [Local]. *)
Definition Local_ (p : PiiPolicy) : Document := Merge emptyDocument p.

End merge.

(** [Hash]. *)
Definition PolicyHash (b : gostring) : gostring := hex_encode (take 8 (sha256 b)).

(** [ConfigMapName] and [CheckName]. *)
Definition ConfigMapName (policyName : gostring) : gostring := go "pii-shield-policy-" ++ policyName.

Definition CheckName (policyName : gostring) : bool := (length (ConfigMapName policyName) <=? 253)%nat.

(** [Render] of the policy of this name; [Encode] is the text of a document. *)
Definition Render `{GoDecoders} `{Float32} (Encode : Document -> gostring) (name : gostring) (p : PiiPolicy) : option gostring :=
  if CheckName name then Some (Encode (Local_ p)) else None.
