(* ===== verification/Webhook.v ===== *)
(** * The operator's admission webhook

    [operator/internal/webhook]: [PodMutator.Handle] and what it calls.  A pod that asks
    for injection is given a sidecar by the mode of its policy, or refused.

    The objects of the Kubernetes API are records of the fields the code reads or
    writes; what it only carries along is of the type [Opaque].  A request is its decoded pod,
    the policies of its namespace and the rendered files; the JSON of the answer's patch is
    not modelled, its pod is.  Parameters: [json.Marshal] of a list of rules, and the
    printing of a float32. *)

From Stdlib Require Import ZArith Lia Bool.
From stdpp Require Import base list option.
From S2P Require Import Prelude GoStrings Float64 Config ConfigSources Stats Signing PolicyFile.

(** The parts of the API's objects that are carried along unread. *)
Class KubernetesAPI := { Opaque : Type; nothing : Opaque }.

(** ** The objects *)

Section objects.
Context `{KubernetesAPI}.

Record SecretKeySelector := { sk_Name : gostring; sk_Key : gostring; sk_Optional : option bool }.

Inductive EnvVarSource := SecretKeyRef (s : SecretKeySelector) | OtherSource (o : Opaque).

Record EnvVar := { ev_Name : gostring; ev_Value : gostring; ev_ValueFrom : option EnvVarSource }.

Record ContainerPort := { cp_Name : gostring; cp_ContainerPort : Z; cp_Protocol : gostring; cp_rest : Opaque }.

Record VolumeMount := { vm_Name : gostring; vm_MountPath : gostring; vm_ReadOnly : bool; vm_rest : Opaque }.

Record SecurityContext := {
  RunAsUser : option Z; RunAsNonRoot : option bool; ReadOnlyRootFilesystem : option bool;
  AllowPrivilegeEscalation : option bool; cap_Drop : list gostring; cap_Add : list gostring;
  SeccompProfile : option gostring; sc_rest : Opaque;
}.

Inductive Probe := HTTPGet (path port : gostring) (period threshold : Z) | OtherProbe (o : Opaque).

Record Container := {
  c_Name : gostring; c_Image : gostring; c_ImagePullPolicy : gostring;
  c_Command : list gostring; c_Args : list gostring; c_Env : list EnvVar; c_Ports : list ContainerPort;
  c_VolumeMounts : list VolumeMount; c_SecurityContext : option SecurityContext; c_StartupProbe : option Probe;
  c_Resources : Opaque; c_RestartPolicy : option gostring; c_rest : Opaque;
}.

Inductive VolumeSource := EmptyDir | ConfigMapVolume (name : gostring) (optional : bool) | OtherVolume (o : Opaque).

Record Volume := { v_Name : gostring; v_Source : VolumeSource }.

Record PodSecurityContext := { FSGroup : option Z; psc_rest : Opaque }.

(** A pod; an absent label or annotation reads as the empty string. *)
Record Pod := {
  Labels : gostring -> gostring; Annotations : gostring -> gostring;
  Containers : list Container; InitContainers : list Container; Volumes : list Volume;
  PodSecurity : option PodSecurityContext; ShareProcessNamespace : option bool; pod_rest : Opaque;
}.

(** What the webhook reads of a [PiiPolicy]; [pol_rules] are the rules of its spec. *)
Record WebhookPolicy `{Float32} := {
  pol_Name : gostring; pol_rules : PiiPolicy;
  pol_FailPolicy : gostring; pol_Salt : gostring; pol_SaltSecretKeyRef : option SecretKeySelector;
  pol_InjectionMode : gostring; pol_LogPath : gostring; pol_OriginalCommand : gostring;
  pol_Resources : Opaque; pol_AuditMode : bool; pol_Stats : bool;
}.

End objects.

(** ** Constants *)

Definition sidecarName : gostring := go "pii-shield-sidecar".
Definition AuditMetricsPort : Z := 9090.
Definition AuditMetricsPortName : gostring := go "pii-metrics".
Definition auditStatsInterval : gostring := go "1h".
Definition MountPath : gostring := go "/etc/pii-shield".
Definition FilePath : gostring := MountPath ++ go "/" ++ go "policy.json".
Definition VolumeName : gostring := go "pii-policy".

(** ** The sidecar's environment *)

Section environment.
Context `{KubernetesAPI} `{Float32}.
Context (Getenv : gostring -> gostring) (MarshalRules : list CustomRegexConfig -> gostring).

(** [add]: a variable with a value, unless it is empty. *)
Definition add_env (name value : gostring) : list EnvVar :=
  if is_empty value then [] else [{| ev_Name := name; ev_Value := value; ev_ValueFrom := None |}].

(** [marshalRegexRules]. *)
Definition marshalRegexRules (rules : list CustomRegexConfig) : gostring :=
  if is_empty rules then [] else MarshalRules rules.

Definition salt_from_secret (s : SecretKeySelector) : list EnvVar :=
  [{| ev_Name := go "PII_SALT"; ev_Value := []; ev_ValueFrom := Some (SecretKeyRef s) |}].

(** The salt: the policy's secret, the policy's text, or the operator's secret. *)
Definition salt_env (p : WebhookPolicy) : list EnvVar :=
  match pol_SaltSecretKeyRef p with
  | Some s => salt_from_secret s
  | None =>
    if negb (is_empty (pol_Salt p)) then add_env (go "PII_SALT") (pol_Salt p)
    else
      let name := Getenv (go "AGENT_SALT_SECRET_NAME") in
      if is_empty name then []
      else
        let key := Getenv (go "AGENT_SALT_SECRET_KEY") in
        salt_from_secret {| sk_Name := name; sk_Key := if is_empty key then go "salt" else key; sk_Optional := None |}
  end.

(** [scannerEnv]. *)
Definition scannerEnv (p : WebhookPolicy) : list EnvVar :=
  let spec := pol_rules p in
  salt_env p ++
  add_env (go "PII_FAIL_POLICY") (pol_FailPolicy p) ++
  (if pol_AuditMode p then add_env (go "PII_MODE") (go "audit") else []) ++
  (if is_zero32 (spec_ConfidenceThreshold spec) then []
   else add_env (go "PII_CONFIDENCE_THRESHOLD") (FormatFloat32 (spec_ConfidenceThreshold spec))) ++
  (if is_zero32 (spec_EntropyThreshold spec) then []
   else add_env (go "PII_ENTROPY_THRESHOLD") (FormatFloat32 (spec_EntropyThreshold spec))) ++
  (if 0 <? spec_MinSecretLength spec then add_env (go "PII_MIN_SECRET_LENGTH") (FormatInt (spec_MinSecretLength spec)) else []) ++
  add_env (go "PII_SENSITIVE_KEYS") (Join (spec_SensitiveKeys spec) (go ",")) ++
  add_env (go "PII_SENSITIVE_KEY_PATTERNS") (Join (spec_SensitiveKeyPatterns spec) (go ",")) ++
  add_env (go "PII_CUSTOM_REGEX_LIST") (marshalRegexRules (spec_CustomRegexList spec)) ++
  add_env (go "PII_SAFE_REGEX_LIST") (marshalRegexRules (spec_SafeRegexList spec)).

(** [metricsEnv] and [auditEnv]. *)
Definition metricsEnv : list EnvVar :=
  [{| ev_Name := go "PII_METRICS_ENABLED"; ev_Value := go "true"; ev_ValueFrom := None |};
   {| ev_Name := go "PII_METRICS_PORT"; ev_Value := FormatInt AuditMetricsPort; ev_ValueFrom := None |}].

Definition stats_env : EnvVar :=
  {| ev_Name := go "PII_STATS_LOG_INTERVAL"; ev_Value := auditStatsInterval; ev_ValueFrom := None |}.

Definition auditEnv : list EnvVar := metricsEnv ++ [stats_env].

(** [ruleEnvNames]. *)
Definition ruleEnvNames : list gostring :=
  [go "PII_CONFIDENCE_THRESHOLD"; go "PII_ENTROPY_THRESHOLD"; go "PII_MIN_SECRET_LENGTH"; go "PII_SENSITIVE_KEYS";
   go "PII_SENSITIVE_KEY_PATTERNS"; go "PII_CUSTOM_REGEX_LIST"; go "PII_SAFE_REGEX_LIST"].

(** ** The sidecar *)

Definition metrics_port : ContainerPort :=
  {| cp_Name := AuditMetricsPortName; cp_ContainerPort := AuditMetricsPort; cp_Protocol := go "TCP"; cp_rest := nothing |}.

Definition mount (name path : gostring) (readonly : bool) : VolumeMount :=
  {| vm_Name := name; vm_MountPath := path; vm_ReadOnly := readonly; vm_rest := nothing |}.

Definition env_or (name fallback : gostring) : gostring := if is_empty (Getenv name) then fallback else Getenv name.

(** [buildSidecar]. *)
Definition buildSidecar (mode : gostring) (p : WebhookPolicy) (sidecarTargetFile : gostring) : Container :=
  let counters := pol_AuditMode p || pol_Stats p in
  {| c_Name := sidecarName; c_Image := env_or (go "AGENT_IMAGE") (go "pii-shield-agent:enterprise");
     c_ImagePullPolicy := go "IfNotPresent"; c_Command := [go "/pii-shield"];
     c_Args := [go "--watch-file"; sidecarTargetFile];
     c_Env := scannerEnv p ++ (if counters then if pol_AuditMode p then auditEnv else metricsEnv else []) ++
       [{| ev_Name := go "PII_CONFIG_FILE"; ev_Value := FilePath; ev_ValueFrom := None |}];
     c_Ports := if counters then [metrics_port] else [];
     c_VolumeMounts :=
       (if str_eqb mode (go "file") then [mount (go "pii-shared") (go "/shared") false; mount (go "pii-tmp") (go "/tmp") false]
        else if str_eqb mode (go "pipe") then [mount (go "pii-pipe-dir") (go "/shared") false; mount (go "pii-tmp") (go "/tmp") false]
        else []) ++ [mount VolumeName MountPath true];
     c_SecurityContext := Some
       {| RunAsUser := None; RunAsNonRoot := Some true; ReadOnlyRootFilesystem := Some true;
          AllowPrivilegeEscalation := Some false; cap_Drop := [go "ALL"]; cap_Add := [];
          SeccompProfile := Some (go "RuntimeDefault"); sc_rest := nothing |};
     c_StartupProbe := None; c_Resources := pol_Resources p; c_RestartPolicy := None; c_rest := nothing |}.

(** [ebpfAgentImage] and the agent of [injectEBPFMode]. *)
Definition ebpfAgentImage : gostring := env_or (go "EBPF_AGENT_IMAGE") (go "ghcr.io/pii-shield/pii-shield-ebpf:latest").

Definition ebpf_agent (p : WebhookPolicy) : Container :=
  {| c_Name := sidecarName; c_Image := ebpfAgentImage; c_ImagePullPolicy := go "IfNotPresent";
     c_Command := [go "/pii-shield-ebpf"]; c_Args := [go "--listen"; go ":" ++ FormatInt AuditMetricsPort];
     c_Env := scannerEnv p ++ [stats_env]; c_Ports := [metrics_port]; c_VolumeMounts := [];
     c_SecurityContext := Some
       {| RunAsUser := Some 0; RunAsNonRoot := Some false; ReadOnlyRootFilesystem := Some true;
          AllowPrivilegeEscalation := Some false; cap_Drop := [go "ALL"]; cap_Add := [go "BPF"; go "PERFMON"; go "SYS_RESOURCE"];
          SeccompProfile := Some (go "RuntimeDefault"); sc_rest := nothing |};
     c_StartupProbe := Some (HTTPGet (go "/healthz") AuditMetricsPortName 1 30);
     c_Resources := pol_Resources p; c_RestartPolicy := None; c_rest := nothing |}.

(** [policyVolume]. *)
Definition policyVolume (p : WebhookPolicy) : Volume :=
  {| v_Name := VolumeName; v_Source := ConfigMapVolume (ConfigMapName (pol_Name p)) true |}.

End environment.

(** ** The injection *)

Section injection.
Context `{KubernetesAPI} `{Float32}.
Context (Getenv : gostring -> gostring) (MarshalRules : list CustomRegexConfig -> gostring).
Context (LegacySidecarMode StrictMode : bool).

Definition with_containers (cs : list Container) (pod : Pod) : Pod := {|
  Labels := Labels pod; Annotations := Annotations pod; Containers := cs; InitContainers := InitContainers pod;
  Volumes := Volumes pod; PodSecurity := PodSecurity pod; ShareProcessNamespace := ShareProcessNamespace pod;
  pod_rest := pod_rest pod |}.

Definition with_init (cs : list Container) (pod : Pod) : Pod := {|
  Labels := Labels pod; Annotations := Annotations pod; Containers := Containers pod; InitContainers := cs;
  Volumes := Volumes pod; PodSecurity := PodSecurity pod; ShareProcessNamespace := ShareProcessNamespace pod;
  pod_rest := pod_rest pod |}.

(** The volumes added, and the file system group that lets the sidecar read them. *)
Definition with_volumes (vs : list Volume) (sec : PodSecurityContext) (pod : Pod) : Pod := {|
  Labels := Labels pod; Annotations := Annotations pod; Containers := Containers pod;
  InitContainers := InitContainers pod; Volumes := Volumes pod ++ vs; PodSecurity := Some sec;
  ShareProcessNamespace := ShareProcessNamespace pod; pod_rest := pod_rest pod |}.

Definition share_processes (pod : Pod) : Pod := {|
  Labels := Labels pod; Annotations := Annotations pod; Containers := Containers pod;
  InitContainers := InitContainers pod; Volumes := Volumes pod; PodSecurity := PodSecurity pod;
  ShareProcessNamespace := Some true; pod_rest := pod_rest pod |}.

Definition with_restart (policy : gostring) (c : Container) : Container := {|
  c_Name := c_Name c; c_Image := c_Image c; c_ImagePullPolicy := c_ImagePullPolicy c; c_Command := c_Command c;
  c_Args := c_Args c; c_Env := c_Env c; c_Ports := c_Ports c; c_VolumeMounts := c_VolumeMounts c;
  c_SecurityContext := c_SecurityContext c; c_StartupProbe := c_StartupProbe c; c_Resources := c_Resources c;
  c_RestartPolicy := Some policy; c_rest := c_rest c |}.

Definition with_env (env : list EnvVar) (c : Container) : Container := {|
  c_Name := c_Name c; c_Image := c_Image c; c_ImagePullPolicy := c_ImagePullPolicy c; c_Command := c_Command c;
  c_Args := c_Args c; c_Env := env; c_Ports := c_Ports c; c_VolumeMounts := c_VolumeMounts c;
  c_SecurityContext := c_SecurityContext c; c_StartupProbe := c_StartupProbe c; c_Resources := c_Resources c;
  c_RestartPolicy := c_RestartPolicy c; c_rest := c_rest c |}.

(** A container with another command line and one more mount. *)
Definition with_mount (command args : list gostring) (m : VolumeMount) (c : Container) : Container := {|
  c_Name := c_Name c; c_Image := c_Image c; c_ImagePullPolicy := c_ImagePullPolicy c; c_Command := command;
  c_Args := args; c_Env := c_Env c; c_Ports := c_Ports c; c_VolumeMounts := c_VolumeMounts c ++ [m];
  c_SecurityContext := c_SecurityContext c; c_StartupProbe := c_StartupProbe c; c_Resources := c_Resources c;
  c_RestartPolicy := c_RestartPolicy c; c_rest := c_rest c |}.

(** [getTargetContainerIndex]; [None] is -1. *)
Definition getTargetContainerIndex (pod : Pod) (targetName : gostring) : option nat :=
  if (length (Containers pod) =? 1)%nat then Some 0%nat
  else fst <$> list_find (fun c => c_Name c = targetName) (Containers pod).

(** The security context of the pod with a file system group. *)
Definition fs_group (pod : Pod) : PodSecurityContext :=
  let sec := default {| FSGroup := None; psc_rest := nothing |} (PodSecurity pod) in
  match FSGroup sec with
  | Some _ => sec
  | None => {| FSGroup := Some (default 65532 (Atoi (env_or Getenv (go "AGENT_FSGROUP") (go "65532")))); psc_rest := psc_rest sec |}
  end.

(** [addSidecar]. *)
Definition legacyMode `{Unicode} : bool :=
  str_eqb (ToLower (Getenv (go "LEGACY_SIDECAR_MODE"))) (go "true") || LegacySidecarMode.

Definition addSidecar `{Unicode} (sidecar : Container) (pod : Pod) : Pod :=
  if negb legacyMode then with_init (InitContainers pod ++ [with_restart (go "Always") sidecar]) pod
  else with_containers (Containers pod ++ [sidecar]) pod.

Definition empty_dir (name : gostring) : Volume := {| v_Name := name; v_Source := EmptyDir |}.

(** Where the log file is: the directory to mount in the container, and the file name. *)
Definition log_mount (p : WebhookPolicy) : gostring * gostring :=
  let logPath := if is_empty (pol_LogPath p) then go "/app/logs/log.txt" else pol_LogPath p in
  match LastIndexByte logPath (ch "/") with
  | None => (logPath, logPath)
  | Some i =>
    let dir := take i logPath in
    let file := drop (S i) logPath in
    (if is_empty dir then go "/" else dir, if is_empty file then go "log.txt" else file)
  end.

(** [injectFileMode]; [None] is an error. *)
Definition injectFileMode `{Unicode} (pod : Pod) (p : WebhookPolicy) (target : gostring) : option Pod :=
  i ← getTargetContainerIndex pod target;
  let pod := with_volumes [empty_dir (go "pii-shared"); empty_dir (go "pii-tmp"); policyVolume p] (fs_group pod) pod in
  let '(dir, file) := log_mount p in
  let pod := with_containers
    (alter (fun c => with_mount (c_Command c) (c_Args c) (mount (go "pii-shared") dir false) c) i (Containers pod)) pod in
  Some (addSidecar (buildSidecar Getenv MarshalRules (go "file") p (go "/shared/" ++ file)) pod).

Definition mkfifo : Container := {|
  c_Name := go "pii-mkfifo"; c_Image := go "alpine:3.20"; c_ImagePullPolicy := []; c_Command := [go "/bin/sh"; go "-c"];
  c_Args := [go "mkfifo /shared/log.pipe && chmod 666 /shared/log.pipe"]; c_Env := []; c_Ports := [];
  c_VolumeMounts := [mount (go "pii-pipe-dir") (go "/shared") false]; c_SecurityContext := None; c_StartupProbe := None;
  c_Resources := nothing; c_RestartPolicy := None; c_rest := nothing |}.

(** The command to run behind the pipe: the policy's, or the container's own. *)
Definition original_command (p : WebhookPolicy) (c : Container) : option gostring :=
  if negb (is_empty (pol_OriginalCommand p)) then Some (pol_OriginalCommand p)
  else if is_empty (c_Command c) then None
  else Some (Join (c_Command c) (go " ")).

(** [injectPipeMode]; [None] is an error. *)
Definition injectPipeMode `{Unicode} (pod : Pod) (p : WebhookPolicy) (target : gostring) : option Pod :=
  i ← getTargetContainerIndex pod target;
  let pod := with_volumes [empty_dir (go "pii-pipe-dir"); empty_dir (go "pii-tmp"); policyVolume p] (fs_group pod) pod in
  let pod := with_init (InitContainers pod ++ [mkfifo]) pod in
  c ← Containers pod !! i;
  origCmd ← original_command p c;
  let pod := with_containers
    (alter (with_mount [go "/bin/sh"; go "-c"] [go "exec " ++ origCmd ++ go " > /shared/log.pipe"]
              (mount (go "pii-pipe-dir") (go "/shared") false)) i (Containers pod)) pod in
  Some (addSidecar (buildSidecar Getenv MarshalRules (go "pipe") p (go "/shared/log.pipe")) pod).

(** [injectEBPFMode]. *)
Definition injectEBPFMode `{Unicode} (pod : Pod) (p : WebhookPolicy) : Pod :=
  addSidecar (ebpf_agent Getenv MarshalRules p) (share_processes pod).

(** [dropRuleEnv]. *)
Definition drop_rule_env (c : Container) : Container :=
  if str_eqb (c_Name c) sidecarName then with_env (filter (fun e => ev_Name e ∉ ruleEnvNames) (c_Env c)) c else c.

Definition dropRuleEnv (pod : Pod) : Pod :=
  with_containers (drop_rule_env <$> Containers pod) (with_init (drop_rule_env <$> InitContainers pod) pod).

(** [strictMode]. *)
Definition strictMode `{Unicode} : bool :=
  let v := ToLower (Getenv (go "STRICT_MODE")) in
  if str_eqb v (go "true") then true else if str_eqb v (go "false") then false else StrictMode.

(** ** The handler *)

Inductive warning := PolicyMissing | PipeExperimental | AgentObserves | AuditOnly.

Inductive denial := NoPolicy | NoTarget | AgentNeedsAudit.

Inductive admission :=
| Errored (code : Z)
| Allowed (warnings : list warning)
| Denied (reason : denial)
| Patched (pod : Pod) (warnings : list warning).

(** The request: the decoded pod ([None] when it cannot be decoded), the policies of
    the namespace, and the policy file in a ConfigMap ([None] when it cannot be read). *)
Record admissionRequest := {
  rq_pod : option Pod;
  rq_policy : gostring -> option WebhookPolicy;
  rq_configmap : gostring -> option gostring;
}.

(** [policyFileRendered]. *)
Definition policyFileRendered (r : admissionRequest) (p : WebhookPolicy) : bool :=
  match rq_configmap r (ConfigMapName (pol_Name p)) with
  | Some content => negb (is_empty content)
  | None => false
  end.

Definition mode_of (p : WebhookPolicy) : gostring :=
  if is_empty (pol_InjectionMode p) then go "file" else pol_InjectionMode p.

Definition warnings_of (mode : gostring) (p : WebhookPolicy) : list warning :=
  (if str_eqb mode (go "pipe") then [PipeExperimental] else []) ++
  (if str_eqb mode (go "ebpf") then [AgentObserves] else if pol_AuditMode p then [AuditOnly] else []).

(** The pod of each mode; [inl] is an error with its code. *)
Definition inject `{Unicode} (mode : gostring) (pod : Pod) (p : WebhookPolicy) (target : gostring) : Z + Pod :=
  let failed (o : option Pod) := match o with Some pod => inr pod | None => inl 500 end in
  if str_eqb mode (go "file") then failed (injectFileMode pod p target)
  else if str_eqb mode (go "pipe") then failed (injectPipeMode pod p target)
  else if str_eqb mode (go "ebpf") then inr (injectEBPFMode pod p)
  else inl 400.

(** The policy a pod asks for. *)
Definition policy_name (pod : Pod) : gostring :=
  let annotated := Annotations pod (go "pii-shield.io/policy") in
  if is_empty annotated then go "default" else annotated.

(** [Handle]. *)
Definition Handle `{Unicode} (r : admissionRequest) : admission :=
  match rq_pod r with
  | None => Errored 400
  | Some pod =>
    if negb (str_eqb (Labels pod (go "pii-shield.io/inject")) (go "true")) then Allowed []
    else
      match rq_policy r (policy_name pod) with
      | None => if strictMode then Denied NoPolicy else Allowed [PolicyMissing]
      | Some p =>
        let target := Annotations pod (go "pii-shield.io/target-container") in
        if (1 <? length (Containers pod))%nat && is_empty target then Denied NoTarget
        else
          let mode := mode_of p in
          if str_eqb mode (go "ebpf") && negb (pol_AuditMode p) then Denied AgentNeedsAudit
          else
            match inject mode pod p target with
            | inl code => Errored code
            | inr mutated =>
              let mutated := if negb (str_eqb mode (go "ebpf")) && policyFileRendered r p then dropRuleEnv mutated else mutated in
              Patched mutated (warnings_of mode p)
            end
      end
  end.

End injection.
