(* ===== verification/Output.v ===== *)
(** * The sanitised stream

    [cmd/cleaner/output.go]: the buffered writer between the scanner and standard
    output.  Its methods take the same lock, so that a run of the process is a
    sequence of them in some order.  The destination accepts every write: the
    code ignores write errors. *)

From Stdlib Require Import ZArith Lia Bool.
From stdpp Require Import base list option sets.
From S2P Require Import Prelude GoStrings.

Definition outputBufferSize : Z := 64 * 1024.

(** [time.Duration] in nanoseconds. *)
Definition Millisecond : Z := 1000000.
Definition defaultFlushInterval : Z := 50 * Millisecond.

(** [buf] is [None] when the writer is unbuffered; [dst] is everything the destination
    has received. *)
Record outputWriter := {
  dst : gostring;
  buf : option gostring;
  closed : bool;
}.

Definition len (s : gostring) : Z := Z.of_nat (length s).

(** [newOutputWriter]. *)
Definition newOutputWriter (interval : Z) : outputWriter :=
  {| dst := []; buf := if interval <=? 0 then None else Some []; closed := false |}.

(** [bufio.Writer.Write] with buffered bytes [b]: what is sent on and what is buffered
    after it.  What does not fit fills the buffer, which is flushed; what is left
    goes to the empty buffer, or past it when it is larger. *)
Definition bufio_Write (b p : gostring) : gostring * gostring :=
  let available := outputBufferSize - len b in
  if len p <=? available then ([], b ++ p)
  else if is_empty b then (p, [])
  else
    let sent := b ++ take (Z.to_nat available) p in
    let p := drop (Z.to_nat available) p in
    if len p <=? outputBufferSize then (sent, p) else (sent ++ p, []).

Definition Write (o : outputWriter) (p : gostring) : outputWriter :=
  match buf o with
  | Some b =>
    if closed o then {| dst := dst o ++ p; buf := buf o; closed := closed o |}
    else
      let '(sent, b') := bufio_Write b p in
      {| dst := dst o ++ sent; buf := Some b'; closed := closed o |}
  | None => {| dst := dst o ++ p; buf := None; closed := closed o |}
  end.

(** [flushLocked] and [Flush]; the timer of [run] calls it. *)
Definition Flush (o : outputWriter) : outputWriter :=
  match buf o with
  | Some b => {| dst := dst o ++ b; buf := Some []; closed := closed o |}
  | None => o
  end.

(** [Close]: flush, then write through. *)
Definition Close (o : outputWriter) : outputWriter :=
  let o := Flush o in {| dst := dst o; buf := buf o; closed := true |}.

(** [fmt.Fprintln(out, text)]. *)
Definition Fprintln (o : outputWriter) (text : gostring) : outputWriter := Write o (text ++ [newline]).

(** [writeMarker]. *)
Definition writeMarker (o : outputWriter) (marker : gostring) : outputWriter := Flush (Fprintln o marker).

(** ** Any order of calls *)

Inductive out_call :=
| CallWrite (p : gostring)
| CallFlush
| CallClose.

Definition out_step (o : outputWriter) (c : out_call) : outputWriter :=
  match c with
  | CallWrite p => Write o p
  | CallFlush => Flush o
  | CallClose => Close o
  end.

Definition out_run : outputWriter -> list out_call -> outputWriter := foldl out_step.

Definition call_bytes (c : out_call) : gostring := match c with CallWrite p => p | _ => [] end.

(** ** Nothing is lost, nothing is moved *)

(** What is accepted and not yet received. *)
Definition pending (o : outputWriter) : gostring := default [] (buf o).

(** Everything accepted, in order. *)
Definition accepted (o : outputWriter) : gostring := dst o ++ pending o.

Record out_wf (o : outputWriter) : Prop := {
  wf_small : len (pending o) <= outputBufferSize;
  wf_closed : closed o = true -> pending o = [];
}.

Lemma out_wf_new interval : out_wf (newOutputWriter interval).
Proof. unfold newOutputWriter. by destruct (interval <=? 0). Qed.

Lemma bufio_Write_bytes b p : (bufio_Write b p).1 ++ (bufio_Write b p).2 = b ++ p.
Proof.
  unfold bufio_Write. destruct (len p <=? _); [done|]. destruct b as [|x b]; [by rewrite app_nil_r|]. simpl is_empty.
  cbv iota. destruct (len (drop _ p) <=? _); simpl; rewrite <-?app_assoc, ?take_drop, ?app_nil_r; [done|].
  by rewrite take_drop.
Qed.

Lemma bufio_Write_small b p : len (bufio_Write b p).2 <= outputBufferSize.
Proof.
  unfold bufio_Write. destruct (len p <=? _) eqn:E; [|destruct (is_empty b); [done|]].
  - apply Z.leb_le in E. unfold len in *. simpl. rewrite length_app. lia.
  - destruct (len (drop _ p) <=? _) eqn:E'; [by apply Z.leb_le|done].
Qed.

Lemma accepted_step o c : out_wf o -> accepted (out_step o c) = accepted o ++ call_bytes c.
Proof.
  intros [Hs Hc]. destruct o as [d [b|] cl], c as [p| |]; unfold accepted, pending in *; simpl in *; rewrite ?app_nil_r; try done.
  unfold Write; simpl. destruct cl; simpl.
  - rewrite Hc by done. by rewrite !app_nil_r.
  - pose proof (bufio_Write_bytes b p) as Hb. destruct (bufio_Write b p) as [sent b']. simpl in *.
    by rewrite <-!app_assoc, Hb.
Qed.

Lemma out_wf_step o c : out_wf o -> out_wf (out_step o c).
Proof.
  intros [Hs Hc]. destruct o as [d [b|] cl], c as [p| |]; unfold pending in *; simpl in *; try done.
  unfold Write; simpl. destruct cl; [done|].
  pose proof (bufio_Write_small b p). destruct (bufio_Write b p). by split.
Qed.

(** After a flush or a close everything accepted has been received. *)
Lemma flushed o c : c = CallFlush \/ c = CallClose -> pending (out_step o c) = [].
Proof. intros [-> | ->]; destruct o as [d [b|] cl]; done. Qed.

Lemma settled o : pending o = [] -> dst o = accepted o.
Proof. intros Hp. unfold accepted. by rewrite Hp, app_nil_r. Qed.

Lemma flush_settles o c : out_wf o -> c = CallFlush \/ c = CallClose -> dst (out_step o c) = accepted o.
Proof.
  intros Ho Hc. rewrite settled by (by apply flushed). rewrite accepted_step by done.
  destruct Hc as [-> | ->]; apply app_nil_r.
Qed.

Lemma out_run_accepted o cs :
  out_wf o -> accepted (out_run o cs) = accepted o ++ concat (call_bytes <$> cs) /\ out_wf (out_run o cs).
Proof.
  revert o. induction cs as [|c cs IH]; intros o Ho; simpl; [by rewrite app_nil_r|].
  destruct (IH _ (out_wf_step o c Ho)) as [H1 H2]. split; [|done]. by rewrite H1, accepted_step, <-app_assoc.
Qed.

(** A closed writer stays closed. *)
Lemma out_run_closed o cs : closed o = true -> closed (out_run o cs) = true.
Proof.
  revert o. induction cs as [|c cs IH]; intros o Ho; simpl; [done|]. apply IH.
  destruct o as [d [b|] cl], c; simpl in *; subst; done.
Qed.
