(* ===== verification/Cleaner.v ===== *)
(** * The sidecar

    [cmd/cleaner]: lines are read from a stream, scanned under the active
    configuration and written out; a policy file is re-read while the process runs.
    Reads, reloads and the flush timer interleave, so a run of the process is a
    sequence of events.  The metrics are in [Metrics], the sources of lines and the ends of
    the process in [CleanerMain]; logging is not modelled. *)

From Stdlib Require Import ZArith Lia Bool SpecFloat.
From stdpp Require Import base list option sets.
From S2P Require Import Prelude GoStrings Sha256 Float64 Regex KeyMatcher Config Entropy Adaptive Machine Engine.
From S2P Require Import Redaction Scanner ConfigSources ConfigProofs ScannerProofs Stats Output.

(** ** Settings from the environment *)

Definition modeRedact : gostring := go "redact".
Definition modeAudit : gostring := go "audit".

(** [parseMode]: the mode, and whether the value was one. *)
Definition parseMode `{Unicode} (raw : gostring) : gostring * bool :=
  let m := ToLower (TrimSpace raw) in
  if in_words m [[]; modeRedact] then (modeRedact, true)
  else if str_eqb m modeAudit then (modeAudit, true)
  else (modeRedact, false).

(** [parseFlushInterval]. *)
Definition parseFlushInterval `{GoDecoders} (raw : gostring) : Z * bool :=
  if is_empty raw then (defaultFlushInterval, true)
  else if str_eqb raw (go "0") then (0, true)
  else
    match ParseDuration raw with
    | Some d => if d <? 0 then (defaultFlushInterval, false) else (d, true)
    | None => (defaultFlushInterval, false)
    end.

(** [parseStatsInterval]. *)
Definition parseStatsInterval `{GoDecoders} (raw : gostring) : Z :=
  if is_empty (TrimSpace raw) then 0
  else
    match ParseDuration (TrimSpace raw) with
    | Some d => if d <=? 0 then 0 else d
    | None => 0
    end.

(** A 64-bit [int] after a product. *)
Definition int64 (n : Z) : Z := (n + 2 ^ 63) mod 2 ^ 64 - 2 ^ 63.

Definition Second : Z := 1000 * Millisecond.
Definition defaultPolicyReloadInterval : Z := 10 * Second.

(** [parseReloadInterval]. *)
Definition parseReloadInterval (raw : gostring) : option Z :=
  let raw := TrimSpace raw in
  if is_empty raw then Some defaultPolicyReloadInterval
  else n ← Atoi raw; if n <? 0 then None else Some (int64 (n * Second)).

(** [resolveMetricsPort]. *)
Definition resolveMetricsPort (raw : gostring) : option gostring :=
  if is_empty raw then Some (go "9090")
  else n ← Atoi raw; if (n <? 1) || (65535 <? n) then None else Some raw.

(** What [main] reads once: the fail policy ("open" when unset) and the mode. *)
Record settings := { failPolicy : gostring; auditMode : bool }.

Definition read_settings `{Unicode} (Getenv : gostring -> gostring) : settings := {|
  failPolicy := if is_empty (Getenv (go "PII_FAIL_POLICY")) then go "open" else Getenv (go "PII_FAIL_POLICY");
  auditMode := str_eqb (parseMode (Getenv (go "PII_MODE"))).1 modeAudit |}.

Definition drops (cfg : settings) : bool := str_eqb (failPolicy cfg) (go "closed") && negb (auditMode cfg).

(** [overflowMarker]. *)
Definition overflowMarker (cfg : settings) : gostring :=
  if drops cfg then go "[PII_SHIELD_DROP: BUFFER_OVERFLOW]"
  else go "[PII_SHIELD_WARN: BUFFER_OVERFLOW, STREAM_BROKEN]".

Definition dropMarker : gostring := go "[PII_SHIELD_DROP: FATAL_ERROR]".

(** ** One line *)

(** The state of the process: the adaptive baseline shared by all scans, the output
    and the counters, when they are on. *)
Record process := {
  p_baseline : BaselineStats;
  p_out : outputWriter;
  p_stats : option statsCollector;
}.

Section line.
Context `{RT : GoRuntime} (cfg : settings).

(** The callback: one counted redaction per report. *)
Definition count_reports (reports : list gostring) (s : statsCollector) : statsCollector :=
  foldl (fun s r => recordRedaction r s) s reports.

(** [processLine] under the snapshot [st]; a panic is recovered, after what it had
    done to the baseline and the counters. *)
Definition processLine (st : configState) (text : gostring) (p : process) : process :=
  let stats := recordLine (len text) <$> p_stats p in
  match ScanAndRedact st text {| sb := []; baseline := p_baseline p; callbacks := [] |} with
  | Ok cleaned s =>
    let stats := count_reports (callbacks s) <$> stats in
    if auditMode cfg then
      {| p_baseline := baseline s; p_out := Fprintln (p_out p) text;
         p_stats := recordAuditLine (negb (str_eqb cleaned text)) <$> stats |}
    else {| p_baseline := baseline s; p_out := Fprintln (p_out p) cleaned; p_stats := stats |}
  | Panic s =>
    {| p_baseline := baseline s;
       p_out := if drops cfg then writeMarker (p_out p) dropMarker else Fprintln (p_out p) text;
       p_stats := count_reports (callbacks s) <$> stats |}
  | NoFuel => p
  end.

End line.

(** ** Lines of a stream *)

(** The largest token of the [bufio.Scanner]. *)
Definition maxTokenSize : Z := 10 * 1024 * 1024.

Definition dropCR (line : gostring) : gostring :=
  if HasSuffix line [13] then take (length line - 1) line else line.

(** [bufio.Scanner] with [ScanLines]: the lines of the input, and whether it stopped at
    one that does not fit its buffer. *)
Fixpoint scan_lines (fuel : nat) (input : gostring) : list gostring * bool :=
  match fuel with
  | O => ([], false)
  | S f =>
    if is_empty input then ([], false)
    else
      let '(line, rest) :=
        match IndexByte input newline with
        | Some i => (take i input, drop (S i) input)
        | None => (input, [])
        end in
      if maxTokenSize <=? len line then ([], true)
      else let '(lines, too_long) := scan_lines f rest in (dropCR line :: lines, too_long)
  end.

(** [streamPipeOnce] and the loop over standard input, on what is read until the end of
    the stream. *)
Definition streamPipeOnce `{GoRuntime} (cfg : settings) (st : configState) (input : gostring) (p : process) : process :=
  let '(lines, too_long) := scan_lines (length input) input in
  let p := foldl (fun p l => processLine cfg st l p) p lines in
  if too_long : bool
  then {| p_baseline := p_baseline p; p_out := writeMarker (p_out p) (overflowMarker cfg); p_stats := p_stats p |}
  else p.

(** ** The policy file *)

(** [seen] is the modification time and size of the file as last examined. *)
Record policyReloader := {
  rSalt : gostring;
  seen : option (Z * Z);
  missingLogged : bool;
  revision : gostring;
}.

Section reload.
Context `{RegexpCompiler} `{Unicode} `{GoDecoders} (Getenv : gostring -> gostring).

(** [newPolicyReloader]: the reloader and the configuration it publishes; [fresh] is what
    [randomSalt] returns and [None] the panic on a weak salt. *)
Definition newPolicyReloader (fresh : gostring) : option (policyReloader * configState) :=
  base ← ApplyEnvOverrides Getenv fresh DefaultConfig;
  Some ({| rSalt := Salt base; seen := None; missingLogged := false; revision := [] |}, buildConfigState base).

(** What a check finds: [os.Stat] (modification time and size) and the content, [None]
    where the file cannot be examined or read. *)
Record file_view := { fv_stat : option (Z * Z); fv_content : option gostring }.

(** [check]: the reloader, the active configuration, and whether it was published. *)
Definition check (fresh : gostring) (f : file_view) (r : policyReloader) (active : configState) :
    option (policyReloader * configState * bool) :=
  match fv_stat f with
  | None => Some ({| rSalt := rSalt r; seen := seen r; missingLogged := true; revision := revision r |}, active, false)
  | Some stat =>
    let r := {| rSalt := rSalt r; seen := seen r; missingLogged := false; revision := revision r |} in
    if bool_decide (seen r = Some stat) then Some (r, active, false)
    else
      let r := {| rSalt := rSalt r; seen := Some stat; missingLogged := false; revision := revision r |} in
      match LoadPolicyFile (fv_content f) with
      | inl _ => Some (r, active, false)
      | inr (cfg, rev) =>
        cfg ← ApplyEnvOverrides Getenv fresh (set_Salt (rSalt r) cfg);
        Some ({| rSalt := rSalt r; seen := seen r; missingLogged := false; revision := rev |},
              buildConfigState cfg, true)
      end
  end.

End reload.

(** ** A run of the process *)

(** A check comes with what [randomSalt] would return during it. *)
Inductive event :=
| EvLine (text : gostring)
| EvCheck (fresh : gostring) (f : file_view)
| EvFlush.

Record sidecar := {
  s_process : process;
  s_reloader : policyReloader;
  s_active : configState;
}.

Section run.
Context `{RT : GoRuntime} `{RegexpCompiler} `{GoDecoders} (Getenv : gostring -> gostring).
Notation cfg := (read_settings Getenv).

(** One event; [None] is a panic outside a line, which ends the process. *)
Definition sidecar_step (s : sidecar) (e : event) : option sidecar :=
  match e with
  | EvLine text =>
    Some {| s_process := processLine cfg (s_active s) text (s_process s);
            s_reloader := s_reloader s; s_active := s_active s |}
  | EvCheck fresh f =>
    '(r, active, _) ← check Getenv fresh f (s_reloader s) (s_active s);
    Some {| s_process := s_process s; s_reloader := r; s_active := active |}
  | EvFlush =>
    let p := s_process s in
    Some {| s_process := {| p_baseline := p_baseline p; p_out := Flush (p_out p); p_stats := p_stats p |};
            s_reloader := s_reloader s; s_active := s_active s |}
  end.

Fixpoint sidecar_run (s : sidecar) (es : list event) : option sidecar :=
  match es with
  | [] => Some s
  | e :: es' => s' ← sidecar_step s e; sidecar_run s' es'
  end.

(** The process at its start, with a policy file. *)
Definition sidecar_start (fresh : gostring) (flush_interval : Z) (stats : bool) : option sidecar :=
  '(r, active) ← newPolicyReloader Getenv fresh;
  Some {| s_process := {| p_baseline := newBaselineStats 100; p_out := newOutputWriter flush_interval;
                          p_stats := if stats then Some newStatsCollector else None |};
          s_reloader := r; s_active := active |}.

End run.

(** ** Runs of the sidecar

    Every run, whatever the order of lines, policy checks and flushes: what was
    written for each line, what was counted, and which configurations were active. *)

(** ** Counters as sums *)

(** Equality modulo the width of a counter. *)
Definition eq64 (a b : Z) : Prop := u64 a = u64 b.

#[export] Instance eq64_equivalence : Equivalence eq64.
Proof. split; congruence. Qed.

#[export] Instance eq64_add : Proper (eq64 ==> eq64 ==> eq64) Z.add.
Proof.
  intros a a' Ha b b' Hb. unfold eq64, u64 in *. by rewrite (Zplus_mod a b), (Zplus_mod a' b'), Ha, Hb.
Qed.

Lemma eq64_u64 a : eq64 (u64 a) a.
Proof. apply Zmod_mod. Qed.

(** Two sums of counters that agree once the wrap-arounds are dropped. *)
Ltac counters := match goal with |- u64 ?a = u64 ?b => change (eq64 a b) end;
  rewrite ?eq64_u64; unfold eq64; f_equal; lia.

(** All redactions of any kind, modulo the width of the counters. *)
Definition redactions (s : statsCollector) : Z :=
  u64 (s_entropy s + s_regex s + s_luhn s + s_signature s + s_key s + s_other s).

Lemma redactions_bump e r l g k o x y z s :
  redactions (bump e r l g k o x y z s) = u64 (redactions s + (e + r + l + g + k + o)).
Proof. unfold redactions, bump; simpl. counters. Qed.

Lemma recordRedaction_counts r s :
  redactions (recordRedaction r s) = u64 (redactions s + 1) /\
  s_lines (recordRedaction r s) = u64 (s_lines s) /\ s_bytes (recordRedaction r s) = u64 (s_bytes s) /\
  s_wouldRedact (recordRedaction r s) = u64 (s_wouldRedact s).
Proof.
  unfold recordRedaction. repeat case_match; rewrite redactions_bump; simpl; rewrite ?Z.add_0_r; split_and!;
    done || (f_equal; lia).
Qed.

(** How far the counters of [s'] are ahead of those of [s]. *)
Definition counted (lines bytes red would : Z) (s s' : statsCollector) : Prop :=
  eq64 (s_lines s') (s_lines s + lines) /\ eq64 (s_bytes s') (s_bytes s + bytes) /\
  eq64 (redactions s') (redactions s + red) /\ eq64 (s_wouldRedact s') (s_wouldRedact s + would).

Lemma counted_refl s : counted 0 0 0 0 s s.
Proof. unfold counted. by rewrite !Z.add_0_r. Qed.

Lemma counted_trans l b r w l' b' r' w' s1 s2 s3 :
  counted l b r w s1 s2 -> counted l' b' r' w' s2 s3 -> counted (l + l') (b + b') (r + r') (w + w') s1 s3.
Proof.
  intros (H1 & H2 & H3 & H4) (K1 & K2 & K3 & K4). unfold counted. rewrite K1, K2, K3, K4, H1, H2, H3, H4.
  by rewrite !Z.add_assoc.
Qed.

Lemma counted_then s2 l b r w l' b' r' w' L B R W s1 s3 :
  counted l b r w s1 s2 -> counted l' b' r' w' s2 s3 ->
  L = l + l' -> B = b + b' -> R = r + r' -> W = w + w' -> counted L B R W s1 s3.
Proof. intros ? ? -> -> -> ->. by eapply counted_trans. Qed.

Lemma counted_report r s : counted 0 0 1 0 s (recordRedaction r s).
Proof.
  destruct (recordRedaction_counts r s) as (H1 & H2 & H3 & H4). unfold counted.
  rewrite H1, H2, H3, H4, !Z.add_0_r, !eq64_u64. by split_and!.
Qed.

Lemma counted_reports rs s : counted 0 0 (Z.of_nat (length rs)) 0 s (count_reports rs s).
Proof.
  revert s. induction rs as [|r rs IH]; intros s; simpl; [apply counted_refl|].
  eapply counted_then; [apply counted_report|apply IH|lia..].
Qed.

Lemma counted_line n s : 0 <= n -> counted 1 n 0 0 s (recordLine n s).
Proof.
  intros Hn. unfold recordLine, counted. destruct (0 <? n) eqn:E; simpl; rewrite ?redactions_bump, ?eq64_u64, ?Z.add_0_r.
  - by split_and!.
  - apply Z.ltb_ge in E. replace n with 0 by lia. by rewrite Z.add_0_r.
Qed.

Lemma counted_audit b s : counted 0 0 0 (Z.b2z b) s (recordAuditLine b s).
Proof.
  unfold recordAuditLine, counted. destruct b; simpl; rewrite ?redactions_bump, ?eq64_u64, ?Z.add_0_r; by split_and!.
Qed.

(** ** What is written for a line *)

(** A line as the process saw it: its text, what the scan returned ([None] when it
    panicked) and the redactions it reported. *)
Record line_log := { l_text : gostring; l_scan : option gostring; l_reports : nat }.

(** What is logged is what [ScanAndRedact] did to the line under [st], from some state
    of the adaptive baseline. *)
Definition line_scanned `{GoRuntime} (st : configState) (l : line_log) : Prop :=
  exists base, match ScanAndRedact st (l_text l) {| sb := []; baseline := base; callbacks := [] |} with
  | Ok cleaned s => l_scan l = Some cleaned /\ l_reports l = length (callbacks s)
  | Panic s => l_scan l = None /\ l_reports l = length (callbacks s)
  | NoFuel => False
  end.

(** The scan returned a redacted form with no more markers than reports, or panicked
    on a text that is not tame. *)
Definition line_redacted `{GoRuntime} (st : configState) (l : line_log) : Prop :=
  match l_scan l with
  | Some cleaned => exists n, Redacts st n (l_text l) cleaned /\ (n <= l_reports l)%nat
  | None => tame (l_text l) = false
  end.

(** What the fail policy and the mode make of it. *)
Definition line_out (cfg : settings) (l : line_log) : gostring :=
  match l_scan l with
  | Some cleaned => if auditMode cfg then l_text l else cleaned
  | None => if drops cfg then dropMarker else l_text l
  end.

(** A plain line goes out as one line, when no name of a rule holds a line break. *)
Definition stays_one_line `{GoRuntime} (cfg : settings) (st : configState) (l : line_log) : Prop :=
  plain (l_text l) = true -> names_one_line st -> no_newline (l_text l) -> no_newline (line_out cfg l).

Definition would_redact (cfg : settings) (l : line_log) : bool :=
  match l_scan l with Some cleaned => auditMode cfg && negb (str_eqb cleaned (l_text l)) | None => false end.

(** Lines written one after the other, each with its line break. *)
Definition stream (outs : list gostring) : gostring := concat ((fun o => o ++ [newline]) <$> outs).

(** The counters after the lines of a log. *)
Definition log_counted (cfg : settings) (log : list line_log) : statsCollector -> statsCollector -> Prop :=
  counted (Z.of_nat (length log)) (foldr Z.add 0 ((fun l => len (l_text l)) <$> log))
    (foldr Z.add 0 ((fun l => Z.of_nat (l_reports l)) <$> log))
    (foldr Z.add 0 ((fun l => Z.b2z (would_redact cfg l)) <$> log)).

Lemma log_counted_nil cfg s : log_counted cfg [] s s.
Proof. apply counted_refl. Qed.

Lemma log_counted_cons cfg l log s1 s2 s3 :
  counted 1 (len (l_text l)) (Z.of_nat (l_reports l)) (Z.b2z (would_redact cfg l)) s1 s2 ->
  log_counted cfg log s2 s3 -> log_counted cfg (l :: log) s1 s3.
Proof.
  intros H1 H2. unfold log_counted. simpl length. rewrite Nat2Z.inj_succ, <-Z.add_1_l. simpl. by eapply counted_trans.
Qed.

(** The counters of a process, when it keeps any. *)
Definition stats_rel (R : statsCollector -> statsCollector -> Prop) (p p' : process) : Prop :=
  option_Forall2 R (p_stats p) (p_stats p').

Lemma stats_rel_trans (R S T : statsCollector -> statsCollector -> Prop) p1 p2 p3 :
  (forall a b c, R a b -> S b c -> T a c) -> stats_rel R p1 p2 -> stats_rel S p2 p3 -> stats_rel T p1 p3.
Proof.
  intros HT H1 H2. unfold stats_rel in *. destruct H1 as [a b H1|]; inversion H2; subst; constructor; eauto.
Qed.

Lemma Fprintln_accepted o text :
  out_wf o -> accepted (Fprintln o text) = accepted o ++ text ++ [newline] /\ out_wf (Fprintln o text).
Proof.
  intros Ho. split; [apply (accepted_step o (CallWrite _) Ho)|apply (out_wf_step o (CallWrite _) Ho)].
Qed.

Lemma writeMarker_accepted o text :
  out_wf o -> accepted (writeMarker o text) = accepted o ++ text ++ [newline] /\ out_wf (writeMarker o text).
Proof.
  intros Ho. destruct (Fprintln_accepted o text Ho) as [Ha Hw]. unfold writeMarker. split.
  - change (Flush ?o) with (out_step o CallFlush). by rewrite accepted_step, app_nil_r.
  - apply (out_wf_step _ CallFlush Hw).
Qed.

Section line.
Context `{RT : GoRuntime} (cfg : settings).

Lemma line_scanned_spec st l : line_scanned st l -> line_redacted st l /\ stays_one_line cfg st l.
Proof.
  intros [base Hl]. assert (line_redacted st l) as Hr.
  { pose proof (ScanAndRedact_spec st (l_text l) {| sb := []; baseline := base; callbacks := [] |}) as Hs. unfold line_redacted.
    destruct (ScanAndRedact _ _ _) as [cleaned s|s|]; [| |done]; destruct Hl as [-> Hn'].
    - destruct Hs as (n & HR & _ & _ & Hn & _). exists n. rewrite Hn'. by split.
    - by destruct Hs. }
  split; [done|]. intros Hp Hnames Hn. unfold line_redacted in Hr. unfold line_out. destruct (l_scan l) as [cleaned|].
  - destruct Hr as (n & HR & _). destruct (auditMode cfg); [done|]. by eapply Redacts_one_line.
  - destruct (drops cfg); [|done]. unfold no_newline, dropMarker, newline. simpl. lia.
Qed.

Lemma processLine_log st text p :
  out_wf (p_out p) ->
  exists l, l_text l = text /\ line_scanned st l /\
    accepted (p_out (processLine cfg st text p)) = accepted (p_out p) ++ line_out cfg l ++ [newline] /\
    out_wf (p_out (processLine cfg st text p)) /\
    stats_rel (counted 1 (len text) (Z.of_nat (l_reports l)) (Z.b2z (would_redact cfg l))) p (processLine cfg st text p).
Proof.
  intros Ho. unfold processLine.
  pose proof (ScanAndRedact_spec st text {| sb := []; baseline := p_baseline p; callbacks := [] |}) as Hs.
  assert (forall rs s, counted 1 (len text) (Z.of_nat (length rs)) 0 s (count_reports rs (recordLine (len text) s))) as Hcount.
  { intros rs s. eapply (counted_then (recordLine (len text) s)); [apply counted_line; unfold len; lia|apply counted_reports|lia..]. }
  destruct (ScanAndRedact _ _ _) as [cleaned s|s|] eqn:Escan; [| |done].
  - exists {| l_text := text; l_scan := Some cleaned; l_reports := length (callbacks s) |}.
    unfold line_scanned, line_out, would_redact, stats_rel; simpl. split; [done|]. split; [exists (p_baseline p); by rewrite Escan|].
    destruct (auditMode cfg); simpl; (split_and!; [by apply Fprintln_accepted..|]); destruct (p_stats p) as [s0|]; constructor.
    + eapply counted_then; [apply Hcount|apply counted_audit|lia..].
    + apply Hcount.
  - exists {| l_text := text; l_scan := None; l_reports := length (callbacks s) |}.
    unfold line_scanned, line_out, would_redact, stats_rel; simpl. split; [done|]. split; [exists (p_baseline p); by rewrite Escan|].
    destruct (drops cfg); (split_and!; [by (apply Fprintln_accepted || apply writeMarker_accepted)..|]);
      destruct (p_stats p) as [s0|]; constructor; apply Hcount.
Qed.

End line.

(** ** Runs *)

Section run.
Context `{RT : GoRuntime} `{RegexpCompiler} `{GoDecoders} (Getenv : gostring -> gostring).
Notation cfg := (read_settings Getenv).

Definition lines_of (es : list event) : list gostring :=
  omap (fun e => match e with EvLine t => Some t | _ => None end) es.

(** The salt of a process that started: not empty, and that of the environment when it
    sets one. *)
Definition process_salt (salt : gostring) : Prop :=
  weak_salt Getenv = false /\ salt <> [] /\ (Getenv (go "PII_SALT") = [] \/ Getenv (go "PII_SALT") = salt).

Lemma process_salt_kept salt fresh c : process_salt salt -> env_salt_of Getenv fresh (set_Salt salt c) = salt.
Proof.
  intros (_ & Hne & [He|He]); unfold env_salt_of; rewrite He; simpl; [by destruct salt|by destruct salt].
Qed.

(** A snapshot made for a process with this salt. *)
Definition active_ok (salt : gostring) (st : configState) : Prop :=
  Salt (config st) = salt /\ config_wf (config st).

Lemma lines_scanned_spec salt log :
  Forall (fun l => exists st, active_ok salt st /\ line_scanned st l) log ->
  Forall (fun l => exists st, active_ok salt st /\ line_scanned st l /\ line_redacted st l /\ stays_one_line cfg st l) log.
Proof.
  intros Hl. eapply Forall_impl; [exact Hl|]. intros l (st & Ha & Hs). exists st. destruct (line_scanned_spec cfg st l Hs). by split_and!.
Qed.

Lemma check_ok salt fresh f r active :
  process_salt salt -> rSalt r = salt -> active_ok salt active ->
  exists r' active' b, check Getenv fresh f r active = Some (r', active', b) /\ rSalt r' = salt /\ active_ok salt active'.
Proof.
  intros Hp Hr Ha. unfold check. destruct (fv_stat f) as [stat|]; [|eauto 10].
  simpl. case_bool_decide; [eauto 10|].
  destruct (LoadPolicyFile (fv_content f)) as [e|[c rev]] eqn:El; [eauto 10|].
  apply LoadPolicyFile_ok in El as (pf & Hv & -> & _).
  rewrite ApplyEnvOverrides_eq, (proj1 Hp), Hr. simpl. eexists _, _, _. split; [reflexivity|]. split; [done|].
  rewrite process_salt_kept by done. split; [done|]. simpl. apply env_spec_wf.
  destruct (policy_spec_wf _ Hv). by split.
Qed.

Record side_inv (salt : gostring) (s : sidecar) : Prop := {
  si_out : out_wf (p_out (s_process s));
  si_salt : rSalt (s_reloader s) = salt;
  si_active : active_ok salt (s_active s);
}.

Lemma sidecar_start_inv fresh interval stats s :
  fresh <> [] -> sidecar_start Getenv fresh interval stats = Some s ->
  exists salt, process_salt salt /\ side_inv salt s /\ accepted (p_out (s_process s)) = [] /\
    p_stats (s_process s) = if stats then Some newStatsCollector else None.
Proof.
  intros Hf. unfold sidecar_start, newPolicyReloader. rewrite ApplyEnvOverrides_eq.
  destruct (weak_salt Getenv) eqn:Ew; [done|]. simpl. intros [= <-]. simpl.
  exists (env_salt_of Getenv fresh DefaultConfig). split_and!; [| |by unfold newOutputWriter; destruct (interval <=? 0)|done].
  - unfold process_salt, env_salt_of. split; [done|]. simpl. destruct (Getenv (go "PII_SALT")); simpl; auto.
  - split; simpl; [apply out_wf_new|done|]. split; [done|]. apply env_spec_wf. by split.
Qed.

(** A run never ends by itself, and its log explains the output and the counters. *)
Lemma sidecar_run_log salt s es :
  process_salt salt -> side_inv salt s ->
  exists s' log, sidecar_run Getenv s es = Some s' /\ side_inv salt s' /\ l_text <$> log = lines_of es /\
    Forall (fun l => exists st, active_ok salt st /\ line_scanned st l) log /\
    accepted (p_out (s_process s')) = accepted (p_out (s_process s)) ++ stream (line_out cfg <$> log) /\
    stats_rel (log_counted cfg log) (s_process s) (s_process s').
Proof.
  intros Hp. revert s. induction es as [|e es IH]; intros s [Ho Hr Ha].
  - exists s, []. unfold stream, stats_rel. simpl. rewrite app_nil_r. split_and!; try done.
    destruct (p_stats _); constructor. apply log_counted_nil.
  - destruct e as [text|fresh f|]; simpl.
    + destruct (processLine_log cfg (s_active s) text (s_process s) Ho) as (l & Hl & Hs & Hacc & Hw & Hst).
      destruct (IH {| s_process := processLine cfg (s_active s) text (s_process s);
        s_reloader := s_reloader s; s_active := s_active s |}) as (s' & log & Hrun & Hi & Ht & Hf & Hout & Hcnt); [by split|].
      exists s', (l :: log). simpl in *. split_and!; try done.
      * change (l_text l :: (l_text <$> log) = text :: lines_of es). by rewrite Hl, Ht.
      * constructor; [eauto|done].
      * rewrite Hout, Hacc, <-!app_assoc. unfold stream. simpl. by rewrite <-app_assoc.
      * eapply stats_rel_trans; [|exact Hst|exact Hcnt]. intros a b c. rewrite <-Hl. apply log_counted_cons.
    + destruct (check_ok salt fresh f (s_reloader s) (s_active s)) as (r' & a' & b & -> & Hr' & Ha'); [done..|]. simpl.
      apply (IH {| s_process := s_process s; s_reloader := r'; s_active := a' |}). by split.
    + destruct (IH {| s_process := {| p_baseline := p_baseline (s_process s); p_out := Flush (p_out (s_process s));
        p_stats := p_stats (s_process s) |}; s_reloader := s_reloader s; s_active := s_active s |})
        as (s' & log & Hrun & Hi & Ht & Hf & Hout & Hcnt); [split; [apply (out_wf_step _ CallFlush Ho)|done|done]|].
      exists s', log. simpl in *. split_and!; try done.
      rewrite Hout. f_equal. change (Flush ?o) with (out_step o CallFlush). by rewrite accepted_step, app_nil_r.
Qed.

End run.

(** ** Streams of lines *)

Lemma dropCR_id line : ~ In 13 line -> dropCR line = line.
Proof.
  intros Hn. unfold dropCR. destruct (HasSuffix line [13]) eqn:E; [|done]. apply HasSuffix_app in E as [s ->].
  destruct Hn. apply in_or_app. right. by left.
Qed.

(** The text ends with a line break, or there is none. *)
Definition ends_line (s : gostring) : Prop := s = [] \/ exists s', s = s' ++ [newline].

Lemma ends_line_tail a s : ends_line (a ++ newline :: s) -> ends_line s.
Proof.
  intros [H|[s' H]]; [by destruct a|]. destruct s as [|x s _] using rev_ind; [by left|]. right. exists s.
  change (a ++ newline :: s ++ [x]) with (a ++ (newline :: s) ++ [x]) in H. rewrite app_assoc in H.
  by apply app_inj_tail in H as [_ ->].
Qed.

(** The lines of a text that ends with a line break, written back, are the text. *)
Lemma scan_lines_stream fuel input lines :
  (length input <= fuel)%nat -> ~ In 13 input -> ends_line input ->
  scan_lines fuel input = (lines, false) -> stream lines = input.
Proof.
  revert input lines. induction fuel as [|f IH]; intros input lines Hf Hcr He Hs.
  - destruct input; [|simpl in Hf; lia]. by injection Hs as <-.
  - simpl in Hs. destruct (is_empty input) eqn:Ee; [destruct input; [by injection Hs as <-|done]|].
    destruct (IndexByte input newline) as [i|] eqn:Ei.
    + destruct (maxTokenSize <=? _); [done|]. apply IndexByte_split in Ei as Hi. set (line := take i input) in *.
      set (rest := drop (S i) input) in *.
      destruct (scan_lines f rest) as [ls tl] eqn:Er. injection Hs as <- ->. rewrite Hi in Hcr, He |- *.
      rewrite dropCR_id by (intros ?; apply Hcr, in_or_app; by left).
      unfold stream. simpl. rewrite <-app_assoc. simpl. do 2 f_equal. apply (IH rest); [|..].
      * unfold rest. rewrite length_drop. apply IndexByte_lt in Ei. lia.
      * intros ?. apply Hcr, in_or_app. right. by right.
      * by eapply ends_line_tail.
      * done.
    + apply IndexByte_None in Ei. exfalso. destruct He as [->|[s' ->]]; [done|]. apply Ei, in_or_app. right. by left.
Qed.

Section pipe.
Context `{RT : GoRuntime} (cfg : settings) (st : configState).

Lemma processLines_log lines p :
  out_wf (p_out p) ->
  exists log, l_text <$> log = lines /\ Forall (line_scanned st) log /\
    let p' := foldl (fun p l => processLine cfg st l p) p lines in
    accepted (p_out p') = accepted (p_out p) ++ stream (line_out cfg <$> log) /\ out_wf (p_out p').
Proof.
  revert p. induction lines as [|line lines IH]; intros p Ho.
  - exists []. unfold stream. simpl. rewrite app_nil_r. by split_and!.
  - destruct (processLine_log cfg st line p Ho) as (l & Hl & Hs & Hacc & Hw & _).
    destruct (IH _ Hw) as (log & Ht & Hf & Hout & Hw'). exists (l :: log).
    split; [by rewrite fmap_cons, Hl, Ht|]. split; [by constructor|]. simpl in *. split; [|done].
    rewrite Hout, Hacc, <-!app_assoc. unfold stream. simpl. by rewrite <-app_assoc.
Qed.

(** One reading of a stream: each line in order, then the overflow marker where the
    reading broke off. *)
Lemma streamPipeOnce_log input p :
  out_wf (p_out p) ->
  let '(lines, too_long) := scan_lines (length input) input in
  exists log, l_text <$> log = lines /\ Forall (line_scanned st) log /\
    accepted (p_out (streamPipeOnce cfg st input p)) =
    accepted (p_out p) ++ stream ((line_out cfg <$> log) ++ if too_long then [overflowMarker cfg] else []).
Proof.
  intros Ho. unfold streamPipeOnce. destruct (scan_lines _ _) as [lines too_long].
  destruct (processLines_log lines p Ho) as (log & Ht & Hf & Hout & Hw). exists log. split; [done|]. split; [done|].
  destruct too_long; simpl in *.
  - destruct (writeMarker_accepted _ (overflowMarker cfg) Hw) as [-> _]. rewrite Hout. unfold stream.
    rewrite fmap_app, concat_app. simpl. by rewrite app_nil_r, <-app_assoc.
  - by rewrite app_nil_r.
Qed.

(** In audit mode the lines come out as they went in. *)
Lemma audit_lines (log : list line_log) : auditMode cfg = true -> line_out cfg <$> log = l_text <$> log.
Proof.
  intros Ha. apply list_fmap_ext. intros _ l _. unfold line_out, drops. rewrite Ha, andb_false_r. by destruct (l_scan l).
Qed.

End pipe.
