(* ===== verification/WebhookProofs.v ===== *)
(** * What the webhook injects

    The environment a container is started with, how it is read back by the sidecar's
    configuration, and the shape of an injected pod. *)

From Stdlib Require Import ZArith Lia Bool SpecFloat.
From stdpp Require Import base list option.
From S2P Require Import Prelude GoStrings Float64 Regex Config Scanner ConfigSources ConfigProofs Stats Output.
From S2P Require Import Cleaner Signing PolicyFile Webhook.

(** ** The environment of a container *)

(** What the kubelet does with a variable: it expands references in a value and resolves
    the other sources. *)
Class Kubelet `{KubernetesAPI} := { Expand : gostring -> gostring; Resolve : EnvVarSource -> gostring }.

(** A value without references or escapes. *)
Definition plain_value (v : gostring) : Prop := Contains v (go "$$") = false /\ Contains v (go "$(") = false.

(** It stays as it is. *)
Class KubeletLaws `{Kubelet} : Prop := expand_plain : forall v, plain_value v -> Expand v = v.

Section container_environment.
Context `{Kubelet}.

Definition env_value (e : EnvVar) : gostring :=
  match ev_ValueFrom e with None => Expand (ev_Value e) | Some s => Resolve s end.

(** The last of several variables of one name counts. *)
Definition container_env (env : list EnvVar) (name : gostring) : gostring :=
  default [] (env_value <$> last (filter (fun e => ev_Name e = name) env)).

Definition unnamed (name : gostring) (env : list EnvVar) : Prop := Forall (fun e => ev_Name e <> name) env.

Lemma filter_unnamed name env : unnamed name env -> filter (fun e => ev_Name e = name) env = [].
Proof. intros Hl. apply filter_none. intros e He. by eapply Forall_forall in Hl. Qed.

Lemma container_env_l l1 l2 name : unnamed name l2 -> container_env (l1 ++ l2) name = container_env l1 name.
Proof. intros Hl. unfold container_env. by rewrite filter_app, (filter_unnamed _ l2), app_nil_r. Qed.

Lemma container_env_r l1 l2 name : unnamed name l1 -> container_env (l1 ++ l2) name = container_env l2 name.
Proof. intros Hl. unfold container_env. by rewrite filter_app, (filter_unnamed _ l1). Qed.

Lemma container_env_unnamed env name : unnamed name env -> container_env env name = [].
Proof. intros Hl. unfold container_env. by rewrite filter_unnamed. Qed.

Lemma container_env_kept (P : EnvVar -> Prop) `{!forall e, Decision (P e)} env name :
  (forall e, ev_Name e = name -> P e) -> container_env (filter P env) name = container_env env name.
Proof.
  intros HP. unfold container_env. do 3 f_equal. induction env as [|e env IH]; [done|].
  rewrite !filter_cons. repeat case_decide; rewrite ?filter_cons; repeat case_decide; try done; [by f_equal|naive_solver].
Qed.

Lemma container_env_add `{!KubeletLaws} name v : plain_value v -> container_env (add_env name v) name = v.
Proof.
  intros Hv. unfold container_env, add_env. destruct v as [|b v]; [done|]. cbn [is_empty].
  rewrite filter_cons, decide_True by done. simpl. unfold env_value. simpl. by rewrite expand_plain.
Qed.

Lemma unnamed_add name m v : m <> name -> unnamed name (add_env m v).
Proof. intros Hm. unfold add_env. destruct (is_empty v); by repeat constructor. Qed.

Lemma unnamed_app name l1 l2 : unnamed name l1 -> unnamed name l2 -> unnamed name (l1 ++ l2).
Proof. apply Forall_app_2. Qed.

Lemma unnamed_if name (b : bool) l1 l2 : unnamed name l1 -> unnamed name l2 -> unnamed name (if b then l1 else l2).
Proof. by destruct b. Qed.

Lemma unnamed_salt `{Float32} Getenv p name : name <> go "PII_SALT" -> unnamed name (salt_env Getenv p).
Proof.
  intros Hn. unfold salt_env, salt_from_secret. destruct (pol_SaltSecretKeyRef p); [by repeat constructor|].
  destruct (negb _); [by apply unnamed_add|]. destruct (is_empty _); by repeat constructor.
Qed.

End container_environment.

(** Names of variables are literals: they differ by computation. *)
Ltac other_name :=
  repeat first [apply unnamed_app | apply unnamed_if | apply unnamed_add; discriminate
               | apply unnamed_salt; discriminate | solve [repeat constructor; discriminate]].

(** Membership in a list of literals. *)
Ltac one_of := repeat (first [left; reflexivity | right]).

(** The value of a variable in a list of pieces: skip the pieces of other names. *)
Ltac pick_env :=
  repeat first [rewrite container_env_l by other_name | rewrite container_env_r by other_name].

(** ** Settings and rules read back *)

Section delivery.
Context `{KL : KubeletLaws} `{F : Float32} `{RC : RegexpCompiler} `{U : Unicode} `{D : GoDecoders}.
Context (Getenv : gostring -> gostring) (MarshalRules : list CustomRegexConfig -> gostring) (Encode : Document -> gostring).

(** The decoded form of a rendered document: a file without a salt or a fail policy. *)
Definition file_of (d : Document) : policyFile := {|
  pfConfig := {| SDK.EntropyThreshold := d_EntropyThreshold d; SDK.Salt := []; SDK.ConfidenceThreshold := d_ConfidenceThreshold d;
    SDK.FailPolicy := []; SDK.MinSecretLength := d_MinSecretLength d; SDK.SensitiveKeys := d_SensitiveKeys d;
    SDK.DisableBigramCheck := d_DisableBigramCheck d; SDK.AdaptiveThreshold := d_AdaptiveThreshold d;
    SDK.EntityTypeLabels := d_EntityTypeLabels d; SDK.SensitiveKeyPatterns := d_SensitiveKeyPatterns d;
    SDK.CustomRegexes := d_CustomRegexes d; SDK.SafeRegexes := d_SafeRegexes d |};
  Revision := d_Revision d |}.

(** A threshold as the API holds it: its text reads back, as a number that is not 0. *)
Definition threshold_ok (f : float32) : Prop :=
  is_zero32 f = false ->
  FormatFloat32 f <> [] /\ TrimSpace (FormatFloat32 f) = FormatFloat32 f /\
  exists v, ParseFloat (FormatFloat32 f) = Some v /\ (fltb v fzero = true \/ fgtb v fzero = true).

Definition rules_text_ok (l : list CustomRegexConfig) : Prop :=
  MarshalRules l <> [] /\ UnmarshalRules (MarshalRules l) = Some l.

Definition no_comma (s : gostring) : Prop := Forall (fun b => b <> ch ",") s.

(** [encoding/json] and [strconv] read back what they wrote for this policy, no entry of
    a list that travels comma-separated holds a comma, and no value holds a reference. *)
Record delivery_ok (p : WebhookPolicy) : Prop := {
  do_file : UnmarshalPolicy (Encode (Local_ (pol_rules p))) = Some (file_of (Local_ (pol_rules p)));
  do_custom : rules_text_ok (spec_CustomRegexList (pol_rules p));
  do_safe : rules_text_ok (spec_SafeRegexList (pol_rules p));
  do_entropy : threshold_ok (spec_EntropyThreshold (pol_rules p));
  do_confidence : threshold_ok (spec_ConfidenceThreshold (pol_rules p));
  do_keys : Forall no_comma (spec_SensitiveKeys (pol_rules p));
  do_patterns : Forall no_comma (spec_SensitiveKeyPatterns (pol_rules p));
  do_plain : Forall (fun e => plain_value (ev_Value e)) (scannerEnv Getenv MarshalRules p);
}.

Lemma Split_no_comma s : no_comma s -> Split s (ch ",") = [s].
Proof.
  induction s as [|b s IH]; [done|]. intros [Hb Hs]%Forall_cons. simpl. rewrite IH by done.
  by rewrite (proj2 (Z.eqb_neq _ _)).
Qed.

Lemma Split_cons_sep s t : no_comma s -> Split (s ++ ch "," :: t) (ch ",") = s :: Split t (ch ",").
Proof.
  induction s as [|b s IH]; [done|]. intros [Hb Hs]%Forall_cons. simpl. rewrite IH by done.
  by rewrite (proj2 (Z.eqb_neq _ _)).
Qed.

Lemma Split_Join l : l <> [] -> Forall no_comma l -> Split (Join l (go ",")) (ch ",") = l.
Proof.
  induction l as [|s l IH]; [done|]. intros _ [Hs Hl]%Forall_cons.
  destruct l as [|s' l]; [by apply Split_no_comma|]. rewrite Join_cons by done.
  change (go "," ++ ?x) with (ch "," :: x). rewrite Split_cons_sep, IH by done. done.
Qed.

(** *** The variables one by one *)

Lemma get_add name v : Forall (fun e => plain_value (ev_Value e)) (add_env name v) -> container_env (add_env name v) name = v.
Proof.
  intros Hp. apply container_env_add. unfold add_env in Hp. destruct v as [|b v]; [by split|]. by inversion Hp.
Qed.

Definition scanner_value (p : WebhookPolicy) (name : gostring) : gostring :=
  container_env (scannerEnv Getenv MarshalRules p) name.

Lemma get_fail_policy p : plain_value (pol_FailPolicy p) -> scanner_value p (go "PII_FAIL_POLICY") = pol_FailPolicy p.
Proof using KL. intros Hp. unfold scanner_value, scannerEnv. cbv zeta. pick_env. by apply container_env_add. Qed.

Lemma get_mode p : scanner_value p (go "PII_MODE") = if pol_AuditMode p then go "audit" else [].
Proof using KL.
  unfold scanner_value, scannerEnv. cbv zeta. pick_env. destruct (pol_AuditMode p); [by apply container_env_add|done].
Qed.

Section values.
Context (p : WebhookPolicy) (plain : Forall (fun e => plain_value (ev_Value e)) (scannerEnv Getenv MarshalRules p)).
#[local] Abbreviation rules := (pol_rules p).
#[local] Abbreviation value := (scanner_value p).

Ltac get_value :=
  unfold scanner_value, scannerEnv in *; cbv zeta in *; pick_env; rewrite !Forall_app in plain; destruct_and! plain;
  repeat case_match; first [done | by apply get_add].

Lemma get_confidence :
  value (go "PII_CONFIDENCE_THRESHOLD") =
  if is_zero32 (spec_ConfidenceThreshold rules) then [] else FormatFloat32 (spec_ConfidenceThreshold rules).
Proof using KL plain. get_value. Qed.

Lemma get_entropy :
  value (go "PII_ENTROPY_THRESHOLD") =
  if is_zero32 (spec_EntropyThreshold rules) then [] else FormatFloat32 (spec_EntropyThreshold rules).
Proof using KL plain. get_value. Qed.

Lemma get_min_length :
  value (go "PII_MIN_SECRET_LENGTH") =
  if 0 <? spec_MinSecretLength rules then FormatInt (spec_MinSecretLength rules) else [].
Proof using KL plain. get_value. Qed.

Lemma get_keys : value (go "PII_SENSITIVE_KEYS") = Join (spec_SensitiveKeys rules) (go ",").
Proof using KL plain. get_value. Qed.

Lemma get_patterns : value (go "PII_SENSITIVE_KEY_PATTERNS") = Join (spec_SensitiveKeyPatterns rules) (go ",").
Proof using KL plain. get_value. Qed.

Lemma get_custom : value (go "PII_CUSTOM_REGEX_LIST") = marshalRegexRules MarshalRules (spec_CustomRegexList rules).
Proof using KL plain. get_value. Qed.

Lemma get_safe : value (go "PII_SAFE_REGEX_LIST") = marshalRegexRules MarshalRules (spec_SafeRegexList rules).
Proof using KL plain. get_value. Qed.

End values.

(** *** The rules as a whole *)

Lemma threshold_delivered f (d : float64) :
  threshold_ok f -> let v := if is_zero32 f then fzero else shortest f in fltb v fzero = false ->
  (let t := if is_zero32 f then [] else FormatFloat32 f in if is_empty t then d else default d (parseFloat t)) =
  given (fgtb v fzero) v d.
Proof.
  intros Hf v Hv. subst v. unfold threshold_ok in Hf. destruct (is_zero32 f); [done|].
  destruct Hf as (Hne & Ht & v & Hp & Hs); [done|]. unfold shortest, parseFloat in *. simpl. rewrite Ht, Hp in *. simpl in *.
  destruct (FormatFloat32 f); [done|]. destruct Hs as [Hs| ->]; [congruence|done].
Qed.

Definition min_length_reads_back (n : Z) : bool :=
  negb (is_empty (FormatInt n)) && bool_decide (parse_min_length (FormatInt n) = Some n).

Lemma min_lengths_read_back n : 0 < n <= MaxMinSecretLength -> min_length_reads_back n = true.
Proof.
  intros Hn. assert (forallb min_length_reads_back (seqZ 1 MaxMinSecretLength) = true) as Hall by (vm_compute; reflexivity).
  rewrite forallb_forall in Hall. apply Hall. apply list_elem_of_In, elem_of_seqZ. lia.
Qed.

Lemma min_length_delivered n d :
  0 <= n <= MaxMinSecretLength ->
  (let t := if 0 <? n then FormatInt n else [] in if is_empty t then d else default d (parse_min_length t)) =
  given (0 <? n) n d.
Proof.
  intros Hn. destruct (0 <? n) eqn:E; [|done]. apply Z.ltb_lt in E.
  pose proof (min_lengths_read_back n) as Hr. unfold min_length_reads_back in Hr.
  rewrite andb_true_iff, negb_true_iff, bool_decide_eq_true in Hr. destruct Hr as [He Hp]; [lia|]. simpl. by rewrite He, Hp.
Qed.

Lemma Join_empty l : Join l (go ",") = [] -> l = [] \/ l = [[]].
Proof.
  destruct l as [|s [|s' l]]; [by left|simpl; intros ->; by right|]. rewrite Join_cons by done. by destruct s.
Qed.

Lemma keys_delivered keys (d : list gostring) :
  Forall no_comma keys -> Forall (fun k => normalizeKey k <> []) keys ->
  (let t := Join keys (go ",") in if is_empty t then d else default d (Some (split_keys t))) =
  given (negb (is_empty keys)) (normalizeKey <$> keys) d.
Proof.
  intros Hc Hk. simpl. destruct (is_empty (Join keys _)) eqn:E.
  - destruct (Join_empty keys) as [->| ->]; [by destruct (Join keys _)|done|]. by apply Forall_cons in Hk as [[] _].
  - destruct keys; [done|]. unfold split_keys. by rewrite Split_Join.
Qed.

Lemma patterns_delivered ps :
  Forall no_comma ps ->
  (let t := Join ps (go ",") in if is_empty t then [] else default [] (Some (clean_patterns (Split t (ch ","))))) =
  clean_patterns ps.
Proof.
  intros Hc. simpl. destruct (is_empty (Join ps _)) eqn:E.
  - by destruct (Join_empty ps) as [->| ->]; [by destruct (Join ps _)|..].
  - destruct ps; [done|]. by rewrite Split_Join.
Qed.

Lemma rules_delivered_as {A} l (f : list CustomRegexConfig -> A) d :
  rules_text_ok l -> f [] = d ->
  (let t := marshalRegexRules MarshalRules l in if is_empty t then d else default d (f <$> UnmarshalRules t)) = f l.
Proof.
  intros [Hne Hr] <-. unfold marshalRegexRules. destruct (is_empty l) eqn:E; [by destruct l|].
  simpl. rewrite Hr. by destruct (MarshalRules l).
Qed.

(** Variables the webhook never sets. *)
Definition unset_names : list gostring :=
  [go "PII_DISABLE_BIGRAM_CHECK"; go "PII_BIGRAM_DEFAULT_SCORE"; go "PII_ADAPTIVE_THRESHOLD"; go "PII_ENTITY_TYPE_LABELS"].

Lemma config_ext c c' :
  EntropyThreshold c = EntropyThreshold c' -> ConfidenceThreshold c = ConfidenceThreshold c' ->
  MinSecretLength c = MinSecretLength c' -> Salt c = Salt c' -> SensitiveKeys c = SensitiveKeys c' ->
  DisableBigramCheck c = DisableBigramCheck c' -> BigramDefaultScore c = BigramDefaultScore c' ->
  AdaptiveThreshold c = AdaptiveThreshold c' -> SensitiveKeyPatterns c = SensitiveKeyPatterns c' ->
  AdaptiveBaselineSamples c = AdaptiveBaselineSamples c' -> EntityTypeLabels c = EntityTypeLabels c' ->
  CustomRegexes c = CustomRegexes c' -> SafeRegexes c = SafeRegexes c' ->
  CombinedCustomRegex c = CombinedCustomRegex c' -> CustomRegexNames c = CustomRegexNames c' -> c = c'.
Proof. destruct c, c'; simpl; intros; subst; reflexivity. Qed.

(** The document of a policy alone. *)
Lemma Local_fields r :
  d_MinSecretLength (Local_ r) = (if 0 <? spec_MinSecretLength r then spec_MinSecretLength r else 0) /\
  d_SensitiveKeys (Local_ r) = spec_SensitiveKeys r /\ d_SensitiveKeyPatterns (Local_ r) = spec_SensitiveKeyPatterns r /\
  d_CustomRegexes (Local_ r) = spec_CustomRegexList r /\ d_SafeRegexes (Local_ r) = spec_SafeRegexList r.
Proof.
  unfold Local_, Merge; simpl.
  split_and!; [done|by destruct (spec_SensitiveKeys r)|by destruct (spec_SensitiveKeyPatterns r)
              |by destruct (spec_CustomRegexList r)|by destruct (spec_SafeRegexList r)].
Qed.

(** An environment with the rules of a policy gives the configuration of its file. *)
Lemma environment_of_rules p g salt :
  delivery_ok p -> valid_policy (pfConfig (file_of (Local_ (pol_rules p)))) ->
  (forall n, In n ruleEnvNames -> g n = scanner_value p n) -> (forall n, In n unset_names -> g n = []) ->
  env_spec g (set_Salt salt DefaultConfig) = set_Salt salt (policy_spec (pfConfig (file_of (Local_ (pol_rules p))))).
Proof using KL.
  intros [_ Hcu Hsa Hen Hco Hk Hp Hpl] [Ve Vc Vl Vk _ _ _] Hg Hu.
  destruct (Local_fields (pol_rules p)) as (El & Ek & Ep & Ec & Es).
  cbn [pfConfig file_of SDK.MinSecretLength SDK.SensitiveKeys] in Vl, Vk. rewrite El in Vl. rewrite Ek in Vk.
  apply config_ext; unfold env_spec, env_samples, env_rules, from_env, env_flag, set_Salt, policy_spec;
    cbn [EntropyThreshold ConfidenceThreshold MinSecretLength Salt SensitiveKeys DisableBigramCheck BigramDefaultScore
         AdaptiveThreshold SensitiveKeyPatterns AdaptiveBaselineSamples EntityTypeLabels CustomRegexes SafeRegexes
         CombinedCustomRegex CustomRegexNames pfConfig file_of SDK.EntropyThreshold SDK.ConfidenceThreshold
         SDK.MinSecretLength SDK.SensitiveKeys SDK.DisableBigramCheck SDK.AdaptiveThreshold SDK.EntityTypeLabels
         SDK.SensitiveKeyPatterns SDK.CustomRegexes SDK.SafeRegexes DefaultConfig];
    rewrite ?El, ?Ek, ?Ep, ?Ec, ?Es.
  - rewrite Hg, get_entropy by (one_of || done). by apply threshold_delivered.
  - rewrite Hg, get_confidence by (one_of || done). by apply threshold_delivered.
  - rewrite Hg, get_min_length by (one_of || done).
    destruct (0 <? spec_MinSecretLength (pol_rules p)) eqn:E; [|done]. rewrite <- min_length_delivered, E by done. done.
  - done.
  - rewrite Hg, get_keys by (one_of || done). by apply keys_delivered.
  - by rewrite Hu by one_of.
  - by rewrite Hu by one_of.
  - by rewrite Hu by one_of.
  - rewrite Hg, get_patterns by (one_of || done). by apply patterns_delivered.
  - by rewrite (Hu (go "PII_ADAPTIVE_THRESHOLD")) by one_of.
  - by rewrite Hu by one_of.
  - rewrite Hg, get_custom by (one_of || done). by apply (rules_delivered_as _ (omap compile_rule)).
  - rewrite Hg, get_safe by (one_of || done). by apply (rules_delivered_as _ (omap compile_rule)).
  - rewrite Hg, get_custom by (one_of || done). by apply (rules_delivered_as _ combined_of).
  - rewrite Hg, get_custom by (one_of || done). by apply (rules_delivered_as _ names_of).
Qed.

(** An environment without rules leaves a configuration alone. *)
Lemma environment_without_rules g c :
  (forall n, In n ruleEnvNames -> g n = []) -> (forall n, In n unset_names -> g n = []) -> env_spec g c = c.
Proof.
  intros Hg Hu. unfold env_spec, env_samples, env_rules, from_env, env_flag.
  rewrite (Hu (go "PII_DISABLE_BIGRAM_CHECK")), (Hu (go "PII_BIGRAM_DEFAULT_SCORE")), (Hu (go "PII_ADAPTIVE_THRESHOLD")),
    (Hu (go "PII_ENTITY_TYPE_LABELS")), (Hg (go "PII_ENTROPY_THRESHOLD")), (Hg (go "PII_CONFIDENCE_THRESHOLD")),
    (Hg (go "PII_MIN_SECRET_LENGTH")), (Hg (go "PII_SENSITIVE_KEYS")), (Hg (go "PII_SENSITIVE_KEY_PATTERNS")),
    (Hg (go "PII_CUSTOM_REGEX_LIST")), (Hg (go "PII_SAFE_REGEX_LIST")) by one_of.
  by destruct c.
Qed.

(** *** The environment of the sidecar *)

Definition extra_names : list gostring :=
  [go "PII_METRICS_ENABLED"; go "PII_METRICS_PORT"; go "PII_STATS_LOG_INTERVAL"; go "PII_CONFIG_FILE"].

Lemma unset_not_extra n : In n (go "PII_REQUIRE_STRONG_SALT" :: unset_names) -> In n extra_names -> False.
Proof. intros Hn He. repeat destruct Hn as [<-|Hn]; repeat destruct He as [He|He]; done. Qed.

Lemma rule_not_extra n : In n ruleEnvNames -> In n extra_names -> False.
Proof. intros Hn He. repeat destruct Hn as [<-|Hn]; repeat destruct He as [He|He]; done. Qed.

Lemma sidecar_value mode p file n :
  ~ In n extra_names -> container_env (c_Env (buildSidecar Getenv MarshalRules mode p file)) n = scanner_value p n.
Proof.
  intros Hn. simpl. apply container_env_l. unfold extra_names in Hn. simpl in Hn.
  apply unnamed_app; [|repeat constructor; simpl; tauto].
  repeat apply unnamed_if; repeat constructor; simpl; tauto.
Qed.

Lemma agent_value p n :
  ~ In n extra_names -> container_env (c_Env (ebpf_agent Getenv MarshalRules p)) n = scanner_value p n.
Proof.
  intros Hn. simpl. apply container_env_l. unfold extra_names in Hn. simpl in Hn. repeat constructor; simpl; tauto.
Qed.

Lemma scanner_value_unset p n :
  In n (go "PII_REQUIRE_STRONG_SALT" :: unset_names) -> scanner_value p n = [].
Proof.
  intros Hn. apply container_env_unnamed. unfold scannerEnv. cbv zeta.
  repeat destruct Hn as [<-|Hn]; [other_name..|done].
Qed.

(** The environment without the rule variables. *)
Definition without_rules (env : list EnvVar) : list EnvVar := filter (fun e => ev_Name e ∉ ruleEnvNames) env.

Lemma without_rules_value env n :
  container_env (without_rules env) n = if bool_decide (n ∈ ruleEnvNames) then [] else container_env env n.
Proof.
  unfold without_rules. case_bool_decide as Hn.
  - apply container_env_unnamed. unfold unnamed. apply Forall_forall. intros e He <-. by apply list_elem_of_filter in He as [].
  - apply container_env_kept. by intros e ->.
Qed.

End delivery.

(** ** The shape of an injected pod *)

Section shape.
Context `{K : KubernetesAPI} `{F : Float32} `{U : Unicode}.
Context (Getenv : gostring -> gostring) (MarshalRules : list CustomRegexConfig -> gostring) (LegacySidecarMode StrictMode : bool).
#[local] Abbreviation legacy := (legacyMode Getenv LegacySidecarMode).
#[local] Abbreviation inject := (inject Getenv MarshalRules LegacySidecarMode).

(** The containers with the sidecar's name. *)
Definition sidecars (pod : Pod) : list Container :=
  filter (fun c => c_Name c = sidecarName) (InitContainers pod ++ Containers pod).

Definition no_sidecar (cs : list Container) : Prop := Forall (fun c => c_Name c <> sidecarName) cs.

(** The container that writes the log: the only one, or the first of the name the pod
    asks for. *)
Definition is_target (cs : list Container) (target : gostring) (i : nat) : Prop :=
  length cs = 1%nat /\ i = 0%nat \/
  (exists c, cs !! i = Some c /\ c_Name c = target) /\ (forall j c, (j < i)%nat -> cs !! j = Some c -> c_Name c <> target).

Lemma getTargetContainerIndex_spec pod target i :
  getTargetContainerIndex pod target = Some i -> is_target (Containers pod) target i /\ is_Some (Containers pod !! i).
Proof.
  unfold getTargetContainerIndex. destruct (Nat.eqb_spec (length (Containers pod)) 1) as [Hl|Hl].
  - intros [= <-]. split; [by left|]. apply lookup_lt_is_Some. lia.
  - destruct (list_find _ (Containers pod)) as [[j c]|] eqn:Ef; [|done]. intros [= <-].
    apply list_find_Some in Ef as (Hj & Hn & Hfirst). split; [right|by eexists].
    split; [by eexists|]. intros k c' Hk Hc'. by eapply Hfirst.
Qed.

(** What becomes of the containers of the pod: nothing under the agent; otherwise the
    target has one mount more, and in pipe mode another command line. *)
Definition changed_containers (mode target : gostring) (l l' : list Container) : Prop :=
  if str_eqb mode (go "ebpf") then l' = l
  else exists i c command args name path,
    is_target l target i /\ l !! i = Some c /\ l' = <[i := with_mount command args (mount name path false) c]> l /\
    (mode = go "file" -> command = c_Command c /\ args = c_Args c /\ name = go "pii-shared") /\
    (mode = go "pipe" -> name = go "pii-pipe-dir" /\ path = go "/shared").

Lemma changed_insert mode target (l : list Container) i c f command args name path :
  str_eqb mode (go "ebpf") = false -> is_target l target i -> l !! i = Some c ->
  f c = with_mount command args (mount name path false) c ->
  (mode = go "file" -> command = c_Command c /\ args = c_Args c /\ name = go "pii-shared") ->
  (mode = go "pipe" -> name = go "pii-pipe-dir" /\ path = go "/shared") ->
  changed_containers mode target l (alter f i l).
Proof.
  intros He Ht Hc Hf H1 H2. unfold changed_containers. rewrite He. exists i, c, command, args, name, path.
  split_and!; try done. rewrite <-Hf, list_insert_alter.
  apply list_eq. intros j. destruct (decide (j = i)) as [->|Hj]; [|by rewrite !list_lookup_alter_ne].
  by rewrite !list_lookup_alter_eq, Hc.
Qed.

(** The volumes a mode adds. *)
Definition added_volumes (mode : gostring) (p : WebhookPolicy) : list Volume :=
  if str_eqb mode (go "file") then [empty_dir (go "pii-shared"); empty_dir (go "pii-tmp"); policyVolume p]
  else if str_eqb mode (go "pipe") then [empty_dir (go "pii-pipe-dir"); empty_dir (go "pii-tmp"); policyVolume p]
  else [].

(** The settings of the pod: the agent shares its processes; the other modes see to it
    that there is a file system group, and keep the one there is. *)
Definition pod_settings (mode : gostring) (pod m : Pod) : Prop :=
  if str_eqb mode (go "ebpf") then PodSecurity m = PodSecurity pod /\ ShareProcessNamespace m = Some true
  else ShareProcessNamespace m = ShareProcessNamespace pod /\
    exists sec, PodSecurity m = Some sec /\ is_Some (FSGroup sec) /\
      forall old, PodSecurity pod = Some old -> psc_rest sec = psc_rest old /\ (is_Some (FSGroup old) -> FSGroup sec = FSGroup old).

Lemma fs_group_settings pod sec : sec = fs_group Getenv pod ->
  is_Some (FSGroup sec) /\
  forall old, PodSecurity pod = Some old -> psc_rest sec = psc_rest old /\ (is_Some (FSGroup old) -> FSGroup sec = FSGroup old).
Proof.
  intros ->. unfold fs_group. destruct (PodSecurity pod) as [o|]; simpl; [|by split; [eexists|]].
  destruct (FSGroup o) as [g|] eqn:Eg; (split; [rewrite ?Eg; by eexists|]); intros old [= <-]; (split; [done|]); [done|].
  rewrite Eg. by intros [? ?].
Qed.

(** The container a mode injects. *)
Definition side_of (mode : gostring) (p : WebhookPolicy) (side : Container) : Prop :=
  side = ebpf_agent Getenv MarshalRules p /\ mode = go "ebpf" \/
  (exists file, side = buildSidecar Getenv MarshalRules mode p file) /\ mode <> go "ebpf".

(** What an injection makes of a pod. *)
Record injected (mode target : gostring) (p : WebhookPolicy) (pod m : Pod) (side : Container) : Prop := {
  in_containers : exists cs, changed_containers mode target (Containers pod) cs /\ Containers m = cs ++ (if legacy then [side] else []);
  in_init : InitContainers m = InitContainers pod ++ (if str_eqb mode (go "pipe") then [mkfifo] else []) ++
    (if legacy then [] else [with_restart (go "Always") side]);
  in_volumes : Volumes m = Volumes pod ++ added_volumes mode p;
  in_settings : pod_settings mode pod m;
  in_rest : (Labels m, Annotations m, pod_rest m) = (Labels pod, Annotations pod, pod_rest pod);
}.

(** The sidecar is added last, to a pod that is otherwise ready. *)
Lemma injected_intro mode target p pod b side :
  changed_containers mode target (Containers pod) (Containers b) ->
  InitContainers b = InitContainers pod ++ (if str_eqb mode (go "pipe") then [mkfifo] else []) ->
  Volumes b = Volumes pod ++ added_volumes mode p -> pod_settings mode pod b ->
  (Labels b, Annotations b, pod_rest b) = (Labels pod, Annotations pod, pod_rest pod) ->
  injected mode target p pod (addSidecar Getenv LegacySidecarMode side b) side.
Proof.
  intros Hc Hb Hv Hset Hr. unfold addSidecar. split.
  - exists (Containers b). split; [done|]. destruct legacy; simpl; by rewrite ?app_nil_r.
  - destruct legacy; simpl; by rewrite Hb, ?app_nil_r, <- ?app_assoc.
  - by destruct legacy.
  - by destruct legacy.
  - by destruct legacy.
Qed.

Lemma inject_shape mode pod p target m :
  inject mode pod p target = inr m -> exists side, side_of mode p side /\ injected mode target p pod m side.
Proof.
  unfold Webhook.inject, side_of. destruct (str_eqb mode (go "file")) eqn:Ef; [|destruct (str_eqb mode (go "pipe")) eqn:Ep;
    [|destruct (str_eqb mode (go "ebpf")) eqn:Ee; [|done]]].
  - apply str_eqb_eq in Ef as ->. unfold injectFileMode. destruct (getTargetContainerIndex pod target) as [i|] eqn:Ei; [|done].
    apply getTargetContainerIndex_spec in Ei as [Ht [c Hc]].
    cbn [mbind option_bind]. destruct (log_mount p) as [dir file]. intros [= <-]. eexists.
    split; [right; by split; [exists (go "/shared/" ++ file)|]|].
    apply injected_intro; [|symmetry; apply app_nil_r|done|split; [done|]; eexists; split; [done|by apply fs_group_settings]|done].
    by eapply changed_insert.
  - apply str_eqb_eq in Ep as ->. unfold injectPipeMode. destruct (getTargetContainerIndex pod target) as [i|] eqn:Ei; [|done].
    apply getTargetContainerIndex_spec in Ei as [Ht _].
    cbn [mbind option_bind with_init with_volumes Containers]. destruct (Containers pod !! i) as [c|] eqn:Hc; [|done].
    cbn [mbind option_bind]. destruct (original_command p c) as [cmd|]; [|done]. intros [= <-]. eexists.
    split; [right; by split; [exists (go "/shared/log.pipe")|]|].
    apply injected_intro; [|done|done|split; [done|]; eexists; split; [done|by apply fs_group_settings]|done].
    by eapply changed_insert.
  - apply str_eqb_eq in Ee as ->. intros [= <-]. eexists. split; [by left|].
    apply injected_intro; [done|symmetry; apply app_nil_r|symmetry; apply app_nil_r|done|done].
Qed.

Lemma drop_rule_env_none cs : no_sidecar cs -> drop_rule_env <$> cs = cs.
Proof.
  induction 1 as [|c cs Hc _ IH]; [done|]. csimpl. rewrite IH. f_equal. unfold drop_rule_env.
  by rewrite (proj2 (str_eqb_neq _ _)).
Qed.

Lemma drop_rule_env_name c : c_Name (drop_rule_env c) = c_Name c.
Proof. unfold drop_rule_env. by destruct (str_eqb _ _). Qed.

Lemma changed_no_sidecar mode target l l' : changed_containers mode target l l' -> no_sidecar l -> no_sidecar l'.
Proof.
  unfold changed_containers. destruct (str_eqb _ _); [by intros ->|].
  intros (i & c & command & args & name & path & _ & Hc & -> & _) Hl. unfold no_sidecar in *.
  apply Forall_insert; [done|]. simpl. by eapply Forall_lookup in Hl.
Qed.

Lemma fifo_no_sidecar mode : no_sidecar (if str_eqb mode (go "pipe") then [mkfifo] else []).
Proof. destruct (str_eqb _ _); by repeat constructor. Qed.

(** The drop touches the sidecar alone. *)
Lemma injected_drop mode target p pod m side :
  no_sidecar (Containers pod) -> no_sidecar (InitContainers pod) -> injected mode target p pod m side ->
  injected mode target p pod (dropRuleEnv m) (drop_rule_env side).
Proof.
  intros Hc Hi [(cs & Hk & Ec) Ei Hv Hset Hr]. split; [| |done|done|done].
  - exists cs. split; [done|]. simpl. rewrite Ec, fmap_app, drop_rule_env_none by (by eapply changed_no_sidecar). by destruct legacy.
  - simpl. rewrite Ei, !fmap_app, !drop_rule_env_none by (done || apply fifo_no_sidecar). do 2 f_equal.
    destruct legacy; [done|]. unfold drop_rule_env. simpl. by destruct (str_eqb (c_Name side) _).
Qed.

Lemma filter_no_sidecar cs : no_sidecar cs -> filter (fun c => c_Name c = sidecarName) cs = [].
Proof. intros Hl. apply filter_none. intros c Hc. by eapply Forall_forall in Hl. Qed.

Lemma injected_sidecars mode target p pod m side :
  no_sidecar (Containers pod) -> no_sidecar (InitContainers pod) -> c_Name side = sidecarName -> injected mode target p pod m side ->
  exists c, sidecars m = [c] /\ c_Env c = c_Env side /\ c_Command c = c_Command side /\ c_SecurityContext c = c_SecurityContext side.
Proof.
  intros Hc Hi Hs [(cs & Hk & Ec) Ei _ _ _]. unfold sidecars. rewrite Ec, Ei, !filter_app.
  assert (no_sidecar cs) as Hcs by (by eapply changed_no_sidecar). rewrite (filter_no_sidecar cs Hcs).
  rewrite (filter_no_sidecar _ (fifo_no_sidecar mode)), (filter_no_sidecar (InitContainers pod)) by done.
  destruct legacy; simpl; [exists side|exists (with_restart (go "Always") side)]; rewrite filter_cons, decide_True by done; done.
Qed.

(** The containers of the application, after the injection. *)
Definition applications (cs : list Container) : list Container := filter (fun c => c_Name c <> sidecarName) cs.

Lemma applications_none cs : no_sidecar cs -> applications cs = cs.
Proof. apply filter_all. Qed.

Lemma applications_add cs extra :
  no_sidecar cs -> Forall (fun c => c_Name c = sidecarName) extra -> applications (cs ++ extra) = cs.
Proof.
  intros Hl He. unfold applications. rewrite filter_app, filter_all, filter_none, app_nil_r; [done| |done].
  intros c Hc. eapply Forall_forall in He; [|done]. naive_solver.
Qed.

Lemma injected_applications mode target p pod m side :
  no_sidecar (Containers pod) -> no_sidecar (InitContainers pod) -> c_Name side = sidecarName -> injected mode target p pod m side ->
  changed_containers mode target (Containers pod) (applications (Containers m)) /\
  applications (InitContainers m) = InitContainers pod ++ (if str_eqb mode (go "pipe") then [mkfifo] else []).
Proof.
  intros Hc Hi Hs [(cs & Hk & Ec) Ei _ _ _]. rewrite Ec, Ei, app_assoc. split.
  - rewrite applications_add; [done|by eapply changed_no_sidecar|]. destruct legacy; by repeat constructor.
  - apply applications_add; [|destruct legacy; by repeat constructor].
    apply Forall_app. split; [done|apply fifo_no_sidecar].
Qed.

Lemma side_name mode p side : side_of mode p side -> c_Name side = sidecarName.
Proof. by intros [[-> _]|[[file ->] _]]. Qed.

Lemma drop_rule_env_env c : c_Name c = sidecarName -> c_Env (drop_rule_env c) = without_rules (c_Env c).
Proof. intros Hn. unfold drop_rule_env. by rewrite Hn, str_eqb_refl. Qed.

(** The request of a patched pod. *)
Lemma Handle_patched r pod' ws :
  Handle Getenv MarshalRules LegacySidecarMode StrictMode r = Patched pod' ws ->
  exists pod p side, rq_pod r = Some pod /\ Labels pod (go "pii-shield.io/inject") = go "true" /\
    rq_policy r (policy_name pod) = Some p /\ ws = warnings_of (mode_of p) p /\ (mode_of p = go "ebpf" -> pol_AuditMode p = true) /\
    side_of (mode_of p) p side /\
    (no_sidecar (Containers pod) -> no_sidecar (InitContainers pod) ->
     injected (mode_of p) (Annotations pod (go "pii-shield.io/target-container")) p pod pod'
       (if negb (str_eqb (mode_of p) (go "ebpf")) && policyFileRendered r p then drop_rule_env side else side)).
Proof.
  unfold Handle. destruct (rq_pod r) as [pod|]; [|done]. destruct (str_eqb (Labels pod _) _) eqn:El; simpl; [|done].
  destruct (rq_policy r (policy_name pod)) as [p|] eqn:Ep; [|by destruct (strictMode _ _)].
  destruct (_ && _); [done|]. destruct (str_eqb (mode_of p) (go "ebpf") && negb (pol_AuditMode p)) eqn:Ea; [done|].
  destruct (Webhook.inject _ _ _ _ _ _ _) as [code|m] eqn:Ei; [done|]. intros [= <- <-].
  destruct (inject_shape _ _ _ _ _ Ei) as (side & Hs & Hm). exists pod, p, side. split_and!; [done| |done|done| |done|].
  - by apply str_eqb_eq.
  - intros He. rewrite He in Ea. simpl in Ea. by destruct (pol_AuditMode p).
  - intros Hc Hi. destruct (negb _ && _); [by apply injected_drop|done].
Qed.

End shape.

(** What the injected process reads, with and without the drop. *)
Lemma side_value `{KL : KubeletLaws} `{F : Float32} Getenv MarshalRules mode p side (drop : bool) n :
  side_of Getenv MarshalRules mode p side -> ~ In n extra_names ->
  container_env (c_Env (if drop then drop_rule_env side else side)) n =
  if drop && bool_decide (n ∈ ruleEnvNames) then [] else scanner_value Getenv MarshalRules p n.
Proof.
  intros Hs Hn. assert (container_env (c_Env side) n = scanner_value Getenv MarshalRules p n) as He.
  { destruct Hs as [[-> _]|[[file ->] _]]; [by apply agent_value|by apply sidecar_value]. }
  destruct drop; simpl; [|done]. rewrite drop_rule_env_env by (by eapply side_name).
  rewrite without_rules_value. by case_bool_decide.
Qed.

(** The sidecar of a patched pod. *)
Lemma patched_sidecar `{KL : KubeletLaws} `{F : Float32} `{U : Unicode} Getenv MarshalRules legacy strict r pod pod' ws :
  Handle Getenv MarshalRules legacy strict r = Patched pod' ws -> rq_pod r = Some pod ->
  no_sidecar (Containers pod) -> no_sidecar (InitContainers pod) ->
  exists p side c, let drop := negb (str_eqb (mode_of p) (go "ebpf")) && policyFileRendered r p in
    rq_policy r (policy_name pod) = Some p /\ ws = warnings_of (mode_of p) p /\ (mode_of p = go "ebpf" -> pol_AuditMode p = true) /\
    side_of Getenv MarshalRules (mode_of p) p side /\ sidecars pod' = [c] /\
    c_Command c = c_Command side /\ c_SecurityContext c = c_SecurityContext side /\
    (forall n, ~ In n extra_names -> container_env (c_Env c) n =
       if drop && bool_decide (n ∈ ruleEnvNames) then [] else scanner_value Getenv MarshalRules p n).
Proof.
  intros Eh Hpod Hc Hi. destruct (Handle_patched Getenv MarshalRules legacy strict r pod' ws Eh)
    as (pod0 & p & side & Hp0 & _ & Hp & Hw & Hm & Hs & Hin).
  rewrite Hpod in Hp0. injection Hp0 as <-. specialize (Hin Hc Hi). exists p, side. cbv zeta. set (drop := _ && _) in *.
  edestruct (injected_sidecars Getenv legacy) as (c & Hsc & He & Hcmd & Hsec); [exact Hc|exact Hi| |exact Hin|].
  { destruct drop; rewrite ?drop_rule_env_name; by eapply side_name. }
  exists c. split_and!; try done.
  - rewrite Hcmd. destruct drop; [|done]. unfold drop_rule_env. by destruct (str_eqb _ _).
  - rewrite Hsec. destruct drop; [|done]. unfold drop_rule_env. by destruct (str_eqb _ _).
  - intros n Hn. rewrite He. by eapply side_value.
Qed.
