(* ===== verification/Instances.v ===== *)
(** * Concrete instances

    The parameters of the model instantiated, and a small configuration: the
    witnesses of the theorems run on them. *)

From Stdlib Require Import ZArith Lia Bool SpecFloat.
From stdpp Require Import base list option sets.
From S2P Require Import Prelude GoStrings Regex Float64 KeyMatcher Config Entropy Adaptive Machine Engine Scanner.
From S2P Require Import ConfigSources KeyMatcherFind Sha256 Signing PolicyFile Webhook WebhookProofs.

(** Unicode restricted to ASCII, a map iteration in key order, and a compiler that
    rejects every pattern of an operator. *)
Definition run_unicode : Unicode := ascii_unicode.
Definition run_time : GoRuntime := {| rt_unicode := run_unicode; rt_map_order := id |}.
Definition run_compiler : RegexpCompiler := {| Compile := fun _ => None |}.

#[local] Existing Instances run_unicode run_time run_compiler.

(** ASCII has the categories and the case of ASCII. *)
Lemma run_unicode_laws : UnicodeLaws run_unicode.
Proof.
  split; intros r; try (intros; reflexivity); [..|apply lower_not_upper]; intros Hr; simpl; unfold between;
    by rewrite (proj2 (Z.leb_le 0 r)), (proj2 (Z.leb_le r 127)) by lia.
Qed.

(** The defaults with one sensitive key and a salt. *)
Definition small_config : Config := {|
  EntropyThreshold := DefaultEntropyThreshold; ConfidenceThreshold := fone; MinSecretLength := 6;
  Salt := go "salt"; SensitiveKeys := [go "pw"]; DisableBigramCheck := true;
  BigramDefaultScore := bigramUnknown; AdaptiveThreshold := false; SensitiveKeyPatterns := [];
  AdaptiveBaselineSamples := 100; EntityTypeLabels := false; CustomRegexes := []; SafeRegexes := [];
  CombinedCustomRegex := None; CustomRegexNames := [] |}.

Definition small_state : configState := NewScanner small_config.

Definition fresh : ES := {| sb := []; baseline := newBaselineStats 100; callbacks := [] |}.

(** Decoders that read one policy, the empty one, and one list of rules. *)
Definition empty_sdk : SDK.SDKConfig := {|
  SDK.EntropyThreshold := fzero; SDK.Salt := []; SDK.ConfidenceThreshold := fzero; SDK.FailPolicy := [];
  SDK.MinSecretLength := 0; SDK.SensitiveKeys := []; SDK.DisableBigramCheck := None; SDK.AdaptiveThreshold := None;
  SDK.EntityTypeLabels := None; SDK.SensitiveKeyPatterns := []; SDK.CustomRegexes := []; SDK.SafeRegexes := [] |}.

Definition run_decoders : GoDecoders := {|
  ParseFloat := fun _ => None; ParseDuration := fun _ => None;
  UnmarshalRules := fun _ => Some [{| Pattern := go "a("; Name := go "bad" |}];
  UnmarshalSDK := fun b => if str_eqb b (go "{}") then Some empty_sdk else None;
  UnmarshalPolicy := fun b => if str_eqb b (go "{}") then Some {| pfConfig := empty_sdk; Revision := go "r1" |} else None |}.

(** An environment that sets a salt and the mode, and nothing else. *)
Definition run_env (mode name : gostring) : gostring :=
  if str_eqb name (go "PII_SALT") then go "0123456789abcdef"
  else if str_eqb name (go "PII_MODE") then mode else [].

(** A signature is the key followed by the hash of the message. *)
Definition run_ed25519 : Ed25519 := {| ed25519_Verify := fun k m sig => str_eqb sig (k ++ sha256 m) |}.

Definition demo_key : gostring := replicate 32 7.

(** A float32 that is always 0. *)
Definition run_float32 : Float32 :=
  {| float32 := unit; is_zero32 := fun _ => true; FormatFloat32 := fun _ => []; widen32 := fun _ => fzero |}.

(** API objects with nothing but the fields of the model, and a kubelet that expands no
    reference. *)
Definition run_api : KubernetesAPI := {| Opaque := unit; nothing := tt |}.
Definition run_kubelet : @Kubelet run_api := {| Expand := id; Resolve := fun _ => go "0123456789abcdef" |}.

Lemma run_kubelet_laws : @KubeletLaws run_api run_kubelet.
Proof. done. Qed.
