(* ===== verification/Wasm.v ===== *)
(** * The WebAssembly interface

    [cmd/wasm-ffi/main.go]: the functions a WebAssembly host (the Python and
    Node.js SDKs) calls.  Host and scanner share the linear memory: the host asks
    for a block with [allocate], writes a text into it, and [redact] answers with
    the address and the length of a block that holds the redacted text.  A block
    stays where it is as long as the map [allocations] holds its slice, so the map
    is kept as it is in the code: slices by address, their bytes in the memory.

    Go's heap is a parameter: what the runtime does to the memory while a call
    runs, and where it places a new slice.  It may do anything but touch the
    slices that are held. *)

From Stdlib Require Import ZArith Lia Bool SpecFloat.
From stdpp Require Import base list option sets gmap.
From S2P Require Import Prelude GoStrings Float64 Regex KeyMatcher Config Entropy JsonString Adaptive Machine.
From S2P Require Import Engine Redaction Scanner ConfigSources ScannerProofs Instances.

(** ** The linear memory *)

Definition memory := Z -> Z.

Fixpoint read (m : memory) (p : Z) (n : nat) : gostring :=
  match n with
  | O => []
  | S n => m p :: read m (p + 1) n
  end.

Fixpoint store (m : memory) (p : Z) (bs : gostring) : memory :=
  match bs with
  | [] => m
  | b :: bs => store (fun a => if a =? p then b else m a) (p + 1) bs
  end.

Definition uint32 (n : Z) : Z := n mod 2 ^ 32.
Definition uint64 (n : Z) : Z := n mod 2 ^ 64.

(** ** Go's heap *)

(** The slices [allocations] holds: their lengths by their addresses. *)
Notation slices := (gmap Z Z).

(** [churn] is what the runtime does in the course of a call, for the values the
    call uses and drops; [place] is the address of a new slice of [n > 0] bytes.
    Neither has an answer when the memory is exhausted, which ends the program. *)
Class GoHeap := {
  heap : Type;
  churn : heap -> slices -> memory -> option (heap * memory);
  place : heap -> slices -> Z -> option (Z * heap);
}.

(** Two blocks that do not meet. *)
Definition apart (p n q m : Z) : Prop := p + n <= q \/ q + m <= p.

(** What Go promises: a slice that can still be reached is not moved, not reused
    and not written to; a pointer is never nil; addresses are below 2^32. *)
Class GoHeapLaws (H : GoHeap) := {
  churn_keeps h held m h' m' p n :
    churn h held m = Some (h', m') -> held !! p = Some n -> forall a, p <= a < p + n -> m' a = m a;
  place_fresh h held n p h' :
    0 < n -> place h held n = Some (p, h') ->
    0 < p /\ p + n <= 2 ^ 32 /\ forall q k, held !! q = Some k -> apart p n q k;
}.

(** ** The module *)

Section module.
Context `{GoRuntime} `{RegexpCompiler} `{GoDecoders} `{GoHeap}.

(** The state of an instance: the memory and the heap, [allocations], the
    snapshot [activeConfig] holds and the state of the scanner. *)
Record wasmState := {
  w_mem : memory;
  w_heap : heap;
  allocations : slices;
  activeConfig : configState;
  w_scan : ES;
}.

(** A new slice with the bytes [bs]: [make] and the conversion to [[]byte]. *)
Definition new_slice (bs : gostring) (w : wasmState) : option (Z * wasmState) :=
  '(p, h) ← place (w_heap w) (allocations w) (Z.of_nat (length bs));
  Some (p, {| w_mem := store (w_mem w) p bs; w_heap := h; allocations := allocations w;
              activeConfig := activeConfig w; w_scan := w_scan w |}).

(** [allocations[ptr] = buf]. *)
Definition hold (ptr : Z) (buf : gostring) (w : wasmState) : wasmState :=
  {| w_mem := w_mem w; w_heap := w_heap w;
     allocations := <[ptr := Z.of_nat (length buf)]> (allocations w);
     activeConfig := activeConfig w; w_scan := w_scan w |}.

(** The work of a call: the heap and the memory outside the held slices change. *)
Definition work (w : wasmState) : option wasmState :=
  '(h, m) ← churn (w_heap w) (allocations w) (w_mem w);
  Some {| w_mem := m; w_heap := h; allocations := allocations w;
          activeConfig := activeConfig w; w_scan := w_scan w |}.

Definition allocate (size : Z) (w : wasmState) : option (Z * wasmState) :=
  if size =? 0 then Some (0, w)
  else
    w ← work w;
    let buf := replicate (Z.to_nat size) 0 in
    '(p, w) ← new_slice buf w;
    let ptr := uint32 p in
    Some (ptr, hold ptr buf w).

Definition free (ptr size : Z) (w : wasmState) : wasmState :=
  {| w_mem := w_mem w; w_heap := w_heap w; allocations := delete ptr (allocations w);
     activeConfig := activeConfig w; w_scan := w_scan w |}.

(** [UpdateConfig]: the new snapshot in one store. *)
Definition UpdateConfig (cfg : Config) (w : wasmState) : wasmState :=
  {| w_mem := w_mem w; w_heap := w_heap w; allocations := allocations w;
     activeConfig := buildConfigState cfg; w_scan := w_scan w |}.

(** [salt] is the random salt [ConfigFromSDKJSON] draws. *)
Definition init_config (salt : gostring) (ptr len : Z) (w : wasmState) : option wasmState :=
  if (ptr =? 0) || (len =? 0) then Some w
  else
    let b := read (w_mem w) ptr (Z.to_nat len) in
    let cfg := ConfigFromSDKJSON salt b in
    w ← work w;
    Some (UpdateConfig cfg w).

Definition redact (ptr len : Z) (w : wasmState) : option (Z * wasmState) :=
  if (ptr =? 0) || (len =? 0) then Some (0, w)
  else
    let input := read (w_mem w) ptr (Z.to_nat len) in
    match ScanAndRedactText (activeConfig w) input (w_scan w) with
    | Ok outBytes s =>
        w ← work w;
        let w := {| w_mem := w_mem w; w_heap := w_heap w; allocations := allocations w;
                    activeConfig := activeConfig w; w_scan := s |} in
        '(p, w) ← if is_empty outBytes then Some (0, w) else new_slice outBytes w;
        let len32 := uint32 (Z.of_nat (length outBytes)) in
        let '(ptr32, w) := if 0 <? len32 then (uint32 p, hold (uint32 p) outBytes w) else (0, w) in
        Some (Z.lor (uint64 (Z.shiftl ptr32 32)) len32, w)
    | _ => None
    end.

(** A host: it calls the functions and writes into the memory. *)
Inductive hostCall :=
| Allocate (size : Z)
| Free (ptr size : Z)
| WriteMemory (ptr : Z) (bs : gostring)
| InitConfig (salt : gostring) (ptr len : Z)
| Redact (ptr len : Z).

(** One call: its answer (zero where the function has none) and the state after
    it; nothing when the instance is gone. *)
Definition host_call (c : hostCall) (w : wasmState) : option (Z * wasmState) :=
  match c with
  | Allocate size => allocate size w
  | Free ptr size => Some (0, free ptr size w)
  | WriteMemory ptr bs =>
      Some (0, {| w_mem := store (w_mem w) ptr bs; w_heap := w_heap w; allocations := allocations w;
                  activeConfig := activeConfig w; w_scan := w_scan w |})
  | InitConfig salt ptr len => w ← init_config salt ptr len w; Some (0, w)
  | Redact ptr len => redact ptr len w
  end.

Fixpoint host_calls (cs : list hostCall) (w : wasmState) : option (list Z * wasmState) :=
  match cs with
  | [] => Some ([], w)
  | c :: cs => '(r, w) ← host_call c w; '(rs, w) ← host_calls cs w; Some (r :: rs, w)
  end.

(** [main] does nothing: an instance starts with the configuration of the
    environment and an empty baseline. *)
Definition instance_start (m : memory) (h : heap) (cfg : Config) : wasmState :=
  {| w_mem := m; w_heap := h; allocations := ∅; activeConfig := buildConfigState cfg;
     w_scan := {| sb := []; baseline := newBaselineStats 100; callbacks := [] |} |}.

End module.

(** ** The theorems about the WebAssembly interface

    What a host sees is a set of blocks with their bytes, a configuration and a
    scanner; the memory, the slices and the heap of the instance implement it. *)

(** ** A scan of a text never comes back empty *)

Lemma ToValidUTF8_nonempty s : s <> [] -> ToValidUTF8 s RuneErrorBytes <> [].
Proof.
  unfold ToValidUTF8. destruct s as [|b t]; [done|]. intros _. simpl.
  destruct (DecodeRune (b :: t)) as [r k]. by destruct (is_invalid r k).
Qed.

Lemma Redacts_nonempty `{Unicode} st n src out : Redacts st n src out -> src <> [] -> out <> [].
Proof.
  induction 1 as [| | | | |n m s t o p _ IHs _ IHt| | |]; intros Hne; try done.
  - destruct s as [|b s]; [|intros [Ho _]%app_eq_nil; by apply IHs in Ho].
    intros [_ Hp]%app_eq_nil. by apply IHt in Hp.
  - by apply IHRedacts, ToValidUTF8_nonempty.
Qed.

(** ** Memory *)

Lemma read_length m p n : length (read m p n) = n.
Proof. revert p. by induction n; intros p; simpl; [|f_equal]. Qed.

Lemma read_ext m m' p n : (forall a, p <= a < p + Z.of_nat n -> m' a = m a) -> read m' p n = read m p n.
Proof.
  revert p. induction n as [|n IH]; intros p Ha; [done|]. simpl. rewrite Ha by lia. f_equal. apply IH.
  intros a Hr. apply Ha. lia.
Qed.

Lemma read_app m p n k : read m p (n + k) = read m p n ++ read m (p + Z.of_nat n) k.
Proof.
  revert p. induction n as [|n IH]; intros p; simpl; [by rewrite Z.add_0_r|].
  rewrite IH. do 3 f_equal. lia.
Qed.

Lemma read_take m p n k : (k <= n)%nat -> read m p k = take k (read m p n).
Proof.
  intros Hk. replace n with (k + (n - k))%nat by lia. rewrite read_app, take_app_length'; [done|].
  by rewrite read_length.
Qed.

Lemma store_out m p bs a : a < p \/ p + Z.of_nat (length bs) <= a -> store m p bs a = m a.
Proof.
  revert m p. induction bs as [|b bs IH]; intros m p Ha; [done|]. simpl in *. rewrite IH by lia.
  by rewrite (proj2 (Z.eqb_neq a p)) by lia.
Qed.

Lemma read_store m p bs : read (store m p bs) p (length bs) = bs.
Proof.
  revert m p. induction bs as [|b bs IH]; intros m p; [done|]. simpl. f_equal; [|apply IH].
  rewrite store_out by lia. by rewrite Z.eqb_refl.
Qed.

(** A write at the start of a block. *)
Lemma read_overwrite m p bs n :
  (length bs <= n)%nat -> read (store m p bs) p n = bs ++ drop (length bs) (read m p n).
Proof.
  intros Hn. replace n with (length bs + (n - length bs))%nat by lia.
  rewrite !read_app, read_store, drop_app_length' by (by rewrite read_length). f_equal.
  apply read_ext. intros a Ha. apply store_out. lia.
Qed.

(** The packed answer of [redact]. *)
Lemma pack_parts p n : 0 <= p < 2 ^ 32 -> 0 <= n < 2 ^ 32 ->
  let r := Z.lor (uint64 (Z.shiftl p 32)) n in r / 2 ^ 32 = p /\ r mod 2 ^ 32 = n.
Proof.
  intros Hp Hn r. subst r. unfold uint64. rewrite Z.shiftl_mul_pow2, Z.mod_small by lia.
  assert (Z.land (p * 2 ^ 32) n = 0) as Hz.
  { rewrite <- Z.shiftl_mul_pow2 by lia. apply Z.bits_inj'. intros i Hi. rewrite Z.land_spec, Z.bits_0.
    destruct (Z.lt_ge_cases i 32); [by rewrite Z.shiftl_spec_low by lia|].
    rewrite <- (Z.mod_small n (2 ^ 32)), Z.mod_pow2_bits_high by lia. apply andb_false_r. }
  rewrite <- Z.lxor_lor, <- Z.add_nocarry_lxor by done.
  rewrite Z.div_add_l, Z.div_small, Z.add_0_r by lia. split; [done|].
  rewrite Z.add_comm, Z.mod_add by lia. by apply Z.mod_small.
Qed.

Section views.
Context `{RT : GoRuntime} `{RC : RegexpCompiler} `{GD : GoDecoders} `{GH : GoHeap} `{HL : !GoHeapLaws GH}.

(** ** The host's view *)

Record hostView := { blocks : gmap Z gostring; v_config : configState; v_scan : ES }.

(** The calls of a host that keeps to its blocks: it writes at the start of a
    block and within it, and names texts that are there. *)
Definition may_call (v : hostView) (c : hostCall) : Prop :=
  match c with
  | Allocate n => 0 <= n < 2 ^ 32
  | Free _ _ => True
  | WriteMemory p bs => exists b, blocks v !! p = Some b /\ (length bs <= length b)%nat
  | InitConfig _ p n | Redact p n =>
      exists b, blocks v !! p = Some b /\ 0 < n <= Z.of_nat (length b)
  end.

(** The view after a call that answered [r]. *)
Definition after (v : hostView) (c : hostCall) (r : Z) : hostView :=
  match c with
  | Allocate n =>
      {| blocks := if n =? 0 then blocks v else <[r := replicate (Z.to_nat n) 0]> (blocks v);
         v_config := v_config v; v_scan := v_scan v |}
  | Free p _ => {| blocks := delete p (blocks v); v_config := v_config v; v_scan := v_scan v |}
  | WriteMemory p bs =>
      {| blocks := alter (fun b => bs ++ drop (length bs) b) p (blocks v);
         v_config := v_config v; v_scan := v_scan v |}
  | InitConfig salt p n =>
      let doc := take (Z.to_nat n) (default [] (blocks v !! p)) in
      {| blocks := blocks v; v_config := buildConfigState (ConfigFromSDKJSON salt doc); v_scan := v_scan v |}
  | Redact p n =>
      match ScanAndRedactText (v_config v) (take (Z.to_nat n) (default [] (blocks v !! p))) (v_scan v) with
      | Ok out s => {| blocks := <[r / 2 ^ 32 := out]> (blocks v); v_config := v_config v; v_scan := s |}
      | _ => v
      end
  end.

(** The states of an instance a host reaches, with its view of them. *)
Inductive reached (cfg : Config) : wasmState -> hostView -> Prop :=
| reached_start m h :
    let w := instance_start m h cfg in
    reached cfg w {| blocks := ∅; v_config := activeConfig w; v_scan := w_scan w |}
| reached_call w v c r w' :
    reached cfg w v -> may_call v c -> host_call c w = Some (r, w') -> reached cfg w' (after v c r).

(** ** The instance implements the view *)

Definition size (b : gostring) : Z := Z.of_nat (length b).

Record implements (w : wasmState) (v : hostView) : Prop := {
  i_slices : allocations w = size <$> blocks v;
  i_config : activeConfig w = v_config v;
  i_scan : w_scan w = v_scan v;
  i_block p b : blocks v !! p = Some b ->
    b <> [] /\ 0 < p /\ p + size b <= 2 ^ 32 /\ read (w_mem w) p (length b) = b;
  i_apart p b q c : blocks v !! p = Some b -> blocks v !! q = Some c -> p <> q -> apart p (size b) q (size c);
}.

Lemma held_block w v p b : implements w v -> blocks v !! p = Some b -> allocations w !! p = Some (size b).
Proof. intros Hi Hb. by rewrite (i_slices _ _ Hi), lookup_fmap, Hb. Qed.

Lemma work_implements w v w' : implements w v -> work w = Some w' -> implements w' v.
Proof.
  intros Hi. unfold work. destruct (churn _ _ _) as [[h m]|] eqn:Hc; [|done]. simpl. intros [= <-].
  split; simpl; try apply Hi. intros p b Hb. destruct (i_block _ _ Hi p b Hb) as (Hne & H0 & Hend & Hr).
  repeat split; [done..|]. rewrite <- Hr at 2. apply read_ext.
  intros a Ha. by eapply churn_keeps; [|eapply held_block|].
Qed.

(** A new block: the other blocks keep their bytes. *)
Lemma hold_implements w v bs p w' :
  implements w v -> bs <> [] -> new_slice bs w = Some (p, w') ->
  0 < p < 2 ^ 32 /\ 0 < size bs < 2 ^ 32 /\ blocks v !! p = None /\
  implements (hold p bs w') {| blocks := <[p := bs]> (blocks v); v_config := v_config v; v_scan := v_scan v |}.
Proof.
  intros Hi Hne. unfold new_slice. fold (size bs). destruct (place _ _ _) as [[q h]|] eqn:Hp; [|done]. simpl.
  assert (0 < size bs) as Hs by (unfold size; destruct bs; [done|simpl; lia]).
  apply place_fresh in Hp as (H0 & Hend & Hfr); [|done].
  intros [= <- <-].
  assert (forall a b, blocks v !! a = Some b -> apart q (size bs) a (size b)) as Hap
    by (intros a b Ha; by eapply Hfr, held_block).
  assert (blocks v !! q = None) as Hq.
  { destruct (blocks v !! q) as [b|] eqn:Hb; [|done]. destruct (i_block _ _ Hi _ _ Hb) as (Hbne & _).
    assert (0 < size b) by (unfold size; destruct b; [done|simpl; lia]).
    destruct (Hap _ _ Hb); lia. }
  split; [lia|]. split; [lia|]. split; [done|]. split; simpl; try apply Hi.
  - by rewrite fmap_insert, (i_slices _ _ Hi).
  - intros a b [[-> ->]|[Hn Ha]]%lookup_insert_Some; [by repeat split; try apply read_store|].
    destruct (i_block _ _ Hi a b Ha) as (? & ? & ? & Hr). repeat split; [done..|].
    rewrite <- Hr at 2. apply read_ext. intros x Hx. apply store_out. fold (size bs).
    destruct (Hap _ _ Ha); unfold size in *; lia.
  - intros a b c d [[-> ->]|[Hn Ha]]%lookup_insert_Some [[-> ->]|[Hn' Hc]]%lookup_insert_Some Hd; [done|auto| |].
    + destruct (Hap _ _ Ha); [by right|by left].
    + by eapply Hi.
Qed.

(** A write by the host into one of its blocks. *)
Lemma write_implements w v p b bs :
  implements w v -> blocks v !! p = Some b -> (length bs <= length b)%nat ->
  implements {| w_mem := store (w_mem w) p bs; w_heap := w_heap w; allocations := allocations w;
                activeConfig := activeConfig w; w_scan := w_scan w |} (after v (WriteMemory p bs) 0).
Proof.
  intros Hi Hb Hl.
  assert (alter (fun b => bs ++ drop (length bs) b) p (blocks v) = <[p := bs ++ drop (length bs) b]> (blocks v)) as Ha
    by (rewrite <- (insert_id _ _ _ Hb) at 1; by rewrite alter_insert_eq).
  assert (length (bs ++ drop (length bs) b) = length b) as Hlen by (rewrite length_app, length_drop; lia).
  split; simpl; try apply Hi; rewrite Ha.
  - rewrite fmap_insert, (i_slices _ _ Hi). unfold size. rewrite Hlen. symmetry. apply insert_id.
    by rewrite lookup_fmap, Hb.
  - intros a c [[<- <-]|[Hn Hac]]%lookup_insert_Some; unfold size.
    + destruct (i_block _ _ Hi p b Hb) as (Hne & ? & ? & Hr). rewrite !Hlen. repeat split; [|done..|].
      * intros He. rewrite He in Hlen. by destruct b.
      * rewrite read_overwrite by done. by rewrite Hr.
    + destruct (i_block _ _ Hi a c Hac) as (? & ? & ? & Hr). repeat split; [done..|].
      rewrite <- Hr at 2. apply read_ext. intros x Hx. apply store_out.
      destruct (i_apart _ _ Hi _ _ _ _ Hac Hb); [done|..]; unfold size in *; lia.
  - intros a c d e Hac Hde Hne. apply lookup_insert_Some in Hac, Hde.
    destruct Hac as [[<- <-]|[? Hac]], Hde as [[<- <-]|[? Hde]]; [done|..]; unfold size; rewrite ?Hlen; by eapply Hi.
Qed.

(** The text a call names is the start of its block. *)
Lemma named_text w v p b n :
  implements w v -> blocks v !! p = Some b -> 0 < n <= size b ->
  (p =? 0) || (n =? 0) = false /\ read (w_mem w) p (Z.to_nat n) = take (Z.to_nat n) b /\ take (Z.to_nat n) b <> [].
Proof.
  intros Hi Hb Hn. destruct (i_block _ _ Hi p b Hb) as (Hne & H0 & _ & Hr). unfold size in Hn.
  split; [|split].
  - by rewrite (proj2 (Z.eqb_neq p 0)), (proj2 (Z.eqb_neq n 0)) by lia.
  - rewrite (read_take _ _ (length b)), Hr; [done|lia].
  - destruct b; [done|]. by replace (Z.to_nat n) with (S (Z.to_nat n - 1)) by lia.
Qed.

Lemma scan_text_nonempty st text s out s' : text <> [] -> ScanAndRedactText st text s = Ok out s' -> out <> [].
Proof.
  intros Hne He. pose proof (ScanAndRedactText_spec st text s) as Hs. rewrite He in Hs.
  destruct Hs as (n & HR & _). by eapply Redacts_nonempty.
Qed.

Lemma redact_implements w v p b n r w' :
  implements w v -> blocks v !! p = Some b -> 0 < n <= size b -> redact p n w = Some (r, w') ->
  exists out s, ScanAndRedactText (v_config v) (take (Z.to_nat n) b) (v_scan v) = Ok out s /\ out <> [] /\
    0 < r / 2 ^ 32 /\ r mod 2 ^ 32 = size out /\ blocks v !! (r / 2 ^ 32) = None /\
    implements w' {| blocks := <[r / 2 ^ 32 := out]> (blocks v); v_config := v_config v; v_scan := s |}.
Proof.
  intros Hi Hb Hn. destruct (named_text w v p b n Hi Hb Hn) as (Hz & Hr & Hne). unfold redact.
  rewrite Hz, Hr, (i_config _ _ Hi), (i_scan _ _ Hi).
  destruct (ScanAndRedactText _ _ _) as [out s| |] eqn:He; [|done..].
  assert (out <> []) as Ho by (by eapply scan_text_nonempty).
  destruct (work w) as [w1|] eqn:Hw; [|done]. apply (work_implements _ _ _ Hi) in Hw as Hi1. simpl.
  set (w2 := {| w_scan := s |}). fold (size out).
  assert (implements w2 {| blocks := blocks v; v_config := v_config v; v_scan := s |}) as Hi2
    by (split; try done; apply Hi1).
  assert (0 < size out) as Hs by (unfold size; destruct out; [done|simpl; lia]).
  destruct (is_empty out) eqn:Hemp; [by destruct out|].
  destruct (new_slice out w2) as [[q w3]|] eqn:Hp; [|done]. simpl.
  eapply hold_implements in Hp as (Hq & Hso & Hf & Hi3); [|done..].
  assert (uint32 (size out) = size out) as -> by (apply Z.mod_small; lia).
  assert (uint32 q = q) as -> by (apply Z.mod_small; lia).
  rewrite (proj2 (Z.ltb_lt 0 (size out))) by lia. intros [= <- <-].
  destruct (pack_parts q (size out)) as [-> ->]; [lia..|]. exists out, s. repeat (split; [done || lia|]). done.
Qed.

Lemma host_call_implements w v c r w' :
  implements w v -> may_call v c -> host_call c w = Some (r, w') -> implements w' (after v c r).
Proof.
  intros Hi Hc. destruct c as [n|p n|p bs|salt p n|p n]; simpl in *.
  - unfold allocate. destruct (n =? 0) eqn:Hn; [intros [= <- <-]; split; apply Hi|].
    destruct (work w) as [w1|] eqn:Hw; [|done]. apply (work_implements _ _ _ Hi) in Hw. simpl.
    destruct (new_slice _ w1) as [[q w2]|] eqn:Hp; [|done]. simpl. intros [= <- <-].
    apply Z.eqb_neq in Hn.
    eapply hold_implements in Hp as (Hq & _ & _ & Hi2); [|done|].
    + by replace (uint32 q) with q by (symmetry; apply Z.mod_small; lia).
    + by replace (Z.to_nat n) with (S (Z.to_nat n - 1)) by lia.
  - intros [= <- <-]. split; simpl; try apply Hi.
    + by rewrite fmap_delete, (i_slices _ _ Hi).
    + intros a b [_ Ha]%lookup_delete_Some. by apply Hi.
    + intros a b d e [_ Ha]%lookup_delete_Some [_ Hd]%lookup_delete_Some. by apply Hi.
  - destruct Hc as (b & Hb & Hl). intros [= <- <-]. by apply write_implements with b.
  - destruct Hc as (b & Hb & Hn). destruct (named_text w v p b n Hi Hb Hn) as (Hz & Hr & _).
    unfold init_config. rewrite Hz, Hr, Hb. destruct (work w) as [w1|] eqn:Hw; [|done].
    apply (work_implements _ _ _ Hi) in Hw. simpl. intros [= <- <-]. split; try done; apply Hw.
  - destruct Hc as (b & Hb & Hn). intros Hr. eapply redact_implements in Hr as (out & s & He & _ & _ & _ & _ & Hi'); [|done..].
    by rewrite Hb; simpl; rewrite He.
Qed.

Lemma reached_implements cfg w v : reached cfg w v -> implements w v.
Proof.
  induction 1 as [m h|w v c r w' _ IH Hm Hc]; [|by eapply host_call_implements].
  by split; try done; simpl; rewrite fmap_empty || idtac.
Qed.

(** C36: Whatever a host that keeps to its blocks has done with an instance, a call of
    [redact] on a text in one of its blocks answers with the address and the length
    of a new block that holds exactly what [ScanAndRedactText] makes of the text
    under the configuration set last; the answer is never zero, which a host would
    take for no answer, and every block the host holds keeps its bytes.  The
    instance is only lost when the scan panics or the memory is exhausted. *)
Theorem wasm_redact_exact cfg w v p b n :
  reached cfg w v -> blocks v !! p = Some b -> 0 < n <= size b ->
  let text := take (Z.to_nat n) b in
  match redact p n w with
  | Some (r, w') =>
      exists out s k, ScanAndRedactText (v_config v) text (v_scan v) = Ok out s /\
        Redacts (v_config v) k text out /\ r <> 0 /\
        read (w_mem w') (r / 2 ^ 32) (Z.to_nat (r mod 2 ^ 32)) = out /\
        forall q c, blocks v !! q = Some c -> q <> r / 2 ^ 32 /\ read (w_mem w') q (length c) = c
  | None => tame text = false \/ work w = None \/
      exists w1 out, work w = Some w1 /\ place (w_heap w1) (allocations w1) (size out) = None
  end.
Proof.
  intros Hre Hb Hn text. apply reached_implements in Hre as Hi.
  pose proof (ScanAndRedactText_spec (v_config v) text (v_scan v)) as Hs.
  destruct (redact p n w) as [[r w']|] eqn:Hr.
  - eapply redact_implements in Hr as (out & s & He & _ & H0 & Hl & Hf & Hi'); [|done..]. fold text in He.
    rewrite He in Hs. destruct Hs as (k & HR & _). exists out, s, k. do 2 (split; [done|]).
    split; [by intros ->|]. rewrite Hl. unfold size. rewrite Nat2Z.id. split.
    + apply (i_block _ _ Hi' _ out), lookup_insert_eq.
    + intros q c Hq. assert (r / 2 ^ 32 <> q) as Hne by congruence. split; [done|].
      apply (i_block _ _ Hi' _ c). simpl. by rewrite lookup_insert_ne.
  - revert Hr. destruct (named_text w v p b n Hi Hb Hn) as (Hz & Ht & _). unfold redact.
    rewrite Hz, Ht, (i_config _ _ Hi), (i_scan _ _ Hi). fold text.
    destruct (ScanAndRedactText _ _ _) as [out s| |]; [|by left; destruct Hs|done].
    destruct (work w) as [w1|]; [|by right; left]. simpl.
    destruct (is_empty out); [simpl; by destruct (0 <? _)|]. unfold new_slice. simpl. fold (size out).
    destruct (place _ _ _) as [[q h]|] eqn:Hp; [simpl; by destruct (0 <? _)|].
    intros _. right. right. by exists w1, out.
Qed.

End views.

(** ** A witness *)

(** A heap that places a slice behind all that are held. *)
Definition slices_end (held : slices) : Z :=
  foldr (fun s e => Z.max (s.1 + s.2) e) 1 (map_to_list held).

Definition run_heap : GoHeap := {|
  heap := unit; churn := fun _ _ m => Some (tt, m);
  place := fun _ held n => if slices_end held + n <=? 2 ^ 32 then Some (slices_end held, tt) else None |}.

Lemma slices_end_bounds held : 1 <= slices_end held /\ forall q k, held !! q = Some k -> q + k <= slices_end held.
Proof.
  unfold slices_end.
  assert (forall q k, held !! q = Some k -> (q, k) ∈ map_to_list held) as Hin by (intros q k; apply elem_of_map_to_list).
  revert Hin. generalize (map_to_list held). intros l Hin.
  assert (1 <= foldr (fun s e => Z.max (s.1 + s.2) e) 1 l /\
          forall s, s ∈ l -> s.1 + s.2 <= foldr (fun s e => Z.max (s.1 + s.2) e) 1 l) as [H1 H2].
  { clear Hin. induction l as [|s l [IH1 IH2]]; simpl; [split; [lia|by intros s ?%elem_of_nil]|].
    split; [lia|]. intros t [->|Ht]%elem_of_cons; [lia|]. apply IH2 in Ht. lia. }
  split; [done|]. intros q k Hq. by apply (H2 (q, k)), Hin.
Qed.

#[local] Existing Instances run_unicode run_time run_compiler run_decoders run_heap.

#[local] Instance run_heap_laws : GoHeapLaws run_heap.
Proof.
  split.
  - by intros [] held m [] m' p n [= <-].
  - intros [] held n p [] Hn. simpl. destruct (_ <=? _) eqn:Hle; [|done]. intros [= <-].
    apply Z.leb_le in Hle. destruct (slices_end_bounds held) as [H1 H2]. split; [lia|]. split; [lia|].
    intros q k Hq. right. by apply H2.
Qed.

(** A host that asks for a block of two bytes and writes a text into it. *)
Definition hi_start : wasmState := instance_start (fun _ => 0) tt small_config.
Definition run_call (c : hostCall) (w : wasmState) : wasmState := from_option snd w (host_call c w).
Definition hi_allocated : wasmState := run_call (Allocate 2) hi_start.
Definition hi_written : wasmState := run_call (WriteMemory 1 (go "hi")) hi_allocated.

Lemma run_call_answer c w r : fst <$> host_call c w = Some r -> host_call c w = Some (r, run_call c w).
Proof. unfold run_call. destruct (host_call c w) as [[r' w']|]; [|done]. by intros [= ->]. Qed.

Lemma wasm_redact_exact_witness :
  exists v b, blocks v !! 1 = Some b /\ b = go "hi" /\
  match redact 1 2 hi_written with
  | Some (r, w') =>
      exists out s k, ScanAndRedactText (v_config v) (take 2 b) (v_scan v) = Ok out s /\
        Redacts (v_config v) k (take 2 b) out /\ r <> 0 /\
        read (w_mem w') (r / 2 ^ 32) (Z.to_nat (r mod 2 ^ 32)) = out /\
        forall q c, blocks v !! q = Some c -> q <> r / 2 ^ 32 /\ read (w_mem w') q (length c) = c
  | None => False
  end.
Proof.
  pose (v0 := {| blocks := ∅; v_config := activeConfig hi_start; v_scan := w_scan hi_start |}).
  pose (v1 := after v0 (Allocate 2) 1). pose (v2 := after v1 (WriteMemory 1 (go "hi")) 0).
  assert (reached small_config hi_written v2) as Hre.
  { apply reached_call with hi_allocated; [apply reached_call with hi_start|..].
    - apply reached_start.
    - simpl. lia.
    - by apply run_call_answer.
    - exists [0; 0]. split; [reflexivity|simpl; lia].
    - by apply run_call_answer. }
  exists v2, (go "hi"). split; [vm_compute; reflexivity|]. split; [reflexivity|].
  pose proof (wasm_redact_exact small_config hi_written v2 1 (go "hi") 2 Hre eq_refl ltac:(vm_compute; split; [reflexivity|discriminate])) as H.
  destruct (redact 1 2 hi_written) as [[r w']|] eqn:Hr; [exact H|].
  assert (fst <$> redact 1 2 hi_written = Some (3 * 2 ^ 32 + 2)) as Ha by (vm_compute; reflexivity).
  rewrite Hr in Ha. discriminate Ha.
Defined.
