(* ===== verification/Ebpf.v ===== *)
(** * The eBPF audit agent

    [ebpf/internal]: records of the kernel's ring buffer ([probe/event.go]), the writes of
    each process joined into lines ([stream/stream.go]), and the counts of the
    scanner over these lines ([audit/audit.go]). *)

From Stdlib Require Import ZArith Lia Bool SpecFloat.
From stdpp Require Import base list option sets gmap.
From coqutil Require Import Z.bitblast.
From S2P Require Import Prelude GoStrings Float64 Regex KeyMatcher Config Entropy Adaptive Machine Engine Scanner.
From S2P Require Import ConfigSources Stats Output.

(** ** Ring buffer records *)

Definition HeaderSize : nat := 16.
Definition FlagTruncated : Z := 1.
Definition FlagIOVCut : Z := 2.

Record Event := { Tgid : Z; FD : Z; Flags : Z; Data : gostring }.

(** [Truncated]. *)
Definition Truncated (e : Event) : bool := negb (Z.land (Flags e) (Z.lor FlagTruncated FlagIOVCut) =? 0).

(** [binary.LittleEndian.Uint32] on the four bytes from [i]. *)
Definition Uint32 (rec : gostring) (i : nat) : Z :=
  Z.lor (byte_at rec i)
    (Z.lor (Z.shiftl (byte_at rec (i + 1)) 8)
      (Z.lor (Z.shiftl (byte_at rec (i + 2)) 16) (Z.shiftl (byte_at rec (i + 3)) 24))).

(** [ParseEvent]; [None] is an error. *)
Definition ParseEvent (rec : gostring) : option Event :=
  if (length rec <? HeaderSize)%nat then None
  else
    let n := Uint32 rec 8 in
    if Z.of_nat (length rec - HeaderSize) <? n then None
    else Some {| Tgid := Uint32 rec 0; FD := Uint32 rec 4; Flags := Uint32 rec 12;
                 Data := slice rec HeaderSize (HeaderSize + Z.to_nat n) |}.

(** ** Lines from writes *)

(** A process and one of its descriptors. *)
Notation Key := (Z * Z)%type.

Record pending := { p_buf : gostring; p_seen : Z }.

(** A line given to [OnLine].  The stream it came from and whether a newline ended it are
    not passed on by the code; they are kept here to say what the lines are. *)
Record emitted := { e_key : Key; e_line : gostring; e_closed : bool }.

Record Assembler := {
  MaxLine : Z;
  Overflows : Z;
  streams : gmap Key pending;
  lines : list emitted;
}.

Definition DefaultMaxLine : Z := Z.shiftl 1 20.

(** [New]. *)
Definition New : Assembler := {| MaxLine := DefaultMaxLine; Overflows := 0; streams := ∅; lines := [] |}.

(** The first loop of [Push]: whole lines, nothing pending. *)
Fixpoint fast_lines (fuel : nat) (data : gostring) : list gostring * gostring :=
  match fuel with
  | O => ([], data)
  | S f =>
    match IndexByte data newline with
    | None => ([], data)
    | Some i => let '(ls, rest) := fast_lines f (drop (S i) data) in (take i data :: ls, rest)
    end
  end.

(** The second loop: the lines completed after the bytes [b], and the bytes pending
    after it. *)
Fixpoint slow_lines (fuel : nat) (b data : gostring) : list gostring * gostring :=
  match fuel with
  | O => ([], b ++ data)
  | S f =>
    match IndexByte data newline with
    | None => ([], b ++ data)
    | Some i => let '(ls, rest) := slow_lines f [] (drop (S i) data) in ((b ++ take i data) :: ls, rest)
    end
  end.

Definition closed_lines (k : Key) (ls : list gostring) : list emitted :=
  (fun l => {| e_key := k; e_line := l; e_closed := true |}) <$> ls.

(** [Push] once there is something pending, [b], or to keep; [out] are the lines so far. *)
Definition push_pending (a : Assembler) (k : Key) (out : list emitted) (b data : gostring) (now : Z) : Assembler :=
  let '(ls, rest) := slow_lines (length data) b data in
  let out := out ++ closed_lines k ls in
  if MaxLine a <=? len rest then
    {| MaxLine := MaxLine a; Overflows := u64 (Overflows a + 1); streams := delete k (streams a);
       lines := out ++ [{| e_key := k; e_line := rest; e_closed := false |}] |}
  else
    {| MaxLine := MaxLine a; Overflows := Overflows a;
       streams := if is_empty rest then delete k (streams a)
                  else <[k := {| p_buf := rest; p_seen := now |}]> (streams a);
       lines := out |}.

(** [Push]: one write of a stream. *)
Definition Push (a : Assembler) (k : Key) (data : gostring) (now : Z) : Assembler :=
  let b := default [] (p_buf <$> streams a !! k) in
  if is_empty b then
    let '(ls, rest) := fast_lines (length data) data in
    let out := lines a ++ closed_lines k ls in
    if is_empty rest
    then {| MaxLine := MaxLine a; Overflows := Overflows a; streams := streams a; lines := out |}
    else push_pending a k out [] rest now
  else push_pending a k (lines a) b data now.

(** The streams in the order [range] visits the map. *)
Class MapOrder := { map_order : list (Key * pending) -> list (Key * pending) }.

Definition flush_one (now idle : Z) (a : Assembler) (kp : Key * pending) : Assembler :=
  let '(k, p) := kp in
  if idle <=? now - p_seen p then
    {| MaxLine := MaxLine a; Overflows := Overflows a; streams := delete k (streams a);
       lines := if is_empty (p_buf p) then lines a
                else lines a ++ [{| e_key := k; e_line := p_buf p; e_closed := false |}] |}
  else a.

(** [FlushIdle]. *)
Definition FlushIdle `{MapOrder} (a : Assembler) (now idle : Z) : Assembler :=
  foldl (flush_one now idle) a (map_order (map_to_list (streams a))).

(** [Pending]. *)
Definition Pending (a : Assembler) : nat := size (streams a).

(** ** The counts *)

Record Auditor := { au_lines : Z; au_wouldRedact : Z; au_bytes : Z; au_findings : Z; au_byType : list Z }.

Definition typeNames : list gostring :=
  [go "entropy"; go "regex"; go "luhn"; go "signature"; go "key"; go "other"].

(** [audit.New]. *)
Definition newAuditor : Auditor :=
  {| au_lines := 0; au_wouldRedact := 0; au_bytes := 0; au_findings := 0; au_byType := replicate 6 0 |}.

(** The index of a strategy among the first five names, or the last. *)
Definition type_index (strategy : gostring) : nat :=
  default 5%nat (fst <$> list_find (fun n => n = strategy) (take 5 typeNames)).

(** The callback of [audit.New]. *)
Definition audit_finding (a : Auditor) (strategy : gostring) : Auditor :=
  {| au_lines := au_lines a; au_wouldRedact := au_wouldRedact a; au_bytes := au_bytes a;
     au_findings := u64 (au_findings a + 1);
     au_byType := alter (fun n => u64 (n + 1)) (type_index strategy) (au_byType a) |}.

(** [Line]: the counts and the baseline after a line; [None] is a panic of the scanner,
    which nothing recovers. *)
Definition audit_line `{GoRuntime} (st : configState) (line : gostring) (a : Auditor) (bs : BaselineStats) :
    option (Auditor * BaselineStats) :=
  let a := {| au_lines := u64 (au_lines a + 1); au_wouldRedact := au_wouldRedact a;
              au_bytes := u64 (au_bytes a + len line); au_findings := au_findings a; au_byType := au_byType a |} in
  match ScanAndRedact st line {| sb := []; baseline := bs; callbacks := [] |} with
  | Ok cleaned s =>
    let a := foldl audit_finding a (callbacks s) in
    Some ({| au_lines := au_lines a;
             au_wouldRedact := if str_eqb cleaned line then au_wouldRedact a else u64 (au_wouldRedact a + 1);
             au_bytes := au_bytes a; au_findings := au_findings a; au_byType := au_byType a |}, baseline s)
  | _ => None
  end.

(** [Summary]. *)
Definition audit_summary (a : Auditor) : gostring :=
  let pct :=
    if 0 <? au_lines a
    then fdiv (fmul (float_of_Z 100) (float_of_Z (au_wouldRedact a))) (float_of_Z (au_lines a)) else fzero in
  let count i := decimal (default 0 (au_byType a !! i)) in
  let parts :=
    [count 0%nat ++ go " high-entropy secrets"; count 1%nat ++ go " pattern matches"; count 2%nat ++ go " card numbers";
     count 3%nat ++ go " signatures"; count 4%nat ++ go " sensitive-key values"] ++
    (if 0 <? default 0 (au_byType a !! 5%nat) then [count 5%nat ++ go " other"] else []) in
  go "PII-Shield audit: " ++ decimal (au_findings a) ++ go " would-be redactions (" ++ Join parts (go ", ") ++ go ") in " ++
  decimal (au_wouldRedact a) ++ go " of " ++ decimal (au_lines a) ++ go " lines (" ++ one_decimal pct ++ go "%) / " ++
  decimal (au_bytes a) ++ go " bytes seen; nothing was changed".

(** ** Lines are the lines of the stream

    The two loops of [Push] against a byte-by-byte reading, and what holds of the
    assembler after any sequence of writes and flushes. *)

(** ** Records

    The kernel side writes [struct event_hdr] of [probe.c], four little-endian 32-bit
    fields (process, descriptor, data length, flags), then the data; the ring
    buffer may pad the record. *)

Definition le_byte (n i : Z) : byte := Z.land (Z.shiftr n (8 * i)) (Z.ones 8).

Definition le32 (n : Z) : gostring := [le_byte n 0; le_byte n 1; le_byte n 2; le_byte n 3].

Definition encode_event (e : Event) : gostring :=
  le32 (Tgid e) ++ le32 (FD e) ++ le32 (len (Data e)) ++ le32 (Flags e) ++ Data e.

Definition is_u32 (n : Z) : Prop := 0 <= n < 2 ^ 32.

Lemma le32_value n :
  is_u32 n ->
  Z.lor (le_byte n 0) (Z.lor (Z.shiftl (le_byte n 1) 8)
    (Z.lor (Z.shiftl (le_byte n 2) 16) (Z.shiftl (le_byte n 3) 24))) = n.
Proof.
  intros Hn. unfold le_byte.
  assert (forall m, 32 <= m -> Z.testbit n m = false) as Hhi.
  { intros m Hm. destruct (decide (n = 0)) as [->|]; [apply Z.bits_0|]. unfold is_u32 in Hn.
    assert (Z.log2 n < 32) by (apply Z.log2_lt_pow2; lia). apply Z.bits_above_log2; lia. }
  Z.bitblast. all: by rewrite ?Hhi by lia.
Qed.

Lemma ParseEvent_encode e pad :
  is_u32 (Tgid e) -> is_u32 (FD e) -> is_u32 (Flags e) -> is_u32 (len (Data e)) ->
  ParseEvent (encode_event e ++ pad) = Some e.
Proof.
  destruct e as [t f fl d]; simpl. intros Ht Hf Hfl Hd. unfold ParseEvent, encode_event, HeaderSize, Uint32, byte_at.
  cbn [Tgid FD Flags Data le32 app length lookup list_lookup default from_option id Nat.add].
  rewrite !le32_value by done. unfold len. rewrite length_app.
  rewrite (proj2 (Z.ltb_ge _ _)) by lia. rewrite Nat2Z.id. f_equal. f_equal. unfold slice.
  change (take (16 + length d - 16) (d ++ pad) = d).
  replace (16 + length d - 16)%nat with (length d) by lia. apply take_app_length.
Qed.

(** ** Lines

    Reading byte by byte: the lines completed after the bytes [b], and the bytes of the
    line left open. *)
Fixpoint cut_lines (b data : gostring) : list gostring * gostring :=
  match data with
  | [] => ([], b)
  | c :: data' =>
    if c =? newline then let '(ls, rest) := cut_lines [] data' in (b :: ls, rest)
    else cut_lines (b ++ [c]) data'
  end.

Lemma cut_lines_none b data : ~ In newline data -> cut_lines b data = ([], b ++ data).
Proof.
  revert b. induction data as [|c data IH]; intros b Hn; simpl; [by rewrite app_nil_r|].
  rewrite (proj2 (Z.eqb_neq c newline)) by (intros ->; apply Hn; by left).
  rewrite IH by (intros ?; apply Hn; by right). by rewrite <-app_assoc.
Qed.

Lemma cut_lines_split b s t :
  ~ In newline s -> cut_lines b (s ++ newline :: t) = let '(ls, rest) := cut_lines [] t in ((b ++ s) :: ls, rest).
Proof.
  revert b. induction s as [|c s IH]; intros b Hn; simpl; [by rewrite app_nil_r|].
  rewrite (proj2 (Z.eqb_neq c newline)) by (intros ->; apply Hn; by left).
  rewrite IH by (intros ?; apply Hn; by right). by rewrite <-app_assoc.
Qed.

Lemma cut_lines_split' b data s t :
  data = s ++ newline :: t -> ~ In newline s ->
  cut_lines b data = let '(ls, rest) := cut_lines [] t in ((b ++ s) :: ls, rest).
Proof. intros ->. apply cut_lines_split. Qed.

Lemma slow_lines_cut f b data : (length data <= f)%nat -> slow_lines f b data = cut_lines b data.
Proof.
  revert b data. induction f as [|f IH]; intros b data Hf; simpl.
  - destruct data; [|simpl in Hf; lia]. simpl. by rewrite app_nil_r.
  - destruct (IndexByte data newline) as [i|] eqn:Ei; [|by rewrite cut_lines_none by (by apply IndexByte_None)].
    pose proof (IndexByte_split _ _ _ Ei) as Hs. pose proof (IndexByte_lt _ _ _ Ei) as Hl.
    apply IndexByte_Some in Ei as [_ Hn]. rewrite cut_lines_split' with (s := take i data) (t := drop (S i) data) by done.
    by rewrite IH by (rewrite length_drop; lia).
Qed.

Lemma fast_lines_cut f data : (length data <= f)%nat -> fast_lines f data = cut_lines [] data.
Proof.
  revert data. induction f as [|f IH]; intros data Hf; simpl.
  - destruct data; [done|simpl in Hf; lia].
  - destruct (IndexByte data newline) as [i|] eqn:Ei; [|by rewrite cut_lines_none by (by apply IndexByte_None)].
    pose proof (IndexByte_split _ _ _ Ei) as Hs. pose proof (IndexByte_lt _ _ _ Ei) as Hl.
    apply IndexByte_Some in Ei as [_ Hn]. rewrite cut_lines_split' with (s := take i data) (t := drop (S i) data) by done.
    by rewrite IH by (rewrite length_drop; lia).
Qed.

(** A text without a line break. *)
Definition one_line (s : gostring) : Prop := ~ In newline s.

Lemma cut_lines_spec b data ls rest :
  one_line b -> cut_lines b data = (ls, rest) ->
  concat ((fun l => l ++ [newline]) <$> ls) ++ rest = b ++ data /\ Forall one_line ls /\ one_line rest.
Proof.
  revert b ls rest. induction data as [|c data IH]; intros b ls rest Hb; simpl.
  - intros [= <- <-]. by rewrite app_nil_r.
  - destruct (c =? newline) eqn:E; [apply Z.eqb_eq in E as ->|apply Z.eqb_neq in E].
    + destruct (cut_lines [] data) as [ls' rest'] eqn:Ec. intros [= <- <-].
      destruct (IH [] ls' rest') as (H1 & H2 & H3); [by intros ?|done|]. split_and!; [|by constructor|done].
      rewrite fmap_cons, concat_cons, <-!app_assoc, H1. done.
    + intros Hc. apply IH in Hc as (H1 & H2 & H3); cycle 1.
      { unfold one_line. rewrite in_app_iff. intros [?|[?|[]]]; [by apply Hb|congruence]. }
      split_and!; [|done|done]. by rewrite H1, <-app_assoc.
Qed.

Lemma cut_lines_app ls rest b d1 d2 :
  cut_lines b d1 = (ls, rest) -> cut_lines b (d1 ++ d2) = let '(ls', r) := cut_lines rest d2 in (ls ++ ls', r).
Proof.
  revert b ls rest. induction d1 as [|c d1 IH]; intros b ls rest; simpl.
  - intros [= <- <-]. by destruct (cut_lines b d2).
  - destruct (c =? newline).
    + destruct (cut_lines [] d1) as [ls1 r1] eqn:E. intros [= <- <-]. rewrite (IH _ _ _ E). by destruct (cut_lines r1 d2).
    + apply IH.
Qed.

(** ** Any sequence of writes and flushes *)

Inductive agent_op :=
| OpPush (k : Key) (data : gostring) (now : Z)
| OpFlush (now idle : Z).

(** [range] visits every stream once, in some order. *)
Class MapOrderLaws (O : MapOrder) : Prop := { map_order_perm l : map_order l ≡ₚ l }.

Section ops.
Context `{MapOrderLaws}.

Definition agent_step (a : Assembler) (op : agent_op) : Assembler :=
  match op with
  | OpPush k data now => Push a k data now
  | OpFlush now idle => FlushIdle a now idle
  end.

Definition agent_run : Assembler -> list agent_op -> Assembler := foldl agent_step.

(** What was written to the stream [k]. *)
Definition op_bytes (k : Key) (op : agent_op) : gostring :=
  match op with OpPush k' data _ => if decide (k' = k) then data else [] | OpFlush _ _ => [] end.

(** The bytes of the stream [k] that went out in lines, line breaks included, and those
    that wait. *)
Definition sent_bytes (k : Key) (out : list emitted) : gostring :=
  concat ((fun e => if decide (e_key e = k) then e_line e ++ (if e_closed e then [newline] else []) else []) <$> out).

Definition waiting (k : Key) (m : gmap Key pending) : gostring := default [] (p_buf <$> m !! k).

Record asm_ok (received : Key -> gostring) (a : Assembler) : Prop := {
  ok_bytes k : sent_bytes k (lines a) ++ waiting k (streams a) = received k;
  ok_lines : Forall (fun e => one_line (e_line e)) (lines a);
  ok_pending k p : streams a !! k = Some p -> one_line (p_buf p) /\ p_buf p <> [] /\ len (p_buf p) < MaxLine a;
  ok_max : 0 < MaxLine a;
}.

Lemma sent_bytes_app k l1 l2 : sent_bytes k (l1 ++ l2) = sent_bytes k l1 ++ sent_bytes k l2.
Proof. unfold sent_bytes. by rewrite fmap_app, concat_app. Qed.

Lemma sent_bytes_closed k ls : sent_bytes k (closed_lines k ls) = concat ((fun l => l ++ [newline]) <$> ls).
Proof.
  induction ls as [|l ls IH]; [done|]. unfold sent_bytes, closed_lines in *. simpl. rewrite decide_True by done. by f_equal.
Qed.

Lemma sent_bytes_other k k' ls : k' <> k -> sent_bytes k (closed_lines k' ls) = [].
Proof. intros Hk. induction ls as [|l ls IH]; [done|]. unfold sent_bytes, closed_lines in *. simpl. by rewrite decide_False. Qed.

Lemma closed_one_line k ls : Forall one_line ls -> Forall (fun e => one_line (e_line e)) (closed_lines k ls).
Proof. intros Hl. unfold closed_lines. by apply Forall_fmap. Qed.

(** Adding an entry of the stream [k]. *)
Lemma sent_bytes_open k k' l :
  sent_bytes k' [{| e_key := k; e_line := l; e_closed := false |}] = if decide (k = k') then l else [].
Proof. unfold sent_bytes. simpl. destruct (decide (k = k')); by rewrite ?app_nil_r. Qed.

Definition extend (received : Key -> gostring) (k : Key) (data : gostring) : Key -> gostring :=
  fun k' => received k' ++ (if decide (k = k') then data else []).

(** [Push] with the bytes [b] read before [data], of which [received] knows. *)
Lemma push_pending_ok received a k out b data now :
  asm_ok received {| MaxLine := MaxLine a; Overflows := Overflows a; streams := delete k (streams a); lines := out |} ->
  one_line b -> asm_ok (extend received k (b ++ data)) (push_pending a k out b data now).
Proof.
  intros [Hb Hl Hp Hm] Hob. simpl in *. unfold push_pending. rewrite slow_lines_cut by lia.
  destruct (cut_lines b data) as [ls rest] eqn:Ec. destruct (cut_lines_spec _ _ _ _ Hob Ec) as (Hc & Hls & Hr).
  assert (Forall (fun e => one_line (e_line e)) (out ++ closed_lines k ls)) as Hout
    by (apply Forall_app; split; [done|by apply closed_one_line]).
  assert (forall k', sent_bytes k' (out ++ closed_lines k ls) ++ (if decide (k = k') then rest else waiting k' (delete k (streams a)))
    = extend received k (b ++ data) k') as Hbytes.
  { intros k'. unfold extend. rewrite sent_bytes_app. destruct (decide (k = k')) as [<-|Hk].
    - rewrite sent_bytes_closed, <-app_assoc, Hc, <-(Hb k). unfold waiting. by rewrite lookup_delete_eq, app_nil_r.
    - by rewrite sent_bytes_other, !app_nil_r by done. }
  destruct (MaxLine a <=? len rest) eqn:Eo; [|apply Z.leb_gt in Eo; destruct rest as [|c rest]; cbn [is_empty]].
  - split; simpl; [|apply Forall_app; split; [done|by repeat constructor]|done|done].
    intros k'. rewrite <-Hbytes, (sent_bytes_app k' (out ++ _)), sent_bytes_open, <-app_assoc. f_equal.
    destruct (decide (k = k')) as [<-|]; [|done]. unfold waiting. by rewrite lookup_delete_eq, app_nil_r.
  - split; simpl; [|done|done|done]. intros k'. rewrite <-Hbytes. f_equal.
    destruct (decide (k = k')) as [<-|]; [|done]. unfold waiting. by rewrite lookup_delete_eq.
  - split; simpl; [|done| |done].
    + intros k'. rewrite <-Hbytes. f_equal. unfold waiting. destruct (decide (k = k')) as [<-|].
      * by rewrite lookup_insert_eq.
      * by rewrite lookup_insert_ne, lookup_delete_ne.
    + intros k' p. destruct (decide (k = k')) as [<-|].
      * rewrite lookup_insert_eq. intros [= <-]. by simpl.
      * rewrite lookup_insert_ne by done. intros Hk. apply (Hp k'). by rewrite lookup_delete_ne.
Qed.

Lemma asm_ok_ext r r' a : (forall k, r k = r' k) -> asm_ok r a -> asm_ok r' a.
Proof. intros Hr [Hb Hl Hp Hm]. split; [|done..]. intros k. by rewrite Hb. Qed.

Lemma extend_app r k d1 d2 k' : extend (extend r k d1) k d2 k' = extend r k (d1 ++ d2) k'.
Proof. unfold extend. destruct (decide (k = k')); by rewrite <-?app_assoc, ?app_nil_r. Qed.

(** Whole lines of the stream [k], nothing pending. *)
Lemma whole_lines_ok received a k ls :
  asm_ok received a -> Forall one_line ls -> streams a !! k = None ->
  asm_ok (extend received k (concat ((fun l => l ++ [newline]) <$> ls)))
    {| MaxLine := MaxLine a; Overflows := Overflows a; streams := streams a; lines := lines a ++ closed_lines k ls |}.
Proof.
  intros [Hb Hl Hp Hm] Hls Hk. split; simpl; [|apply Forall_app; split; [done|by apply closed_one_line]|done|done].
  intros k'. unfold extend. rewrite sent_bytes_app, <-app_assoc, <-(Hb k'). destruct (decide (k = k')) as [<-|].
  - rewrite sent_bytes_closed. unfold waiting. by rewrite Hk, !app_nil_r.
  - by rewrite sent_bytes_other, app_nil_r by done.
Qed.

Lemma Push_ok received a k data now : asm_ok received a -> asm_ok (extend received k data) (Push a k data now).
Proof.
  intros Ha. pose proof Ha as [Hb Hl Hp Hm]. unfold Push. destruct (streams a !! k) as [p|] eqn:Ek.
  - destruct (Hp _ _ Ek) as (H1 & H2 & H3). change (default [] (p_buf <$> Some p)) with (p_buf p).
    assert (is_empty (p_buf p) = false) as -> by (by destruct (p_buf p)). eapply asm_ok_ext; [|apply (push_pending_ok (fun k' => if decide (k = k') then sent_bytes k (lines a) else received k'))].
    + intros k'. unfold extend. destruct (decide (k = k')) as [<-|]; [|done]. rewrite <-(Hb k). unfold waiting. rewrite Ek. simpl.
      by rewrite <-app_assoc.
    + split; simpl; [|done| |done].
      * intros k'. unfold waiting. destruct (decide (k = k')) as [<-|]; [by rewrite lookup_delete_eq, app_nil_r|].
        rewrite lookup_delete_ne by done. apply Hb.
      * intros k' p' Hk'. apply (Hp k'). by apply lookup_delete_Some in Hk' as [_ ?].
    + done.
  - simpl. rewrite fast_lines_cut by lia. destruct (cut_lines [] data) as [ls rest] eqn:Ec.
    destruct (cut_lines_spec [] data ls rest) as (Hc & Hls & Hr); [by intros ?|done|]. simpl in Hc.
    pose proof (whole_lines_ok received a k ls Ha Hls Ek) as Hw. destruct rest as [|c rest]; cbn [is_empty].
    + rewrite app_nil_r in Hc. by rewrite <-Hc.
    + eapply asm_ok_ext; [|apply (push_pending_ok (extend received k (concat ((fun l => l ++ [newline]) <$> ls))))].
      * intros k'. rewrite extend_app. simpl. by rewrite Hc.
      * rewrite delete_id by done. exact Hw.
      * by intros ?.
Qed.

Lemma flush_one_ok received now idle a k p :
  asm_ok received a -> streams a !! k = Some p -> asm_ok received (flush_one now idle a (k, p)).
Proof.
  intros [Hb Hl Hp Hm] Hk. unfold flush_one. destruct (idle <=? now - p_seen p); [|done].
  destruct (Hp _ _ Hk) as (H1 & H2 & _). destruct (p_buf p) as [|c b] eqn:Eb; [done|]. cbn [is_empty]. rewrite <-Eb in *.
  split; simpl; [|apply Forall_app; split; [done|by repeat constructor]| |done].
  - intros k'. rewrite sent_bytes_app, sent_bytes_open, <-app_assoc, <-(Hb k'). f_equal. unfold waiting.
    destruct (decide (k = k')) as [<-|]; [by rewrite lookup_delete_eq, Hk, app_nil_r|by rewrite lookup_delete_ne].
  - intros k' p' Hk'. apply (Hp k'). by apply lookup_delete_Some in Hk' as [_ ?].
Qed.

Lemma flush_all_ok received now idle l a :
  NoDup l.*1 -> (forall kp, kp ∈ l -> streams a !! kp.1 = Some kp.2) -> asm_ok received a ->
  asm_ok received (foldl (flush_one now idle) a l).
Proof.
  revert a. induction l as [|[k p] l IH]; intros a Hnd Hin Ha; simpl; [done|].
  apply NoDup_cons in Hnd as [Hk Hnd]. pose proof (Hin (k, p) ltac:(set_solver)) as Hkp. simpl in Hkp.
  apply IH; [done| |by apply flush_one_ok].
  intros [k' p'] Hkp'. pose proof (Hin (k', p') ltac:(set_solver)) as Hl. simpl in *. unfold flush_one.
  destruct (idle <=? _); [|done]. simpl. rewrite lookup_delete_ne; [done|]. intros ->. apply Hk.
  apply list_elem_of_fmap. by exists (k', p').
Qed.

(** The keys and streams that a flush visits. *)
Lemma flush_visits a :
  let l := map_order (map_to_list (streams a)) in
  NoDup l.*1 /\ forall kp, kp ∈ l <-> streams a !! kp.1 = Some kp.2.
Proof.
  simpl. split.
  - rewrite map_order_perm. apply NoDup_fst_map_to_list.
  - intros [k p]. rewrite map_order_perm. apply elem_of_map_to_list.
Qed.

Lemma agent_step_ok received a op :
  asm_ok received a -> asm_ok (fun k => received k ++ op_bytes k op) (agent_step a op).
Proof.
  intros Ha. destruct op as [k data now|now idle]; simpl.
  - by apply Push_ok.
  - apply (asm_ok_ext received); [intros k; by rewrite app_nil_r|]. destruct (flush_visits a) as [H1 H2].
    apply flush_all_ok; [exact H1| |exact Ha]. intros kp Hkp. by apply H2.
Qed.

Lemma New_ok : asm_ok (fun _ => []) New.
Proof. split; [done|constructor|done|done]. Qed.

Lemma agent_run_ok received a ops :
  asm_ok received a -> asm_ok (fun k => received k ++ concat (op_bytes k <$> ops)) (agent_run a ops).
Proof.
  revert received a. induction ops as [|op ops IH]; intros received a Ha; simpl.
  - eapply asm_ok_ext; [|exact Ha]. intros k. by rewrite app_nil_r.
  - eapply asm_ok_ext; [|apply IH, agent_step_ok, Ha]. intros k. simpl. by rewrite <-app_assoc.
Qed.

(** A flush late enough leaves nothing pending. *)
Lemma flush_all_empty now idle l a :
  (forall k p, streams a !! k = Some p -> (k, p) ∈ l) -> (forall kp, kp ∈ l -> p_seen kp.2 + idle <= now) ->
  streams (foldl (flush_one now idle) a l) = ∅.
Proof.
  revert a. induction l as [|[k p] l IH]; intros a Hin Hold; cbn [foldl].
  - apply map_empty. intros k. destruct (streams a !! k) as [p|] eqn:E; [|done]. by apply Hin, elem_of_nil in E.
  - pose proof (Hold (k, p) ltac:(set_solver)) as Hs. simpl in Hs.
    assert (streams (flush_one now idle a (k, p)) = delete k (streams a)) as Hd
      by (simpl; by rewrite (proj2 (Z.leb_le _ _)) by lia).
    apply IH; [|intros; apply Hold; set_solver]. rewrite Hd. intros k' p' Hk'. apply lookup_delete_Some in Hk' as [Hne Hk'].
    apply Hin in Hk'. set_solver.
Qed.

Lemma FlushIdle_final now idle a :
  (forall k p, streams a !! k = Some p -> p_seen p <= now) -> streams (FlushIdle a (now + idle) idle) = ∅.
Proof.
  intros Hs. destruct (flush_visits a) as [_ Hv]. apply flush_all_empty.
  - intros k p Hk. by apply Hv.
  - intros [k p] Hkp. apply Hv, Hs in Hkp. simpl in *. lia.
Qed.

End ops.

(** The limit is set once. *)
Lemma Push_max a k data now : MaxLine (Push a k data now) = MaxLine a.
Proof. unfold Push, push_pending. by repeat case_match. Qed.

Lemma flush_max now idle l a : MaxLine (foldl (flush_one now idle) a l) = MaxLine a.
Proof.
  revert a. induction l as [|[k p] l IH]; intros a; [done|]. simpl. rewrite IH. by case_match.
Qed.

Lemma agent_run_max `{MapOrder} ops a : MaxLine (agent_run a ops) = MaxLine a.
Proof.
  unfold agent_run. revert a. induction ops as [|op ops IH]; intros a; [done|]. simpl. rewrite IH.
  destruct op; [apply Push_max|apply flush_max].
Qed.

(** A record cut short is refused. *)
Lemma ParseEvent_cut e n :
  is_u32 (len (Data e)) -> (n < length (encode_event e))%nat -> ParseEvent (take n (encode_event e)) = None.
Proof.
  destruct e as [t f fl d]. intros Hd Hn. unfold ParseEvent. destruct (length _ <? HeaderSize)%nat eqn:El; [done|].
  apply Nat.ltb_ge in El. rewrite length_take in El. unfold HeaderSize in *.
  destruct (Nat.le_exists_sub 16 n ltac:(lia)) as (m & -> & _). rewrite (Nat.add_comm m).
  unfold encode_event, Uint32, byte_at in *. simpl Data in *.
  cbn [Tgid FD Flags Data le32 app length lookup list_lookup default from_option id Nat.add take] in *.
  rewrite le32_value by done. rewrite length_take. rewrite (proj2 (Z.ltb_lt _ _)); [done|]. unfold len. lia.
Qed.
