(* ===== verification/EbpfAgent.v ===== *)
(** * The audit agent's main loop

    [ebpf/cmd/pii-shield-ebpf/main.go]: the settings, what happens when the probe does not load, the loop over records and
    ticks, and the way out.

    The loop takes one thing at a time: a record, a tick of the flush timer, a tick of the summary timer.  A panic of the
    scanner ends the process.  The counters of [/metrics] are plain numbers. *)

From Stdlib Require Import ZArith Lia Bool SpecFloat.
From stdpp Require Import base list option sets gmap.
From S2P Require Import Prelude GoStrings Float64 Regex KeyMatcher Config Entropy Adaptive Machine Engine.
From S2P Require Import Redaction Scanner ConfigSources ScannerProofs Stats Output Ebpf.

(** ** Settings *)

(** [envOr]. *)
Definition envOr (Getenv : gostring -> gostring) (key def : gostring) : gostring :=
  let v := Getenv key in if is_empty v then def else v.

(** [envDuration]. *)
Definition envDuration `{GoDecoders} (Getenv : gostring -> gostring) (key : gostring) (def : Z) : Z :=
  let v := Getenv key in
  if is_empty v then def
  else match ParseDuration v with Some d => if d <=? 0 then def else d | None => def end.

(** What [main] does once it knows whether the probe loaded: without it the agent gives up only when it was told to watch one
    process, with [--exec] or [--target-tgid]. *)
Inductive agentStart := Watch | FailOpen | Fatal.

Definition start_agent (child : bool) (target : Z) (loaded : bool) : agentStart :=
  if loaded then Watch else if child || negb (target =? 0) then Fatal else FailOpen.

(** ** The loop *)

(** [EventsTotal] by result, and [DropsTotal]. *)
Record agentCounters := { ev_ok : Z; ev_truncated : Z; ev_overflow : Z; dropped : Z }.

Record agentState := {
  ag_asm : Assembler; ag_auditor : Auditor; ag_baseline : BaselineStats; ag_counters : agentCounters; ag_logged : list gostring;
}.

(** The state [main] starts the loop with. *)
Definition agent_init (bs : BaselineStats) : agentState := {|
  ag_asm := New; ag_auditor := newAuditor; ag_baseline := bs;
  ag_counters := {| ev_ok := 0; ev_truncated := 0; ev_overflow := 0; dropped := 0 |}; ag_logged := [] |}.

(** What the loop can meet: a record at a time, a flush, a summary with the drops read from the kernel. *)
Inductive agentTick :=
| TickRecord (ev : Event) (now : Z)
| TickFlush (now : Z)
| TickSummary (drops : option Z).

Section loop.
Context `{GoRuntime} `{MapOrder} (st : configState) (flushIdle : Z).

(** [OnLine] for the lines an operation of the assembler gave out. *)
Fixpoint audit_lines (ls : list emitted) (a : Auditor) (bs : BaselineStats) : option (Auditor * BaselineStats) :=
  match ls with
  | [] => Some (a, bs)
  | e :: ls => match audit_line st (e_line e) a bs with Some (a, bs) => audit_lines ls a bs | None => None end
  end.

(** An operation of the assembler, with its lines audited. *)
Definition assemble (asm : Assembler) (c : agentCounters) (s : agentState) : option agentState :=
  match audit_lines (drop (length (lines (ag_asm s))) (lines asm)) (ag_auditor s) (ag_baseline s) with
  | None => None
  | Some (a, bs) => Some {| ag_asm := asm; ag_auditor := a; ag_baseline := bs; ag_counters := c; ag_logged := ag_logged s |}
  end.

Definition count_record (ev : Event) (overflow : bool) (c : agentCounters) : agentCounters := {|
  ev_ok := if Truncated ev then ev_ok c else ev_ok c + 1;
  ev_truncated := if Truncated ev then ev_truncated c + 1 else ev_truncated c;
  ev_overflow := if overflow then ev_overflow c + 1 else ev_overflow c; dropped := dropped c |}.

(** One turn of the loop. *)
Definition agent_turn (s : agentState) (t : agentTick) : option agentState :=
  match t with
  | TickRecord ev now =>
    let asm := Push (ag_asm s) (Tgid ev, FD ev) (Data ev) now in
    assemble asm (count_record ev (negb (Overflows asm =? Overflows (ag_asm s))) (ag_counters s)) s
  | TickFlush now => assemble (FlushIdle (ag_asm s) now flushIdle) (ag_counters s) s
  | TickSummary drops =>
    let c := ag_counters s in
    Some {| ag_asm := ag_asm s; ag_auditor := ag_auditor s; ag_baseline := ag_baseline s;
            ag_counters := {| ev_ok := ev_ok c; ev_truncated := ev_truncated c; ev_overflow := ev_overflow c; dropped := default (dropped c) drops |};
            ag_logged := ag_logged s ++ [audit_summary (ag_auditor s)] |}
  end.

Fixpoint events_loop (s : agentState) (ts : list agentTick) : option agentState :=
  match ts with
  | [] => Some s
  | t :: ts => match agent_turn s t with Some s => events_loop s ts | None => None end
  end.

(** The records still in the channel, after the loop: joined and audited, not counted. *)
Fixpoint agent_drain (s : agentState) (evs : list (Event * Z)) : option agentState :=
  match evs with
  | [] => Some s
  | (ev, now) :: evs =>
    match assemble (Push (ag_asm s) (Tgid ev, FD ev) (Data ev) now) (ag_counters s) s with
    | Some s => agent_drain s evs
    | None => None
    end
  end.

(** The run of the agent: the loop, the records that were left, the unfinished lines, the last summary. *)
Definition agent_main (bs : BaselineStats) (ts : list agentTick) (left : list (Event * Z)) (now : Z) : option agentState :=
  match events_loop (agent_init bs) ts with
  | None => None
  | Some s =>
    match agent_drain s left with
    | None => None
    | Some s =>
      match assemble (FlushIdle (ag_asm s) (now + flushIdle) flushIdle) (ag_counters s) s with
      | None => None
      | Some s =>
        Some {| ag_asm := ag_asm s; ag_auditor := ag_auditor s; ag_baseline := ag_baseline s; ag_counters := ag_counters s;
                ag_logged := ag_logged s ++ [audit_summary (ag_auditor s)] |}
      end
    end
  end.

End loop.

(** ** The agent's run

    Each turn of the loop is an operation on the assembler whose new lines are audited; the counts follow the lines. *)

(** ** The assembler's lines only grow *)

Lemma Push_grows a k data now : exists l, lines (Push a k data now) = lines a ++ l.
Proof.
  unfold Push, push_pending. repeat (case_match; simplify_eq); cbn; rewrite <-?app_assoc; eexists; reflexivity.
Qed.

Lemma flush_grows now idle l a : exists x, lines (foldl (flush_one now idle) a l) = lines a ++ x.
Proof.
  revert a. induction l as [|[k p] l IH]; intros a; [exists []; cbn; by rewrite app_nil_r|]. cbn [foldl].
  destruct (IH (flush_one now idle a (k, p))) as [x ->]. cbn. destruct (idle <=? _); cbn; [|by eexists].
  destruct (is_empty (p_buf p)); [by eexists|]. rewrite <-app_assoc. by eexists.
Qed.

(** Times of the waiting bytes. *)
Definition seen_by (now : Z) (a : Assembler) : Prop := forall k p, streams a !! k = Some p -> p_seen p <= now.

Lemma Push_seen a k data t now : seen_by now a -> t <= now -> seen_by now (Push a k data t).
Proof.
  intros Hs Ht k' p. unfold Push, push_pending.
  repeat (case_match; simplify_eq); cbn; rewrite ?lookup_delete_Some, ?lookup_insert_Some; naive_solver.
Qed.

Lemma flush_seen now t idle l a : seen_by now a -> seen_by now (foldl (flush_one t idle) a l).
Proof.
  revert a. induction l as [|[k p] l IH]; intros a Hs; [done|]. apply IH. cbn. destruct (idle <=? _); [|done].
  intros k' p'. cbn. rewrite lookup_delete_Some. naive_solver.
Qed.

(** A line is made of bytes of its stream. *)
Lemma line_bytes received a e : asm_ok received a -> e ∈ lines a -> incl (e_line e) (received (e_key e)).
Proof.
  intros [Hb _ _ _] He. rewrite <-Hb. intros c Hc. apply in_or_app. left. unfold sent_bytes. apply in_concat.
  exists (e_line e ++ (if e_closed e then [newline] else [])). split; [|apply in_or_app; by left].
  apply in_map_iff. exists e. split; [by rewrite decide_True|by apply list_elem_of_In].
Qed.

(** ** Auditing lines *)

Section loop.
Context `{GoRuntime} `{MO : MapOrder} `{!MapOrderLaws MO} (st : configState) (flushIdle : Z).

Lemma audit_finding_counts a l : au_lines (foldl audit_finding a l) = au_lines a /\ au_bytes (foldl audit_finding a l) = au_bytes a.
Proof. revert a. induction l as [|x l IH]; intros a; [done|]. cbn [foldl]. by destruct (IH (audit_finding a x)) as [-> ->]. Qed.

Lemma audit_line_counts line a bs :
  match audit_line st line a bs with
  | Some (a', _) => au_lines a' = u64 (au_lines a + 1) /\ au_bytes a' = u64 (au_bytes a + len line)
  | None => tame line = false
  end.
Proof.
  unfold audit_line. pose proof (ScanAndRedact_spec st line {| sb := []; baseline := bs; callbacks := [] |}) as Hs.
  destruct (ScanAndRedact st line _) as [cleaned s|s|]; [|apply Hs|done]. cbn.
  match goal with |- context [foldl audit_finding ?x ?l] => destruct (audit_finding_counts x l) as [-> ->] end. done.
Qed.

(** The lines and bytes of a list of lines. *)
Definition counted (ls : list emitted) (a : Auditor) : Prop :=
  au_lines a = u64 (Z.of_nat (length ls)) /\ au_bytes a = u64 (zsum ((fun e => len (e_line e)) <$> ls)).

Lemma u64_add x y : u64 (u64 x + y) = u64 (x + y).
Proof. unfold u64. by rewrite Zplus_mod_idemp_l. Qed.

Lemma audit_lines_counts ls old a bs :
  counted old a ->
  match audit_lines st ls a bs with
  | Some (a', _) => counted (old ++ ls) a'
  | None => exists e, e ∈ ls /\ tame (e_line e) = false
  end.
Proof.
  revert old a bs. induction ls as [|e ls IH]; intros old a bs Hc; cbn [audit_lines]; [by rewrite app_nil_r|].
  pose proof (audit_line_counts (e_line e) a bs) as Hl. destruct (audit_line st (e_line e) a bs) as [[a1 bs1]|]; [|exists e; set_solver].
  destruct Hl as [H1 H2], Hc as [H3 H4].
  assert (counted (old ++ [e]) a1) as Hc1.
  { split; [rewrite H1, H3, u64_add, length_app; cbn; f_equal; lia|rewrite H2, H4, u64_add, fmap_app, zsum_app; unfold zsum; cbn; f_equal; lia]. }
  specialize (IH (old ++ [e]) a1 bs1 Hc1). destruct (audit_lines st ls a1 bs1) as [[a2 bs2]|].
  - by rewrite <-app_assoc in IH.
  - destruct IH as (x & Hx & Ht). exists x. set_solver.
Qed.

(** ** The run *)

Record run_inv (received : Key -> gostring) (now : Z) (s : agentState) : Prop := {
  ri_asm : asm_ok received (ag_asm s);
  ri_seen : seen_by now (ag_asm s);
  ri_counted : counted (lines (ag_asm s)) (ag_auditor s);
}.

Definition untame (received : Key -> gostring) : Prop := exists k, tame (received k) = false.

Lemma assemble_ok received received' now asm c s :
  run_inv received now s -> asm_ok received' asm -> seen_by now asm -> (exists l, lines asm = lines (ag_asm s) ++ l) ->
  match assemble st asm c s with
  | Some s' => run_inv received' now s' /\ ag_asm s' = asm /\ ag_counters s' = c /\ ag_logged s' = ag_logged s
  | None => untame received'
  end.
Proof.
  intros [_ _ Hc] Ha Hs [l El]. unfold assemble. rewrite El, drop_app_length.
  pose proof (audit_lines_counts l _ _ (ag_baseline s) Hc) as Hl. destruct (audit_lines st l _ _) as [[a bs]|].
  - cbn. split; [|done]. split; [done|done|cbn; by rewrite El].
  - destruct Hl as (e & He & Ht). exists (e_key e). apply not_true_iff_false. intros Hk. apply not_true_iff_false in Ht. apply Ht.
    eapply tame_incl; [|exact Hk]. apply (line_bytes received' asm); [done|]. rewrite El. set_solver.
Qed.

Definition tick_ops (t : agentTick) : list agent_op :=
  match t with
  | TickRecord ev now => [OpPush (Tgid ev, FD ev) (Data ev) now]
  | TickFlush now => [OpFlush now flushIdle]
  | TickSummary _ => []
  end.

Definition tick_by (now : Z) (t : agentTick) : Prop := match t with TickRecord _ t => t <= now | _ => True end.

Definition is_record (t : agentTick) : bool := match t with TickRecord _ _ => true | _ => false end.

Definition records (c : agentCounters) : Z := ev_ok c + ev_truncated c.

Lemma turn_ok received now s t :
  run_inv received now s -> tick_by now t ->
  let received' := fun k => received k ++ concat (op_bytes k <$> tick_ops t) in
  match agent_turn st flushIdle s t with
  | Some s' => run_inv received' now s' /\ records (ag_counters s') = records (ag_counters s) + (if is_record t then 1 else 0)
  | None => untame received'
  end.
Proof.
  intros Hi Ht. cbv zeta. destruct t as [ev t|t|drops]; cbn [agent_turn tick_ops is_record].
  - pose proof (agent_step_ok _ _ (OpPush (Tgid ev, FD ev) (Data ev) t) (ri_asm _ _ _ Hi)) as Ha.
    apply (asm_ok_ext _ (fun k => received k ++ concat (op_bytes k <$> [OpPush (Tgid ev, FD ev) (Data ev) t]))) in Ha;
      [|intros k; cbn; by rewrite app_nil_r].
    pose proof (assemble_ok _ _ now _ (count_record ev (negb (Overflows (Push (ag_asm s) (Tgid ev, FD ev) (Data ev) t) =? Overflows (ag_asm s))) (ag_counters s)) s
      Hi Ha (Push_seen _ _ _ _ _ (ri_seen _ _ _ Hi) Ht) (Push_grows _ _ _ _)) as Hs. cbn [agent_step] in Hs.
    destruct (assemble _ _ _ _) as [s'|]; [|done]. destruct Hs as (Hs & _ & -> & _). split; [done|].
    unfold records, count_record. cbn. destruct (Truncated ev); lia.
  - pose proof (agent_step_ok _ _ (OpFlush t flushIdle) (ri_asm _ _ _ Hi)) as Ha.
    apply (asm_ok_ext _ (fun k => received k ++ concat (op_bytes k <$> [OpFlush t flushIdle]))) in Ha; [|done].
    pose proof (assemble_ok _ _ now _ (ag_counters s) s Hi Ha (flush_seen _ _ _ _ _ (ri_seen _ _ _ Hi)) (flush_grows _ _ _ _)) as Hs.
    cbn [agent_step] in Hs. unfold FlushIdle in Hs |- *. destruct (assemble _ _ _ _) as [s'|]; [|done]. destruct Hs as (Hs & _ & -> & _). split; [done|lia].
  - destruct Hi as [Ha Hs Hc]. split; [|unfold records; cbn; lia]. split; cbn; [|done..].
    apply (asm_ok_ext received); [intros k; cbn; by rewrite app_nil_r|done].
Qed.

Lemma untame_more received received' : (forall k, exists l, received' k = received k ++ l) -> untame received -> untame received'.
Proof. intros Hm [k Hk]. destruct (Hm k) as [l El]. exists k. rewrite El, tame_app, Hk. done. Qed.

Lemma run_inv_ext r r' now s : (forall k, r k = r' k) -> run_inv r now s -> run_inv r' now s.
Proof. intros Hr [Ha Hs Hc]. split; [by eapply asm_ok_ext|done..]. Qed.

Lemma loop_ok received now s ts :
  run_inv received now s -> Forall (tick_by now) ts ->
  let received' := fun k => received k ++ concat (op_bytes k <$> (ts ≫= tick_ops)) in
  match events_loop st flushIdle s ts with
  | Some s' => run_inv received' now s' /\ records (ag_counters s') = records (ag_counters s) + Z.of_nat (length (filter (fun t => is_record t = true) ts))
  | None => untame received'
  end.
Proof.
  cbv zeta. intros Hi Ht. revert received s Hi. induction Ht as [|t ts Ht Hts IH]; intros received s Hi; cbn [events_loop].
  - split; [|cbn; lia]. eapply run_inv_ext; [|exact Hi]. intros k. cbn. by rewrite app_nil_r.
  - pose proof (turn_ok received now s t Hi Ht) as Hturn. cbv zeta in Hturn. cbn [mbind list_bind].
    destruct (agent_turn st flushIdle s t) as [s1|].
    + destruct Hturn as [Hi1 Hc1]. specialize (IH _ s1 Hi1). destruct (events_loop st flushIdle s1 ts) as [s2|].
      * destruct IH as [Hi2 Hc2]. split.
        -- eapply run_inv_ext; [|exact Hi2]. intros k. cbn. by rewrite fmap_app, concat_app, app_assoc.
        -- rewrite Hc2, Hc1, filter_cons. destruct (is_record t); [rewrite decide_True by done|rewrite decide_False by done]; cbn; lia.
      * eapply untame_more; [|exact IH]. intros k. exists []. cbn. by rewrite fmap_app, concat_app, app_assoc, app_nil_r.
    + eapply untame_more; [|exact Hturn]. intros k. eexists. cbn. by rewrite fmap_app, concat_app, <-app_assoc.
Qed.

Definition drain_ops (evs : list (Event * Z)) : list agent_op := (fun '(ev, now) => OpPush (Tgid ev, FD ev) (Data ev) now) <$> evs.

Lemma drain_ok received now s evs :
  run_inv received now s -> Forall (fun e => e.2 <= now) evs ->
  let received' := fun k => received k ++ concat (op_bytes k <$> drain_ops evs) in
  match agent_drain st s evs with
  | Some s' => run_inv received' now s' /\ ag_counters s' = ag_counters s
  | None => untame received'
  end.
Proof.
  cbv zeta. intros Hi Ht. revert received s Hi. induction Ht as [|[ev t] evs Ht Hts IH]; intros received s Hi; cbn [agent_drain].
  - split; [|done]. eapply run_inv_ext; [|exact Hi]. intros k. cbn. by rewrite app_nil_r.
  - pose proof (agent_step_ok _ _ (OpPush (Tgid ev, FD ev) (Data ev) t) (ri_asm _ _ _ Hi)) as Ha.
    pose proof (assemble_ok _ _ now _ (ag_counters s) s Hi Ha (Push_seen _ _ _ _ _ (ri_seen _ _ _ Hi) Ht) (Push_grows _ _ _ _)) as Hs.
    cbn [agent_step] in Hs. destruct (assemble _ _ _ _) as [s1|].
    + destruct Hs as (Hi1 & _ & Hc1 & _). specialize (IH _ s1 Hi1). destruct (agent_drain st s1 evs) as [s2|].
      * destruct IH as [Hi2 Hc2]. split; [|congruence]. eapply run_inv_ext; [|exact Hi2]. intros k. cbn. by rewrite <-app_assoc.
      * eapply untame_more; [|exact IH]. intros k. exists []. cbn. by rewrite app_nil_r, <-app_assoc.
    + eapply untame_more; [|exact Hs]. intros k. eexists. cbn. by rewrite <-app_assoc.
Qed.

(** What the stream [k] received in a run. *)
Definition run_bytes (ts : list agentTick) (left : list (Event * Z)) (k : Key) : gostring :=
  concat (op_bytes k <$> (ts ≫= tick_ops)) ++ concat (op_bytes k <$> drain_ops left).

Lemma main_ok bs ts left now :
  Forall (tick_by now) ts -> Forall (fun e => e.2 <= now) left ->
  match agent_main st flushIdle bs ts left now with
  | Some s =>
    (forall k, sent_bytes k (lines (ag_asm s)) = run_bytes ts left k) /\ streams (ag_asm s) = ∅ /\
    Forall (fun e => one_line (e_line e)) (lines (ag_asm s)) /\ counted (lines (ag_asm s)) (ag_auditor s) /\
    records (ag_counters s) = Z.of_nat (length (filter (fun t => is_record t = true) ts)) /\
    last (ag_logged s) = Some (audit_summary (ag_auditor s))
  | None => untame (run_bytes ts left)
  end.
Proof.
  intros Hts Hleft. assert (run_inv (fun _ => []) now (agent_init bs)) as Hi0 by (split; [apply New_ok|done|done]).
  unfold agent_main. pose proof (loop_ok _ _ _ ts Hi0 Hts) as Hl. cbv zeta in Hl. cbn [app] in Hl.
  destruct (events_loop st flushIdle (agent_init bs) ts) as [s1|]; [|eapply untame_more; [|exact Hl]; intros k; by eexists].
  destruct Hl as [Hi1 Hc1]. pose proof (drain_ok _ _ _ left Hi1 Hleft) as Hd. cbv zeta in Hd.
  destruct (agent_drain st s1 left) as [s2|]; [|exact Hd]. destruct Hd as [Hi2 Hc2].
  pose proof (agent_step_ok _ _ (OpFlush (now + flushIdle) flushIdle) (ri_asm _ _ _ Hi2)) as Ha.
  pose proof (assemble_ok _ _ now _ (ag_counters s2) s2 Hi2 Ha (flush_seen _ _ _ _ _ (ri_seen _ _ _ Hi2)) (flush_grows _ _ _ _)) as Hs.
  cbn [agent_step] in Hs. unfold FlushIdle in Hs at 1. change (foldl (flush_one (now + flushIdle) flushIdle) (ag_asm s2) (map_order (map_to_list (streams (ag_asm s2)))))
    with (FlushIdle (ag_asm s2) (now + flushIdle) flushIdle) in Hs.
  destruct (assemble _ _ _ _) as [s3|].
  2: { eapply untame_more; [|exact Hs]. intros k. exists []. cbn. by rewrite !app_nil_r. }
  destruct Hs as ([Hb Hp Hm] & Easm & Ecnt & _). cbn [ag_asm ag_auditor ag_counters ag_logged].
  assert (streams (ag_asm s3) = ∅) as Hempty by (rewrite Easm; apply FlushIdle_final, (ri_seen _ _ _ Hi2)).
  split_and!; [|done|apply Hb|apply Hm|rewrite Ecnt, Hc2, Hc1; reflexivity|by rewrite last_snoc].
  intros k. pose proof (ok_bytes _ _ Hb k) as Hk. unfold waiting in Hk. rewrite Hempty, lookup_empty in Hk. cbn in Hk.
  rewrite !app_nil_r in Hk. exact Hk.
Qed.

End loop.
