(* ===== verification/RemoteSync.v ===== *)
(** * Remote rules in the operator

    [operator/internal/remoterules/fetch.go]: one pull; [operator/internal/controller]:
    [syncRemote], which decides what a pull leaves, and [renderConfigMap], which keeps it in
    the ConfigMap the next reconcile starts from.

    The network and the cluster are inputs of a reconcile: what the secrets hold, what the
    HTTP client answers. *)

From Stdlib Require Import ZArith Lia Bool SpecFloat.
From stdpp Require Import base list option sets.
From S2P Require Import Prelude GoStrings Sha256 Float64 Regex KeyMatcher Config JsonString Engine Scanner.
From S2P Require Import ConfigSources ConfigProofs Stats Base64 Signing PolicyFile.

(** ** One pull *)

Definition RemoteMaxBytes : Z := Z.shiftl 256 10.

Definition second : Z := 1000000000.
Definition DefaultInterval : Z := 300 * second.
Definition MinInterval : Z := 30 * second.
Definition RetryInterval : Z := 60 * second.

(** [Interval] and [Retry]. *)
Definition Interval (seconds : Z) : Z := if seconds <=? 0 then DefaultInterval else Z.max MinInterval (seconds * second).
Definition Retry (seconds : Z) : Z := Z.min (Interval seconds) RetryInterval.

Inductive scheme := HTTPS | HTTP | OtherScheme.

(** [checkURL] of a URL that parses to the scheme. *)
Definition checkURL (u : option scheme) (allowInsecure : bool) : option remoteReason :=
  match u with
  | None => Some FetchFailed
  | Some HTTPS => None
  | Some HTTP => if allowInsecure then None else Some InsecureURL
  | Some OtherScheme => Some InsecureURL
  end.

(** The HTTP client's answer to a GET: the status, the ETag and the body; [None] when there is none, which
    includes a transport that cannot be built and a refused redirect. *)
Definition httpAnswer : Type := option (Z * gostring * gostring).

Inductive Result := NotModified (etag : gostring) | NewBody (b etag : gostring).

(** [Fetch] with [If-None-Match: etag]. *)
Definition Fetch (u : option scheme) (allowInsecure : bool) (etag : gostring) (ans : httpAnswer) : remoteReason + Result :=
  match checkURL u allowInsecure with
  | Some r => inl r
  | None =>
    match ans with
    | None => inl FetchFailed
    | Some (status, newTag, content) =>
      if status =? 200 then
        let b := limit_read (RemoteMaxBytes + 1) content in
        if RemoteMaxBytes <? Z.of_nat (length b) then inl TooLarge else inr (NewBody b newTag)
      else if status =? 304 then if is_empty etag then inl FetchFailed else inr (NotModified etag)
      else inl FetchFailed
    end
  end.

(** [FetchSignature]: any failure means the publication is not signed. *)
Definition FetchSignature (u : option scheme) (allowInsecure : bool) (ans : httpAnswer) : remoteReason + gostring :=
  match Fetch u allowInsecure [] ans with
  | inl _ => inl SignatureMissing
  | inr (NewBody b _) => inr b
  | inr (NotModified _) => inr []
  end.

(** ** The reconcile's remote part *)

(** [spec.remoteConfig.signature]; [ss_URL] is [None] when no URL is given, else what it parses to. *)
Record SignatureSpec := { ss_PublicKeys : list gostring; ss_Set : gostring; ss_URL : option (option scheme) }.

(** [spec.remoteConfig]; the URL by its scheme and its path. *)
Record RemoteConfig := {
  rc_URL : option scheme; rc_Path : option gostring; rc_Interval : Z; rc_AllowInsecure : bool;
  rc_HeaderSecret : bool; rc_CASecret : bool; rc_Signature : option SignatureSpec;
}.

(** What one reconcile reads from outside: the two secrets, and the answers for the file and its signature. *)
Record World := { w_header : bool; w_ca : bool; w_file : gostring -> httpAnswer; w_signature : httpAnswer }.

(** The ConfigMap of the policy, as far as the operator reads it again. *)
Record ConfigMap := {
  cm_policy : gostring;                  (* policy.json *)
  cm_remote : option gostring;           (* remote.json *)
  cm_hash : gostring;
  cm_remote_hash : option gostring;
  cm_etag : option gostring;
  cm_signed_by : option gostring;
  cm_publication : option gostring;
}.

(** [status.remote]. *)
Record RemoteStatus := {
  rs_ETag : gostring; rs_Revision : gostring; rs_Hash : gostring; rs_Publication : Z; rs_SignedBy : gostring;
}.

(** [remoteOutcome]; [ro_reason] is [None] for the condition Synced. *)
Record remoteOutcome := {
  ro_doc : option Document;
  ro_raw : gostring;
  ro_etag : gostring;
  ro_verified : Verified;
  ro_reason : option remoteReason;
  ro_status : option RemoteStatus;
  ro_requeue : Z;
}.

Definition notVerified : Verified := {| vf_Publication := 0; vf_KeyID := [] |}.

(** [strconv.ParseInt(s, 10, 64)] with the error dropped: 0 for a text that is no number, the nearest limit for
    one out of range. *)
Definition ParseInt64 (s : gostring) : Z :=
  match Atoi s with
  | Some v => v
  | None =>
    let '(neg, ds) :=
      match s with
      | c :: r => if c =? ch "-" then (true, r) else if c =? ch "+" then (false, r) else (false, s)
      | [] => (false, [])
      end in
    if is_empty ds || negb (forallb isASCIIDigit ds) then 0 else if neg : bool then - 2 ^ 63 else 2 ^ 63 - 1
  end.

(** [SignatureURL]: the given one, or the file's with .sig after its path. *)
Definition SignatureURL (rc : RemoteConfig) (explicit : option (option scheme)) : option (option scheme) :=
  match explicit with
  | Some u => Some u
  | None => match rc_Path rc with None => None | Some _ => Some (rc_URL rc) end
  end.

(** [trusted]. *)
Definition trusted (keys : list TrustedKey) (id : gostring) : bool :=
  existsb (fun k => negb (is_empty id) && str_eqb (tk_ID k) id) keys.

Section sync.
Context `{RegexpCompiler} `{Unicode} `{GoDecoders} `{Ed25519}.
Context (UnmarshalSignature : gostring -> option SignatureFile).

(** With signatures required: the trusted keys and the set a statement must name. *)
Definition signature_settings (rc : RemoteConfig) : option (option (list TrustedKey * gostring * option scheme)) :=
  match rc_Signature rc with
  | None => Some None
  | Some ss =>
    keys ← ParseTrustedKeys (ss_PublicKeys ss);
    sigURL ← SignatureURL rc (ss_URL ss);
    set ← ExpectedSet (rc_Path rc) (ss_Set ss);
    Some (Some (keys, set, sigURL))
  end.

(** The last good copy: its document, its bytes, its ETag and, with signatures required, the publication it was
    verified as. *)
Definition last_good (keys : option (list TrustedKey)) (prev : option ConfigMap) :
    option (Document * gostring * gostring * Verified) :=
  cm ← prev;
  raw ← cm_remote cm;
  if is_empty raw then None
  else
    match ParseRemote raw with
    | inl _ => None
    | inr (doc, _) =>
      let signer := default [] (cm_signed_by cm) in
      let etag := default [] (cm_etag cm) in
      match keys with
      | None => Some (doc, raw, etag, notVerified)
      | Some ks =>
        if trusted ks signer
        then Some (doc, raw, etag, {| vf_Publication := ParseInt64 (default [] (cm_publication cm)); vf_KeyID := signer |})
        else None
      end
    end.

(** The outcome of a failed pull: what was there stays. *)
Definition kept (rc : RemoteConfig) (status : option RemoteStatus) (last : option (Document * gostring * gostring * Verified))
    (r : remoteReason) : remoteOutcome :=
  match last with
  | Some (doc, raw, etag, v) =>
    {| ro_doc := Some doc; ro_raw := raw; ro_etag := etag; ro_verified := v; ro_reason := Some r; ro_status := status;
       ro_requeue := Retry (rc_Interval rc) |}
  | None =>
    {| ro_doc := None; ro_raw := []; ro_etag := []; ro_verified := notVerified; ro_reason := Some r; ro_status := status;
       ro_requeue := Retry (rc_Interval rc) |}
  end.

(** The outcome of a successful pull. *)
Definition synced (rc : RemoteConfig) (doc : option Document) (raw etag : gostring) (v : Verified) : remoteOutcome :=
  {| ro_doc := doc; ro_raw := raw; ro_etag := etag; ro_verified := v; ro_reason := None;
     ro_status := Some {| rs_ETag := etag; rs_Revision := d_Revision (default emptyDocument doc); rs_Hash := PolicyHash raw;
                          rs_Publication := vf_Publication v; rs_SignedBy := vf_KeyID v |};
     ro_requeue := Interval (rc_Interval rc) |}.

(** The check of a new body: nothing without signatures, else the signature file. *)
Definition verify_body (rc : RemoteConfig) (sig : option (list TrustedKey * gostring * option scheme)) (minPub : Z) (w : World)
    (b : gostring) : remoteReason + Verified :=
  match sig with
  | None => inr notVerified
  | Some (keys, set, sigURL) =>
    match FetchSignature sigURL (rc_AllowInsecure rc) (w_signature w) with
    | inl r => inl r
    | inr sigBody => CheckSignature UnmarshalSignature sigBody b set keys minPub
    end
  end.

(** [syncRemote]; [status] is the policy's [status.remote] before. *)
Definition syncRemote (rc : RemoteConfig) (status : option RemoteStatus) (prev : option ConfigMap) (w : World) : remoteOutcome :=
  match signature_settings rc with
  | None =>
    {| ro_doc := None; ro_raw := []; ro_etag := []; ro_verified := notVerified; ro_reason := Some SignatureConfig;
       ro_status := None; ro_requeue := Retry (rc_Interval rc) |}
  | Some sig =>
    let last := last_good ((fun '(keys, _, _) => keys) <$> sig) prev in
    let fail := kept rc status last in
    if rc_HeaderSecret rc && negb (w_header w) then fail SecretNotFound
    else if rc_CASecret rc && negb (w_ca w) then fail SecretNotFound
    else
      let etag := match last with Some (_, _, etag, _) => etag | None => [] end in
      match Fetch (rc_URL rc) (rc_AllowInsecure rc) etag (w_file w etag) with
      | inl r => fail r
      | inr (NotModified _) =>
        match last with
        | Some (doc, raw, etag, v) => synced rc (Some doc) raw etag v
        | None => synced rc None [] [] notVerified
        end
      | inr (NewBody b newTag) =>
        match ParseRemote b with
        | inl _ => fail InvalidFile
        | inr (doc, _) =>
          let minPub := match last with Some (_, _, _, v) => vf_Publication v | None => 0 end in
          match verify_body rc sig minPub w b with
          | inl r => fail r
          | inr v => synced rc (Some doc) b newTag v
          end
        end
      end
  end.

Context `{Float32} (Encode : Document -> gostring).

(** [renderConfigMap]. *)
Definition renderConfigMap (p : PiiPolicy) (out : remoteOutcome) : ConfigMap :=
  let data := Encode (match ro_doc out with Some doc => Merge doc p | None => Local_ p end) in
  let have := match ro_doc out with Some _ => true | None => false end in
  let signed := have && negb (is_empty (vf_KeyID (ro_verified out))) in
  {| cm_policy := data;
     cm_remote := if have then Some (ro_raw out) else None;
     cm_hash := PolicyHash data;
     cm_remote_hash := if have then Some (PolicyHash (ro_raw out)) else None;
     cm_etag := if have && negb (is_empty (ro_etag out)) then Some (ro_etag out) else None;
     cm_signed_by := if signed then Some (vf_KeyID (ro_verified out)) else None;
     cm_publication := if signed then Some (FormatInt (vf_Publication (ro_verified out))) else None |}.

(** A reconcile of a policy with a remote source, as far as the ConfigMap and [status.remote] go. *)
Definition reconcile (rc : RemoteConfig) (p : PiiPolicy) (st : option RemoteStatus * option ConfigMap) (w : World) :
    option RemoteStatus * option ConfigMap :=
  let out := syncRemote rc (fst st) (snd st) w in
  (ro_status out, Some (renderConfigMap p out)).

End sync.

(** ** Remote rules are authentic and never go back

    What the operator keeps between reconciles, and what it accepts. *)

(** ** The two parsers *)

Section parsers.
Context `{RegexpCompiler} `{Unicode} `{GoDecoders}.

Lemma checkRules_ok l : checkRules l = true <-> Forall rule_ok l.
Proof.
  rewrite <-(checkRegexRules_none [] 0). generalize 0%nat.
  induction l as [|r l IH]; intros i; simpl; [done|]. repeat case_match; done || apply IH.
Qed.

Lemma normalize_keys_ok l :
  (Forall (fun k => normalizeKey k <> []) l /\ normalize_keys l = Some (normalizeKey <$> l)) \/
  (~ Forall (fun k => normalizeKey k <> []) l /\ normalize_keys l = None).
Proof.
  induction l as [|k l IH]; [by left|]. simpl. change (ToLower (TrimSpace k)) with (normalizeKey k). rewrite Forall_cons.
  destruct (normalizeKey k) as [|c n] eqn:Ek; simpl; [right; naive_solver|].
  destruct IH as [[Hl ->]|[Hl ->]]; [left|right]; simpl; rewrite ?Ek; naive_solver.
Qed.

Lemma patterns_compile l :
  existsb (fun p => negb (bool_decide (is_Some (Compile p)))) l = false <-> Forall (fun p => is_Some (Compile p)) l.
Proof.
  rewrite Forall_forall, <-not_true_iff_false, existsb_exists. split.
  - intros E p Hp. destruct (decide (is_Some (Compile p))) as [|Hn]; [done|]. exfalso. apply E. exists p.
    split; [by apply list_elem_of_In|]. by rewrite bool_decide_false.
  - intros E (p & Hp%list_elem_of_In & Hc). apply negb_true_iff, bool_decide_eq_false in Hc. by apply Hc, E.
Qed.

(** What the operator asks of a remote file. *)
Definition valid_remote (pf : SDK.SDKConfig) : Prop :=
  fltb (SDK.EntropyThreshold pf) fzero = false /\ fltb (SDK.ConfidenceThreshold pf) fzero = false /\
  0 <= SDK.MinSecretLength pf <= MaxMinSecretLength /\ Forall (fun k => normalizeKey k <> []) (SDK.SensitiveKeys pf) /\
  Forall (fun p => is_Some (Compile p)) (SDK.SensitiveKeyPatterns pf) /\
  Forall rule_ok (SDK.CustomRegexes pf) /\ Forall rule_ok (SDK.SafeRegexes pf).

Lemma ParseRemote_decides b pf :
  UnmarshalPolicy b = Some pf ->
  (valid_remote (pfConfig pf) /\
   ParseRemote b = inr (document_of pf (normalizeKey <$> SDK.SensitiveKeys (pfConfig pf)), ignored_keys (pfConfig pf))) \/
  (~ valid_remote (pfConfig pf) /\ exists e, ParseRemote b = inl e).
Proof.
  intros Hb. unfold ParseRemote, valid_remote. rewrite Hb. cbv zeta.
  destruct (fltb (SDK.EntropyThreshold _) _); [right; naive_solver|].
  destruct (fltb (SDK.ConfidenceThreshold _) _); [right; naive_solver|].
  destruct (_ || _) eqn:El; [right; split; [intros (_ & _ & ? & _); lia|eauto]|].
  destruct (normalize_keys_ok (SDK.SensitiveKeys (pfConfig pf))) as [[Hk ->]|[Hk ->]]; [|right; naive_solver].
  rewrite <-patterns_compile. destruct (existsb _ _); [right; naive_solver|].
  rewrite <-!checkRules_ok. destruct (checkRules (SDK.CustomRegexes _)); [|right; naive_solver].
  destruct (checkRules (SDK.SafeRegexes _)); [|right; naive_solver]. left. split_and!; (done || lia).
Qed.

(** The sidecar accepts what the operator accepts, if the key patterns also compile together. *)
Lemma ParseRemote_agrees b :
  (exists cfg, ParsePolicyJSON b = inr cfg) <->
  (exists doc, ParseRemote b = inr doc) /\
  (forall pf, UnmarshalPolicy b = Some pf ->
    is_Some (compileSensitiveKeyPatterns (clean_patterns (SDK.SensitiveKeyPatterns (pfConfig pf))))).
Proof.
  destruct (UnmarshalPolicy b) as [pf|] eqn:Eb.
  - destruct (ParsePolicyJSON_decides b pf Eb) as [[Hv He]|[Hv [e He]]], (ParseRemote_decides b pf Eb) as [[Hr Hd]|[Hr [e' Hd]]].
    all: rewrite He, Hd; split; try naive_solver.
    + intros _. split; [eauto|]. intros ? [= <-]. apply Hv.
    + exfalso. apply Hr. destruct Hv. unfold valid_remote. tauto.
    + intros [_ Hc]. exfalso. apply Hv. specialize (Hc pf eq_refl). unfold valid_remote in Hr. split; tauto.
  - unfold ParsePolicyJSON, ParseRemote. rewrite Eb. naive_solver.
Qed.

End parsers.

(** ** Reconciles *)

Section sync.
Context `{RegexpCompiler} `{Unicode} `{GoDecoders} `{Ed25519} `{Float32}.
Context (UnmarshalSignature : gostring -> option SignatureFile) (Encode : Document -> gostring).

(** [encoding/json]: a number of an [int64] field is one, and an empty text is no JSON. *)
Record JsonLaws : Prop := {
  json_int64 : forall b sf, UnmarshalSignature b = Some sf -> int64 (sf_Publication sf);
  json_empty : UnmarshalPolicy [] = None;
}.

Context (laws : JsonLaws) (rc : RemoteConfig) (p : PiiPolicy) (keys : list TrustedKey) (set : gostring) (sigURL : option scheme).
Context (settings : signature_settings rc = Some (Some (keys, set, sigURL))).

Lemma keys_named key : key ∈ keys -> tk_ID key <> [].
Proof.
  intros Hk. unfold signature_settings in settings. destruct (rc_Signature rc) as [ss|]; [|done].
  destruct (ParseTrustedKeys (ss_PublicKeys ss)) as [ks|] eqn:Ek; [|done].
  destruct (SignatureURL _ _); [|done]. destruct (ExpectedSet _ _); [|done]. simpl in settings. injection settings as -> _ _.
  unfold ParseTrustedKeys in Ek. destruct (mapM _ _) as [out|] eqn:Em; [|done]. simpl in Ek. case_match; [done|].
  injection Ek as ->. apply mapM_Some in Em. apply list_elem_of_lookup_1 in Hk as [i Hi].
  destruct (Forall2_lookup_r _ _ _ _ _ Em Hi) as (s & _ & Hs). rewrite parse_trusted_key_eq in Hs.
  apply fmap_Some in Hs as (k & _ & ->). simpl. unfold SigningKeyID.
  destruct (sha256 k) as [|b r] eqn:E; [by pose proof (sha256_length k) as Hl; rewrite E in Hl|]. done.
Qed.

(** What the last good copy is worth. *)
Definition floor (prev : option ConfigMap) : Z :=
  match last_good (Some keys) prev with Some (_, _, _, v) => vf_Publication v | None => 0 end.

(** A trusted key signed the bytes for this set under the number. *)
Definition authentic (raw : gostring) (v : Verified) : Prop :=
  exists key sig rev, key ∈ keys /\ tk_ID key = vf_KeyID v /\
    ed25519_Verify (tk_Key key) (Text (For set (vf_Publication v) rev raw)) sig = true.

(** What a pull can leave. *)
Lemma syncRemote_cases status prev w :
  let last := last_good (Some keys) prev in
  let out := syncRemote UnmarshalSignature rc status prev w in
  (exists r, out = kept rc status last r) \/
  (exists doc raw etag v, last = Some (doc, raw, etag, v) /\ out = synced rc (Some doc) raw etag v) \/
  (exists doc ign b tag v sigBody, ParseRemote b = inr (doc, ign) /\
     CheckSignature UnmarshalSignature sigBody b set keys (floor prev) = inr v /\ out = synced rc (Some doc) b tag v).
Proof.
  cbv zeta. unfold syncRemote. rewrite settings. cbn [fmap option_fmap option_map]. unfold floor.
  set (last := last_good (Some keys) prev). do 2 (case_match; [eauto|]).
  destruct (Fetch _ _ _ _) as [r|[tag|b tag]] eqn:Ef; [eauto| |].
  - destruct last as [[[[doc raw] etag] v]|]; [right; left; eauto 10|]. exfalso. revert Ef. unfold Fetch.
    repeat case_match; done.
  - destruct (ParseRemote b) as [|[doc ign]] eqn:Ep; [eauto|]. unfold verify_body.
    destruct (FetchSignature _ _ _) as [|sigBody]; [eauto|].
    destruct (CheckSignature _ _ _ _ _ _) as [|v] eqn:Ec; [eauto|]. right. right. exists doc, ign, b, tag, v, sigBody. done.
Qed.

Lemma ParseInt64_FormatInt n : int64 n -> ParseInt64 (FormatInt n) = n.
Proof. intros Hn. unfold ParseInt64. by rewrite Atoi_FormatInt. Qed.

(** What was kept is found again at the next reconcile. *)
Lemma render_last_good out doc ign :
  ro_doc out = Some doc -> ParseRemote (ro_raw out) = inr (doc, ign) -> int64 (vf_Publication (ro_verified out)) ->
  (exists key, key ∈ keys /\ tk_ID key = vf_KeyID (ro_verified out)) ->
  last_good (Some keys) (Some (renderConfigMap Encode p out)) = Some (doc, ro_raw out, ro_etag out, ro_verified out).
Proof.
  intros Hd Hp Hi (key & Hk & Hid). pose proof (keys_named key Hk) as Hne. unfold last_good, renderConfigMap. rewrite Hd. simpl.
  destruct (ro_raw out) as [|c raw] eqn:Er.
  { exfalso. unfold ParseRemote in Hp. by rewrite (json_empty laws) in Hp. }
  simpl. rewrite Hp. rewrite Hid in Hne. destruct (vf_KeyID (ro_verified out)) as [|x id] eqn:Ev; [done|]. simpl.
  assert (trusted keys (x :: id) = true) as ->.
  { apply existsb_exists. exists key. split; [by apply list_elem_of_In|]. simpl. by apply str_eqb_eq. }
  rewrite ParseInt64_FormatInt by done. destruct (ro_verified out) as [pub kid]. simpl in *. subst. by destruct (ro_etag out).
Qed.

(** The state between reconciles: the remote file kept is authentic, and no other is there. *)
Definition state_ok (prev : option ConfigMap) : Prop :=
  match prev with
  | None => True
  | Some cm =>
    match cm_remote cm with
    | None => True
    | Some raw => exists doc ign etag v,
        ParseRemote raw = inr (doc, ign) /\ last_good (Some keys) prev = Some (doc, raw, etag, v) /\
        cm_policy cm = Encode (Merge doc p) /\ authentic raw v /\ int64 (vf_Publication v)
    end
  end.

Lemma last_good_inv prev doc raw etag v :
  last_good (Some keys) prev = Some (doc, raw, etag, v) ->
  exists cm ign, prev = Some cm /\ cm_remote cm = Some raw /\ ParseRemote raw = inr (doc, ign).
Proof.
  unfold last_good. destruct prev as [cm|]; [|done]. simpl. destruct (cm_remote cm) as [r|] eqn:Er; [|done]. simpl.
  case_match; [done|]. destruct (ParseRemote r) as [|[d ign]] eqn:Ep; [done|]. cbv zeta. case_match; [|done].
  intros [= -> -> _ _]. eauto.
Qed.

Lemma authentic_key raw v : authentic raw v -> exists key, key ∈ keys /\ tk_ID key = vf_KeyID v.
Proof. intros (key & _ & _ & ? & ? & _). eauto. Qed.

(** The next state, from a pull that leaves an authentic file. *)
Lemma render_ok out doc ign :
  ro_doc out = Some doc -> ParseRemote (ro_raw out) = inr (doc, ign) -> int64 (vf_Publication (ro_verified out)) ->
  authentic (ro_raw out) (ro_verified out) ->
  state_ok (Some (renderConfigMap Encode p out)) /\ floor (Some (renderConfigMap Encode p out)) = vf_Publication (ro_verified out).
Proof.
  intros Hd Hp Hi Ha. pose proof (render_last_good out doc ign Hd Hp Hi (authentic_key _ _ Ha)) as Hl.
  unfold floor, state_ok. rewrite Hl. split; [|done]. simpl. rewrite Hd.
  exists doc, ign, (ro_etag out), (ro_verified out). done.
Qed.

(** The copy the next pull starts from. *)
Definition copy_ok (prev : option ConfigMap) : Prop :=
  forall doc raw etag v, last_good (Some keys) prev = Some (doc, raw, etag, v) ->
    authentic raw v /\ int64 (vf_Publication v) /\ exists ign, ParseRemote raw = inr (doc, ign).

Lemma state_copy_ok prev : state_ok prev -> copy_ok prev.
Proof.
  intros Hok doc raw etag v Hl. destruct (last_good_inv _ _ _ _ _ Hl) as (cm & ign & -> & Hr & Hp).
  unfold state_ok in Hok. rewrite Hr, Hl in Hok. destruct Hok as (d & i & e & u & _ & [= <- <- <-] & _ & ? & ?). eauto.
Qed.

Lemma reconcile_copy_ok st w :
  copy_ok (snd st) ->
  let st' := reconcile UnmarshalSignature Encode rc p st w in state_ok (snd st') /\ floor (snd st) <= floor (snd st').
Proof.
  destruct st as [status prev]. cbn [snd]. intros Hlast. unfold reconcile. cbv zeta. cbn [fst snd].
  destruct (syncRemote_cases status prev w) as [[r ->]|[(doc & raw & etag & v & Hl & ->)|(doc & ign & b & tag & v & sigBody & Hp & Hc & ->)]].
  - unfold kept. destruct (last_good (Some keys) prev) as [[[[doc raw] etag] v]|] eqn:Hl.
    + destruct (Hlast _ _ _ _ Hl) as (Ha & Hi & ign & Hp).
      edestruct render_ok as [? ->]; [done|exact Hp|exact Hi|exact Ha|]. unfold floor. by rewrite Hl.
    + split; [done|]. unfold floor at 1. by rewrite Hl.
  - destruct (Hlast _ _ _ _ Hl) as (Ha & Hi & ign & Hp).
    edestruct render_ok as [? ->]; [done|exact Hp|exact Hi|exact Ha|]. unfold floor. by rewrite Hl.
  - pose proof (CheckSignature_sound _ _ _ _ _ _ _ Hc) as (sf & key & sig & Hu & Hk & Hid & Hpub & Hm & _ & Hv).
    edestruct render_ok as [Hs ->]; [done|exact Hp| | |split; [exact Hs|exact Hm]]; simpl.
    + rewrite Hpub. by eapply json_int64.
    + exists key, sig, (sf_Revision sf). by rewrite Hpub.
Qed.

Lemma reconcile_ok st w :
  state_ok (snd st) ->
  let st' := reconcile UnmarshalSignature Encode rc p st w in state_ok (snd st') /\ floor (snd st) <= floor (snd st').
Proof. intros Hok. by apply reconcile_copy_ok, state_copy_ok. Qed.

(** A run of reconciles from a policy without a ConfigMap. *)
Definition reconciles (ws : list World) : option RemoteStatus * option ConfigMap :=
  foldl (reconcile UnmarshalSignature Encode rc p) (None, None) ws.

Lemma reconciles_ok ws : state_ok (snd (reconciles ws)).
Proof.
  unfold reconciles. assert (state_ok (snd (None : option RemoteStatus, None : option ConfigMap))) as H0' by done.
  revert H0'. generalize (None : option RemoteStatus, None : option ConfigMap).
  induction ws as [|w ws IH]; intros st Hs; [done|]. simpl. apply IH, reconcile_ok, Hs.
Qed.

(** A pull that fails leaves the rules as they were. *)
Lemma failed_pull_keeps st w :
  state_ok (snd st) -> ro_reason (syncRemote UnmarshalSignature rc (fst st) (snd st) w) <> None ->
  forall cm, snd st = Some cm -> cm_remote cm <> None ->
  exists cm', snd (reconcile UnmarshalSignature Encode rc p st w) = Some cm' /\ cm_remote cm' = cm_remote cm /\ cm_policy cm' = cm_policy cm.
Proof.
  destruct st as [status prev]. simpl. intros Hok Hr cm -> Hc. eexists. split; [done|].
  destruct (cm_remote cm) as [raw|] eqn:Er; [|done]. unfold state_ok in Hok. rewrite Er in Hok.
  destruct Hok as (doc & ign & etag & v & _ & Hl & Hpol & _).
  destruct (syncRemote_cases status (Some cm) w) as [[r E]|[(? & ? & ? & ? & _ & E)|(? & ? & ? & ? & ? & ? & _ & _ & E)]].
  - rewrite Hl in E. simpl in E. rewrite E. simpl. by rewrite Hpol.
  - by rewrite E in Hr.
  - by rewrite E in Hr.
Qed.

End sync.
