(* ===== verification/RemoteClient.v ===== *)
(** * The operator's HTTP client

    [operator/internal/remoterules/fetch.go]: the requests of a pull, with the redirects
    it follows, and of a report that is posted.  The network is a function from
    requests to replies.  Parsing and resolving URLs, reading certificates and the
    library's decision to forward the Authorization header are parameters; of the headers
    those the code sets are modelled, so not the Basic authorization the library adds
    for a URL with user information. *)

From Stdlib Require Import ZArith Lia Bool.
From stdpp Require Import base list option sets.
From S2P Require Import Prelude GoStrings Regex Config Engine Scanner ConfigSources Signing PolicyFile RemoteSync.

(** [url.Parse] as far as the scheme, [URL.Parse] of a Location, [AppendCertsFromPEM], and whether
    [http.Client] sends the Authorization of the first request, given its URL and those of the
    redirects up to the one to be sent. *)
Class HttpLibrary := {
  URLScheme : gostring -> option gostring;
  ResolveURL : gostring -> gostring -> option gostring;
  AppendCertsFromPEM : gostring -> bool;
  KeepsAuthorization : gostring -> list gostring -> bool;
}.

Record Source := { src_URL : gostring; src_Authorization : gostring; src_CABundle : gostring; src_AllowInsecure : bool; src_ETag : gostring }.

(** The part of a [tls.Config] that is set; [None] for the system's roots. *)
Record tlsConfig := { RootCAs : option gostring; InsecureSkipVerify : bool }.

Record httpRequestOut := {
  req_method : gostring; req_url : gostring; req_authorization : gostring; req_if_none_match : gostring; req_body : option gostring;
}.

Record httpReply := { rep_status : Z; rep_location : gostring; rep_etag : gostring; rep_body : gostring }.

Section client.
Context `{Unicode} `{HttpLibrary}.

(** The switch on the scheme. *)
Definition scheme_of (raw : gostring) : option scheme :=
  s ← URLScheme raw;
  let s := ToLower s in
  Some (if str_eqb s (go "https") then HTTPS else if str_eqb s (go "http") then HTTP else OtherScheme).

(** [newTransport]; [None] for a bundle without a certificate. *)
Definition newTransport (src : Source) : option tlsConfig :=
  if negb (is_empty (src_CABundle src)) then
    if negb (AppendCertsFromPEM (src_CABundle src)) then None
    else Some {| RootCAs := Some (src_CABundle src); InsecureSkipVerify := src_AllowInsecure src |}
  else Some {| RootCAs := None; InsecureSkipVerify := src_AllowInsecure src |}.

(** The network behind a transport; [None] where no reply comes. *)
Context (net : tlsConfig -> httpRequestOut -> option httpReply).

Definition is_redirect (status : Z) : bool := (status =? 301) || (status =? 302) || (status =? 303) || (status =? 307) || (status =? 308).

(** [client.Do] of a GET under the redirect policy of [Fetch], with the requests that were sent; [hops] redirects may still be
    followed, [via] are the URLs of those that were.  The headers are the first request's. *)
Fixpoint follow (tls : tlsConfig) (allowInsecure : bool) (first : httpRequestOut) (via : list gostring) (hops : nat) (req : httpRequestOut) : list httpRequestOut * option httpReply :=
  match net tls req with
  | None => ([req], None)
  | Some rep =>
    if is_redirect (rep_status rep) && negb (is_empty (rep_location rep)) then
      match ResolveURL (req_url req) (rep_location rep), hops with
      | Some u, S hops =>
        match checkURL (scheme_of u) allowInsecure with
        | Some _ => ([req], None)
        | None =>
          let '(sent, ans) := follow tls allowInsecure first (via ++ [u]) hops
            {| req_method := req_method req; req_url := u;
               req_authorization := if KeepsAuthorization (req_url first) (via ++ [u]) then req_authorization first else [];
               req_if_none_match := req_if_none_match first; req_body := req_body req |} in
          (req :: sent, ans)
        end
      | _, _ => ([req], None)
      end
    else ([req], Some rep)
  end.

(** The fifth redirect is refused. *)
Definition maxRedirects : nat := 4.

Definition get_request (src : Source) : httpRequestOut := {|
  req_method := go "GET"; req_url := src_URL src; req_authorization := src_Authorization src; req_if_none_match := src_ETag src;
  req_body := None |}.

(** The requests and the answer of [Fetch]'s client. *)
Definition get (src : Source) : list httpRequestOut * httpAnswer :=
  match checkURL (scheme_of (src_URL src)) (src_AllowInsecure src), newTransport src with
  | None, Some tls =>
    let '(sent, ans) := follow tls (src_AllowInsecure src) (get_request src) [] maxRedirects (get_request src) in
    (sent, (fun rep => (rep_status rep, rep_etag rep, rep_body rep)) <$> ans)
  | _, _ => ([], None)
  end.

(** [Fetch] on the network. *)
Definition pull (src : Source) : list httpRequestOut * (remoteReason + Result) :=
  let '(sent, ans) := get src in (sent, Fetch (scheme_of (src_URL src)) (src_AllowInsecure src) (src_ETag src) ans).

(** [Post]: [None] for success.  No redirect is followed. *)
Definition Post (src : Source) (body : gostring) : list httpRequestOut * option remoteReason :=
  match checkURL (scheme_of (src_URL src)) (src_AllowInsecure src) with
  | Some r => ([], Some r)
  | None =>
    match newTransport src with
    | None => ([], Some FetchFailed)
    | Some tls =>
      let req := {| req_method := go "POST"; req_url := src_URL src; req_authorization := src_Authorization src;
                    req_if_none_match := []; req_body := Some body |} in
      ([req],
       match net tls req with
       | None => Some FetchFailed
       | Some rep => if (rep_status rep <? 200) || (299 <? rep_status rep) then Some FetchFailed else None
       end)
    end
  end.

(** ** What is sent *)

(** A URL the source may be read from. *)
Definition allowed (src : Source) (u : gostring) : Prop := checkURL (scheme_of u) (src_AllowInsecure src) = None.

Lemma allowed_https src u : allowed src u -> scheme_of u = Some HTTPS \/ (scheme_of u = Some HTTP /\ src_AllowInsecure src = true).
Proof. unfold allowed, checkURL. destruct (scheme_of u) as [[]|], (src_AllowInsecure src); try done; auto. Qed.

(** A request that differs from the first in its URL only, or in not having its Authorization. *)
Definition derived (first req : httpRequestOut) : Prop :=
  req_method req = req_method first /\ req_body req = req_body first /\ req_if_none_match req = req_if_none_match first /\
  (req_authorization req = req_authorization first \/ req_authorization req = []).

Lemma follow_sent src tls first via hops req :
  allowed src (req_url req) -> derived first req -> let '(sent, ans) := follow tls (src_AllowInsecure src) first via hops req in
  (length sent <= S hops)%nat /\ head sent = Some req /\ Forall (fun r => allowed src (req_url r) /\ derived first r) sent /\
  (forall rep, ans = Some rep -> exists last_req, last sent = Some last_req /\ net tls last_req = Some rep).
Proof.
  revert via req. induction hops as [|hops IH]; intros via req Ha Hd; cbn [follow].
  all: assert (Forall (fun r => allowed src (req_url r) /\ derived first r) [req]) as Hone by (constructor; [done|constructor]).
  all: destruct (net tls req) as [rep|] eqn:En; [|by split_and!; [cbn; lia|..]].
  all: destruct (_ && _); [|split_and!; [cbn; lia|done|done|intros ? [= <-]; by exists req]].
  - destruct (ResolveURL _ _); by split_and!.
  - destruct (ResolveURL _ _) as [u|]; [|by split_and!; [cbn; lia|..]].
    destruct (checkURL (scheme_of u) _) eqn:Eu; [by split_and!; [cbn; lia|..]|].
    set (next := {| req_method := _ |}). assert (derived first next) as Hn.
    { destruct Hd as (E1 & E2 & _). split_and!; [done..|]. cbn. destruct (KeepsAuthorization _ _); auto. }
    specialize (IH (via ++ [u]) next Eu Hn). destruct (follow _ _ _ _ _ next) as [sent ans]. destruct IH as (Hl & Hh & Hf & Hlast).
    split_and!; [cbn; lia|done|by constructor|].
    intros rep' E. destruct (Hlast rep' E) as (r & Hr & Hrep). exists r. split; [|done]. destruct sent; [done|exact Hr].
Qed.

Lemma derived_refl r : derived r r.
Proof. split_and!; auto. Qed.

Lemma limit_read_all n content : Z.of_nat (length (limit_read (n + 1) content)) <= n -> limit_read (n + 1) content = content.
Proof.
  revert n. induction content as [|b content IH]; intros n; [done|]. cbn [limit_read]. destruct (Z.leb_spec (n + 1) 0); [cbn; lia|].
  replace (n + 1 - 1) with (n - 1 + 1) by lia. intros Hl. f_equal. apply IH. cbn [length] in Hl. lia.
Qed.

Lemma newTransport_checks src tls : newTransport src = Some tls ->
  InsecureSkipVerify tls = src_AllowInsecure src /\ RootCAs tls = (if is_empty (src_CABundle src) then None else Some (src_CABundle src)).
Proof. unfold newTransport. destruct (is_empty _), (AppendCertsFromPEM _); intros [= <-]; done. Qed.

(** The reply a pull accepted: the last of its requests got it over the source's transport. *)
Definition replied (src : Source) (sent : list httpRequestOut) (rep : httpReply) : Prop :=
  exists tls r, newTransport src = Some tls /\ last sent = Some r /\ net tls r = Some rep.

Lemma get_sent src : let '(sent, ans) := get src in
  (length sent <= 5)%nat /\ Forall (fun r => allowed src (req_url r) /\ derived (get_request src) r) sent /\
  (forall a, ans = Some a -> exists rep, replied src sent rep /\ a = (rep_status rep, rep_etag rep, rep_body rep)).
Proof.
  unfold get. destruct (checkURL _ _) eqn:Eu; [split_and!; [cbn; lia|constructor|done]|].
  destruct (newTransport src) as [tls|] eqn:Et; [|split_and!; [cbn; lia|constructor|done]].
  pose proof (follow_sent src tls (get_request src) [] maxRedirects (get_request src) Eu (derived_refl _)) as Hf.
  destruct (follow _ _ _ _ _ _) as [sent ans].
  destruct Hf as (Hl & _ & Hall & Hlast). split_and!; [exact Hl|exact Hall|].
  intros a Ha. destruct ans as [rep|]; [|done]. injection Ha as <-. destruct (Hlast rep eq_refl) as (r & Hr & Hn).
  exists rep. split; [|done]. by exists tls, r.
Qed.

Lemma fetch_results u allow etag ans res : Fetch u allow etag ans = inr res ->
  exists status tag content, ans = Some (status, tag, content) /\
    ((status = 200 /\ res = NewBody content tag /\ Z.of_nat (length content) <= RemoteMaxBytes) \/ (status = 304 /\ res = NotModified etag /\ etag <> [])).
Proof.
  unfold Fetch. destruct (checkURL u allow); [done|]. destruct ans as [[[status tag] content]|]; [|done]. intros Hr.
  exists status, tag, content. split; [done|]. revert Hr.
  destruct (Z.eqb_spec status 200) as [->|].
  - destruct (Z.ltb_spec RemoteMaxBytes (Z.of_nat (length (limit_read (RemoteMaxBytes + 1) content)))) as [|Hl]; [done|].
    pose proof (limit_read_all _ _ Hl) as E. rewrite E in *. intros [= <-]. by left.
  - destruct (Z.eqb_spec status 304); [|done]. destruct etag; [done|]. intros [= <-]. by right.
Qed.
End client.

(** ** The requests of a reconcile *)

(** What the API server answers for a secret. *)
Inductive secretRead := SecretFound (data : list (gostring * gostring)) | SecretMissing | SecretFailed.

(** [secretValue]: a key that is missing or empty is an error. *)
Definition secretValue (key : gostring) (s : secretRead) : option gostring :=
  match s with
  | SecretFound data =>
    kv ← head (filter (fun kv => kv.1 = key) data);
    if is_empty kv.2 then None else Some kv.2
  | _ => None
  end.

(** The two secrets of a policy: the keys it names, and what is read. *)
Record remoteSecrets := { header_key : gostring; header_read : secretRead; ca_key : gostring; ca_read : secretRead }.

(** A secret where the policy names one. *)
Definition named_secret (named : bool) (key : gostring) (s : secretRead) : option gostring :=
  if named then secretValue key s else Some [].

Section reconcile.
Context `{RegexpCompiler} `{Unicode} `{GoDecoders} `{Ed25519} `{HttpLibrary}.
Context (net : tlsConfig -> httpRequestOut -> option httpReply).
(** The addresses of the file and of its signature. *)
Context (url sigURL : gostring).

(** The source [syncRemote] reads from; [None] where a secret is not there. *)
Definition source_of (rc : RemoteConfig) (sec : remoteSecrets) (etag : gostring) : option Source :=
  header ← named_secret (rc_HeaderSecret rc) (header_key sec) (header_read sec);
  ca ← named_secret (rc_CASecret rc) (ca_key sec) (ca_read sec);
  Some {| src_URL := url; src_Authorization := TrimSpace header; src_CABundle := ca; src_AllowInsecure := rc_AllowInsecure rc; src_ETag := etag |}.

(** The source of the signature. *)
Definition signature_source (src : Source) : Source := {|
  src_URL := sigURL; src_Authorization := src_Authorization src; src_CABundle := src_CABundle src;
  src_AllowInsecure := src_AllowInsecure src; src_ETag := [] |}.

(** The world of a reconcile on this network. *)
Definition world_of (rc : RemoteConfig) (sec : remoteSecrets) : World := {|
  w_header := bool_decide (is_Some (secretValue (header_key sec) (header_read sec)));
  w_ca := bool_decide (is_Some (secretValue (ca_key sec) (ca_read sec)));
  w_file := fun etag => match source_of rc sec etag with Some src => (get net src).2 | None => None end;
  w_signature := match source_of rc sec [] with Some src => (get net (signature_source src)).2 | None => None end |}.

(** What [syncRemote] sends: the pull of the file and, for a new file that parses where signatures are required, the pull of
    the signature. *)
Definition sync_requests (rc : RemoteConfig) (prev : option ConfigMap) (sec : remoteSecrets) : list httpRequestOut :=
  match signature_settings rc with
  | None => []
  | Some sig =>
    let last := last_good ((fun '(keys, _, _) => keys) <$> sig) prev in
    let etag := match last with Some (_, _, etag, _) => etag | None => [] end in
    match source_of rc sec etag with
    | None => []
    | Some src =>
      let '(sent, res) := pull net src in
      sent ++
      match res, sig with
      | inr (NewBody b _), Some _ => match ParseRemote b with inr _ => (pull net (signature_source src)).1 | inl _ => [] end
      | _, _ => []
      end
    end
  end.

(** A request under the policy's rules: the scheme, the method, and no credentials but its own. *)
Definition within (rc : RemoteConfig) (sec : remoteSecrets) (r : httpRequestOut) : Prop :=
  (scheme_of (req_url r) = Some HTTPS \/ (scheme_of (req_url r) = Some HTTP /\ rc_AllowInsecure rc = true)) /\
  req_method r = go "GET" /\ req_body r = None /\
  (req_authorization r = [] \/ exists v, rc_HeaderSecret rc = true /\ secretValue (header_key sec) (header_read sec) = Some v /\ req_authorization r = TrimSpace v).

Lemma source_credentials rc sec etag src : source_of rc sec etag = Some src ->
  src_AllowInsecure src = rc_AllowInsecure rc /\
  (src_Authorization src = [] \/
   exists v, rc_HeaderSecret rc = true /\ secretValue (header_key sec) (header_read sec) = Some v /\ src_Authorization src = TrimSpace v).
Proof.
  unfold source_of, named_secret. destruct (rc_HeaderSecret rc).
  - destruct (secretValue (header_key sec) _) as [v|]; [|done]. cbn. destruct (if rc_CASecret rc then _ else _); [|done]. intros [= <-].
    split; [done|]. right. by exists v.
  - cbn. destruct (if rc_CASecret rc then _ else _); [|done]. intros [= <-]. split; [done|]. by left.
Qed.

Lemma pull_within rc sec src :
  src_AllowInsecure src = rc_AllowInsecure rc ->
  (src_Authorization src = [] \/
   exists v, rc_HeaderSecret rc = true /\ secretValue (header_key sec) (header_read sec) = Some v /\ src_Authorization src = TrimSpace v) ->
  (length (pull net src).1 <= 5)%nat /\ Forall (within rc sec) (pull net src).1.
Proof.
  intros Ei Ha. unfold pull. pose proof (get_sent net src) as Hg. destruct (get net src) as [sent ans]. destruct Hg as (Hl & Hf & _).
  split; [exact Hl|]. eapply Forall_impl; [exact Hf|]. intros r (Hr & E1 & E2 & _ & E4). apply allowed_https in Hr. rewrite Ei in Hr.
  split_and!; [exact Hr|exact E1|exact E2|]. destruct E4 as [-> | ->]; [exact Ha|by left].
Qed.

Lemma sync_requests_within rc prev sec :
  (length (sync_requests rc prev sec) <= 10)%nat /\ Forall (within rc sec) (sync_requests rc prev sec).
Proof.
  unfold sync_requests. destruct (signature_settings rc) as [sig|]; [|split; [cbn; lia|constructor]].
  set (etag := match last_good _ _ with Some _ => _ | None => _ end). destruct (source_of rc sec etag) as [src|] eqn:Es; [|split; [cbn; lia|constructor]].
  destruct (source_credentials _ _ _ _ Es) as [Ei Ha].
  destruct (pull_within rc sec src Ei Ha) as [Hl Hf]. destruct (pull_within rc sec (signature_source src) Ei Ha) as [Hl' Hf'].
  destruct (pull net src) as [sent res]. cbn [fst] in *. set (more := match res with inl _ => _ | inr _ => _ end).
  assert ((length more <= 5)%nat /\ Forall (within rc sec) more) as [Hm Hm'] by (unfold more; repeat case_match; (done || (split; [cbn; lia|constructor]))).
  rewrite length_app. split; [lia|by apply Forall_app].
Qed.
End reconcile.
