(* ===== verification/RulesStore.v ===== *)
(** * The rule server's store

    [rules/internal/store]: organizations own rule sets, a rule set owns immutable
    versions, publications and tokens ([store.go]), and an organization registers signing
    keys ([signing.go]).  Every method is one transaction, on SQLite because there is
    one connection, on Postgres because [lockSet] holds the set's row; a run of
    the server is a sequence of them.

    A table is the list of its rows in the order of insertion, and the id of a
    row its position: no row of these tables but the daily counts is ever
    deleted.  Times are nanoseconds; times of creation are left out. *)

From Stdlib Require Import ZArith Lia Bool.
From stdpp Require Import base list option sets sorting.
From S2P Require Import Prelude GoStrings Sha256 Tokens JsonString Engine.

(** [HashToken]: the stored form of a token value. *)
Definition HashToken (value : gostring) : gostring := hex_encode (sha256 value).

Inductive storeError :=
| ErrNotFound
| ErrExists
| ErrInvalidSlug
| ErrNotPublished
| ErrTokenRevoked
| ErrStale
| ErrInvalidKind
| ErrUnique
| ErrForeignKey
| ErrRefused        (* a validationError of the server *)
| ErrBadSignature
| ErrInvalidEmail
| ErrExpired
| ErrNoFreeSlug
| ErrNoRows.       (* sql.ErrNoRows, passed on *)

Notation store_result A := (storeError + A)%type.

(** ** Rows *)

Record OrgRow := { o_slug : gostring; o_name : gostring }.

Record SetRow := { rs_org : nat; rs_slug : gostring; rs_name : gostring; rs_published : option nat }.

Record VersionRow := {
  v_set : nat; v_revision : Z; v_content : gostring; v_etag : gostring; v_author : gostring; v_comment : gostring;
}.

Record TokenRow := {
  t_set : nat; t_name : gostring; t_kind : gostring; t_prefix : gostring; t_hash : gostring; t_revoked : option Z;
  t_used : option Z; t_ip : gostring;
}.

Record PublicationRow := {
  p_set : nat; p_seq : Z; p_version : nat; p_author : gostring; p_keyid : gostring; p_signature : gostring;
}.

Record SigningKeyRow := {
  k_org : nat; k_keyid : gostring; k_name : gostring; k_public : gostring; k_by : gostring; k_revoked : option Z;
}.

(** The daily counts of a token's pulls. *)
Record PullRow := { pc_token : nat; pc_day : Z; pc_pulls : Z; pc_not_modified : Z }.

(** A value of an event's details. *)
Inductive detail := DInt (z : Z) | DText (s : gostring) | DBool (b : bool).

Record EventRow := {
  ev_org : nat; ev_at : Z; ev_actor : gostring; ev_action : gostring; ev_target : gostring;
  ev_detail : list (gostring * detail); ev_ip : gostring;
}.

Record DB := {
  orgs : list OrgRow;
  rule_sets : list SetRow;
  versions : list VersionRow;
  tokens : list TokenRow;
  publications : list PublicationRow;
  signing_keys : list SigningKeyRow;
  pull_counts : list PullRow;
  audit_events : list EventRow;
}.

Definition emptyDB : DB :=
  {| orgs := []; rule_sets := []; versions := []; tokens := []; publications := []; signing_keys := [];
     pull_counts := []; audit_events := [] |}.

(** [SELECT ... WHERE p]: the first row, and its id. *)
Definition select {R} (p : R -> bool) (t : list R) : option (nat * R) := list_find (fun r => p r = true) t.

(** [COALESCE(MAX(f), 0)] over the rows that satisfy [p]. *)
Definition select_max {R} (p : R -> bool) (f : R -> Z) (t : list R) : Z :=
  foldr (fun r m => if p r then Z.max (f r) m else m) 0 t.

(** [ORDER BY f DESC]. *)
Definition descending {R} (f : R -> Z) (x y : R) : Prop := f y <= f x.
#[global] Instance descending_dec {R} (f : R -> Z) x y : Decision (descending f x y) := Z_le_dec (f y) (f x).

Definition or_error {A} (e : storeError) (o : option A) : store_result A :=
  match o with Some a => inr a | None => inl e end.

(** ** Organizations and sets *)

Definition slug_byte (c : byte) : bool := isLowerASCII c || isASCIIDigit c || (c =? ch "-").

(** [CheckSlug]: a letter or digit, then up to 62 letters, digits and dashes. *)
Definition CheckSlug (s : gostring) : bool :=
  match s with
  | [] => false
  | c :: r => (isLowerASCII c || isASCIIDigit c) && forallb slug_byte r && (length r <=? 62)%nat
  end.

Definition set_orgs (l : list OrgRow) (db : DB) : DB :=
  {| orgs := l; rule_sets := rule_sets db; versions := versions db; tokens := tokens db;
     publications := publications db; signing_keys := signing_keys db;
     pull_counts := pull_counts db; audit_events := audit_events db |}.

(** [CreateOrg]. *)
Definition CreateOrg (slug name : gostring) (db : DB) : store_result (nat * DB) :=
  if negb (CheckSlug slug) then inl ErrInvalidSlug
  else
    let name := if is_empty name then slug else name in
    match select (fun o => str_eqb (o_slug o) slug) (orgs db) with
    | Some _ => inl ErrExists
    | None => inr (length (orgs db), set_orgs (orgs db ++ [{| o_slug := slug; o_name := name |}]) db)
    end.

(** [GetOrg] and [GetOrgByID]. *)
Definition GetOrg (slug : gostring) (db : DB) : store_result (nat * OrgRow) :=
  or_error ErrNotFound (select (fun o => str_eqb (o_slug o) slug) (orgs db)).

Definition GetOrgByID (id : nat) (db : DB) : store_result OrgRow := or_error ErrNotFound (orgs db !! id).

Definition set_sets (l : list SetRow) (db : DB) : DB :=
  {| orgs := orgs db; rule_sets := l; versions := versions db; tokens := tokens db;
     publications := publications db; signing_keys := signing_keys db;
     pull_counts := pull_counts db; audit_events := audit_events db |}.

(** [CreateSet]. *)
Definition CreateSet (org : nat) (slug name : gostring) (db : DB) : store_result (nat * DB) :=
  if negb (CheckSlug slug) then inl ErrInvalidSlug
  else
    let name := if is_empty name then slug else name in
    match select (fun s => Nat.eqb (rs_org s) org && str_eqb (rs_slug s) slug) (rule_sets db) with
    | Some _ => inl ErrExists
    | None =>
      match orgs db !! org with
      | None => inl ErrForeignKey
      | Some _ =>
        inr (length (rule_sets db),
             set_sets (rule_sets db ++ [{| rs_org := org; rs_slug := slug; rs_name := name; rs_published := None |}]) db)
      end
    end.

(** A set as it is shown: with its published and its latest revision, 0 for none. *)
Record RuleSet := { ID : nat; OrgID : nat; Slug : gostring; SetName : gostring; PublishedRevision : Z; LatestRevision : Z }.

(** [setColumns] for the row [id]. *)
Definition set_columns (db : DB) (id : nat) (s : SetRow) : RuleSet :=
  {| ID := id; OrgID := rs_org s; Slug := rs_slug s; SetName := rs_name s;
     PublishedRevision := default 0 (v_revision <$> (rs_published s ≫= fun v => versions db !! v));
     LatestRevision := select_max (fun v => Nat.eqb (v_set v) id) v_revision (versions db) |}.

(** [GetSet] and [GetSetByID]. *)
Definition GetSet (org : nat) (slug : gostring) (db : DB) : store_result RuleSet :=
  or_error ErrNotFound ((fun '(i, s) => set_columns db i s) <$>
    select (fun s => Nat.eqb (rs_org s) org && str_eqb (rs_slug s) slug) (rule_sets db)).

Definition GetSetByID (id : nat) (db : DB) : store_result RuleSet :=
  or_error ErrNotFound (set_columns db id <$> rule_sets db !! id).

(** ** Versions *)

Definition set_versions (l : list VersionRow) (db : DB) : DB :=
  {| orgs := orgs db; rule_sets := rule_sets db; versions := l; tokens := tokens db;
     publications := publications db; signing_keys := signing_keys db;
     pull_counts := pull_counts db; audit_events := audit_events db |}.

Definition of_set (set : nat) (v : VersionRow) : bool := Nat.eqb (v_set v) set.
Definition is_version (set : nat) (revision : Z) (v : VersionRow) : bool := of_set set v && (v_revision v =? revision).

(** [createVersion]; [canonical] builds the file of a revision, or refuses it. *)
Definition createVersion (set : nat) (author comment : gostring) (canonical : Z -> store_result (gostring * gostring))
    (db : DB) : store_result (VersionRow * DB) :=
  match rule_sets db !! set with
  | None => inl ErrNotFound
  | Some _ =>
    let revision := select_max (of_set set) v_revision (versions db) + 1 in
    match canonical revision with
    | inl e => inl e
    | inr (content, etag) =>
      match select (is_version set revision) (versions db) with
      | Some _ => inl ErrUnique
      | None =>
        let v := {| v_set := set; v_revision := revision; v_content := content; v_etag := etag;
                    v_author := author; v_comment := comment |} in
        inr (v, set_versions (versions db ++ [v]) db)
      end
    end
  end.

Definition maxRaceRetries : nat := 5.

(** A transaction is tried again while it lost a race, [n] times at most. *)
Fixpoint retry {A} (n : nat) (again : storeError -> bool) (tx : DB -> store_result A) (db : DB) : store_result A :=
  match tx db, n with
  | inl e, S n' => if again e then retry n' again tx db else inl e
  | r, _ => r
  end.

(** [CreateVersion]. *)
Definition CreateVersion (set : nat) (author comment : gostring) (canonical : Z -> store_result (gostring * gostring))
    (db : DB) : store_result (VersionRow * DB) :=
  retry maxRaceRetries (fun e => match e with ErrUnique => true | _ => false end)
    (createVersion set author comment canonical) db.

(** [GetVersion]. *)
Definition GetVersion (set : nat) (revision : Z) (db : DB) : store_result VersionRow :=
  or_error ErrNotFound (snd <$> select (is_version set revision) (versions db)).

(** [ListVersions]: newest first. *)
Definition ListVersions (set : nat) (db : DB) : list VersionRow :=
  merge_sort (descending v_revision) (filter (fun v => of_set set v = true) (versions db)).

(** ** Publications *)

Definition set_publications (s : list SetRow) (l : list PublicationRow) (db : DB) : DB :=
  {| orgs := orgs db; rule_sets := s; versions := versions db; tokens := tokens db;
     publications := l; signing_keys := signing_keys db;
     pull_counts := pull_counts db; audit_events := audit_events db |}.

Definition pub_of (set : nat) (p : PublicationRow) : bool := Nat.eqb (p_set p) set.

(** [PublishRequest]; [pr_Seq] is 0 when the request does not ask for a number. *)
Record PublishRequest := {
  pr_Revision : Z;
  pr_Author : gostring;
  pr_Seq : Z;
  pr_KeyID : gostring;
  pr_Signature : gostring;
  pr_Check : option (Z -> VersionRow -> option storeError);
}.

(** [NextPublication]. *)
Definition NextPublication (set : nat) (db : DB) : Z := select_max (pub_of set) p_seq (publications db) + 1.

Definition publish_row (vid : nat) (s : SetRow) : SetRow :=
  {| rs_org := rs_org s; rs_slug := rs_slug s; rs_name := rs_name s; rs_published := Some vid |}.

(** [publish]: the publication's number and revision, and the store. *)
Definition publish (set : nat) (req : PublishRequest) (db : DB) : store_result (Z * Z * DB) :=
  match select (is_version set (pr_Revision req)) (versions db) with
  | None => inl ErrNotFound
  | Some (vid, v) =>
    let seq := NextPublication set db in
    if negb (pr_Seq req =? 0) && negb (pr_Seq req =? seq) then inl ErrStale
    else
      match pr_Check req ≫= fun check => check seq v, select (fun p => pub_of set p && (p_seq p =? seq)) (publications db) with
      | Some e, _ => inl e
      | None, Some _ => inl ErrStale
      | None, None =>
        let p := {| p_set := set; p_seq := seq; p_version := vid; p_author := pr_Author req;
                    p_keyid := pr_KeyID req; p_signature := pr_Signature req |} in
        inr (seq, v_revision v, set_publications (alter (publish_row vid) set (rule_sets db)) (publications db ++ [p]) db)
      end
  end.

(** [Publish]. *)
Definition Publish (set : nat) (req : PublishRequest) (db : DB) : store_result (Z * Z * DB) :=
  retry maxRaceRetries (fun e => match e with ErrStale => pr_Seq req =? 0 | _ => false end) (publish set req) db.

(** [Publication]: a row with the revision of its version. *)
Record Publication := {
  pub_seq : Z; pub_revision : Z; pub_author : gostring; pub_keyid : gostring; pub_signature : gostring;
}.

(** [publicationColumns], with the join on [versions]. *)
Definition publication_columns (db : DB) (p : PublicationRow) : option Publication :=
  (fun v => {| pub_seq := p_seq p; pub_revision := v_revision v; pub_author := p_author p;
               pub_keyid := p_keyid p; pub_signature := p_signature p |}) <$> versions db !! p_version p.

(** [Publications]: [ORDER BY p.seq DESC]. *)
Definition Publications (set : nat) (db : DB) : list Publication :=
  omap (publication_columns db)
    (merge_sort (descending p_seq) (filter (fun p => pub_of set p = true) (publications db))).

(** [LatestPublication]: the first row of that order. *)
Definition LatestPublication (set : nat) (db : DB) : store_result Publication :=
  or_error ErrNotPublished (head (Publications set db)).

(** [Published]. *)
Definition Published (set : nat) (db : DB) : store_result VersionRow :=
  or_error ErrNotPublished (s ← rule_sets db !! set; v ← rs_published s; versions db !! v).

(** ** Tokens *)

Definition KindPull : gostring := go "pull".
Definition KindReport : gostring := go "report".

(** [TokenPrefix] and [ReportTokenPrefix]. *)
Definition prefix_of_kind (kind : gostring) : option gostring :=
  if str_eqb kind KindPull then Some (go "psr_")
  else if str_eqb kind KindReport then Some (go "pss_") else None.

Definition set_tokens (l : list TokenRow) (db : DB) : DB :=
  {| orgs := orgs db; rule_sets := rule_sets db; versions := versions db; tokens := l;
     publications := publications db; signing_keys := signing_keys db;
     pull_counts := pull_counts db; audit_events := audit_events db |}.

(** [CreateToken]; [raw] are the random bytes.  The token, its value and the store. *)
Definition CreateToken (raw : gostring) (set : nat) (name kind : gostring) (db : DB) :
    store_result (nat * gostring * DB) :=
  let kind := if is_empty kind then KindPull else kind in
  match prefix_of_kind kind with
  | None => inl ErrInvalidKind
  | Some tp =>
    match rule_sets db !! set with
    | None => inl ErrNotFound
    | Some _ =>
      let value := tp ++ hex_encode raw in
      match select (fun t => str_eqb (t_hash t) (HashToken value)) (tokens db) with
      | Some _ => inl ErrUnique
      | None =>
        let t := {| t_set := set; t_name := name; t_kind := kind; t_prefix := take (length tp + 8) value;
                    t_hash := HashToken value; t_revoked := None; t_used := None; t_ip := [] |} in
        inr (length (tokens db), value, set_tokens (tokens db ++ [t]) db)
      end
    end
  end.

Definition revoke_token (now : Z) (t : TokenRow) : TokenRow :=
  {| t_set := t_set t; t_name := t_name t; t_kind := t_kind t; t_prefix := t_prefix t; t_hash := t_hash t;
     t_revoked := Some (default now (t_revoked t)); t_used := t_used t; t_ip := t_ip t |}.

(** [RevokeToken]. *)
Definition RevokeToken (now : Z) (set token : nat) (db : DB) : store_result DB :=
  match tokens db !! token with
  | Some t =>
    if Nat.eqb (t_set t) set then inr (set_tokens (alter (revoke_token now) token (tokens db)) db) else inl ErrNotFound
  | None => inl ErrNotFound
  end.

(** [ListTokens]. *)
Definition ListTokens (set : nat) (db : DB) : list TokenRow := filter (fun t => Nat.eqb (t_set t) set = true) (tokens db).

(** [Access]: the token, its set and the organization. *)
Record Access := { acc_id : nat; acc_token : TokenRow; acc_set : RuleSet; acc_org : OrgRow }.

(** [Authenticate]. *)
Definition Authenticate (value : gostring) (db : DB) : store_result Access :=
  match select (fun t => str_eqb (t_hash t) (HashToken value)) (tokens db) with
  | None => inl ErrNotFound
  | Some (i, t) =>
    match t_revoked t with
    | Some _ => inl ErrTokenRevoked
    | None =>
      match GetSetByID (t_set t) db with
      | inl e => inl e
      | inr s =>
        match GetOrgByID (OrgID s) db with
        | inl e => inl e
        | inr o => inr {| acc_id := i; acc_token := t; acc_set := s; acc_org := o |}
        end
      end
    end
  end.

(** ** Signing keys *)

Definition set_keys (l : list SigningKeyRow) (db : DB) : DB :=
  {| orgs := orgs db; rule_sets := rule_sets db; versions := versions db; tokens := tokens db;
     publications := publications db; signing_keys := l;
     pull_counts := pull_counts db; audit_events := audit_events db |}.

(** [AddSigningKey]. *)
Definition AddSigningKey (org : nat) (keyID name publicKey createdBy : gostring) (db : DB) : store_result (nat * DB) :=
  match select (fun k => Nat.eqb (k_org k) org && str_eqb (k_keyid k) keyID) (signing_keys db) with
  | Some _ => inl ErrExists
  | None =>
    match orgs db !! org with
    | None => inl ErrForeignKey
    | Some _ =>
      inr (length (signing_keys db),
           set_keys (signing_keys db ++ [{| k_org := org; k_keyid := keyID; k_name := name; k_public := publicKey;
                                            k_by := createdBy; k_revoked := None |}]) db)
    end
  end.

(** [ListSigningKeys]. *)
Definition ListSigningKeys (org : nat) (db : DB) : list SigningKeyRow :=
  filter (fun k => Nat.eqb (k_org k) org = true) (signing_keys db).

Definition active_key (org : nat) (k : SigningKeyRow) : bool :=
  Nat.eqb (k_org k) org && match k_revoked k with None => true | Some _ => false end.

(** [ActiveSigningKey] and [HasSigningKeys]. *)
Definition ActiveSigningKey (org : nat) (keyID : gostring) (db : DB) : store_result SigningKeyRow :=
  or_error ErrNotFound (snd <$> select (fun k => active_key org k && str_eqb (k_keyid k) keyID) (signing_keys db)).

Definition HasSigningKeys (org : nat) (db : DB) : bool := existsb (active_key org) (signing_keys db).

Definition revoke_key (now : Z) (k : SigningKeyRow) : SigningKeyRow :=
  {| k_org := k_org k; k_keyid := k_keyid k; k_name := k_name k; k_public := k_public k; k_by := k_by k;
     k_revoked := Some (default now (k_revoked k)) |}.

(** [RevokeSigningKey]. *)
Definition RevokeSigningKey (now : Z) (org key : nat) (db : DB) : store_result DB :=
  match signing_keys db !! key with
  | Some k =>
    if Nat.eqb (k_org k) org then inr (set_keys (alter (revoke_key now) key (signing_keys db)) db) else inl ErrNotFound
  | None => inl ErrNotFound
  end.

(** ** Use of a token *)

Definition tokenTouchEvery : Z := 60 * 1000000000.

Definition touch_token (now : Z) (ip : gostring) (t : TokenRow) : TokenRow :=
  if match t_used t with None => true | Some at_ => at_ <? now - tokenTouchEvery end
  then {| t_set := t_set t; t_name := t_name t; t_kind := t_kind t; t_prefix := t_prefix t; t_hash := t_hash t;
          t_revoked := t_revoked t; t_used := Some now; t_ip := ip |}
  else t.

(** [TouchToken]: the layout of the times has a fixed width, so that their texts compare as they do. *)
Definition TouchToken (now : Z) (token : nat) (ip : gostring) (db : DB) : DB :=
  set_tokens (alter (touch_token now ip) token (tokens db)) db.

Definition set_pulls (l : list PullRow) (db : DB) : DB :=
  {| orgs := orgs db; rule_sets := rule_sets db; versions := versions db; tokens := tokens db;
     publications := publications db; signing_keys := signing_keys db;
     pull_counts := l; audit_events := audit_events db |}.

Definition day_of (now : Z) : Z := now / (86400 * 1000000000).
Definition PullRetention : Z := 90 * (86400 * 1000000000).

Definition of_day (token : nat) (day : Z) (r : PullRow) : bool := Nat.eqb (pc_token r) token && (pc_day r =? day).

Definition count_pull (nm : Z) (r : PullRow) : PullRow :=
  {| pc_token := pc_token r; pc_day := pc_day r; pc_pulls := pc_pulls r + 1; pc_not_modified := pc_not_modified r + nm |}.

(** [CountPull]: the first pull of a day also drops the token's old days. *)
Definition CountPull (now : Z) (token : nat) (notModified : bool) (db : DB) : store_result DB :=
  let nm := if notModified then 1 else 0 in
  match select (of_day token (day_of now)) (pull_counts db), tokens db !! token with
  | Some (i, _), _ => inr (set_pulls (alter (count_pull nm) i (pull_counts db)) db)
  | None, None => inl ErrForeignKey
  | None, Some _ =>
    let row := {| pc_token := token; pc_day := day_of now; pc_pulls := 1; pc_not_modified := nm |} in
    inr (set_pulls (filter (fun r => Nat.eqb (pc_token r) token && (pc_day r <? day_of (now - PullRetention)) = false)
                      (pull_counts db ++ [row])) db)
  end.

(** ** The audit log *)

Definition set_events (l : list EventRow) (db : DB) : DB :=
  {| orgs := orgs db; rule_sets := rule_sets db; versions := versions db; tokens := tokens db;
     publications := publications db; signing_keys := signing_keys db;
     pull_counts := pull_counts db; audit_events := l |}.

(** [Record]. *)
Definition RecordEvent (e : EventRow) (db : DB) : store_result DB :=
  match orgs db !! ev_org e with
  | None => inl ErrForeignKey
  | Some _ => inr (set_events (audit_events db ++ [e]) db)
  end.

(** [Events]: newest first, below the id [before] (0: from the newest), at most [limit]. *)
Definition Events (org : nat) (before : option nat) (limit : nat) (db : DB) : list (nat * EventRow) :=
  take limit (reverse (filter (fun '(i, e) => Nat.eqb (ev_org e) org && default true ((fun b => Nat.ltb i b) <$> before) = true)
    (imap pair (audit_events db)))).
