(* ===== verification/RulesStoreProofs.v ===== *)
(** * The rule server's store: history and tokens

    A run of the store is a sequence of its methods; the tables it can reach
    are numbered without gaps, only grow, and serve what was last published. *)

From Stdlib Require Import ZArith Lia Bool.
From stdpp Require Import base list list_numbers option sets sorting relations.
From S2P Require Import Prelude GoStrings Sha256 Tokens JsonString Engine RulesStore.

(** ** Numbered tables *)

Section Numbered.
Context {R : Type} (p : R -> bool) (f : R -> Z).

Definition rows_of (t : list R) : list R := filter (fun r => p r = true) t.

(** The rows that satisfy [p] are numbered 1, 2, 3, ... in order. *)
Definition numbered (t : list R) : Prop := f <$> rows_of t = seqZ 1 (Z.of_nat (length (rows_of t))).

Lemma rows_of_app t u : rows_of (t ++ u) = rows_of t ++ rows_of u.
Proof. apply filter_app. Qed.

Lemma select_max_rows t : select_max p f t = foldr Z.max 0 (f <$> rows_of t).
Proof.
  induction t as [|r t IH]; [done|]. unfold rows_of. rewrite filter_cons. simpl. rewrite IH.
  destruct (p r); case_decide; done.
Qed.

Lemma foldr_max_seqZ i n : 0 <= i -> (0 < n)%nat -> foldr Z.max 0 (seqZ i (Z.of_nat n)) = i + Z.of_nat n - 1.
Proof.
  revert i. induction n as [|[|n] IH]; intros i Hi Hn; [lia| |].
  - rewrite seqZ_cons by lia. simpl. lia.
  - rewrite seqZ_cons by lia. simpl foldr. replace (Z.pred (Z.of_nat (S (S n)))) with (Z.of_nat (S n)) by lia.
    rewrite IH by lia. lia.
Qed.

Lemma numbered_max t : numbered t -> select_max p f t = Z.of_nat (length (rows_of t)).
Proof.
  intros H. rewrite select_max_rows, H. destruct (rows_of t) as [|r l]; [done|].
  rewrite foldr_max_seqZ; [|lia|]; simpl; lia.
Qed.

Lemma numbered_nil : numbered [].
Proof. done. Qed.

Lemma numbered_skip t r : p r = false -> numbered t -> numbered (t ++ [r]).
Proof.
  unfold numbered. intros Hr H. rewrite rows_of_app. unfold rows_of at 2 4. rewrite filter_cons, Hr.
  rewrite decide_False by done. by rewrite filter_nil, app_nil_r.
Qed.

Lemma numbered_snoc t r : f r = select_max p f t + 1 -> numbered t -> numbered (t ++ [r]).
Proof.
  intros Hr H. destruct (p r) eqn:Hp; [|by apply numbered_skip].
  rewrite (numbered_max _ H) in Hr. unfold numbered in *.
  rewrite rows_of_app. unfold rows_of at 2 4. rewrite filter_cons, Hp, decide_True by done.
  rewrite filter_nil, fmap_app, H, length_app. simpl. rewrite Hr.
  replace (Z.of_nat (length (rows_of t) + 1)) with (Z.of_nat (length (rows_of t)) + 1) by lia.
  rewrite seqZ_app by lia. f_equal. rewrite (seqZ_cons _ 1) by lia. cbn. f_equal. lia.
Qed.

Lemma rows_of_elem t r : r ∈ rows_of t <-> p r = true /\ r ∈ t.
Proof. unfold rows_of. by rewrite list_elem_of_filter. Qed.

Lemma numbered_range t r : numbered t -> p r = true -> r ∈ t -> 1 <= f r <= select_max p f t.
Proof.
  intros H Hp Hr. rewrite (numbered_max _ H).
  assert (f r ∈ f <$> rows_of t) as Hf by (apply list_elem_of_fmap_2, rows_of_elem; done).
  rewrite H in Hf. apply elem_of_seqZ in Hf. lia.
Qed.

(** A number is given once, so a row is found by it. *)
Lemma numbered_inj t i j r s :
  numbered t -> t !! i = Some r -> t !! j = Some s -> p r = true -> p s = true -> f r = f s -> i = j.
Proof.
  intros H. assert (NoDup (f <$> rows_of t)) as Hnd by (rewrite H; apply NoDup_seqZ). clear H. revert i j.
  induction t as [|x t IH]; intros i j Hi Hj Hr Hs E; [done|].
  unfold rows_of in Hnd. rewrite filter_cons in Hnd.
  assert (forall y k, p x = true -> t !! k = Some y -> p y = true -> f x = f y -> False) as Hno.
  { intros y k Hx Hk Hy Exy. rewrite decide_True in Hnd by done. simpl in Hnd. apply NoDup_cons in Hnd as [Hn _].
    apply Hn. rewrite Exy. apply list_elem_of_fmap_2, list_elem_of_filter. split; [done|].
    by eapply list_elem_of_lookup_2. }
  destruct i as [|i], j as [|j]; simpl in *; simplify_eq; [done| | |].
  - destruct (Hno s j); done.
  - destruct (Hno r i); done.
  - f_equal. apply IH; try done. case_decide; [|done]. simpl in Hnd. by apply NoDup_cons in Hnd as [_ ?].
Qed.
End Numbered.

(** ** Selection *)

Lemma select_some {R} (p : R -> bool) t i r : select p t = Some (i, r) -> t !! i = Some r /\ p r = true.
Proof. intros H. apply list_find_Some in H as (? & ? & _). done. Qed.

Lemma select_none {R} (p : R -> bool) t : select p t = None <-> forall r, r ∈ t -> p r = false.
Proof.
  unfold select. rewrite list_find_None, Forall_forall. split; intros H r Hr; specialize (H r Hr).
  - by destruct (p r).
  - by rewrite H.
Qed.

(** The row found first is found again in a longer table. *)
Lemma select_prefix {R} (p : R -> bool) t u x : select p t = Some x -> select p (t ++ u) = Some x.
Proof. intros H. unfold select in *. destruct x. by apply list_find_app_l. Qed.

Lemma select_snoc {R} (p : R -> bool) t r : select p t = None -> p r = true -> select p (t ++ [r]) = Some (length t, r).
Proof.
  intros H Hr. apply list_find_Some. rewrite lookup_app_r by lia. rewrite Nat.sub_diag. repeat split; [done|].
  intros j y Hj Hlt. rewrite select_none in H. rewrite lookup_app_l in Hj by done.
  rewrite (H y); [done|]. by eapply list_elem_of_lookup_2.
Qed.

(** A change of rows that [p] does not see. *)
Lemma select_alter {R} (p : R -> bool) (g : R -> R) k t :
  (forall r, p (g r) = p r) ->
  select p (alter g k t) = (fun '(i, r) => (i, if decide (i = k) then g r else r)) <$> select p t.
Proof.
  intros Hg. revert k. induction t as [|r t IH]; intros k; [by destruct k|].
  unfold select in *. destruct k as [|k].
  - simpl. rewrite Hg. case_decide; simpl; [done|]. destruct (list_find _ t) as [[i y]|]; done.
  - change (alter g (S k) (r :: t)) with (r :: alter g k t). cbn [list_find].
    case_decide; simpl; [done|]. rewrite IH. destruct (list_find _ t) as [[i y]|]; simpl; [|done].
    do 2 case_decide; try lia; done.
Qed.

Lemma lookup_alter_inv {R} (g : R -> R) (k : nat) (t : list R) i x :
  alter g k t !! i = Some x -> exists y, t !! i = Some y /\ (x = y \/ x = g y).
Proof.
  rewrite list_lookup_alter. case_decide; [subst|eauto]. intros (y & Hy & ->)%fmap_Some. eauto.
Qed.

Lemma elem_of_alter {R} (g : R -> R) (k : nat) (t : list R) x : x ∈ alter g k t -> exists y, y ∈ t /\ (x = y \/ x = g y).
Proof.
  intros [i Hi]%list_elem_of_lookup_1. apply lookup_alter_inv in Hi as (y & Hy & ?). eauto using list_elem_of_lookup_2.
Qed.

(** A key that no two rows share. *)
Definition unique {R K} (key : R -> K) (t : list R) : Prop :=
  forall i j r s, t !! i = Some r -> t !! j = Some s -> key r = key s -> i = j.

Lemma unique_snoc {R K} (key : R -> K) t r : (forall s, s ∈ t -> key s <> key r) -> unique key t -> unique key (t ++ [r]).
Proof.
  intros Hr H i j x y [[_ Hi]|[-> <-]]%lookup_snoc_Some [[_ Hj]|[-> <-]]%lookup_snoc_Some E; [by eapply H| | |done].
  - exfalso. eapply Hr; [by eapply list_elem_of_lookup_2|done].
  - exfalso. eapply Hr; [by eapply list_elem_of_lookup_2|done].
Qed.

Lemma unique_alter {R K} (key : R -> K) g k t : (forall r, key (g r) = key r) -> unique key t -> unique key (alter g k t).
Proof.
  intros Hg H i j x y (x' & Hi & Hx)%lookup_alter_inv (y' & Hj & Hy)%lookup_alter_inv E.
  apply (H i j x' y' Hi Hj). destruct Hx as [->| ->], Hy as [->| ->]; rewrite ?Hg in E; done.
Qed.

(** ** Orders *)

#[global] Instance descending_trans {R} (f : R -> Z) : Transitive (descending f).
Proof. unfold descending. intros x y z. lia. Qed.

#[global] Instance descending_total {R} (f : R -> Z) : Total (descending f).
Proof. unfold descending. intros x y. lia. Qed.

Lemma seqZ_sorted {R} (f : R -> Z) l i :
  f <$> l = seqZ i (Z.of_nat (length l)) -> Sorted (flip (descending f)) l.
Proof.
  revert i. induction l as [|x l IH]; intros i H; [constructor|].
  rewrite seqZ_cons in H by (simpl; lia). simpl in H. injection H as Hx Hl.
  replace (Z.pred (Z.of_nat (S (length l)))) with (Z.of_nat (length l)) in Hl by lia.
  constructor; [by eapply IH|]. destruct l as [|y l]; constructor.
  rewrite seqZ_cons in Hl by (simpl; lia). simpl in Hl. injection Hl as Hy _. unfold flip, descending. lia.
Qed.

(** Sorting a numbered table newest first reverses it. *)
Lemma numbered_newest_first {R} (p : R -> bool) f t :
  numbered p f t -> merge_sort (descending f) (rows_of p t) = reverse (rows_of p t).
Proof.
  intros H. apply (StronglySorted_unique_strong (descending f)).
  - intros x y Hx Hy Hxy Hyx. rewrite merge_sort_Permutation, rows_of_elem in Hx.
    rewrite elem_of_reverse, rows_of_elem in Hy. destruct Hx as [Hx [i Hi]%list_elem_of_lookup_1], Hy as [Hy [j Hj]%list_elem_of_lookup_1].
    unfold descending in *. assert (i = j) by (eapply numbered_inj; eauto; lia). congruence.
  - apply StronglySorted_merge_sort; apply _.
  - apply Sorted_StronglySorted; [apply _|]. apply seqZ_sorted, Sorted_reverse in H. exact H.
  - rewrite merge_sort_Permutation. by rewrite reverse_Permutation.
Qed.

(** ** Runs *)

(** One committed transaction. *)
Inductive store_step (db db' : DB) : Prop :=
| step_org slug name id : CreateOrg slug name db = inr (id, db') -> store_step db db'
| step_set org slug name id : CreateSet org slug name db = inr (id, db') -> store_step db db'
| step_version set author comment canonical v :
    CreateVersion set author comment canonical db = inr (v, db') -> store_step db db'
| step_publish set req seq rev : Publish set req db = inr (seq, rev, db') -> store_step db db'
| step_token raw set name kind id value : CreateToken raw set name kind db = inr (id, value, db') -> store_step db db'
| step_revoke_token now set token : RevokeToken now set token db = inr db' -> store_step db db'
| step_key org keyID name key by_ id : AddSigningKey org keyID name key by_ db = inr (id, db') -> store_step db db'
| step_revoke_key now org key : RevokeSigningKey now org key db = inr db' -> store_step db db'
| step_touch now token ip : db' = TouchToken now token ip db -> store_step db db'
| step_pull now token nm : CountPull now token nm db = inr db' -> store_step db db'
| step_event e : RecordEvent e db = inr db' -> store_step db db'.

Definition store_run : DB -> DB -> Prop := rtc store_step.

#[global] Instance store_run_preorder : PreOrder store_run := _.

Definition served (db : DB) (set : nat) : option nat := p_version <$> last (rows_of (pub_of set) (publications db)).

(** What every store reached from the empty one satisfies. *)
Record db_ok (db : DB) : Prop := {
  ok_versions : forall set, numbered (of_set set) v_revision (versions db);
  ok_version_set : forall v, v ∈ versions db -> (v_set v < length (rule_sets db))%nat;
  ok_pubs : forall set, numbered (pub_of set) p_seq (publications db);
  ok_pub_version : forall p, p ∈ publications db -> exists v, versions db !! p_version p = Some v /\ v_set v = p_set p;
  ok_served : forall set s, rule_sets db !! set = Some s -> rs_published s = served db set;
  ok_set_org : forall s, s ∈ rule_sets db -> (rs_org s < length (orgs db))%nat;
  ok_token_set : forall t, t ∈ tokens db -> (t_set t < length (rule_sets db))%nat;
  ok_org_slug : unique o_slug (orgs db);
  ok_set_slug : unique (fun s => (rs_org s, rs_slug s)) (rule_sets db);
}.

Lemma empty_ok : db_ok emptyDB.
Proof. split; try (intros; set_solver); intros; done. Qed.

(** *** What each transaction does *)

Lemma CreateOrg_inv slug name db id db' :
  CreateOrg slug name db = inr (id, db') ->
  exists o, (forall x, x ∈ orgs db -> o_slug x <> o_slug o) /\ db' = set_orgs (orgs db ++ [o]) db.
Proof.
  unfold CreateOrg. intros H. repeat case_match; try discriminate; injection H as <- <-.
  all: eexists; split; [|reflexivity]; intros x Hx; simpl.
  all: match goal with E : select _ _ = None |- _ => rewrite select_none in E; specialize (E x Hx) end; by apply str_eqb_neq.
Qed.

Lemma CreateSet_inv org slug name db id db' :
  CreateSet org slug name db = inr (id, db') ->
  exists s, (org < length (orgs db))%nat /\ rs_org s = org /\ rs_published s = None /\ id = length (rule_sets db) /\
    (forall x, x ∈ rule_sets db -> (rs_org x, rs_slug x) <> (rs_org s, rs_slug s)) /\
    db' = set_sets (rule_sets db ++ [s]) db.
Proof.
  unfold CreateSet. intros H. repeat case_match; try discriminate; injection H as <- <-.
  all: eexists (Build_SetRow org slug _ None); (split; [by eapply lookup_lt_Some|]); split_and!; try done.
  all: intros x Hx [= E1 E2]; simpl in *.
  all: match goal with E : select _ _ = None |- _ => rewrite select_none in E; specialize (E x Hx) end.
  all: rewrite E1, E2, Nat.eqb_refl, str_eqb_refl in *; done.
Qed.

(** A version takes the next number, whatever the retries: the number is free. *)
Lemma createVersion_fresh set db :
  numbered (of_set set) v_revision (versions db) ->
  select (is_version set (select_max (of_set set) v_revision (versions db) + 1)) (versions db) = None.
Proof.
  intros H. apply select_none. intros v Hv. unfold is_version. destruct (of_set set v) eqn:E; [|done]. simpl.
  apply Z.eqb_neq. pose proof (numbered_range _ _ _ _ H E Hv). lia.
Qed.

(** A transaction that loses no race gives the same answer again. *)
Lemma retry_eq {A} n again (tx : DB -> store_result A) db : retry n again tx db = tx db.
Proof. induction n as [|n IH]; simpl; destruct (tx db) as [e|] eqn:E; try done. by destruct (again e). Qed.

Lemma CreateVersion_eq set author comment canonical db :
  db_ok db ->
  CreateVersion set author comment canonical db =
    match rule_sets db !! set with
    | None => inl ErrNotFound
    | Some _ =>
      let revision := Z.of_nat (length (rows_of (of_set set) (versions db))) + 1 in
      match canonical revision with
      | inl e => inl e
      | inr (content, etag) =>
        let v := {| v_set := set; v_revision := revision; v_content := content; v_etag := etag;
                    v_author := author; v_comment := comment |} in
        inr (v, set_versions (versions db ++ [v]) db)
      end
    end.
Proof.
  intros H. pose proof (ok_versions _ H set) as Hn.
  unfold CreateVersion. rewrite retry_eq. unfold createVersion.
  rewrite (createVersion_fresh set db Hn), (numbered_max _ _ _ Hn). done.
Qed.

(** A publication takes the next number of its set, or none. *)
Lemma publish_fresh set db :
  numbered (pub_of set) p_seq (publications db) ->
  select (fun p => pub_of set p && (p_seq p =? NextPublication set db)) (publications db) = None.
Proof.
  intros H. apply select_none. intros p Hp. destruct (pub_of set p) eqn:E; [|done]. simpl.
  apply Z.eqb_neq. pose proof (numbered_range _ _ _ _ H E Hp). unfold NextPublication. lia.
Qed.

Definition publication_of (set vid : nat) (req : PublishRequest) (db : DB) : PublicationRow :=
  {| p_set := set; p_seq := NextPublication set db; p_version := vid; p_author := pr_Author req;
     p_keyid := pr_KeyID req; p_signature := pr_Signature req |}.

Definition published_db (set vid : nat) (req : PublishRequest) (db : DB) : DB :=
  set_publications (alter (publish_row vid) set (rule_sets db)) (publications db ++ [publication_of set vid req db]) db.

Lemma Publish_eq set req db :
  db_ok db ->
  Publish set req db =
    match select (is_version set (pr_Revision req)) (versions db) with
    | None => inl ErrNotFound
    | Some (vid, v) =>
      if negb (pr_Seq req =? 0) && negb (pr_Seq req =? NextPublication set db) then inl ErrStale
      else
        match pr_Check req ≫= fun check => check (NextPublication set db) v with
        | Some e => inl e
        | None => inr (NextPublication set db, v_revision v, published_db set vid req db)
        end
    end.
Proof.
  intros H. unfold Publish. rewrite retry_eq. unfold publish.
  rewrite (publish_fresh set db (ok_pubs _ H set)). repeat case_match; done.
Qed.

(** *** The changes a transaction makes *)

Inductive effect (db : DB) : DB -> Prop :=
| eff_org o : (forall x, x ∈ orgs db -> o_slug x <> o_slug o) -> effect db (set_orgs (orgs db ++ [o]) db)
| eff_set s :
    (rs_org s < length (orgs db))%nat -> rs_published s = None ->
    (forall x, x ∈ rule_sets db -> (rs_org x, rs_slug x) <> (rs_org s, rs_slug s)) ->
    effect db (set_sets (rule_sets db ++ [s]) db)
| eff_version v :
    (v_set v < length (rule_sets db))%nat -> v_revision v = select_max (of_set (v_set v)) v_revision (versions db) + 1 ->
    effect db (set_versions (versions db ++ [v]) db)
| eff_publish set vid req v :
    versions db !! vid = Some v -> v_set v = set -> effect db (published_db set vid req db)
| eff_token t :
    (t_set t < length (rule_sets db))%nat -> select (fun u => str_eqb (t_hash u) (t_hash t)) (tokens db) = None ->
    effect db (set_tokens (tokens db ++ [t]) db)
| eff_revoke now token : effect db (set_tokens (alter (revoke_token now) token (tokens db)) db)
| eff_touch now ip token : effect db (set_tokens (alter (touch_token now ip) token (tokens db)) db)
| eff_key k : effect db (set_keys (signing_keys db ++ [k]) db)
| eff_revoke_key now key : effect db (set_keys (alter (revoke_key now) key (signing_keys db)) db)
| eff_pulls l : effect db (set_pulls l db)
| eff_events l : effect db (set_events l db).

Lemma CreateToken_inv raw set name kind db id value db' :
  CreateToken raw set name kind db = inr (id, value, db') ->
  exists t, (set < length (rule_sets db))%nat /\ t_set t = set /\ t_hash t = HashToken value /\ t_revoked t = None /\
    id = length (tokens db) /\ select (fun u => str_eqb (t_hash u) (t_hash t)) (tokens db) = None /\
    db' = set_tokens (tokens db ++ [t]) db.
Proof.
  unfold CreateToken. intros H. repeat case_match; try discriminate; injection H as <- <- <-.
  all: eexists (Build_TokenRow set name _ _ _ None None []); (split; [by eapply lookup_lt_Some|]); eauto 10.
Qed.

Lemma store_step_effect db db' : db_ok db -> store_step db db' -> effect db db'.
Proof.
  intros Hok [slug name id H|org slug name id H|set author comment canonical v H|set req seq rev H
             |raw set name kind id value H|now set token H|org keyID name key by_ id H|now org key H|now token ip H|now token nm H|e H].
  - apply CreateOrg_inv in H as (o & ? & ->). by constructor.
  - apply CreateSet_inv in H as (s & ? & <- & ? & ? & ? & ->). by constructor.
  - rewrite (CreateVersion_eq _ _ _ _ _ Hok) in H. cbv zeta in H. repeat case_match; try discriminate. injection H as <- <-.
    apply eff_version; simpl; [by eapply lookup_lt_Some|]. by rewrite (numbered_max _ _ _ (ok_versions _ Hok set)).
  - rewrite (Publish_eq _ _ _ Hok) in H. repeat case_match; try discriminate; injection H as <- <- <-.
    all: match goal with E : select _ _ = _ |- _ => apply select_some in E as [? E]; apply andb_prop in E as [E _]; apply Nat.eqb_eq in E end.
    all: eapply eff_publish; eassumption.
  - apply CreateToken_inv in H as (t & ? & <- & ? & ? & ? & ? & ->). by constructor.
  - unfold RevokeToken in H. repeat case_match; simplify_eq. constructor.
  - unfold AddSigningKey in H. repeat case_match; simplify_eq; constructor.
  - unfold RevokeSigningKey in H. repeat case_match; simplify_eq. constructor.
  - subst db'. constructor.
  - unfold CountPull in H. repeat case_match; simplify_eq; constructor.
  - unfold RecordEvent in H. repeat case_match; simplify_eq. constructor.
Qed.

Lemma touch_token_set now ip t : t_set (touch_token now ip t) = t_set t.
Proof. unfold touch_token. by repeat case_match. Qed.

Lemma touch_token_hash now ip t : t_hash (touch_token now ip t) = t_hash t.
Proof. unfold touch_token. by repeat case_match. Qed.

Lemma served_publish set vid req db s :
  served (published_db set vid req db) s = if decide (s = set) then Some vid else served db s.
Proof.
  unfold served. simpl. rewrite rows_of_app. unfold rows_of at 2. destruct (decide (s = set)) as [->|Hne].
  - rewrite filter_cons_True by apply Nat.eqb_refl. by rewrite filter_nil, last_snoc.
  - rewrite filter_cons_False by (unfold pub_of; simpl; rewrite Nat.eqb_eq; congruence).
    by rewrite filter_nil, app_nil_r.
Qed.

Lemma served_new db set : db_ok db -> (length (rule_sets db) <= set)%nat -> served db set = None.
Proof.
  intros Hok Hs. unfold served. destruct (last _) as [p|] eqn:E; [|done].
  apply last_Some_elem_of, rows_of_elem in E as [E Hp].
  apply (ok_pub_version _ Hok) in Hp as (v & Hv & Hset). apply list_elem_of_lookup_2 in Hv.
  apply (ok_version_set _ Hok) in Hv. apply Nat.eqb_eq in E. lia.
Qed.

(** Every transaction keeps the store well-formed. *)
Lemma effect_ok db db' : db_ok db -> effect db db' -> db_ok db'.
Proof.
  intros Hok He. pose proof Hok as [Hv Hvs Hp Hpv Hse Hso Ht Hos Hss].
  destruct He; split; simpl; try done.
  - intros s Hs. rewrite length_app. apply Hso in Hs. lia.
  - by apply unique_snoc.
  - intros v Hin. rewrite length_app. apply Hvs in Hin. lia.
  - intros set s' Hs. change (served (set_sets _ db) set) with (served db set).
    apply lookup_snoc_Some in Hs as [[_ Hs]|[-> <-]]; [by apply Hse|].
    rewrite served_new by (done || lia). done.
  - intros s' [Hs| ->%list_elem_of_singleton]%elem_of_app; [by apply Hso|lia].
  - intros t Hin. rewrite length_app. apply Ht in Hin. lia.
  - by apply unique_snoc.
  - intros set. destruct (of_set set v) eqn:E; [|by apply numbered_skip]. apply numbered_snoc; [|done].
    unfold of_set in E. apply Nat.eqb_eq in E as <-. done.
  - intros w [Hw| ->%list_elem_of_singleton]%elem_of_app; [by apply Hvs|lia].
  - intros p (w & Hw & E)%Hpv. exists w. split; [by apply lookup_app_l_Some|done].
  - intros w Hw. rewrite length_alter. by apply Hvs.
  - intros s. destruct (pub_of s (publication_of set vid req db)) eqn:E; [|by apply numbered_skip].
    apply numbered_snoc; [|done]. unfold pub_of in E. simpl in E. apply Nat.eqb_eq in E as <-. done.
  - intros p [Hin| ->%list_elem_of_singleton]%elem_of_app; [by apply Hpv|]. simpl. eauto.
  - intros s r Hs. rewrite served_publish. case_decide as E.
    + subst s. rewrite list_lookup_alter_eq in Hs. apply fmap_Some in Hs as (s0 & _ & ->). done.
    + rewrite list_lookup_alter_ne in Hs by done. by apply Hse.
  - intros s (y & Hy & [->| ->])%elem_of_alter; by apply Hso in Hy.
  - intros t Hin. rewrite length_alter. by apply Ht.
  - by apply unique_alter.
  - intros u [Hu| ->%list_elem_of_singleton]%elem_of_app; [by apply Ht|done].
  - intros u (y & Hy & [->| ->])%elem_of_alter; by apply Ht in Hy.
  - intros u (y & Hy & [->| ->])%elem_of_alter; [by apply Ht|]. rewrite touch_token_set. by apply Ht.
Qed.

Lemma store_run_ok db db' : db_ok db -> store_run db db' -> db_ok db'.
Proof. intros Hok H. induction H; [done|]. eauto using effect_ok, store_step_effect. Qed.

(** ** History *)

(** No transaction touches a version or a publication once it is written. *)
Lemma effect_grows db db' : effect db db' -> versions db `prefix_of` versions db' /\ publications db `prefix_of` publications db'.
Proof. intros []; simpl; split; by try apply prefix_app_r. Qed.

Lemma store_run_grows db db' :
  db_ok db -> store_run db db' -> versions db `prefix_of` versions db' /\ publications db `prefix_of` publications db'.
Proof.
  intros Hok H. induction H as [|x y z Hxy Hyz IH]; [done|].
  apply (store_step_effect _ _ Hok) in Hxy. pose proof (effect_grows _ _ Hxy) as [? ?].
  destruct (IH (effect_ok _ _ Hok Hxy)). split; by etrans.
Qed.

Lemma GetVersion_run set rev db db' v :
  db_ok db -> store_run db db' -> GetVersion set rev db = inr v -> GetVersion set rev db' = inr v.
Proof.
  intros Hok H. destruct (store_run_grows _ _ Hok H) as [[l Hl] _]. unfold GetVersion. rewrite Hl.
  destruct (select _ (versions db)) as [x|] eqn:E; [|done]. by rewrite (select_prefix _ _ _ _ E).
Qed.

Lemma ListVersions_eq set db : db_ok db -> ListVersions set db = reverse (rows_of (of_set set) (versions db)).
Proof. intros H. apply (numbered_newest_first _ _ _ (ok_versions _ H set)). Qed.

Lemma publication_columns_total db p : db_ok db -> p ∈ publications db -> exists q,
  publication_columns db p = Some q /\ pub_seq q = p_seq p.
Proof.
  intros H Hp. destruct (ok_pub_version _ H p Hp) as (v & Hv & _). unfold publication_columns. rewrite Hv. simpl. eauto.
Qed.

Lemma omap_columns db l :
  db_ok db -> (forall p, p ∈ l -> p ∈ publications db) ->
  pub_seq <$> omap (publication_columns db) l = p_seq <$> l /\
  head (omap (publication_columns db) l) = head l ≫= publication_columns db.
Proof.
  intros H. induction l as [|p l IH]; intros Hl; [done|].
  destruct (publication_columns_total db p H) as (q & Hq & Hs); [apply Hl; left|].
  destruct IH as [IH _]; [intros; apply Hl; by right|].
  unfold omap in *. cbn [list_omap]. rewrite Hq. rewrite !fmap_cons, Hs, IH. simpl. by rewrite Hq.
Qed.

Lemma Publications_rows set db :
  db_ok db ->
  pub_seq <$> Publications set db = reverse (p_seq <$> rows_of (pub_of set) (publications db)) /\
  head (Publications set db) = last (rows_of (pub_of set) (publications db)) ≫= publication_columns db.
Proof.
  intros H. unfold Publications. pose proof (numbered_newest_first _ _ _ (ok_pubs _ H set)) as E.
  unfold rows_of in E at 1. rewrite E.
  destruct (omap_columns db (reverse (rows_of (pub_of set) (publications db))) H) as [-> ->].
  { intros p Hp. by apply elem_of_reverse, rows_of_elem in Hp as [_ ?]. }
  by rewrite fmap_reverse, head_reverse.
Qed.

(** What a set serves is its last publication. *)
Lemma Published_served set db :
  db_ok db -> Published set db = or_error ErrNotPublished (served db set ≫= fun v => versions db !! v).
Proof.
  intros H. unfold Published. destruct (rule_sets db !! set) as [s|] eqn:E; simpl.
  - rewrite (ok_served _ H set s E). done.
  - rewrite served_new by (done || by apply lookup_ge_None). done.
Qed.

Lemma Published_latest set db :
  db_ok db ->
  match last (rows_of (pub_of set) (publications db)) with
  | None => Published set db = inl ErrNotPublished /\ LatestPublication set db = inl ErrNotPublished
  | Some p =>
    exists v, versions db !! p_version p = Some v /\ v_set v = set /\ Published set db = inr v /\
      LatestPublication set db =
        inr {| pub_seq := p_seq p; pub_revision := v_revision v; pub_author := p_author p;
               pub_keyid := p_keyid p; pub_signature := p_signature p |}
  end.
Proof.
  intros H. rewrite (Published_served _ _ H). unfold LatestPublication.
  destruct (Publications_rows set db H) as [_ ->]. unfold served.
  destruct (last _) as [p|] eqn:E; [|done]. apply last_Some_elem_of, rows_of_elem in E as [Ep Hp].
  destruct (ok_pub_version _ H p Hp) as (v & Hv & Hset). exists v. simpl. unfold publication_columns.
  rewrite Hv. repeat split. apply Nat.eqb_eq in Ep. congruence.
Qed.

Lemma last_seq set db p :
  db_ok db -> last (rows_of (pub_of set) (publications db)) = Some p -> p_seq p + 1 = NextPublication set db.
Proof.
  intros H E. pose proof (ok_pubs _ H set) as Hn. unfold NextPublication. rewrite (numbered_max _ _ _ Hn).
  apply (f_equal (fmap p_seq)) in E. rewrite <-fmap_last, Hn in E. simpl in E.
  destruct (rows_of (pub_of set) (publications db)) as [|x l]; [done|]. simpl length in *.
  rewrite last_lookup, length_seqZ in E. apply lookup_seqZ in E. simpl. lia.
Qed.

(** A publication of one set is not seen in another. *)
Lemma published_db_other set vid req db other :
  db_ok db -> other <> set ->
  Published other (published_db set vid req db) = Published other db /\
  Publications other (published_db set vid req db) = Publications other db.
Proof.
  intros H Hne. split.
  - unfold Published. simpl. by rewrite list_lookup_alter_ne.
  - unfold Publications. simpl. rewrite filter_app, (filter_cons_False (fun p => pub_of other p = true)), filter_nil, app_nil_r; [done|].
    unfold pub_of. simpl. rewrite Nat.eqb_eq. congruence.
Qed.

(** ** What stays *)

(** Organizations, sets, versions and keys keep their identity. *)
Record db_later (db db' : DB) : Prop := {
  later_orgs : orgs db `prefix_of` orgs db';
  later_sets : forall i s, rule_sets db !! i = Some s ->
    exists s', rule_sets db' !! i = Some s' /\ rs_org s' = rs_org s /\ rs_slug s' = rs_slug s;
  later_versions : versions db `prefix_of` versions db';
  later_keys : forall k, k ∈ signing_keys db ->
    exists k', k' ∈ signing_keys db' /\ k_org k' = k_org k /\ k_keyid k' = k_keyid k /\ k_public k' = k_public k;
}.

Lemma db_later_trans a b c : db_later a b -> db_later b c -> db_later a c.
Proof.
  intros [Ho Hs Hv Hk] [Ho' Hs' Hv' Hk']. split; [by etrans| |by etrans|].
  - intros i s (s1 & Hs1 & E1 & E2)%Hs. destruct (Hs' _ _ Hs1) as (s2 & ? & ? & ?). exists s2. split_and!; congruence.
  - intros k (k1 & Hk1 & E1 & E2 & E3)%Hk. destruct (Hk' _ Hk1) as (k2 & ? & ? & ? & ?). exists k2. split_and!; congruence.
Qed.

Lemma db_later_refl db : db_later db db.
Proof. split; eauto. Qed.

Lemma effect_later db db' : effect db db' -> db_later db db'.
Proof.
  intros He. destruct He; split; simpl; eauto; try by apply prefix_app_r.
  - intros i x Hx. exists x. split; [by apply lookup_app_l_Some|done].
  - intros i x Hx. rewrite list_lookup_alter. case_decide; [subst; rewrite Hx; simpl|]; eauto.
  - intros x Hx. exists x. split; [by apply elem_of_app; left|done].
  - intros x [i Hi]%list_elem_of_lookup_1. destruct (decide (i = key)) as [->|Hne].
    + exists (revoke_key now x). split; [|done]. apply list_elem_of_lookup_2 with key. by rewrite list_lookup_alter_eq, Hi.
    + exists x. split; [|done]. apply list_elem_of_lookup_2 with i. by rewrite list_lookup_alter_ne.
Qed.

(** ** Tokens *)

(** What may happen to a token: it keeps its row, and a revocation stays. *)
Definition token_later (t t' : TokenRow) : Prop :=
  t_set t' = t_set t /\ t_name t' = t_name t /\ t_kind t' = t_kind t /\ t_hash t' = t_hash t /\
  (forall r, t_revoked t = Some r -> t_revoked t' = Some r).

#[global] Instance token_later_preorder : PreOrder token_later.
Proof. split; [intros t; repeat split; eauto|]. intros t u v (?&?&?&?&?) (?&?&?&?&?). repeat split; eauto; congruence. Qed.

Lemma revoke_token_later now t : token_later t (revoke_token now t).
Proof. repeat split. simpl. by intros r ->. Qed.

Lemma touch_token_later now ip t : token_later t (touch_token now ip t).
Proof. unfold touch_token. repeat case_match; repeat split; eauto. Qed.

Definition by_hash (value : gostring) (t : TokenRow) : bool := str_eqb (t_hash t) (HashToken value).

Lemma effect_token db db' value i t :
  effect db db' -> select (by_hash value) (tokens db) = Some (i, t) ->
  exists t', select (by_hash value) (tokens db') = Some (i, t') /\ token_later t t'.
Proof.
  intros He Ht. destruct He; simpl; try by (exists t; split).
  - exists t. split; [by apply select_prefix|done].
  - rewrite select_alter by done. rewrite Ht. simpl. case_decide; eauto using revoke_token_later.
    exists t. split; done.
  - rewrite select_alter by (intros r; unfold by_hash; by rewrite touch_token_hash). rewrite Ht. simpl.
    case_decide; eauto using touch_token_later. exists t. split; done.
Qed.

Lemma store_run_token db db' value i t :
  db_ok db -> store_run db db' -> select (by_hash value) (tokens db) = Some (i, t) ->
  exists t', select (by_hash value) (tokens db') = Some (i, t') /\ token_later t t'.
Proof.
  intros Hok H. revert t. induction H as [|x y z Hxy Hyz IH]; intros t Ht; [by exists t|].
  apply (store_step_effect _ _ Hok) in Hxy. destruct (effect_token _ _ _ _ _ Hxy Ht) as (u & Hu & ?).
  destruct (IH (effect_ok _ _ Hok Hxy) u Hu) as (w & ? & ?). exists w. split; [done|by etrans].
Qed.

(** The answer to a known token value. *)
Lemma Authenticate_known db value i t :
  db_ok db -> select (by_hash value) (tokens db) = Some (i, t) ->
  match t_revoked t with
  | Some _ => Authenticate value db = inl ErrTokenRevoked
  | None => exists acc, Authenticate value db = inr acc /\ acc_id acc = i /\ acc_token acc = t /\ ID (acc_set acc) = t_set t
  end.
Proof.
  intros Hok Ht. unfold Authenticate. change (fun u => str_eqb (t_hash u) (HashToken value)) with (by_hash value).
  rewrite Ht. destruct (t_revoked t); [done|]. apply select_some in Ht as [Ht _]. apply list_elem_of_lookup_2 in Ht.
  destruct (lookup_lt_is_Some_2 _ _ (ok_token_set _ Hok _ Ht)) as [s Hs].
  destruct (lookup_lt_is_Some_2 _ _ (ok_set_org _ Hok s (list_elem_of_lookup_2 _ _ _ Hs))) as [o Ho].
  unfold GetSetByID. rewrite Hs. simpl. unfold GetOrgByID. rewrite Ho. simpl. eauto.
Qed.

Lemma CreateToken_known raw set name kind db id value db' :
  CreateToken raw set name kind db = inr (id, value, db') ->
  exists t, select (by_hash value) (tokens db') = Some (id, t) /\ t_set t = set /\ t_revoked t = None /\ t_name t = name.
Proof.
  unfold CreateToken. intros H. repeat case_match; try discriminate; injection H as <- <- <-.
  all: eexists; split; [apply select_snoc; [eassumption|apply str_eqb_refl]|done].
Qed.
