(* ===== verification/RulesServer.v ===== *)
(** * The rule server

    [rules/internal/policy]: the file of a revision; [rules/internal/server]: the pull of
    [policy.json] and of its signature under a token, and the management requests that
    change the store.  A handler is a function from the request, the moment and the store
    to the answer and the store.

    Parameters: the JSON decoder and encoder of a rule set, [ed25519.Verify], and what the
    token's rate limiter answers.  The caller of a management request (admin token, open
    server or session) is an argument, as [requireAccess] leaves it in the context. *)

From Stdlib Require Import ZArith Lia Bool.
From stdpp Require Import base list option sets fin_maps gmap relations.
From S2P Require Import Prelude GoStrings Sha256 Regex Config Tokens JsonString Engine Scanner ConfigSources.
From S2P Require Import Stats Base64 Signing RulesStore RulesStoreProofs.

(** ** The canonical file *)

(** A value of a rule set, as far as the server looks at it. *)
Inductive jvalue := JNull | JString (s : gostring) | JOther (raw : gostring).

(** [json.Decoder] with [UseNumber] on an object ([None] inside: the literal null; the flag is [dec.More()]),
    and [json.Marshal] of a map. *)
Class ObjectJSON := {
  DecodeObject : gostring -> option (option (gmap gostring jvalue) * bool);
  MarshalObject : gmap gostring jvalue -> gostring;
}.

Definition MaxBytes : Z := Z.shiftl 256 10.

(** [ETag]: a quoted hash of the bytes. *)
Definition ETag (b : gostring) : gostring := [34] ++ hex_encode (take 16 (sha256 b)) ++ [34].

(** A key that is set to something. *)
Definition carries (raw : gmap gostring jvalue) (k : gostring) : bool :=
  match raw !! k with
  | None | Some JNull => false
  | Some (JString s) => negb (is_empty s)
  | Some (JOther _) => true
  end.

Section canonical.
Context `{RegexpCompiler} `{Unicode} `{GoDecoders} `{ObjectJSON}.

(** [Canonical]: the file and its tag; any refusal is a validation error. *)
Definition Canonical (content : gostring) (revision : Z) : store_result (gostring * gostring) :=
  if MaxBytes <? Z.of_nat (length content) then inl ErrRefused
  else
    match DecodeObject content with
    | None | Some (_, true) | Some (None, _) => inl ErrRefused
    | Some (Some raw, false) =>
      if existsb (carries raw) [go "salt"; go "fail_policy"] then inl ErrRefused
      else
        let raw := <[go "revision" := JString (FormatInt revision)]> (delete (go "fail_policy") (delete (go "salt") raw)) in
        let out := MarshalObject raw in
        match ParsePolicyJSON out with
        | inl _ => inl ErrRefused
        | inr _ => inr (out, ETag out)
        end
    end.

End canonical.

(** ** Requests and answers *)

(** What the public handlers read of a request. *)
Record pullRequest := {
  path_org : gostring; path_set : gostring; authorization : gostring; if_none_match : gostring; client_ip : gostring;
}.

Inductive answer :=
| NoBody
| Message
| PolicyFile (etag : gostring) (revision : gostring) (content : gostring)
| PolicyUnchanged (etag : gostring) (revision : gostring)
| SignatureBody (sf : SignatureFile)
| StatementBody (st : Statement) (text : gostring)
| SetBody (s : RuleSet)
| VersionBody (v : VersionRow)
| TokenBody (id : nat) (value : gostring)
| Created (id : nat).

Record response := { status : Z; body : answer }.

Definition failure (code : Z) : response := {| status := code; body := Message |}.

(** [storeError]. *)
Definition store_failure (e : storeError) : response :=
  match e with
  | ErrNotFound => failure 404
  | ErrExists => failure 409
  | ErrInvalidSlug => failure 400
  | _ => failure 500
  end.

(** [bearer]. *)
Definition bearer (h : gostring) : option gostring :=
  if (length h <? 8)%nat || negb (EqualFold (take 7 h) (go "bearer ")) then None
  else let v := TrimSpace (drop 7 h) in if is_empty v then None else Some v.

(** [etagMatches]. *)
Definition etagMatches (header etag : gostring) : bool :=
  let header := TrimSpace header in
  if is_empty header then false
  else if str_eqb header (go "*") then true
  else existsb (fun candidate => str_eqb (TrimPrefix (TrimSpace candidate) (go "W/")) etag) (Split header (ch ",")).

(** ** Pulls *)

Section pulls.
Context (Allow : nat -> bool).

(** [tokenAccess]: the bearer token of the kind, of the set of the path. *)
Definition tokenAccess (kind : gostring) (r : pullRequest) (db : DB) : response + Access :=
  match bearer (authorization r) with
  | None => inl (failure 401)
  | Some value =>
    match Authenticate value db with
    | inl ErrNotFound | inl ErrTokenRevoked => inl (failure 401)
    | inl _ => inl (failure 500)
    | inr acc =>
      if negb (Allow (acc_id acc)) then inl (failure 429)
      else if negb (str_eqb (o_slug (acc_org acc)) (path_org r)) || negb (str_eqb (Slug (acc_set acc)) (path_set r))
      then inl (failure 404)
      else if negb (str_eqb (t_kind (acc_token acc)) kind) then inl (failure 403)
      else inr acc
    end
  end.

Definition pullAccess : pullRequest -> DB -> response + Access := tokenAccess KindPull.

(** [touch] and [countPull]: a failure only costs the record. *)
Definition touch (now : Z) (r : pullRequest) (acc : Access) (db : DB) : DB := TouchToken now (acc_id acc) (client_ip r) db.

Definition countPull (now : Z) (acc : Access) (notModified : bool) (db : DB) : DB :=
  match CountPull now (acc_id acc) notModified db with inl _ => db | inr db' => db' end.

(** [servePolicy]. *)
Definition servePolicy (now : Z) (r : pullRequest) (db : DB) : response * DB :=
  match pullAccess r db with
  | inl rsp => (rsp, db)
  | inr acc =>
    let db := touch now r acc db in
    match Published (ID (acc_set acc)) db with
    | inl ErrNotPublished => (failure 404, db)
    | inl _ => (failure 500, db)
    | inr v =>
      if etagMatches (if_none_match r) (v_etag v)
      then ({| status := 304; body := PolicyUnchanged (v_etag v) (FormatInt (v_revision v)) |}, countPull now acc true db)
      else ({| status := 200; body := PolicyFile (v_etag v) (FormatInt (v_revision v)) (v_content v) |}, countPull now acc false db)
    end
  end.

(** [serveSignature]. *)
Definition serveSignature (now : Z) (r : pullRequest) (db : DB) : response * DB :=
  match pullAccess r db with
  | inl rsp => (rsp, db)
  | inr acc =>
    let db := touch now r acc db in
    match LatestPublication (ID (acc_set acc)) db with
    | inl ErrNotPublished => (failure 404, db)
    | inl _ => (failure 500, db)
    | inr pub =>
      if is_empty (pub_signature pub) then (failure 404, db)
      else
        match Published (ID (acc_set acc)) db with
        | inl _ => (failure 500, db)
        | inr v =>
          let st := For (o_slug (acc_org acc) ++ go "/" ++ Slug (acc_set acc)) (pub_seq pub) (v_revision v) (v_content v) in
          ({| status := 200;
              body := SignatureBody {| sf_Set := st_Set st; sf_Publication := st_Publication st; sf_Revision := st_Revision st;
                                       sf_SHA256 := st_SHA256 st; sf_KeyID := pub_keyid pub;
                                       sf_Signature := pub_signature pub |} |}, db)
        end
    end
  end.

End pulls.

(** ** Management requests *)

(** [principal]: who a request runs as; [pr_user] is the account's address, [pr_org] its organization. *)
Record principal := { is_admin : bool; is_open : bool; pr_user : option gostring; pr_org : option nat }.

(** [actor] and [authorOf]. *)
Definition actor (p : principal) : gostring :=
  match pr_user p with
  | Some e => e
  | None =>
    if is_admin p then go "admin token"
    else if is_open p then go "single-tenant, no sign-in" else []
  end.

Definition authorOf (p : principal) (claimed : gostring) : gostring :=
  match pr_user p with Some (c :: e) => c :: e | _ => claimed end.

(** A management request: who, when, from where, and the path's organization and set. *)
Record apiRequest := { who : principal; at_ : Z; from : gostring; in_org : gostring; in_set : gostring }.

(** [audit]: a failure to record does not undo the change. *)
Definition audit (r : apiRequest) (org : nat) (action target : gostring) (det : list (gostring * detail)) (db : DB) : DB :=
  match RecordEvent {| ev_org := org; ev_at := at_ r; ev_actor := actor (who r); ev_action := action; ev_target := target;
                       ev_detail := det; ev_ip := from r |} db with
  | inl _ => db
  | inr db' => db'
  end.

(** [org]: a session sees its own organization only. *)
Definition org_of (r : apiRequest) (db : DB) : response + (nat * OrgRow) :=
  match GetOrg (in_org r) db with
  | inl e => inl (store_failure e)
  | inr (id, o) =>
    if match pr_org (who r) with Some own => negb (Nat.eqb own id) | None => false end then inl (failure 404)
    else inr (id, o)
  end.

(** [set]. *)
Definition set_of (r : apiRequest) (db : DB) : response + RuleSet :=
  match org_of r db with
  | inl rsp => inl rsp
  | inr (org, _) => match GetSet org (in_set r) db with inl e => inl (store_failure e) | inr s => inr s end
  end.

(** [createOrg]. *)
Definition createOrg (r : apiRequest) (slug name : gostring) (db : DB) : response * DB :=
  match pr_user (who r) with
  | Some _ => (failure 403, db)
  | None =>
    match CreateOrg slug name db with
    | inl e => (store_failure e, db)
    | inr (id, db') =>
      ({| status := 201; body := Created id |},
       audit r id (go "org.create") slug [(go "name", DText (if is_empty name then slug else name))] db')
    end
  end.

(** [createSet]. *)
Definition createSet (r : apiRequest) (slug name : gostring) (db : DB) : response * DB :=
  match org_of r db with
  | inl rsp => (rsp, db)
  | inr (org, _) =>
    match CreateSet org slug name db with
    | inl e => (store_failure e, db)
    | inr (id, db') => ({| status := 201; body := Created id |}, audit r org (go "set.create") slug [] db')
    end
  end.

(** [createToken]; [raw] are the random bytes of the token. *)
Definition createToken (r : apiRequest) (raw name kind : gostring) (db : DB) : response * DB :=
  match set_of r db with
  | inl rsp => (rsp, db)
  | inr s =>
    if is_empty name then (failure 400, db)
    else
      match CreateToken raw (ID s) name kind db with
      | inl ErrInvalidKind => (failure 400, db)
      | inl e => (store_failure e, db)
      | inr (id, value, db') =>
        ({| status := 201; body := TokenBody id value |},
         match tokens db' !! id with
         | Some t =>
           audit r (OrgID s) (go "token.create") (Slug s)
             [(go "name", DText (t_name t)); (go "prefix", DText (t_prefix t)); (go "kind", DText (t_kind t))] db'
         | None => db'
         end)
      end
  end.

(** [revokeToken]; [None]: the id of the path is not a number. *)
Definition revokeToken (r : apiRequest) (id : option nat) (db : DB) : response * DB :=
  match set_of r db, id with
  | inl rsp, _ => (rsp, db)
  | inr _, None => (failure 400, db)
  | inr s, Some id =>
    match RevokeToken (at_ r) (ID s) id db with
    | inl e => (store_failure e, db)
    | inr db' =>
      ({| status := 204; body := NoBody |},
       audit r (OrgID s) (go "token.revoke") (Slug s) [(go "tokenId", DInt (Z.of_nat id))] db')
    end
  end.

(** [addSigningKey]. *)
Definition addSigningKey (r : apiRequest) (name publicKey : gostring) (db : DB) : response * DB :=
  match org_of r db with
  | inl rsp => (rsp, db)
  | inr (org, _) =>
    if is_empty name then (failure 400, db)
    else
      match ParsePublicKey publicKey with
      | None => (failure 400, db)
      | Some pk =>
        match AddSigningKey org (SigningKeyID pk) name (FormatPublicKey pk) (authorOf (who r) []) db with
        | inl e => (store_failure e, db)
        | inr (id, db') =>
          ({| status := 201; body := Created id |},
           audit r org (go "key.add") (SigningKeyID pk) [(go "name", DText name)] db')
        end
      end
  end.

(** [revokeSigningKey]. *)
Definition revokeSigningKey (r : apiRequest) (id : option nat) (db : DB) : response * DB :=
  match org_of r db, id with
  | inl rsp, _ => (rsp, db)
  | inr _, None => (failure 400, db)
  | inr (org, _), Some id =>
    match RevokeSigningKey (at_ r) org id db with
    | inl e => (store_failure e, db)
    | inr db' =>
      ({| status := 204; body := NoBody |},
       audit r org (go "key.revoke") [] [(go "keyRowId", DInt (Z.of_nat id))] db')
    end
  end.

Section versions.
Context `{RegexpCompiler} `{Unicode} `{GoDecoders} `{ObjectJSON}.

(** [createVersion]. *)
Definition serveCreateVersion (r : apiRequest) (content author comment : gostring) (db : DB) : response * DB :=
  match set_of r db with
  | inl rsp => (rsp, db)
  | inr s =>
    if is_empty content then (failure 400, db)
    else
      match CreateVersion (ID s) (authorOf (who r) author) comment (Canonical content) db with
      | inl ErrRefused => (failure 422, db)
      | inl e => (store_failure e, db)
      | inr (v, db') =>
        ({| status := 201; body := VersionBody v |},
         audit r (OrgID s) (go "version.create") (Slug s)
           [(go "revision", DInt (v_revision v)); (go "etag", DText (v_etag v)); (go "comment", DText (v_comment v))] db')
      end
  end.

End versions.

(** The body of a publish request. *)
Record publishRequest := {
  pq_Revision : Z; pq_Author : gostring; pq_Publication : Z; pq_KeyID : gostring; pq_Signature : gostring;
}.

Section publish.
Context `{Ed25519}.

(** [signed] of the handler. *)
Definition is_signed (q : publishRequest) : bool := negb (is_empty (pq_Signature q)) || negb (is_empty (pq_KeyID q)).

(** The key the publication must verify with ([inr None]: unsigned, and the organization has no active key), or the answer
    and what is audited. *)
Definition publish_key (r : apiRequest) (s : RuleSet) (q : publishRequest) (db : DB) : (response * DB) + option gostring :=
  if is_signed q then
    match ActiveSigningKey (OrgID s) (pq_KeyID q) db with
    | inl ErrNotFound =>
      inl (failure 422, audit r (OrgID s) (go "publish.refused") (Slug s)
             [(go "revision", DInt (pq_Revision q)); (go "keyId", DText (pq_KeyID q));
              (go "reason", DText (go "no such active key"))] db)
    | inl _ => inl (failure 500, db)
    | inr k => match ParsePublicKey (k_public k) with None => inl (failure 500, db) | Some pk => inr (Some pk) end
    end
  else if HasSigningKeys (OrgID s) db then
    inl (failure 422, audit r (OrgID s) (go "publish.refused") (Slug s)
           [(go "revision", DInt (pq_Revision q)); (go "reason", DText (go "unsigned"))] db)
  else inr None.

(** The closure [Check]. *)
Definition publish_check (key : option gostring) (setPath : gostring) (q : publishRequest) (seq : Z) (v : VersionRow) :
    option storeError :=
  match key with
  | None => None
  | Some pk =>
    if VerifyStatement pk (For setPath seq (v_revision v) (v_content v)) (pq_Signature q) then None else Some ErrBadSignature
  end.

(** [publish]. *)
Definition servePublish (r : apiRequest) (q : publishRequest) (db : DB) : response * DB :=
  match set_of r db with
  | inl rsp => (rsp, db)
  | inr s =>
    if pq_Revision q <=? 0 then (failure 400, db)
    else if is_signed q && (is_empty (pq_Signature q) || is_empty (pq_KeyID q) || (pq_Publication q <=? 0)) then (failure 400, db)
    else
      match publish_key r s q db with
      | inl out => out
      | inr key =>
        let setPath := in_org r ++ go "/" ++ Slug s in
        match Publish (ID s)
                {| pr_Revision := pq_Revision q; pr_Author := authorOf (who r) (pq_Author q); pr_Seq := pq_Publication q;
                   pr_KeyID := pq_KeyID q; pr_Signature := pq_Signature q;
                   pr_Check := Some (publish_check key setPath q) |} db with
        | inl ErrBadSignature =>
          (failure 422, audit r (OrgID s) (go "publish.refused") (Slug s)
             [(go "revision", DInt (pq_Revision q)); (go "keyId", DText (pq_KeyID q)); (go "reason", DText (go "bad signature"))] db)
        | inl ErrStale => (failure 409, db)
        | inl e => (store_failure e, db)
        | inr (seq, revision, db') =>
          let db' := audit r (OrgID s) (go "publish") (Slug s)
            ([(go "revision", DInt revision); (go "publication", DInt seq)] ++
             (if is_empty (pq_KeyID q) then [] else [(go "keyId", DText (pq_KeyID q))])) db' in
          match GetSetByID (ID s) db' with
          | inr s' => ({| status := 200; body := SetBody s' |}, db')
          | inl _ => ({| status := 200; body := NoBody |}, db')
          end
        end
      end
  end.

(** [statement]; the revision of the query, [None] when it is not a number. *)
Definition serveStatement (r : apiRequest) (revision : option Z) (db : DB) : response :=
  match set_of r db with
  | inl rsp => rsp
  | inr s =>
    match revision with
    | None => failure 400
    | Some rev =>
      if rev <=? 0 then failure 400
      else
        match GetVersion (ID s) rev db with
        | inl e => store_failure e
        | inr v =>
          let st := For (in_org r ++ go "/" ++ Slug s) (NextPublication (ID s) db) (v_revision v) (v_content v) in
          {| status := 200; body := StatementBody st (Text st) |}
        end
    end
  end.

End publish.

(** ** What the rule server serves

    Every request is a run of the store; the files it keeps are files a sidecar accepts,
    and the signatures it keeps verify for the file, the set and the number they are served
    with. *)

(** ** Lookups *)

Lemma GetOrg_inv slug db id o : GetOrg slug db = inr (id, o) -> orgs db !! id = Some o /\ o_slug o = slug.
Proof.
  unfold GetOrg. destruct (select _ _) as [[i x]|] eqn:E; [|done]. simpl. intros [= <- <-].
  apply select_some in E as [E H]. by apply str_eqb_eq in H.
Qed.

Lemma GetSet_inv org slug db s :
  GetSet org slug db = inr s ->
  exists row, rule_sets db !! ID s = Some row /\ rs_org row = org /\ rs_slug row = slug /\ OrgID s = org /\ Slug s = slug.
Proof.
  unfold GetSet. destruct (select _ _) as [[i x]|] eqn:E; [|done]. simpl. intros [= <-].
  apply select_some in E as [E H]. apply andb_true_iff in H as [Ho Hs]. apply Nat.eqb_eq in Ho. apply str_eqb_eq in Hs.
  exists x. by subst.
Qed.

Lemma set_of_inv r db s :
  set_of r db = inr s ->
  exists o row, orgs db !! OrgID s = Some o /\ o_slug o = in_org r /\ rule_sets db !! ID s = Some row /\
    rs_org row = OrgID s /\ rs_slug row = Slug s /\ Slug s = in_set r.
Proof.
  unfold set_of, org_of. destruct (GetOrg _ _) as [|[id o]] eqn:Eo; [done|]. apply GetOrg_inv in Eo as [Ho Hs].
  match goal with |- context [if ?b then _ else _] => destruct b end; [done|].
  destruct (GetSet id _ _) as [|rs] eqn:Es; [done|]. intros [= <-].
  apply GetSet_inv in Es as (row & ? & ? & ? & ? & ?). exists o, row. split_and!; congruence.
Qed.

Lemma Authenticate_inv value db acc :
  Authenticate value db = inr acc ->
  select (by_hash value) (tokens db) = Some (acc_id acc, acc_token acc) /\ t_revoked (acc_token acc) = None /\
  exists row, rule_sets db !! ID (acc_set acc) = Some row /\ t_set (acc_token acc) = ID (acc_set acc) /\
    rs_slug row = Slug (acc_set acc) /\ orgs db !! rs_org row = Some (acc_org acc).
Proof.
  unfold Authenticate. change (fun t => str_eqb (t_hash t) (HashToken value)) with (by_hash value).
  destruct (select _ _) as [[i t]|]; [|done]. destruct (t_revoked t) eqn:Er; [done|].
  unfold GetSetByID. destruct (rule_sets db !! t_set t) as [row|] eqn:Es; [|done]. simpl.
  unfold GetOrgByID. destruct (orgs db !! rs_org row) as [o|] eqn:Eo; [|done]. simpl. intros [= <-]. simpl. eauto 10.
Qed.

(** A granted pull names the set of the path. *)
Lemma pullAccess_inv Allow r db acc :
  pullAccess Allow r db = inr acc ->
  exists value row, bearer (authorization r) = Some value /\
    select (by_hash value) (tokens db) = Some (acc_id acc, acc_token acc) /\
    t_revoked (acc_token acc) = None /\ t_kind (acc_token acc) = KindPull /\ t_set (acc_token acc) = ID (acc_set acc) /\
    rule_sets db !! ID (acc_set acc) = Some row /\ orgs db !! rs_org row = Some (acc_org acc) /\
    rs_slug row = path_set r /\ Slug (acc_set acc) = path_set r /\ o_slug (acc_org acc) = path_org r.
Proof.
  unfold pullAccess, tokenAccess. destruct (bearer _) as [value|]; [|done].
  destruct (Authenticate value db) as [[]|a] eqn:E; try done.
  apply Authenticate_inv in E as (Hsel & Hrev & row & Hrow & Hset & Hslug & Horg).
  case_match; [done|]. destruct (str_eqb (o_slug (acc_org a)) (path_org r)) eqn:Ho; [|done].
  destruct (str_eqb (Slug (acc_set a)) (path_set r)) eqn:Hs; [|done]. simpl.
  destruct (str_eqb (t_kind (acc_token a)) KindPull) eqn:Hk; [|done]. intros [= <-].
  apply str_eqb_eq in Ho, Hs, Hk. exists value, row. split_and!; congruence.
Qed.

(** ** Requests are runs *)

Lemma audit_run r org action target det db : store_run db (audit r org action target det db).
Proof.
  unfold audit. destruct (RecordEvent _ db) eqn:E; [constructor|]. eapply rtc_once, step_event, E.
Qed.

Lemma audit_run_after r org action target det db db' :
  store_step db db' -> store_run db (audit r org action target det db').
Proof. intros H. eapply rtc_l; [exact H|apply audit_run]. Qed.

Lemma store_run_refl db : store_run db db.
Proof. constructor. Qed.

Lemma store_run_once db db' : store_step db db' -> store_run db db'.
Proof. apply rtc_once. Qed.

Create HintDb server.
#[local] Hint Resolve audit_run audit_run_after store_run_refl store_run_once : server.
#[local] Hint Constructors store_step : server.

Lemma touch_run now r acc db : store_run db (touch now r acc db).
Proof. eapply rtc_once, step_touch. reflexivity. Qed.

Lemma countPull_run now acc nm db : store_run db (countPull now acc nm db).
Proof. unfold countPull. destruct (CountPull _ _ _ _) eqn:E; [constructor|]. eapply rtc_once, step_pull, E. Qed.

(** *** Files and publications *)

Definition core (db : DB) : list VersionRow * list PublicationRow := (versions db, publications db).

(** A request that wrote nothing but at most one event to the audit log. *)
Definition logged (db db' : DB) : Prop := db' = db \/ exists e, db' = set_events (audit_events db ++ [e]) db.

Lemma logged_core db db' : logged db db' -> core db' = core db.
Proof. by intros [->|[e ->]]. Qed.

Lemma audit_logged r org action target det db : logged db (audit r org action target det db).
Proof. unfold audit, RecordEvent. destruct (orgs db !! _); [right; by eexists|by left]. Qed.

Lemma audit_core r org action target det db : core (audit r org action target det db) = core db.
Proof. unfold audit, RecordEvent. by repeat case_match; simplify_eq. Qed.

Lemma countPull_core now acc nm db : core (countPull now acc nm db) = core db.
Proof. unfold countPull, CountPull. by repeat case_match; simplify_eq. Qed.

Lemma CreateOrg_core slug name db id db' : CreateOrg slug name db = inr (id, db') -> core db' = core db.
Proof. by intros (? & _ & ->)%CreateOrg_inv. Qed.

Lemma CreateSet_core org slug name db id db' : CreateSet org slug name db = inr (id, db') -> core db' = core db.
Proof. by intros (? & _ & _ & _ & _ & _ & ->)%CreateSet_inv. Qed.

Lemma CreateToken_core raw set name kind db id value db' : CreateToken raw set name kind db = inr (id, value, db') -> core db' = core db.
Proof. by intros (? & _ & _ & _ & _ & _ & _ & ->)%CreateToken_inv. Qed.

Lemma RevokeToken_core now set token db db' : RevokeToken now set token db = inr db' -> core db' = core db.
Proof. unfold RevokeToken. intros E. by repeat case_match; simplify_eq. Qed.

Lemma AddSigningKey_core org keyID name key by_ db id db' : AddSigningKey org keyID name key by_ db = inr (id, db') -> core db' = core db.
Proof. unfold AddSigningKey. intros E. by repeat case_match; simplify_eq. Qed.

Lemma RevokeSigningKey_core now org key db db' : RevokeSigningKey now org key db = inr db' -> core db' = core db.
Proof. unfold RevokeSigningKey. intros E. by repeat case_match; simplify_eq. Qed.

#[local] Hint Resolve CreateOrg_core CreateSet_core CreateToken_core RevokeToken_core AddSigningKey_core RevokeSigningKey_core
  audit_core countPull_core : server.

Section requests.
Context `{RegexpCompiler} `{Unicode} `{GoDecoders} `{ObjectJSON} `{Ed25519}.

(** One request, and the store it leaves. *)
Inductive request (db : DB) : DB -> Prop :=
| rq_policy Allow now r : request db (snd (servePolicy Allow now r db))
| rq_signature Allow now r : request db (snd (serveSignature Allow now r db))
| rq_createOrg r slug name : request db (snd (createOrg r slug name db))
| rq_createSet r slug name : request db (snd (createSet r slug name db))
| rq_createVersion r content author comment : request db (snd (serveCreateVersion r content author comment db))
| rq_publish r q : request db (snd (servePublish r q db))
| rq_createToken r raw name kind : request db (snd (createToken r raw name kind db))
| rq_revokeToken r id : request db (snd (revokeToken r id db))
| rq_addKey r name publicKey : request db (snd (addSigningKey r name publicKey db))
| rq_revokeKey r id : request db (snd (revokeSigningKey r id db)).

Definition server_run : DB -> DB -> Prop := rtc request.

Lemma publish_key_run r s q db rsp db' : publish_key r s q db = inl (rsp, db') -> store_run db db'.
Proof. unfold publish_key. intros E. repeat case_match; simplify_eq; auto with server. Qed.

Lemma request_run db db' : request db db' -> store_run db db'.
Proof.
  intros []; unfold servePolicy, serveSignature, createOrg, createSet, serveCreateVersion, servePublish, createToken,
    revokeToken, addSigningKey, revokeSigningKey.
  - destruct (pullAccess _ _ _) as [|acc]; [constructor|]. cbv zeta. etrans; [apply touch_run|].
    repeat case_match; simpl; eauto using countPull_run with server.
  - destruct (pullAccess _ _ _) as [|acc]; [constructor|]. cbv zeta. etrans; [apply touch_run|].
    repeat case_match; constructor.
  - repeat case_match; simpl; eauto with server.
  - repeat case_match; simpl; eauto with server.
  - repeat case_match; simpl; eauto with server.
  - destruct (set_of r db) as [|s]; [constructor|]. do 2 (case_match; [constructor|]).
    destruct (publish_key r s q db) as [[rsp db0]|key] eqn:Ek; [by eapply publish_key_run|]. cbv zeta.
    destruct (Publish _ _ _) as [e|[[seq rev] db1]] eqn:Ep; [by destruct e; simpl; auto with server|].
    apply step_publish in Ep. case_match; simpl; by apply audit_run_after.
  - repeat case_match; simpl; eauto with server.
  - repeat case_match; simpl; eauto with server.
  - repeat case_match; simpl; eauto with server.
  - repeat case_match; simpl; eauto with server.
Qed.

Lemma server_run_store db db' : server_run db db' -> store_run db db'.
Proof. induction 1; [constructor|]. etrans; [by apply request_run|done]. Qed.

(** What a request adds to the files and the publications. *)
Inductive core_step (db : DB) : list VersionRow * list PublicationRow -> Prop :=
| core_same : core_step db (core db)
| core_version v content revision :
    Canonical content revision = inr (v_content v, v_etag v) -> core_step db (versions db ++ [v], publications db)
| core_publish r q s vid v key :
    set_of r db = inr s -> publish_key r s q db = inr key -> select (is_version (ID s) (pq_Revision q)) (versions db) = Some (vid, v) ->
    publish_check key (in_org r ++ go "/" ++ Slug s) q (NextPublication (ID s) db) v = None ->
    core_step db (versions db, publications db ++
      [{| p_set := ID s; p_seq := NextPublication (ID s) db; p_version := vid; p_author := authorOf (who r) (pq_Author q);
          p_keyid := pq_KeyID q; p_signature := pq_Signature q |}]).

Lemma core_step_eq db c : c = core db -> core_step db c.
Proof. intros ->. constructor. Qed.

(** A request that only writes other tables. *)
Ltac other_tables :=
  repeat case_match; simpl; apply core_step_eq;
  repeat first [ reflexivity | by eauto 2 with server | rewrite audit_core | rewrite countPull_core ].

Lemma publish_key_refused r s q db out :
  publish_key r s q db = inl out -> status (fst out) <> 200 /\ logged db (snd out).
Proof. unfold publish_key. intros E. repeat case_match; simplify_eq; (split; [done|]); simpl; auto using audit_logged; by left. Qed.

(** The row a publish request writes. *)
Definition publication_row (r : apiRequest) (q : publishRequest) (s : RuleSet) (vid : nat) (db : DB) : PublicationRow :=
  {| p_set := ID s; p_seq := NextPublication (ID s) db; p_version := vid; p_author := authorOf (who r) (pq_Author q);
     p_keyid := pq_KeyID q; p_signature := pq_Signature q |}.

Lemma store_failure_status e : status (store_failure e) <> 200.
Proof. by destruct e. Qed.

(** A publish request is refused, and leaves at most an event, or it adds one publication
    and has its set serve the version. *)
Lemma servePublish_cases r q db :
  db_ok db ->
  (status (fst (servePublish r q db)) <> 200 \/ exists rsp, set_of r db = inl rsp) /\ logged db (snd (servePublish r q db)) \/
  exists s vid v key, set_of r db = inr s /\ publish_key r s q db = inr key /\
    select (is_version (ID s) (pq_Revision q)) (versions db) = Some (vid, v) /\
    publish_check key (in_org r ++ go "/" ++ Slug s) q (NextPublication (ID s) db) v = None /\
    logged (set_publications (alter (publish_row vid) (ID s) (rule_sets db)) (publications db ++ [publication_row r q s vid db]) db)
      (snd (servePublish r q db)) /\
    status (fst (servePublish r q db)) = 200.
Proof.
  intros Hok. unfold servePublish. destruct (set_of r db) as [rsp|s] eqn:Es.
  { left. split; [right; by eexists|by left]. }
  do 2 (case_match; [left; split; [by left|by left]|]).
  destruct (publish_key r s q db) as [[rsp db1]|key] eqn:Ek.
  { left. apply publish_key_refused in Ek as [? ?]. split; [by left|done]. }
  cbv zeta. rewrite (Publish_eq _ _ _ Hok). cbn [pr_Revision pr_Seq pr_Check].
  destruct (select _ (versions db)) as [[vid v]|] eqn:Ev; [|left; split; [left; apply store_failure_status|by left]].
  destruct (negb (pq_Publication q =? 0) && _); [left; split; [by left|by left]|]. cbn [mbind option_bind].
  destruct (publish_check _ _ _ _ v) as [e|] eqn:Ec.
  - left. destruct e; (split; [left; simpl; done|]); simpl; auto using audit_logged; by left.
  - right. exists s, vid, v, key. case_match; cbn [fst snd]; (split_and!; [done..|apply audit_logged|done]).
Qed.

Lemma servePublish_core r q db : db_ok db -> core_step db (core (snd (servePublish r q db))).
Proof.
  intros Hok. destruct (servePublish_cases r q db Hok) as [[_ ->%logged_core]|(s & vid & v & key & Es & Ek & Ev & Ec & ->%logged_core & _)]; [constructor|].
  exact (core_publish db r q s vid v key Es Ek Ev Ec).
Qed.

Lemma request_core db db' : db_ok db -> request db db' -> core_step db (core db').
Proof.
  intros Hok []; [| | | | |by apply servePublish_core| | | |];
    unfold servePolicy, serveSignature, createOrg, createSet, serveCreateVersion, createToken, revokeToken, addSigningKey,
      revokeSigningKey; try solve [other_tables].
  destruct (set_of r db) as [|s]; [constructor|]. case_match; [constructor|].
  destruct (CreateVersion _ _ _ _ _) as [e|[v d]] eqn:Ev; [by destruct e; constructor|]. simpl. rewrite audit_core.
  rewrite (CreateVersion_eq _ _ _ _ _ Hok) in Ev. cbv zeta in Ev. repeat case_match; simplify_eq.
  unfold core. simpl. eapply core_version. simpl. eassumption.
Qed.

(** ** The files a cluster receives *)

(** Every file is one a sidecar accepts, under its hash. *)
Definition files_ok (db : DB) : Prop :=
  forall v, v ∈ versions db -> v_etag v = ETag (v_content v) /\ exists cfg, ParsePolicyJSON (v_content v) = inr cfg.

Lemma Canonical_inv content revision out etag :
  Canonical content revision = inr (out, etag) ->
  etag = ETag out /\ (exists cfg, ParsePolicyJSON out = inr cfg) /\
  exists raw, out = MarshalObject raw /\ raw !! go "salt" = None /\ raw !! go "fail_policy" = None /\
    raw !! go "revision" = Some (JString (FormatInt revision)).
Proof.
  unfold Canonical. intros E. case_match; [done|]. destruct (DecodeObject content) as [[[raw|] []]|]; try done.
  case_match; [done|]. cbv zeta in E. destruct (ParsePolicyJSON _) as [|cfg] eqn:Ep; [done|]. injection E as <- <-.
  split_and!; [done|by eexists|]. eexists. split; [reflexivity|].
  rewrite !lookup_insert_ne, lookup_insert_eq by done. split_and!; [|by rewrite lookup_delete_eq|done].
  by rewrite lookup_delete_ne, lookup_delete_eq by done.
Qed.

Lemma core_step_files db db' : files_ok db -> core_step db (core db') -> files_ok db'.
Proof.
  intros Hf Hc v. change (versions db') with (fst (core db')). destruct Hc as [|w content rev Hw|]; simpl; [auto| |auto].
  intros [Hv| ->%list_elem_of_singleton]%elem_of_app; [by apply Hf|]. by apply Canonical_inv in Hw as (? & ? & _).
Qed.

(** ** The signatures a cluster receives *)

(** A publication's signature is by a key registered with the organization, over the statement the set serves. *)
Definition signature_ok (db : DB) (p : PublicationRow) : Prop :=
  exists s o v k pk,
    rule_sets db !! p_set p = Some s /\ orgs db !! rs_org s = Some o /\ versions db !! p_version p = Some v /\
    k ∈ signing_keys db /\ k_org k = rs_org s /\ k_keyid k = p_keyid p /\ ParsePublicKey (k_public k) = Some pk /\
    VerifyStatement pk (For (o_slug o ++ go "/" ++ rs_slug s) (p_seq p) (v_revision v) (v_content v)) (p_signature p) = true.

Definition signed_ok (db : DB) : Prop := forall p, p ∈ publications db -> p_signature p <> [] -> signature_ok db p.

Lemma signature_ok_later db db' p : db_later db db' -> signature_ok db p -> signature_ok db' p.
Proof.
  intros [Ho Hs Hv Hk] (s & o & v & k & pk & Es & Eo & Ev & Ek & Ekorg & Ekid & Epk & Hver).
  destruct (Hs _ _ Es) as (s' & Es' & Eorg & Eslug). destruct (Hk _ Ek) as (k' & Ek' & E1 & E2 & E3).
  exists s', o, v, k', pk. rewrite Eorg, Eslug, E1, E2, E3. split_and!; try done; by eapply prefix_lookup_Some.
Qed.

Lemma ActiveSigningKey_inv org keyID db k :
  ActiveSigningKey org keyID db = inr k -> k ∈ signing_keys db /\ k_org k = org /\ k_keyid k = keyID /\ k_revoked k = None.
Proof.
  unfold ActiveSigningKey. destruct (select _ _) as [[i x]|] eqn:E; [|done]. simpl. intros [= <-].
  apply select_some in E as [E H']. apply list_elem_of_lookup_2 in E. unfold active_key in H'.
  apply andb_true_iff in H' as [H' Hid]. apply andb_true_iff in H' as [Ho Hr]. apply Nat.eqb_eq in Ho.
  apply str_eqb_eq in Hid. by destruct (k_revoked x).
Qed.

(** A key is demanded of a signed request, and of any request once the organization has one. *)
Lemma publish_key_inv r s q db key :
  publish_key r s q db = inr key ->
  match key with
  | Some pk => exists k, ActiveSigningKey (OrgID s) (pq_KeyID q) db = inr k /\ ParsePublicKey (k_public k) = Some pk
  | None => is_signed q = false /\ HasSigningKeys (OrgID s) db = false
  end.
Proof. unfold publish_key. intros E. repeat case_match; simplify_eq; eauto. Qed.

Lemma core_step_signed db db' : signed_ok db -> db_later db db' -> core_step db (core db') -> signed_ok db'.
Proof.
  intros Hs Hl Hc p. change (publications db') with (snd (core db')).
  assert (forall p, p ∈ publications db -> p_signature p <> [] -> signature_ok db' p) as Hold
    by (intros; eapply signature_ok_later; eauto).
  destruct Hc as [|w content rev Hw|r q s vid v key Es Ek Ev Ec]; simpl; auto.
  intros [Hp| ->%list_elem_of_singleton]%elem_of_app Hsig; [by apply Hold|]. apply (signature_ok_later _ _ _ Hl).
  apply set_of_inv in Es as (o & row & Ho & Hoslug & Hrow & Hrorg & Hrslug & _). apply select_some in Ev as [Ev _].
  apply publish_key_inv in Ek. destruct key as [pk|]; simpl in *.
  - destruct Ek as (k & Hk & Hpk). apply ActiveSigningKey_inv in Hk as (? & ? & ? & _).
    exists row, o, v, k, pk. simpl. rewrite Hrorg, Hrslug, Hoslug. by destruct (VerifyStatement _ _ _).
  - destruct Ek as [Hns _]. unfold is_signed in Hns. destruct (pq_Signature q); done.
Qed.

(** ** Pulls *)

Lemma Published_touch set now r acc db : Published set (touch now r acc db) = Published set db.
Proof. done. Qed.

Lemma LatestPublication_touch set now r acc db : LatestPublication set (touch now r acc db) = LatestPublication set db.
Proof. done. Qed.

(** A file is served by an active pull token, of the set of the path, and is what the set publishes. *)
Lemma servePolicy_inv Allow now r db etag rev content db' :
  servePolicy Allow now r db = ({| status := 200; body := PolicyFile etag rev content |}, db') ->
  exists acc v, pullAccess Allow r db = inr acc /\ Published (ID (acc_set acc)) db = inr v /\
    etag = v_etag v /\ rev = FormatInt (v_revision v) /\ content = v_content v /\
    db' = countPull now acc false (touch now r acc db).
Proof.
  unfold servePolicy. destruct (pullAccess Allow r db) as [rsp|acc] eqn:Ea.
  { intros [= -> _]. exfalso. revert Ea. unfold pullAccess, tokenAccess. repeat case_match; discriminate. }
  cbv zeta. rewrite Published_touch. destruct (Published _ db) as [[]|v] eqn:Ep; try discriminate.
  case_match; [discriminate|]. intros [= <- <- <- <-]. exists acc, v. done.
Qed.

Lemma serveSignature_inv Allow now r db sf db' :
  serveSignature Allow now r db = ({| status := 200; body := SignatureBody sf |}, db') ->
  exists acc pub v, pullAccess Allow r db = inr acc /\ LatestPublication (ID (acc_set acc)) db = inr pub /\
    pub_signature pub <> [] /\ Published (ID (acc_set acc)) db = inr v /\
    sf_Publication sf = pub_seq pub /\ sf_Revision sf = v_revision v /\ sf_KeyID sf = pub_keyid pub /\
    sf_Signature sf = pub_signature pub.
Proof.
  unfold serveSignature. destruct (pullAccess Allow r db) as [rsp|acc] eqn:Ea.
  { intros [= -> _]. exfalso. revert Ea. unfold pullAccess, tokenAccess. repeat case_match; discriminate. }
  cbv zeta. rewrite Published_touch, LatestPublication_touch.
  destruct (LatestPublication _ db) as [[]|pub] eqn:El; try discriminate.
  destruct (pub_signature pub) as [|c sig] eqn:Es; [discriminate|]. simpl.
  destruct (Published _ db) as [|v] eqn:Ep; [discriminate|]. intros [= <- <-]. exists acc, pub, v. simpl. rewrite Es. done.
Qed.

(** The signature served with a set is by a registered key, for the file served with it. *)
Lemma served_signature_ok db set v pub row o :
  db_ok db -> signed_ok db -> rule_sets db !! set = Some row -> orgs db !! rs_org row = Some o ->
  Published set db = inr v -> LatestPublication set db = inr pub -> pub_signature pub <> [] ->
  exists k pk, k ∈ signing_keys db /\ k_org k = rs_org row /\ k_keyid k = pub_keyid pub /\ ParsePublicKey (k_public k) = Some pk /\
    VerifyStatement pk (For (o_slug o ++ go "/" ++ rs_slug row) (pub_seq pub) (v_revision v) (v_content v)) (pub_signature pub) = true.
Proof.
  intros Hok Hs Hrow Ho Hp Hl Hne. pose proof (Published_latest set db Hok) as Hpl.
  destruct (last (rows_of (pub_of set) (publications db))) as [p|] eqn:E; [|by destruct Hpl; congruence].
  destruct Hpl as (w & Hw & _ & Hp' & Hl'). rewrite Hp in Hp'. rewrite Hl in Hl'. injection Hp' as <-. injection Hl' as ->.
  simpl in *. apply last_Some_elem_of, rows_of_elem in E as [Eset Hin]. apply Nat.eqb_eq in Eset.
  destruct (Hs p Hin Hne) as (s' & o' & v' & k & pk & Es & Eo & Ev & Hk & Hko & Hid & Hpk & Hver).
  rewrite Eset, Hrow in Es. injection Es as <-. rewrite Ho in Eo. injection Eo as <-. rewrite Hw in Ev. injection Ev as <-.
  exists k, pk. done.
Qed.

(** A pull changes nothing that another pull reads. *)
Lemma countPull_reads now r acc nm db :
  let db' := countPull now acc nm (touch now r acc db) in
  rule_sets db' = rule_sets db /\ orgs db' = orgs db /\ signing_keys db' = signing_keys db /\ core db' = core db.
Proof. simpl. unfold countPull, CountPull. by repeat case_match; simplify_eq. Qed.

Lemma served_read_only db db' :
  rule_sets db' = rule_sets db /\ orgs db' = orgs db /\ signing_keys db' = signing_keys db /\ core db' = core db ->
  rule_sets db' = rule_sets db /\ orgs db' = orgs db /\ signing_keys db' = signing_keys db /\
  forall set, Published set db' = Published set db.
Proof.
  intros (Hs & Ho & Hk & Hc). split_and!; [done..|]. intros set. unfold Published. injection Hc as Hv _. by rewrite Hs, Hv.
Qed.

(** ** Runs of the server *)

Lemma store_run_later db db' : db_ok db -> store_run db db' -> db_later db db'.
Proof.
  intros Hok Hr. induction Hr as [|x y z Hxy _ IH]; [apply db_later_refl|].
  apply (store_step_effect _ _ Hok) in Hxy. eapply db_later_trans; [by apply effect_later|].
  by apply IH, (effect_ok _ _ Hok).
Qed.

Record server_ok (db : DB) : Prop := { sv_db : db_ok db; sv_files : files_ok db; sv_signed : signed_ok db }.

Lemma request_ok db db' : server_ok db -> request db db' -> server_ok db'.
Proof.
  intros [Hok Hf Hs] Hr. pose proof (request_core _ _ Hok Hr) as Hc. apply request_run in Hr.
  split; [by eapply store_run_ok|by eapply core_step_files|].
  eapply core_step_signed; [done|by apply store_run_later|done].
Qed.

Lemma server_run_ok db : server_run emptyDB db -> server_ok db.
Proof.
  intros Hr. assert (server_ok emptyDB) as H0' by (split; [apply empty_ok| |]; intros ? ?; set_solver).
  revert H0'. induction Hr; [done|]. eauto using request_ok.
Qed.

End requests.
