(* ===== verification/StoredTime.v ===== *)
(** * Times in the store's tables

    [rules/internal/store]: [now] and the expiry of links and sessions.  A time is written as
    [time.RFC3339Nano] in UTC and compared as text. *)

From Stdlib Require Import ZArith Lia Bool.
From stdpp Require Import base list.
From S2P Require Import Prelude GoStrings.

(** A time as text.  Up to the second the text of the years 0 to 9999 has a fixed width, so that it compares as the number of the second does; what
    follows is [Z], or a point, the digits of the fraction without the zeros at the end, and
    [Z]. *)

Record stamp := { st_second : Z; st_fraction : gostring }.

Definition second_ns : Z := 1000000000.

Definition fraction_digits (ns : Z) : gostring := (fun k => 48 + (ns / 10 ^ k) mod 10) <$> [8; 7; 6; 5; 4; 3; 2; 1; 0].

Definition fraction_text (ns : Z) : gostring :=
  if ns =? 0 then go "Z" else go "." ++ TrimRight (fraction_digits ns) (go "0") ++ go "Z".

(** [t.Format(time.RFC3339Nano)] of a time in nanoseconds; [now] is this of the clock. *)
Definition FormatTime (t : Z) : stamp := {| st_second := t / second_ns; st_fraction := fraction_text (t mod second_ns) |}.

(** The order of texts, byte by byte. *)
Fixpoint text_ltb (s t : gostring) : bool :=
  match s, t with
  | _, [] => false
  | [], _ :: _ => true
  | a :: s', b :: t' => (a <? b) || ((a =? b) && text_ltb s' t')
  end.

(** [a < b] in SQL. *)
Definition stamp_ltb (a b : stamp) : bool :=
  (st_second a <? st_second b) || ((st_second a =? st_second b) && text_ltb (st_fraction a) (st_fraction b)).
