(* ===== verification/Reports.v ===== *)
(** * Cluster reports

    [rules/internal/store/reports.go] and the check of [rules/internal/server/reports.go]:
    a cluster's operator sends counters over a window, the server keeps them for ninety days and
    sums them per token, cluster name and policy.

    A time is in nanoseconds; a time in a table is compared as text.  The maps of a report
    are kept as JSON text in the table and read back as they were written; the model keeps
    the maps.  The table is in the order of the ids. *)

From Stdlib Require Import ZArith Lia Bool.
From stdpp Require Import base list option sets fin_maps gmap.
From S2P Require Import Prelude GoStrings Sha256 Tokens JsonString Engine RulesStore RulesStoreProofs StoredTime.

(** [int64] addition. *)
Definition int64 (z : Z) : Z := (z + 2 ^ 63) mod 2 ^ 64 - 2 ^ 63.

(** ** The body of a report *)

Notation counts := (gmap gostring Z).

Record reportRemote := { rr_Revision : gostring; rr_Publication : Z; rr_SignedBy : gostring }.

Record reportBody := {
  b_Schema : gostring; b_Cluster : gostring; b_Policy : gostring; b_From : Z; b_To : Z; b_Mode : gostring;
  b_PodsReporting : Z; b_PodsTotal : Z; b_Revisions : counts; b_Remote : option reportRemote;
  b_Lines : Z; b_Errors : Z; b_Redactions : counts; b_AuditFindings : counts;
}.

Definition reportSchema : gostring := go "pii-shield-stats-v1".
Definition maxReportBody : Z := Z.shiftl 64 10.
Definition maxReportKeys : nat := 64.
Definition maxKeyLen : nat := 128.

(** The zero [time.Time], the first of January of the year 1. *)
Definition zeroTime : Z := - 62135596800 * 1000000000.

(** The loops over a map: every key and count in bounds. *)
Definition counts_fit (m : counts) : bool :=
  forallb (fun '(k, v) => negb ((maxKeyLen <? length k)%nat || (v <? 0))) (map_to_list m).

(** [reportBody.check]: whether the report is taken. *)
Definition checkReport (b : reportBody) : bool :=
  if negb (str_eqb (b_Schema b) reportSchema) then false
  else if is_empty (b_Policy b) || (253 <? length (b_Policy b))%nat || (maxKeyLen <? length (b_Cluster b))%nat then false
  else if negb (str_eqb (b_Mode b) (go "redact")) && negb (str_eqb (b_Mode b) (go "audit")) then false
  else if (b_From b =? zeroTime) || (b_To b <? b_From b) then false
  else if (b_Lines b <? 0) || (b_Errors b <? 0) || (b_PodsReporting b <? 0) || (b_PodsTotal b <? b_PodsReporting b) then false
  else if (maxReportKeys <? size (b_Revisions b))%nat || (maxReportKeys <? size (b_Redactions b))%nat ||
          (maxReportKeys <? size (b_AuditFindings b))%nat then false
  else if negb (forallb counts_fit [b_Redactions b; b_AuditFindings b]) then false
  else if negb (counts_fit (b_Revisions b)) then false
  else
    match b_Remote b with
    | Some rr => negb ((maxKeyLen <? length (rr_Revision rr))%nat || (maxKeyLen <? length (rr_SignedBy rr))%nat)
    | None => true
    end.

(** ** The table *)

Record Report := {
  rp_set : nat; rp_token : nat; rp_cluster : gostring; rp_policy : gostring; rp_received : stamp;
  rp_from : Z; rp_to : Z; rp_mode : gostring; rp_pods_reporting : Z; rp_pods_total : Z; rp_revisions : counts;
  rp_remote_revision : gostring; rp_remote_publication : Z; rp_remote_signed_by : gostring;
  rp_lines : Z; rp_errors : Z; rp_redactions : counts; rp_audit_findings : counts;
}.

Definition ReportRetention : Z := 90 * 24 * 3600 * second_ns.

(** [AddReport]. *)
Definition AddReport (now : Z) (r : Report) (db : DB) (t : list Report) : store_result (list Report) :=
  match rule_sets db !! rp_set r, tokens db !! rp_token r with
  | Some _, Some _ =>
    let cutoff := FormatTime (now - ReportRetention) in
    inr (filter (fun x => Nat.eqb (rp_set x) (rp_set r) && stamp_ltb (rp_received x) cutoff = false) (t ++ [r]))
  | _, _ => inl ErrForeignKey
  end.

(** ** The summary of a set's clusters *)

Record ClusterSummary := {
  cs_token : nat; cs_token_name : gostring; cs_cluster : gostring; cs_policy : gostring; cs_latest : Report;
  cs_reports : Z; cs_lines : Z; cs_errors : Z; cs_redactions : counts; cs_audit_findings : counts;
}.

(** [for t, n := range m { acc[t] += n }]. *)
Definition add_counts (acc m : counts) : counts :=
  union_with (fun x y => Some (int64 (x + y))) acc m.

Definition same_cluster (r : Report) (c : ClusterSummary) : bool :=
  Nat.eqb (cs_token c) (rp_token r) && str_eqb (cs_cluster c) (rp_cluster r) && str_eqb (cs_policy c) (rp_policy r).

Definition new_summary (r : Report) (tokenName : gostring) : ClusterSummary := {|
  cs_token := rp_token r; cs_token_name := tokenName; cs_cluster := rp_cluster r; cs_policy := rp_policy r;
  cs_latest := r; cs_reports := 0; cs_lines := 0; cs_errors := 0; cs_redactions := ∅; cs_audit_findings := ∅ |}.

Definition add_report (r : Report) (c : ClusterSummary) : ClusterSummary := {|
  cs_token := cs_token c; cs_token_name := cs_token_name c; cs_cluster := cs_cluster c; cs_policy := cs_policy c;
  cs_latest := cs_latest c; cs_reports := cs_reports c + 1; cs_lines := int64 (cs_lines c + rp_lines r);
  cs_errors := int64 (cs_errors c + rp_errors r); cs_redactions := add_counts (cs_redactions c) (rp_redactions r);
  cs_audit_findings := add_counts (cs_audit_findings c) (rp_audit_findings r) |}.

(** One row of the result. *)
Definition summarize_row (out : list ClusterSummary) (row : Report * gostring) : list ClusterSummary :=
  let '(r, tokenName) := row in
  match select (same_cluster r) out with
  | Some (i, _) => alter (add_report r) i out
  | None => out ++ [add_report r (new_summary r tokenName)]
  end.

(** The rows of the query: newest first, with the name of the token. *)
Definition cluster_rows (set : nat) (since : stamp) (db : DB) (t : list Report) : list (Report * gostring) :=
  omap (fun r => if Nat.eqb (rp_set r) set && negb (stamp_ltb (rp_received r) since)
                 then (fun tok => (r, t_name tok)) <$> tokens db !! rp_token r else None) (reverse t).

(** [Clusters]. *)
Definition Clusters (set : nat) (since : Z) (db : DB) (t : list Report) : list ClusterSummary :=
  foldl summarize_row [] (cluster_rows set (FormatTime since) db t).

(** ** The summary of a set's clusters, against grouping and summing

    [Clusters] walks the rows once; the reference groups them by token, cluster name and policy, in
    the order in which the groups first appear, and sums each group. *)

(** [int64] is a sum modulo 2^64. *)
Lemma int64_add a b : int64 (int64 a + b) = int64 (a + b).
Proof.
  unfold int64. f_equal.
  replace ((a + 2 ^ 63) mod 2 ^ 64 - 2 ^ 63 + b + 2 ^ 63) with ((a + 2 ^ 63) mod 2 ^ 64 + b) by lia.
  rewrite Zplus_mod_idemp_l. f_equal. lia.
Qed.

Lemma int64_small a : - 2 ^ 63 <= a < 2 ^ 63 -> int64 a = a.
Proof. intros Ha. unfold int64. rewrite Z.mod_small; [lia|]. change (2 ^ 64) with (2 ^ 63 + 2 ^ 63). lia. Qed.

(** ** Groups *)

Definition cluster_key : Type := nat * gostring * gostring.

Definition row_key (row : Report * gostring) : cluster_key := (rp_token row.1, rp_cluster row.1, rp_policy row.1).
Definition summary_key (c : ClusterSummary) : cluster_key := (cs_token c, cs_cluster c, cs_policy c).

Definition group (k : cluster_key) (rows : list (Report * gostring)) : list (Report * gostring) := filter (fun r => row_key r = k) rows.

(** The keys, in the order in which they first appear. *)
Definition keys_in_order (rows : list (Report * gostring)) : list cluster_key :=
  foldl (fun ks r => if decide (row_key r ∈ ks) then ks else ks ++ [row_key r]) [] rows.

(** The sum of a field over a group. *)
Definition sum_of (f : Report -> Z) (rows : list (Report * gostring)) : Z := int64 (zsum (f ∘ fst <$> rows)).

Definition count_at (k : gostring) (m : counts) : Z := default 0 (m !! k).

(** What a summary says of its group. *)
Record summarizes (rows : list (Report * gostring)) (c : ClusterSummary) : Prop := {
  sm_latest : head (group (summary_key c) rows) = Some (cs_latest c, cs_token_name c);
  sm_reports : cs_reports c = Z.of_nat (length (group (summary_key c) rows));
  sm_lines : cs_lines c = sum_of rp_lines (group (summary_key c) rows);
  sm_errors : cs_errors c = sum_of rp_errors (group (summary_key c) rows);
  sm_redactions : forall k, count_at k (cs_redactions c) = sum_of (fun r => count_at k (rp_redactions r)) (group (summary_key c) rows);
  sm_audit : forall k, count_at k (cs_audit_findings c) = sum_of (fun r => count_at k (rp_audit_findings r)) (group (summary_key c) rows);
}.

(** The counts of a row are within [int64]. *)
Definition row_fits (row : Report * gostring) : Prop :=
  forall k, - 2 ^ 63 <= count_at k (rp_redactions row.1) < 2 ^ 63 /\ - 2 ^ 63 <= count_at k (rp_audit_findings row.1) < 2 ^ 63.

Lemma sum_of_snoc f rows r : sum_of f (rows ++ [r]) = int64 (sum_of f rows + f r.1).
Proof. unfold sum_of. rewrite int64_add, fmap_app, zsum_app. cbn. f_equal. lia. Qed.

Lemma add_counts_at k acc m :
  - 2 ^ 63 <= count_at k acc < 2 ^ 63 -> - 2 ^ 63 <= count_at k m < 2 ^ 63 -> count_at k (add_counts acc m) = int64 (count_at k acc + count_at k m).
Proof.
  unfold count_at, add_counts. rewrite lookup_union_with. intros Ha Hm.
  destruct (acc !! k) as [x|], (m !! k) as [y|]; cbn in *; rewrite ?Z.add_0_r, ?Z.add_0_l; try done; by rewrite int64_small.
Qed.

Lemma int64_range a : - 2 ^ 63 <= int64 a < 2 ^ 63.
Proof. unfold int64. pose proof (Z.mod_pos_bound (a + 2 ^ 63) (2 ^ 64) ltac:(lia)). change (2 ^ 64) with (2 ^ 63 + 2 ^ 63) in *. lia. Qed.

Lemma same_cluster_key r n c : same_cluster r c = true <-> summary_key c = row_key (r, n).
Proof.
  unfold same_cluster, summary_key, row_key. cbn. rewrite !andb_true_iff, Nat.eqb_eq, !str_eqb_eq. split; [by intros [[-> ->] ->]|].
  by intros [= -> -> ->].
Qed.

Lemma keys_snoc rows r : keys_in_order (rows ++ [r]) = if decide (row_key r ∈ keys_in_order rows) then keys_in_order rows else keys_in_order rows ++ [row_key r].
Proof. unfold keys_in_order. by rewrite foldl_snoc. Qed.

Lemma keys_elem rows k : k ∈ keys_in_order rows <-> k ∈ row_key <$> rows.
Proof.
  induction rows as [|r rows IH] using rev_ind; [done|]. rewrite keys_snoc, fmap_app, elem_of_app. case_decide; set_solver.
Qed.

Lemma keys_nodup rows : NoDup (keys_in_order rows).
Proof.
  induction rows as [|r rows IH] using rev_ind; [constructor|]. rewrite keys_snoc. case_decide; [done|].
  apply NoDup_app. split; [done|]. split; [set_solver|apply NoDup_singleton].
Qed.

Lemma group_snoc k rows r : group k (rows ++ [r]) = group k rows ++ (if decide (row_key r = k) then [r] else []).
Proof. unfold group. by rewrite filter_app. Qed.

(** A row of another group changes nothing. *)
Lemma summarizes_other rows r c : row_key r <> summary_key c -> summarizes rows c -> summarizes (rows ++ [r]) c.
Proof.
  intros Hne [? ? ? ? ? ?]. split; rewrite group_snoc, decide_False, app_nil_r by done; done.
Qed.

(** A row of its own group is added. *)
Lemma summarizes_add rows r n c :
  row_fits (r, n) -> row_key (r, n) = summary_key c -> summarizes rows c -> summarizes (rows ++ [(r, n)]) (add_report r c).
Proof.
  intros Hf Hk [Hl Hr Hln He Hrd Hau]. change (summary_key c) with (summary_key (add_report r c)) in *.
  split; rewrite group_snoc, decide_True by done; cbn [add_report cs_latest cs_token_name cs_reports cs_lines cs_errors cs_redactions cs_audit_findings].
  - rewrite head_app, Hl. done.
  - rewrite length_app, Hr. cbn. lia.
  - by rewrite sum_of_snoc, Hln.
  - by rewrite sum_of_snoc, He.
  - intros k. rewrite sum_of_snoc, <-Hrd. apply add_counts_at; [rewrite Hrd; apply int64_range|apply Hf].
  - intros k. rewrite sum_of_snoc, <-Hau. apply add_counts_at; [rewrite Hau; apply int64_range|apply Hf].
Qed.

(** The first row of a group. *)
Lemma summarizes_new rows r n :
  row_fits (r, n) -> row_key (r, n) ∉ row_key <$> rows -> summarizes (rows ++ [(r, n)]) (add_report r (new_summary r n)).
Proof.
  intros Hf Hk. assert (group (row_key (r, n)) rows = []) as Hg.
  { apply filter_none. intros x Hx E. apply Hk. apply list_elem_of_fmap. by exists x. }
  change (row_key (r, n)) with (summary_key (add_report r (new_summary r n))) in Hg.
  split; rewrite group_snoc, Hg, decide_True by done; cbn -[int64 add_counts].
  - done.
  - done.
  - unfold sum_of. cbn -[int64]. f_equal; lia.
  - unfold sum_of. cbn -[int64]. f_equal; lia.
  - intros k. rewrite add_counts_at; [|by unfold count_at; rewrite lookup_empty|apply Hf]. unfold sum_of. cbn -[int64 count_at]. f_equal. unfold count_at at 1. rewrite lookup_empty. cbn. lia.
  - intros k. rewrite add_counts_at; [|by unfold count_at; rewrite lookup_empty|apply Hf]. unfold sum_of. cbn -[int64 count_at]. f_equal. unfold count_at at 1. rewrite lookup_empty. cbn. lia.
Qed.

Lemma summarize_ok rows :
  Forall row_fits rows ->
  summary_key <$> foldl summarize_row [] rows = keys_in_order rows /\ Forall (summarizes rows) (foldl summarize_row [] rows).
Proof.
  induction rows as [|[r n] rows IH] using rev_ind; [by split|]. intros [Hrows Hr]%Forall_app. apply Forall_cons in Hr as [Hr _].
  destruct (IH Hrows) as [Hk Hs]. rewrite foldl_snoc. set (out := foldl summarize_row [] rows) in *. rewrite keys_snoc, <-Hk.
  cbn [summarize_row]. destruct (select (same_cluster r) out) as [[i c]|] eqn:Es.
  - apply select_some in Es as [Hi Hc]. apply (same_cluster_key r n) in Hc as Hkc. rewrite decide_True.
    2: { rewrite <-Hkc. apply list_elem_of_fmap. exists c. split; [done|]. by eapply list_elem_of_lookup_2. }
    split.
    + apply list_eq. intros j. rewrite !list_lookup_fmap. destruct (decide (i = j)) as [<-|Hne].
      * rewrite list_lookup_alter_eq, Hi. done.
      * by rewrite list_lookup_alter_ne.
    + apply Forall_lookup. intros j d Hd. destruct (decide (i = j)) as [<-|Hne].
      * rewrite list_lookup_alter_eq, Hi in Hd. injection Hd as <-. apply (summarizes_add rows r n c); [exact Hr|by symmetry|].
        by eapply Forall_lookup_1 in Hs.
      * rewrite list_lookup_alter_ne in Hd by done. apply summarizes_other; [|by eapply Forall_lookup_1 in Hs].
        rewrite <-Hkc. intros E. apply Hne. eapply (NoDup_lookup (summary_key <$> out)); [rewrite Hk; apply keys_nodup| |];
          rewrite list_lookup_fmap, ?Hi, ?Hd; cbn; by rewrite ?E.
  - rewrite select_none in Es. rewrite decide_False.
    2: { intros (c & E & Hc)%list_elem_of_fmap. specialize (Es c Hc). symmetry in E. apply same_cluster_key in E. congruence. }
    assert (row_key (r, n) ∉ row_key <$> rows) as Hnew.
    { rewrite <-keys_elem, <-Hk. intros (c & E & Hc)%list_elem_of_fmap. specialize (Es c Hc). symmetry in E.
      apply same_cluster_key in E. congruence. }
    split; [by rewrite fmap_app|]. apply Forall_app. split; [|by apply Forall_singleton, summarizes_new].
    apply Forall_forall. intros c Hc. rewrite Forall_forall in Hs.
    apply summarizes_other; [|by apply Hs]. intros E. specialize (Es c Hc). symmetry in E. apply same_cluster_key in E. congruence.
Qed.
