(* ===== verification/RulesPanel.v ===== *)
(** * The panel's requests

    [rules/internal/server]: what the management API lists ([server.go], [pulls.go], [audit.go],
    [reports.go]), the check of a draft and the preview of rules on log lines
    ([preview.go]).  None of them changes the store.

    Parameters: those of the scanner.  The state of the scanning process is threaded through
    a preview, and a preview that panics has no answer. *)

From Stdlib Require Import ZArith Lia Bool.
From stdpp Require Import base list option sets sorting fin_maps gmap.
From S2P Require Import Prelude GoStrings Sha256 Regex Float64 Config Tokens JsonString Machine Engine Scanner.
From S2P Require Import ConfigSources Stats Base64 Signing RulesStore RulesServer StoredTime Reports.

(** ** Listings of the store *)

(** [ORDER BY f] for a text. *)
Definition text_order {R} (f : R -> gostring) (x y : R) : Prop := text_ltb (f y) (f x) = false.
#[global] Instance text_order_dec {R} (f : R -> gostring) x y : Decision (text_order f x y) := decide (text_ltb (f y) (f x) = false).

(** [ListOrgs], with their ids. *)
Definition ListOrgs (db : DB) : list (nat * OrgRow) := merge_sort (text_order (fun '(_, o) => o_slug o)) (imap pair (orgs db)).

(** [ListSets]. *)
Definition ListSets (org : nat) (db : DB) : list RuleSet :=
  merge_sort (text_order Slug)
    ((fun '(i, s) => set_columns db i s) <$> filter (fun '(_, s) => Nat.eqb (rs_org s) org = true) (imap pair (rule_sets db))).

(** [ListTokens], with the ids. *)
Definition token_rows (set : nat) (db : DB) : list (nat * TokenRow) :=
  filter (fun '(_, t) => Nat.eqb (t_set t) set = true) (imap pair (tokens db)).

(** [ORDER BY p.day DESC, p.token_id]. *)
Definition pull_order (x y : PullRow) : Prop := pc_day y < pc_day x \/ (pc_day x = pc_day y /\ (pc_token x <= pc_token y)%nat).
#[global] Instance pull_order_dec x y : Decision (pull_order x y).
Proof. unfold pull_order. apply _. Defined.

(** [Pulls]: the last [days] days, today included. *)
Definition Pulls (now : Z) (set : nat) (days : Z) (db : DB) : list PullRow :=
  let since := day_of now - (days - 1) in
  merge_sort pull_order
    (filter (fun p => default false ((fun t => Nat.eqb (t_set t) set) <$> tokens db !! pc_token p) && (since <=? pc_day p) = true)
      (pull_counts db)).

(** ** Answers *)

(** A token with its counts. *)
Record TokenView := { tv_id : nat; tv_token : TokenRow; tv_today : Z; tv_week : Z }.

Record validateResponse := {
  vr_Bytes : Z; vr_EntropyThreshold : float64; vr_ConfidenceThreshold : float64; vr_MinSecretLength : Z;
  vr_SensitiveKeys : nat; vr_SensitiveKeyPatterns : nat; vr_CustomRegexes : nat; vr_SafeRegexes : nat;
  vr_DisableBigramCheck : bool; vr_AdaptiveThreshold : bool; vr_EntityTypeLabels : bool;
}.

Record previewLine := { pl_In : gostring; pl_Out : gostring; pl_Changed : bool }.

(** [pv_Revision] is [None] for a draft. *)
Record previewResponse := {
  pv_Revision : option Z; pv_Lines : list previewLine; pv_Changed : Z; pv_AdaptiveOff : bool;
}.

Inductive page :=
| Answer (a : answer)
| OrgsPage (l : list (nat * OrgRow))
| SetsPage (l : list RuleSet)
| SetPage (s : RuleSet) (versions : list VersionRow) (tokens : list TokenView) (policyPath : gostring)
| VersionsPage (l : list VersionRow)
| VersionPage (v : VersionRow)
| PublicationsPage (l : list Publication)
| KeysPage (l : list SigningKeyRow)
| TokensPage (l : list TokenView)
| PullsPage (days : Z) (l : list PullRow)
| ClustersPage (hours : Z) (l : list ClusterSummary) (publishedRevision : Z) (publication : option Z)
| EventsPage (l : list (nat * EventRow)) (next : option nat)
| Validated (v : validateResponse)
| Previewed (p : previewResponse).

Record reply := { rp_status : Z; rp_page : page }.

Definition ok (p : page) : reply := {| rp_status := 200; rp_page := p |}.
Definition plain (r : response) : reply := {| rp_status := status r; rp_page := Answer (body r) |}.
Definition refuse (code : Z) : reply := plain (failure code).

(** ** Handlers *)

(** [listOrgs]: a session's own organization only. *)
Definition listOrgs (r : apiRequest) (db : DB) : reply :=
  match pr_org (who r) with
  | Some own => match orgs db !! own with Some o => ok (OrgsPage [(own, o)]) | None => refuse 500 end
  | None => ok (OrgsPage (ListOrgs db))
  end.

(** [listSets]. *)
Definition listSets (r : apiRequest) (db : DB) : reply :=
  match org_of r db with inl rsp => plain rsp | inr (org, _) => ok (SetsPage (ListSets org db)) end.

(** One row of the week, added to its token. *)
Definition count_view (today : Z) (p : PullRow) (v : TokenView) : TokenView :=
  if Nat.eqb (tv_id v) (pc_token p) then
    {| tv_id := tv_id v; tv_token := tv_token v;
       tv_today := if pc_day p =? today then int64 (tv_today v + pc_pulls p) else tv_today v;
       tv_week := int64 (tv_week v + pc_pulls p) |}
  else v.

(** [withPullCounts]. *)
Definition withPullCounts (now : Z) (set : nat) (toks : list (nat * TokenRow)) (db : DB) : list TokenView :=
  foldl (fun vs p => count_view (day_of now) p <$> vs)
    ((fun '(i, t) => {| tv_id := i; tv_token := t; tv_today := 0; tv_week := 0 |}) <$> toks) (Pulls now set 7 db).

(** [getSet]. *)
Definition getSet (r : apiRequest) (db : DB) : reply :=
  match set_of r db with
  | inl rsp => plain rsp
  | inr s =>
    ok (SetPage s (ListVersions (ID s) db) (withPullCounts (at_ r) (ID s) (token_rows (ID s) db) db)
          (go "/v1/" ++ in_org r ++ go "/" ++ Slug s ++ go "/policy.json"))
  end.

(** [listVersions]. *)
Definition listVersions (r : apiRequest) (db : DB) : reply :=
  match set_of r db with inl rsp => plain rsp | inr s => ok (VersionsPage (ListVersions (ID s) db)) end.

(** [getVersion]; [rev] is the text of the path. *)
Definition getVersion (r : apiRequest) (rev : gostring) (db : DB) : reply :=
  match set_of r db with
  | inl rsp => plain rsp
  | inr s =>
    match Atoi rev with
    | None => refuse 400
    | Some n => match GetVersion (ID s) n db with inl e => plain (store_failure e) | inr v => ok (VersionPage v) end
    end
  end.

(** [publications]. *)
Definition servePublications (r : apiRequest) (db : DB) : reply :=
  match set_of r db with inl rsp => plain rsp | inr s => ok (PublicationsPage (Publications (ID s) db)) end.

(** [listSigningKeys]. *)
Definition listSigningKeys (r : apiRequest) (db : DB) : reply :=
  match org_of r db with inl rsp => plain rsp | inr (org, _) => ok (KeysPage (ListSigningKeys org db)) end.

(** [listTokens]. *)
Definition listTokens (r : apiRequest) (db : DB) : reply :=
  match set_of r db with
  | inl rsp => plain rsp
  | inr s => ok (TokensPage (withPullCounts (at_ r) (ID s) (token_rows (ID s) db) db))
  end.

(** A positive number of the query, at most [max], or the default. *)
Definition query_number (v : gostring) (def max : Z) : option Z :=
  if is_empty v then Some def
  else match Atoi v with Some n => if (n <=? 0) || (max <? n) then None else Some n | None => None end.

(** [listPulls]. *)
Definition listPulls (r : apiRequest) (days : gostring) (db : DB) : reply :=
  match set_of r db with
  | inl rsp => plain rsp
  | inr s =>
    match query_number days 30 90 with
    | None => refuse 400
    | Some n => ok (PullsPage n (Pulls (at_ r) (ID s) n db))
    end
  end.

(** [listClusters]. *)
Definition listClusters (r : apiRequest) (hours : gostring) (db : DB) (t : list Report) : reply :=
  match set_of r db with
  | inl rsp => plain rsp
  | inr s =>
    match query_number hours 24 2160 with
    | None => refuse 400
    | Some n =>
      ok (ClustersPage n (Clusters (ID s) (at_ r - n * 3600 * second_ns) db t) (PublishedRevision s)
            (match LatestPublication (ID s) db with inr pub => Some (pub_seq pub) | inl _ => None end))
    end
  end.

Definition maxAuditPage : Z := 500.

(** [listAudit].  The id of an event is its position plus one; [None] in a page: no more events. *)
Definition listAudit (r : apiRequest) (limit before : gostring) (db : DB) : reply :=
  match org_of r db with
  | inl rsp => plain rsp
  | inr (org, _) =>
    match (if is_empty limit then Some 100
           else match Atoi limit with Some n => if n <=? 0 then None else Some (Z.min n maxAuditPage) | None => None end) with
    | None => refuse 400
    | Some limit =>
      match (if is_empty before then Some None
             else match Atoi before with Some n => if n <=? 0 then None else Some (Some (Z.to_nat n - 1)%nat) | None => None end) with
      | None => refuse 400
      | Some before =>
        let events := Events org before (Z.to_nat limit) db in
        ok (EventsPage events (if Z.of_nat (length events) =? limit then S ∘ fst <$> last events else None))
      end
    end
  end.

(** ** Drafts and previews *)

Definition MaxPreviewLines : nat := 200.
Definition previewSalt : gostring := go "pii-shield-rules-preview-salt-not-a-cluster-salt".

(** [summarize]. *)
Definition summarize (content : gostring) (c : Config) : validateResponse := {|
  vr_Bytes := Z.of_nat (length content); vr_EntropyThreshold := EntropyThreshold c; vr_ConfidenceThreshold := ConfidenceThreshold c;
  vr_MinSecretLength := MinSecretLength c; vr_SensitiveKeys := length (SensitiveKeys c);
  vr_SensitiveKeyPatterns := length (SensitiveKeyPatterns c); vr_CustomRegexes := length (CustomRegexes c);
  vr_SafeRegexes := length (SafeRegexes c); vr_DisableBigramCheck := DisableBigramCheck c;
  vr_AdaptiveThreshold := AdaptiveThreshold c; vr_EntityTypeLabels := EntityTypeLabels c |}.

(** [hasDraft]. *)
Definition hasDraft (content : gostring) : bool := negb (is_empty content) && negb (str_eqb (TrimSpace content) (go "null")).

(** [previewLines]: the lines of a request, or the status of the refusal. *)
Definition previewLines (lines : option (list gostring)) (text : option gostring) : Z + list gostring :=
  match (match text, lines with
         | Some _, Some _ => None
         | Some t, None => Some (Split (TrimSuffix t [newline]) newline)
         | None, l => l
         end) with
  | None => inl 400
  | Some ls => if (MaxPreviewLines <? length ls)%nat then inl 400 else inr ls
  end.

Section preview.
Context `{RegexpCompiler} `{RT : GoRuntime} `{GoDecoders} `{ObjectJSON}.

(** [draft]: the canonical file and its configuration. *)
Definition draft (content : gostring) : Z + (gostring * Config) :=
  if is_empty content then inl 400
  else
    match Canonical content 0 with
    | inl _ => inl 422
    | inr (out, _) => match ParsePolicyJSON out with inl _ => inl 422 | inr (c, _) => inr (out, c) end
    end.

(** [validate]. *)
Definition validate (r : apiRequest) (content : gostring) (db : DB) : reply :=
  match set_of r db with
  | inl rsp => plain rsp
  | inr _ => match draft content with inl code => refuse code | inr (out, c) => ok (Validated (summarize out c)) end
  end.

(** The configuration a preview runs, and the revision of a published one. *)
Definition preview_config (set : nat) (content : gostring) (db : DB) : Z + (Config * option Z) :=
  if hasDraft content then match draft content with inl code => inl code | inr (_, c) => inr (c, None) end
  else
    match Published set db with
    | inl ErrNotPublished => inl 404
    | inl _ => inl 500
    | inr v => match ParsePolicyJSON (v_content v) with inl _ => inl 500 | inr (c, _) => inr (c, Some (v_revision v)) end
    end.

Definition preview_settings (c : Config) : Config := set_AdaptiveThreshold false (set_Salt previewSalt c).

(** The loop over the lines. *)
Fixpoint preview_loop (st : configState) (lines : list gostring) : M (list previewLine) :=
  match lines with
  | [] => mret []
  | line :: lines =>
    out ← ScanAndRedactText st line;
    rest ← preview_loop st lines;
    mret ({| pl_In := line; pl_Out := out; pl_Changed := negb (str_eqb out line) |} :: rest)
  end.

(** [preview]. *)
Definition preview (r : apiRequest) (content : gostring) (lines : option (list gostring)) (text : option gostring) (db : DB) : M reply :=
  match set_of r db with
  | inl rsp => mret (plain rsp)
  | inr s =>
    match previewLines lines text with
    | inl code => mret (refuse code)
    | inr lines =>
      match preview_config (ID s) content db with
      | inl code => mret (refuse code)
      | inr (c, revision) =>
        out ← preview_loop (NewScanner (preview_settings c)) lines;
        mret (ok (Previewed {| pv_Revision := revision; pv_Lines := out;
                               pv_Changed := Z.of_nat (length (filter (fun l => pl_Changed l = true) out));
                               pv_AdaptiveOff := AdaptiveThreshold c |}))
      end
    end
  end.

End preview.
