(* ===== verification/OperatorStats.v ===== *)
(** * The operator's stats channel

    [operator/internal/stats]: [parse.go] reads the counters a sidecar serves, [reporter.go] keeps their growth per
    policy and sends a report when the interval is over.

    Counters are [float64].  What the cluster answers is an argument of a pass: the pods, the text each sidecar serves, the
    secrets, the receiver's answer and the API server's.  [strconv.ParseFloat] is a parameter.  A conversion of a
    float to [int64] out of its range, which Go leaves to the machine, is the least integer, as on amd64. *)

From Stdlib Require Import ZArith Lia Bool SpecFloat.
From stdpp Require Import base list option sorting fin_maps gmap.
From S2P Require Import Prelude GoStrings Float64 Config ConfigSources StoredTime Reports RulesPanel.

(** ** The text format *)

(** [strings.Fields]. *)
Fixpoint fields_from (l : list (rune * gostring)) (cur : gostring) : list gostring :=
  match l with
  | [] => if is_empty cur then [] else [cur]
  | (r, b) :: l =>
    if IsSpace r then (if is_empty cur then fields_from l [] else cur :: fields_from l []) else fields_from l (cur ++ b)
  end.

Definition Fields (s : gostring) : list gostring := fields_from (chunks s) [].

(** The lines of a [bufio.Scanner] with a buffer of at most 1 MiB: it stops at a line that does not fit. *)
Definition maxScrapeLine : Z := Z.shiftl 1 20.

Definition drop_cr (line : gostring) : gostring := TrimSuffix line [13].

Fixpoint fitting (lines : list gostring) : list gostring :=
  match lines with
  | [] => []
  | line :: lines => if Z.of_nat (length line) <? maxScrapeLine then drop_cr line :: fitting lines else []
  end.

Definition scrape_lines (body : gostring) : list gostring :=
  let parts := Split body newline in
  fitting (match last parts with Some [] => take (length parts - 1) parts | _ => parts end).

(** The value of a label, after its opening quote: the value and the text after the closing quote. *)
Fixpoint label_value (s acc : gostring) : option (gostring * gostring) :=
  match s with
  | [] => None
  | c :: t =>
    if c =? dquote then Some (acc, t)
    else if c =? backslash then
      match t with
      | e :: t' => label_value t' (acc ++ [if e =? ch "n" then newline else e])
      | [] => label_value t (acc ++ [c])
      end
    else label_value t (acc ++ [c])
  end.

(** [readLabels]: the labels and the text after the closing brace. *)
Fixpoint readLabels (fuel : nat) (s : gostring) (labels : gmap gostring gostring) : option (gmap gostring gostring * gostring) :=
  match fuel with
  | O => None
  | S fuel =>
    let s := drop (span_len (fun c => (c =? ch " ") || (c =? ch ",")) s) s in
    match s with
    | c :: t =>
      if c =? ch "}" then Some (labels, t)
      else
        match IndexByte s (ch "=") with
        | None => None
        | Some eq =>
          if at_is s (S eq) (Z.eqb dquote) then
            match label_value (drop (eq + 2) s) [] with
            | None => None
            | Some (v, rest) => readLabels fuel rest (<[TrimSpace (take eq s) := v]> labels)
            end
          else None
        end
    | [] => None
    end
  end.

Section parse.
Context `{GoDecoders}.

(** [splitSeries]. *)
Definition splitSeries (line : gostring) : option (gostring * gmap gostring gostring * float64) :=
  match
    (match IndexByte line (ch "{") with
     | Some i =>
       let s := drop (S i) line in
       match readLabels (S (length s)) s ∅ with Some (labels, rest) => Some (take i line, labels, rest) | None => None end
     | None =>
       match IndexAny line [ch " "; 9] with Some sp => Some (take sp line, ∅, drop sp line) | None => None end
     end) with
  | None => None
  | Some (name, labels, rest) =>
    match Fields rest with
    | [] => None
    | f :: _ => match ParseFloat f with Some v => Some (name, labels, v) | None => None end
    end
  end.

Record sample := {
  s_lines : float64; s_errors : float64; s_redactions : gmap gostring float64; s_auditFindings : gmap gostring float64;
  s_audit : bool; s_revision : gostring; s_haveRevision : bool;
}.

Definition no_sample : sample := {|
  s_lines := fzero; s_errors := fzero; s_redactions := ∅; s_auditFindings := ∅; s_audit := false; s_revision := []; s_haveRevision := false |}.

(** [m[k] += v]. *)
Definition fadd_at (k : gostring) (v : float64) (m : gmap gostring float64) : gmap gostring float64 :=
  <[k := fadd (default fzero (m !! k)) v]> m.

Definition metricLines : gostring := go "piishield_processing_duration_seconds_count".
Definition metricErrors : gostring := go "piishield_errors_total".
Definition metricRedactions : gostring := go "piishield_redaction_events_total".
Definition metricAuditFindings : gostring := go "piishield_audit_findings_total".
Definition metricAuditMode : gostring := go "piishield_audit_mode".
Definition metricRevision : gostring := go "piishield_config_revision_info".

(** The switch on the name of a series. *)
Definition add_series (s : sample) (name : gostring) (labels : gmap gostring gostring) (v : float64) : sample :=
  let label k := default [] (labels !! k) in
  if str_eqb name metricLines then
    {| s_lines := fadd (s_lines s) v; s_errors := s_errors s; s_redactions := s_redactions s; s_auditFindings := s_auditFindings s;
       s_audit := s_audit s; s_revision := s_revision s; s_haveRevision := s_haveRevision s |}
  else if str_eqb name metricErrors then
    {| s_lines := s_lines s; s_errors := fadd (s_errors s) v; s_redactions := s_redactions s; s_auditFindings := s_auditFindings s;
       s_audit := s_audit s; s_revision := s_revision s; s_haveRevision := s_haveRevision s |}
  else if str_eqb name metricRedactions then
    {| s_lines := s_lines s; s_errors := s_errors s; s_redactions := fadd_at (label (go "type")) v (s_redactions s);
       s_auditFindings := s_auditFindings s; s_audit := s_audit s; s_revision := s_revision s; s_haveRevision := s_haveRevision s |}
  else if str_eqb name metricAuditFindings then
    {| s_lines := s_lines s; s_errors := s_errors s; s_redactions := s_redactions s;
       s_auditFindings := fadd_at (label (go "type")) v (s_auditFindings s); s_audit := s_audit s; s_revision := s_revision s;
       s_haveRevision := s_haveRevision s |}
  else if str_eqb name metricAuditMode then
    {| s_lines := s_lines s; s_errors := s_errors s; s_redactions := s_redactions s; s_auditFindings := s_auditFindings s;
       s_audit := SFeqb v fone; s_revision := s_revision s; s_haveRevision := s_haveRevision s |}
  else if str_eqb name metricRevision && SFeqb v fone then
    {| s_lines := s_lines s; s_errors := s_errors s; s_redactions := s_redactions s; s_auditFindings := s_auditFindings s;
       s_audit := s_audit s; s_revision := label (go "revision"); s_haveRevision := true |}
  else s.

(** One line of the text. *)
Definition parse_line (s : sample) (line : gostring) : sample :=
  let line := TrimSpace line in
  if is_empty line || at_is line 0 (Z.eqb (ch "#")) then s
  else match splitSeries line with None => s | Some (name, labels, v) => add_series s name labels v end.

(** [parse]. *)
Definition parse (body : gostring) : sample := foldl parse_line no_sample (scrape_lines body).

(** ** A policy's state *)

Record totals := { t_lines : float64; t_errors : float64; t_redactions : gmap gostring float64; t_auditFindings : gmap gostring float64 }.

(** [newTotals]. *)
Definition newTotals : totals := {| t_lines := fzero; t_errors := fzero; t_redactions := ∅; t_auditFindings := ∅ |}.

Record StatsStatus := { LastReportTime : option Z; LastError : gostring; PodsReporting : Z; PodsTotal : Z }.

Record policyState := {
  ps_pods : gmap gostring sample; ps_acc : totals; ps_windowStart : Z; ps_revisions : gmap gostring Z;
  ps_podsReporting : Z; ps_podsTotal : Z; ps_lastStatus : StatsStatus;
}.

Definition no_status : StatsStatus := {| LastReportTime := None; LastError := []; PodsReporting := 0; PodsTotal := 0 |}.

(** The state of a policy first seen. *)
Definition new_state (now : Z) : policyState := {|
  ps_pods := ∅; ps_acc := newTotals; ps_windowStart := now; ps_revisions := ∅; ps_podsReporting := 0; ps_podsTotal := 0;
  ps_lastStatus := no_status |}.

Definition statsDefaultInterval : Z := 300 * second_ns.
Definition statsMinInterval : Z := 60 * second_ns.

(** [Interval]. *)
Definition statsInterval (seconds : Z) : Z :=
  if seconds <=? 0 then statsDefaultInterval else Z.max (seconds * second_ns) statsMinInterval.

(** [grow]. *)
Definition grow (prev cur : float64) : float64 := if fleb prev cur then fsub cur prev else cur.

(** The growth of a pod's counters between two reads. *)
Definition grow_map (prev cur : gmap gostring float64) : gmap gostring float64 :=
  merge (fun p c => (fun v => grow (default fzero p) v) <$> c) prev cur.

Definition growth (prev cur : sample) : totals := {|
  t_lines := grow (s_lines prev) (s_lines cur); t_errors := grow (s_errors prev) (s_errors cur);
  t_redactions := grow_map (s_redactions prev) (s_redactions cur);
  t_auditFindings := grow_map (s_auditFindings prev) (s_auditFindings cur) |}.

(** Growth added to a window. *)
Definition add_map (acc g : gmap gostring float64) : gmap gostring float64 :=
  merge (fun a c => match c with Some v => Some (fadd (default fzero a) v) | None => a end) acc g.

Definition add_totals (acc g : totals) : totals := {|
  t_lines := fadd (t_lines acc) (t_lines g); t_errors := fadd (t_errors acc) (t_errors g);
  t_redactions := add_map (t_redactions acc) (t_redactions g);
  t_auditFindings := add_map (t_auditFindings acc) (t_auditFindings g) |}.

(** ** Pods *)

Record Pod := {
  pod_UID : gostring; pod_Name : gostring; pod_policy : gostring; pod_deleting : bool; pod_running : bool; pod_IP : gostring;
  pod_ports : list gostring;
}.

(** [policyPods], on the pods of the namespace that carry the inject label. *)
Definition policyPods (policy : gostring) (pods : list Pod) : list Pod :=
  merge_sort (text_order pod_Name)
    (filter (fun p => negb (negb (str_eqb (if is_empty (pod_policy p) then go "default" else pod_policy p) policy) || pod_deleting p ||
                            negb (pod_running p) || is_empty (pod_IP p)) = true) pods).

(** [hasMetricsPort], on the names of the ports of all containers. *)
Definition hasMetricsPort (p : Pod) : bool := existsb (str_eqb (go "pii-metrics")) (pod_ports p).

(** [scrapeAll]: each pod with what was read of it. *)
Definition scrapeAll (scrape : Pod -> option gostring) (pods : list Pod) : list (Pod * option sample) :=
  (fun p => (p, if hasMetricsPort p then parse <$> scrape p else None)) <$> pods.

(** ** A pass over a policy *)

(** The loop over the pods: the samples, what is alive, the revisions, and the growth in the order it is added. *)
Record reading := {
  rd_pods : gmap gostring sample; rd_alive : gmap gostring unit; rd_revisions : gmap gostring Z; rd_growth : list totals;
}.

Definition read_pod (rd : reading) (ps : Pod * option sample) : reading :=
  match ps with
  | (_, None) => rd
  | (p, Some s) =>
    let rev := if s_haveRevision s then s_revision s else [] in
    {| rd_pods := <[pod_UID p := s]> (rd_pods rd);
       rd_alive := <[pod_UID p := tt]> (rd_alive rd);
       rd_revisions := <[rev := default 0 (rd_revisions rd !! rev) + 1]> (rd_revisions rd);
       rd_growth := rd_growth rd ++ match rd_pods rd !! pod_UID p with Some prev => [growth prev s] | None => [] end |}
  end.

Definition read_pods (pods : gmap gostring sample) (l : list (Pod * option sample)) : reading :=
  foldl read_pod {| rd_pods := pods; rd_alive := ∅; rd_revisions := ∅; rd_growth := [] |} l.

(** [int64(f)]. *)
Definition trunc64 (f : float64) : Z :=
  match f with
  | S754_zero _ => 0
  | S754_finite s m e =>
    let v := if 0 <=? e then Zpos m * 2 ^ e else Zpos m / 2 ^ (- e) in
    if v <? 2 ^ 63 then (if s : bool then - v else v) else - 2 ^ 63
  | _ => - 2 ^ 63
  end.

Record RemoteRef := { ref_Revision : gostring; ref_Publication : Z; ref_SignedBy : gostring }.

(** What a pass reads of the policy; a secret reference that cannot be read is [Some None]. *)
Record statsPolicy := {
  sp_Namespace : gostring; sp_Name : gostring; sp_IntervalSeconds : Z; sp_ClusterName : gostring; sp_AuditMode : bool;
  sp_Remote : option RemoteRef; sp_Header : option (gostring + gostring); sp_CABundle : option (gostring + gostring);
}.

Record statsReport := {
  sr_Schema : gostring; sr_Cluster : gostring; sr_Policy : gostring; sr_From : Z; sr_To : Z; sr_Mode : gostring;
  sr_PodsReporting : Z; sr_PodsTotal : Z; sr_Revisions : gmap gostring Z; sr_Remote : option RemoteRef;
  sr_Lines : Z; sr_Errors : Z; sr_Redactions : gmap gostring Z; sr_AuditFindings : gmap gostring Z;
}.

Definition statsSchema : gostring := go "pii-shield-stats-v1".

(** The report of the window that ends now. *)
Definition report_of_window (p : statsPolicy) (st : policyState) (now : Z) : statsReport := {|
  sr_Schema := statsSchema; sr_Cluster := sp_ClusterName p; sr_Policy := sp_Namespace p ++ go "/" ++ sp_Name p;
  sr_From := ps_windowStart st; sr_To := now; sr_Mode := if sp_AuditMode p then go "audit" else go "redact";
  sr_PodsReporting := ps_podsReporting st; sr_PodsTotal := ps_podsTotal st; sr_Revisions := ps_revisions st;
  sr_Remote := sp_Remote p; sr_Lines := trunc64 (t_lines (ps_acc st)); sr_Errors := trunc64 (t_errors (ps_acc st));
  sr_Redactions := trunc64 <$> t_redactions (ps_acc st);
  sr_AuditFindings := if sp_AuditMode p then trunc64 <$> t_auditFindings (ps_acc st) else ∅ |}.

(** What the cluster answers to a pass: the pods or an error, the counters, the clock, the receiver ([None]: accepted; the
    arguments are the Authorization header and the CA bundle) and whether the status patch went through. *)
Record statsWorld := {
  sw_pods : gostring + list Pod; sw_scrape : Pod -> option gostring; sw_now : Z;
  sw_send : gostring -> gostring -> statsReport -> option gostring; sw_patched : bool;
}.

(** [send]: the error, if any. *)
Definition send (p : statsPolicy) (st : policyState) (w : statsWorld) : option gostring :=
  match sp_Header p, sp_CABundle p with
  | Some (inl e), _ => Some (go "headerSecretRef: " ++ e)
  | _, Some (inl e) => Some (go "caBundleSecretRef: " ++ e)
  | h, ca =>
    let auth := match h with Some (inr v) => TrimSpace v | _ => [] end in
    let bundle := match ca with Some (inr v) => v | _ => [] end in
    sw_send w auth bundle (report_of_window p st (sw_now w))
  end.

(** [statusEqual]. *)
Definition statusEqual (a b : StatsStatus) : bool :=
  if negb (str_eqb (LastError a) (LastError b)) || negb (PodsReporting a =? PodsReporting b) || negb (PodsTotal a =? PodsTotal b) then false
  else
    match LastReportTime a, LastReportTime b with
    | None, None => true
    | Some x, Some y => x =? y
    | _, _ => false
    end.

Definition set_status (s : StatsStatus) (st : policyState) : policyState := {|
  ps_pods := ps_pods st; ps_acc := ps_acc st; ps_windowStart := ps_windowStart st; ps_revisions := ps_revisions st;
  ps_podsReporting := ps_podsReporting st; ps_podsTotal := ps_podsTotal st; ps_lastStatus := s |}.

(** [patchStatus]: the status is remembered unless the patch failed. *)
Definition patchStatus (w : statsWorld) (st : policyState) (status : StatsStatus) : policyState :=
  if statusEqual (ps_lastStatus st) status then st else if sw_patched w then set_status status st else st.

Definition int32 (z : Z) : Z := (z + 2 ^ 31) mod 2 ^ 32 - 2 ^ 31.

(** The state after the loop over the pods: the pods that were not read are forgotten. *)
Definition after_reading (st : policyState) (l : list (Pod * option sample)) : policyState :=
  let rd := read_pods (ps_pods st) l in
  {| ps_pods := filter (fun '(uid, _) => is_Some (rd_alive rd !! uid)) (rd_pods rd);
     ps_acc := foldl add_totals (ps_acc st) (rd_growth rd); ps_windowStart := ps_windowStart st; ps_revisions := rd_revisions rd;
     ps_podsReporting := Z.of_nat (size (rd_alive rd)); ps_podsTotal := Z.of_nat (length l); ps_lastStatus := ps_lastStatus st |}.

(** The window closed by an accepted report. *)
Definition close_window (now : Z) (st : policyState) : policyState := {|
  ps_pods := ps_pods st; ps_acc := newTotals; ps_windowStart := now; ps_revisions := ps_revisions st;
  ps_podsReporting := ps_podsReporting st; ps_podsTotal := ps_podsTotal st; ps_lastStatus := ps_lastStatus st |}.

(** [passPolicy]: the state, and the report that was accepted, if any. *)
Definition passPolicy (p : statsPolicy) (w : statsWorld) (st : policyState) : policyState * option statsReport :=
  let status := ps_lastStatus st in
  match sw_pods w with
  | inl e =>
    (patchStatus w st {| LastReportTime := LastReportTime status; LastError := go "list pods: " ++ e;
                         PodsReporting := PodsReporting status; PodsTotal := PodsTotal status |}, None)
  | inr all =>
    let pods := policyPods (sp_Name p) all in
    let st := after_reading st (scrapeAll (sw_scrape w) pods) in
    let status := {| LastReportTime := LastReportTime status; LastError := LastError status;
                     PodsReporting := int32 (ps_podsReporting st); PodsTotal := int32 (ps_podsTotal st) |} in
    if statsInterval (sp_IntervalSeconds p) <=? sw_now w - ps_windowStart st then
      match send p st w with
      | Some e =>
        (patchStatus w st {| LastReportTime := LastReportTime status; LastError := e;
                             PodsReporting := PodsReporting status; PodsTotal := PodsTotal status |}, None)
      | None =>
        (patchStatus w (close_window (sw_now w) st)
           {| LastReportTime := Some (sw_now w); LastError := []; PodsReporting := PodsReporting status; PodsTotal := PodsTotal status |},
         Some (report_of_window p st (sw_now w)))
      end
    else (patchStatus w st status, None)
  end.

(** ** A pass over the policies *)

(** [Pass]: the policies with their stats settings ([None]: unset) and what each meets; the clock at which a new policy
    is first seen. *)
Definition pass_one (now : Z) (sts : gmap (gostring * gostring) policyState * gmap (gostring * gostring) unit)
    (item : gostring * gostring * option (statsPolicy * statsWorld)) :
    gmap (gostring * gostring) policyState * gmap (gostring * gostring) unit :=
  let '(key, stats) := item in
  match stats with
  | None => sts
  | Some (p, w) =>
    let st := default (new_state now) (sts.1 !! key) in
    (<[key := (passPolicy p w st).1]> sts.1, <[key := tt]> sts.2)
  end.

Definition Pass (now : Z) (list : option (list (gostring * gostring * option (statsPolicy * statsWorld))))
    (state : gmap (gostring * gostring) policyState) : gmap (gostring * gostring) policyState :=
  match list with
  | None => state
  | Some items =>
    let '(state, seen) := foldl (pass_one now) (state, ∅) items in
    filter (fun '(key, _) => is_Some (seen !! key)) state
  end.

End parse.
