(* ===== verification/Controller.v ===== *)
(** * The operator's reconciler

    [Reconcile] of [operator/internal/controller/piipolicy_controller.go]: the whole handler of a change of a policy, from the
    object read from the API server to the status written back, with every call that can fail.

    What the calls answer is an argument.  The conditions of a status are those of the API machinery, a parameter; the
    text of an error, and of what a pull says, is an argument too. *)

From Stdlib Require Import ZArith Lia Bool SpecFloat.
From stdpp Require Import base list option sets relations.
From S2P Require Import Prelude GoStrings Sha256 Float64 Regex KeyMatcher Config JsonString Engine Scanner.
From S2P Require Import ConfigSources Stats Base64 Signing PolicyFile Webhook RemoteSync OperatorStats.

(** ** Conditions *)

Record condition := { cn_Type : gostring; cn_Status : bool; cn_Reason : gostring; cn_Message : gostring; cn_Generation : Z }.

(** [k8s.io/apimachinery/pkg/api/meta]; the time is the one a change of status is dated with. *)
Class ConditionAPI := {
  Conditions : Type;
  Conditions_eq_dec :: EqDecision Conditions;
  FindStatusCondition : gostring -> Conditions -> option condition;
  SetStatusCondition : Z -> condition -> Conditions -> Conditions;
  RemoveStatusCondition : gostring -> Conditions -> Conditions;
}.

Class ConditionLaws `{ConditionAPI} : Prop := {
  find_set t now c cs : FindStatusCondition t (SetStatusCondition now c cs) = if decide (t = cn_Type c) then Some c else FindStatusCondition t cs;
  find_remove t t' cs : FindStatusCondition t (RemoveStatusCondition t' cs) = if decide (t = t') then None else FindStatusCondition t cs;
}.

#[global] Instance RemoteStatus_eq_dec : EqDecision RemoteStatus.
Proof. solve_decision. Defined.
#[global] Instance StatsStatus_eq_dec : EqDecision StatsStatus.
Proof. solve_decision. Defined.

Section controller.
Context `{RegexpCompiler} `{Unicode} `{GoDecoders} `{Ed25519} `{KubernetesAPI} `{Float32} `{ConditionAPI}.
Context (UnmarshalSignature : gostring -> option SignatureFile) (Encode : Document -> gostring).

(** ** The object *)

(** The time of the last successful pull is kept beside [status.remote]. *)
Record policyStatus := {
  st_Conditions : Conditions; st_Remote : option (Z * RemoteStatus); st_Stats : option StatsStatus;
  st_RenderedPolicyConfigMap : gostring; st_RenderedPolicyHash : gostring;
}.

#[global] Instance policyStatus_eq_dec : EqDecision policyStatus.
Proof. solve_decision. Defined.

Record policyObject := { po_policy : WebhookPolicy; po_remote : option RemoteConfig; po_status : policyStatus }.

(** What the cluster holds of one policy. *)
Record cluster := { cl_object : option policyObject; cl_configmap : option ConfigMap }.

(** What the calls of a reconcile answer: whether the policy and its ConfigMap can be read, what the pull meets and says, with the reason of a file that is not valid,
    whether the rules can be rendered and written, the text of an error, and whether the status can be written. *)
Record reconcileWorld := {
  rw_get : bool; rw_get_configmap : bool; rw_remote : World; rw_remote_message : gostring; rw_invalid : gostring; rw_render : bool; rw_error : gostring;
  rw_update : bool; rw_now : Z;
}.

Record reconcileResult := { RequeueAfter : Z; failed : bool }.

(** ** The conditions of a policy *)

(** Whether the mode can be injected, and why not. *)
Definition available (p : WebhookPolicy) : condition :=
  let mode := mode_of p in
  let accepted := go "Policy is accepted. Effective injection mode: " ++ mode in
  let c (status : bool) (reason message : gostring) :=
    {| cn_Type := go "Available"; cn_Status := status; cn_Reason := reason; cn_Message := message; cn_Generation := Generation (pol_rules p) |} in
  if negb (existsb (str_eqb mode) [go "file"; go "pipe"; go "ebpf"])
  then c false (go "InvalidInjectionMode") (go "Unsupported injection mode: " ++ mode)
  else if str_eqb mode (go "ebpf") && negb (pol_AuditMode p)
  then c false (go "AuditModeRequired")
    (go "injection mode ebpf is the eBPF audit agent, which only observes; set auditMode: true (there is no eBPF redaction, see #96). Pods of this policy are denied")
  else c true (go "PolicyAccepted")
    (accepted ++
     if str_eqb mode (go "ebpf") then go "; eBPF audit agent: logs are observed, not modified, what would be redacted is counted"
     else if pol_AuditMode p then go "; audit mode: logs are not modified, what would be redacted is counted" else []).

Definition conditionRemoteSynced : gostring := go "RemoteSynced".

(** The reason of a failed pull; a file that is not valid has the reason of its check. *)
Definition reason_text (invalid : gostring) (r : remoteReason) : gostring :=
  match r with
  | InsecureURL => go "InsecureURL" | FetchFailed => go "FetchFailed" | TooLarge => go "TooLarge"
  | SignatureMissing => go "SignatureMissing" | SignatureInvalid => go "SignatureInvalid"
  | SignatureUntrusted => go "SignatureUntrusted" | SignatureReplayed => go "SignatureReplayed"
  | SignatureConfig => go "SignatureConfig" | SecretNotFound => go "SecretNotFound" | InvalidFile => invalid
  end.

Definition remote_condition (w : reconcileWorld) (generation : Z) (out : remoteOutcome) : condition := {|
  cn_Type := conditionRemoteSynced;
  cn_Status := match ro_reason out with None => true | Some _ => false end;
  cn_Reason := match ro_reason out with None => go "Synced" | Some r => reason_text (rw_invalid w) r end;
  cn_Message := rw_remote_message w; cn_Generation := generation |}.

Definition rendered (generation : Z) (ok : bool) (reason message : gostring) : condition := {|
  cn_Type := go "Rendered"; cn_Status := ok; cn_Reason := reason; cn_Message := message; cn_Generation := generation |}.

(** ** The status *)

Definition set_condition (now : Z) (c : condition) (s : policyStatus) : policyStatus := {|
  st_Conditions := SetStatusCondition now c (st_Conditions s); st_Remote := st_Remote s; st_Stats := st_Stats s;
  st_RenderedPolicyConfigMap := st_RenderedPolicyConfigMap s; st_RenderedPolicyHash := st_RenderedPolicyHash s |}.

(** [status.remote] after a pull: dated on success, left alone on failure, gone when the signature settings are wrong. *)
Definition remote_status (now : Z) (out : remoteOutcome) (s : policyStatus) : policyStatus := {|
  st_Conditions := st_Conditions s;
  st_Remote := match ro_reason out, ro_status out with
               | None, Some r => Some (now, r)
               | Some _, Some _ => st_Remote s
               | _, None => None
               end;
  st_Stats := st_Stats s; st_RenderedPolicyConfigMap := st_RenderedPolicyConfigMap s; st_RenderedPolicyHash := st_RenderedPolicyHash s |}.

Definition no_remote (s : policyStatus) : policyStatus := {|
  st_Conditions := RemoveStatusCondition conditionRemoteSynced (st_Conditions s); st_Remote := None; st_Stats := st_Stats s;
  st_RenderedPolicyConfigMap := st_RenderedPolicyConfigMap s; st_RenderedPolicyHash := st_RenderedPolicyHash s |}.

Definition clear_stats (p : WebhookPolicy) (s : policyStatus) : policyStatus :=
  if pol_Stats p then s
  else {| st_Conditions := st_Conditions s; st_Remote := st_Remote s; st_Stats := None;
          st_RenderedPolicyConfigMap := st_RenderedPolicyConfigMap s; st_RenderedPolicyHash := st_RenderedPolicyHash s |}.

Definition set_rendered (name hash : gostring) (s : policyStatus) : policyStatus := {|
  st_Conditions := st_Conditions s; st_Remote := st_Remote s; st_Stats := st_Stats s;
  st_RenderedPolicyConfigMap := name; st_RenderedPolicyHash := hash |}.

(** No pull. *)
Definition noOutcome : remoteOutcome := {|
  ro_doc := None; ro_raw := []; ro_etag := []; ro_verified := notVerified; ro_reason := None; ro_status := None; ro_requeue := 0 |}.

(** ** The handler *)

(** The remote part: [None] when the ConfigMap cannot be read. *)
Definition remote_part (w : reconcileWorld) (o : policyObject) (cm : option ConfigMap) (s : policyStatus) : option (policyStatus * remoteOutcome) :=
  match po_remote o with
  | None => Some (no_remote s, noOutcome)
  | Some rc =>
    if rw_get_configmap w then
      let out := syncRemote UnmarshalSignature rc (snd <$> st_Remote s) cm (rw_remote w) in
      Some (remote_status (rw_now w) out (set_condition (rw_now w) (remote_condition w (Generation (pol_rules (po_policy o))) out) s), out)
    else None
  end.

(** What a reconcile makes of an object: its new status, the time of the next pull, and the ConfigMap, if it was written. *)
Definition refresh (w : reconcileWorld) (o : policyObject) (cm : option ConfigMap) : policyStatus * Z * option ConfigMap :=
  let p := po_policy o in
  let generation := Generation (pol_rules p) in
  let name := ConfigMapName (pol_Name p) in
  let s := set_condition (rw_now w) (available p) (clear_stats p (po_status o)) in
  match (if CheckName (pol_Name p) then remote_part w o cm s else None) with
  | None => (set_condition (rw_now w) (rendered generation false (go "RenderFailed") (rw_error w)) s, 0, None)
  | Some (s, out) =>
    if rw_render w then
      let cm := renderConfigMap Encode (pol_rules p) out in
      (set_condition (rw_now w)
         (rendered generation true (go "ConfigMapUpToDate") (go "Rules rendered into ConfigMap " ++ name ++ go " (hash " ++ cm_hash cm ++ go ")"))
         (set_rendered name (cm_hash cm) s), ro_requeue out, Some cm)
    else (set_condition (rw_now w) (rendered generation false (go "RenderFailed") (rw_error w)) s, ro_requeue out, None)
  end.

(** [Reconcile]. *)
Definition Reconcile (w : reconcileWorld) (cl : cluster) : reconcileResult * cluster :=
  if negb (rw_get w) then ({| RequeueAfter := 0; failed := true |}, cl)
  else
    match cl_object cl with
    | None => ({| RequeueAfter := 0; failed := false |}, cl)
    | Some o =>
      let '(s, requeue, written) := refresh w o (cl_configmap cl) in
      let cm := match written with Some cm => Some cm | None => cl_configmap cl end in
      let result := {| RequeueAfter := requeue; failed := match written with Some _ => false | None => true end |} in
      if decide (po_status o = s) then (result, {| cl_object := Some o; cl_configmap := cm |})
      else if rw_update w
      then (result, {| cl_object := Some {| po_policy := po_policy o; po_remote := po_remote o; po_status := s |}; cl_configmap := cm |})
      else ({| RequeueAfter := 0; failed := true |}, {| cl_object := Some o; cl_configmap := cm |})
    end.

End controller.

(** ** The reconciler's runs

    A cluster changes by reconciles, whose calls may fail one by one, by edits of the policy and by writes to its
    status.  The ConfigMap is what a reconcile of [RemoteSync] leaves, or what it was. *)

Section controller.
Context `{RegexpCompiler} `{Unicode} `{GoDecoders} `{Ed25519} `{KubernetesAPI} `{Float32} `{ConditionAPI}.
Context (UnmarshalSignature : gostring -> option SignatureFile) (Encode : Document -> gostring).

Notation Reconcile := (Reconcile UnmarshalSignature Encode).
Notation reconcile := (reconcile UnmarshalSignature Encode).

Lemma object_eta o : o = {| po_policy := po_policy o; po_remote := po_remote o; po_status := po_status o |}.
Proof. by destruct o. Qed.

(** The object and the ConfigMap after a reconcile. *)
Lemma Reconcile_object w cl o :
  rw_get w = true -> cl_object cl = Some o ->
  let '(s, requeue, written) := refresh UnmarshalSignature Encode w o (cl_configmap cl) in
  exists s', cl_object (Reconcile w cl).2 = Some {| po_policy := po_policy o; po_remote := po_remote o; po_status := s' |} /\
    cl_configmap (Reconcile w cl).2 = match written with Some cm => Some cm | None => cl_configmap cl end /\
    (rw_update w = true -> s' = s /\ failed (Reconcile w cl).1 = match written with Some _ => false | None => true end).
Proof.
  intros Hg Ho. unfold Controller.Reconcile. rewrite Hg, Ho. cbn [negb].
  destruct (refresh UnmarshalSignature Encode w o (cl_configmap cl)) as [[s requeue] written].
  case_decide as Hs; [|destruct (rw_update w)]; cbn; eexists; (split; [first [reflexivity|f_equal; apply object_eta]|]); split; try done.
Qed.

Lemma refresh_configmap w o cm s n x :
  refresh UnmarshalSignature Encode w o cm = (s, n, Some x) ->
  match po_remote o with
  | Some rc => exists status, Some x = snd (reconcile rc (pol_rules (po_policy o)) (status, cm) (rw_remote w))
  | None => x = renderConfigMap Encode (pol_rules (po_policy o)) noOutcome
  end.
Proof.
  unfold refresh, remote_part. destruct (CheckName _); [|done]. destruct (po_remote o) as [rc|]; [destruct (rw_get_configmap w); [|done]|].
  - destruct (rw_render w); [|done]. intros [= _ _ <-].
    exists (snd <$> st_Remote (set_condition (rw_now w) (available (po_policy o)) (clear_stats (po_policy o) (po_status o)))). reflexivity.
  - destruct (rw_render w); [|done]. by intros [= _ _ <-].
Qed.

Lemma Reconcile_cluster w cl :
  let cl' := (Reconcile w cl).2 in
  cl' = cl \/
  exists o s', cl_object cl = Some o /\ cl_object cl' = Some {| po_policy := po_policy o; po_remote := po_remote o; po_status := s' |} /\
    (cl_configmap cl' = cl_configmap cl \/
     match po_remote o with
     | Some rc => exists status, cl_configmap cl' = snd (reconcile rc (pol_rules (po_policy o)) (status, cl_configmap cl) (rw_remote w))
     | None => cl_configmap cl' = Some (renderConfigMap Encode (pol_rules (po_policy o)) noOutcome)
     end).
Proof.
  cbv zeta. destruct (rw_get w) eqn:Eg; [|left; unfold Controller.Reconcile; by rewrite Eg].
  destruct (cl_object cl) as [o|] eqn:Eo; [|left; unfold Controller.Reconcile; by rewrite Eg, Eo].
  right. pose proof (Reconcile_object w cl o Eg Eo) as Hr.
  destruct (refresh UnmarshalSignature Encode w o (cl_configmap cl)) as [[s n] written] eqn:Ef. destruct Hr as (s' & Hobj & Hcm & _).
  exists o, s'. split; [done|]. split; [done|]. rewrite Hcm. destruct written as [x|]; [|by left]. right.
  pose proof (refresh_configmap _ _ _ _ _ _ Ef) as Hx. destruct (po_remote o); [done|by rewrite Hx].
Qed.

(** ** Runs *)

(** A step of the cluster, while the policy's source of remote rules stays. *)
Inductive cluster_step : cluster -> cluster -> Prop :=
| step_reconcile w cl : cluster_step cl (Reconcile w cl).2
| step_edit cl o p : cl_object cl = Some o ->
    cluster_step cl {| cl_object := Some {| po_policy := p; po_remote := po_remote o; po_status := po_status o |}; cl_configmap := cl_configmap cl |}
| step_status cl o s : cl_object cl = Some o ->
    cluster_step cl {| cl_object := Some {| po_policy := po_policy o; po_remote := po_remote o; po_status := s |}; cl_configmap := cl_configmap cl |}.

Definition cluster_run : cluster -> cluster -> Prop := rtc cluster_step.

Context (laws : JsonLaws UnmarshalSignature) (rc : RemoteConfig) (keys : list TrustedKey) (set : gostring) (sigURL : option scheme).
Context (settings : signature_settings rc = Some (Some (keys, set, sigURL))).

(** The remote file of a ConfigMap is authentic and found again, and the rules are it under some local rules. *)
Definition configmap_ok (cm : option ConfigMap) : Prop := forall x, cm = Some x -> exists p, state_ok Encode p keys set (Some x).

Lemma configmap_copy_ok cm : configmap_ok cm -> copy_ok keys set cm.
Proof. intros Hok. destruct cm as [x|]; [|done]. destruct (Hok x eq_refl) as [p Hp]. by eapply state_copy_ok. Qed.

Definition cluster_ok (cl : cluster) : Prop :=
  (forall o, cl_object cl = Some o -> po_remote o = Some rc) /\ configmap_ok (cl_configmap cl).

Lemma step_ok cl cl' :
  cluster_step cl cl' -> cluster_ok cl -> cluster_ok cl' /\ floor keys (cl_configmap cl) <= floor keys (cl_configmap cl').
Proof.
  intros Hs [Ho Hcm]. destruct Hs as [w cl|cl o p' Eo|cl o s Eo].
  - destruct (Reconcile_cluster w cl) as [->|(o & s' & Eo & Eo' & Hc)]; [done|].
    assert (po_remote o = Some rc) as Er by auto. rewrite Er in Hc.
    assert (forall x, cl_object (Reconcile w cl).2 = Some x -> po_remote x = Some rc) as Ho'
      by (intros x; rewrite Eo'; by intros [= <-]).
    unfold cluster_ok. destruct Hc as [->|[status ->]]; [done|].
    destruct (reconcile_copy_ok UnmarshalSignature Encode laws rc (pol_rules (po_policy o)) keys set sigURL settings
      (status, cl_configmap cl) (rw_remote w)) as [Hok Hle]; [by apply configmap_copy_ok|].
    split; [split; [done|]|exact Hle]. intros x Hx. rewrite Hx in Hok. by eexists.
  - split; [split; [|done]|done]. intros x [= <-]. cbn. auto.
  - split; [split; [|done]|done]. intros x [= <-]. cbn. auto.
Qed.

Lemma run_ok cl cl' :
  cluster_run cl cl' -> cluster_ok cl -> cluster_ok cl' /\ floor keys (cl_configmap cl) <= floor keys (cl_configmap cl').
Proof.
  induction 1 as [cl|cl cl1 cl2 Hs Hr IH]; intros Hok; [by split|]. destruct (step_ok _ _ Hs Hok) as [Hok1 Hle1].
  destruct (IH Hok1) as [Hok2 Hle2]. split; [done|lia].
Qed.

End controller.
