(* ===== verification/Accounts.v ===== *)
(** * Tables of the rule server

    [rules/internal/store/accounts.go]: a user belongs to one organization and signs in
    with a magic link sent to the e-mail address; the link and the session that follows are
    random values, stored hashed.

    A user is never deleted, so that the id of a user is the position of its row; links and
    sessions are deleted, and no id of theirs is used.  A method returns its result and the
    tables, which an error leaves as they were unless the source has committed by then.

    Parameters: [mail.ParseAddress], and the random bytes each method draws. *)

From Stdlib Require Import ZArith Lia Bool.
From stdpp Require Import base list option.
From S2P Require Import Prelude GoStrings Sha256 Tokens JsonString Engine RulesStore StoredTime Reports.

(** ** Tables *)

Record UserRow := { u_org : nat; u_email : gostring; u_invited_by : gostring; u_last_login : option stamp }.

Record LoginRow := { l_email : gostring; l_hash : gostring; l_expires : stamp; l_used : option stamp }.

Record SessionRow := { s_user : nat; s_hash : gostring; s_expires : stamp }.

(** The whole database. *)
Record Tables := {
  base : DB; users : list UserRow; logins : list LoginRow; sessions : list SessionRow; reports : list Report;
}.

Definition emptyTables : Tables := {| base := emptyDB; users := []; logins := []; sessions := []; reports := [] |}.

Definition set_reports (l : list Report) (a : Tables) : Tables :=
  {| base := base a; users := users a; logins := logins a; sessions := sessions a; reports := l |}.
Definition set_base (db : DB) (a : Tables) : Tables :=
  {| base := db; users := users a; logins := logins a; sessions := sessions a; reports := reports a |}.
Definition set_users (l : list UserRow) (a : Tables) : Tables :=
  {| base := base a; users := l; logins := logins a; sessions := sessions a; reports := reports a |}.
Definition set_logins (l : list LoginRow) (a : Tables) : Tables :=
  {| base := base a; users := users a; logins := l; sessions := sessions a; reports := reports a |}.
Definition set_sessions (l : list SessionRow) (a : Tables) : Tables :=
  {| base := base a; users := users a; logins := logins a; sessions := l; reports := reports a |}.

(** [INSERT] into a table with a [UNIQUE] column: the id of the row and the table. *)
Definition insert_unique {R} (column : R -> gostring) (r : R) (t : list R) : option (nat * list R) :=
  match select (fun x => str_eqb (column x) (column r)) t with
  | Some _ => None
  | None => Some (length t, t ++ [r])
  end.

(** [UPDATE ... WHERE p]. *)
Definition update_where {R} (p : R -> bool) (g : R -> R) (t : list R) : list R := (fun r => if p r then g r else r) <$> t.

(** [DELETE ... WHERE p]. *)
Definition delete_where {R} (p : R -> bool) (t : list R) : list R := filter (fun r => p r = false) t.

(** [SELECT COUNT( * ) ... WHERE p]. *)
Definition count_where {R} (p : R -> bool) (t : list R) : nat := length (filter (fun r => p r = true) t).

(** ** Addresses *)

(** [mail.ParseAddress]: the name and the address. *)
Class MailAddress := { ParseAddress : gostring -> option (gostring * gostring) }.

Section addresses.
Context `{Unicode} `{MailAddress}.

(** [NormalizeEmail]. *)
Definition NormalizeEmail (email : gostring) : store_result gostring :=
  let email := ToLower (TrimSpace email) in
  if is_empty email || (254 <? length email)%nat then inl ErrInvalidEmail
  else
    match ParseAddress email with
    | None => inl ErrInvalidEmail
    | Some (name, address) =>
      if negb (str_eqb address email) || negb (is_empty name) || negb (ContainsByte email (ch "@")) then inl ErrInvalidEmail
      else inr email
    end.

End addresses.

(** One rune of the local part. *)
Definition slug_rune (b : gostring) (r : rune) : gostring :=
  if between 97 r 122 || between 48 r 57 then b ++ EncodeRune r
  else if negb (is_empty b) && negb (HasSuffix b (go "-")) then b ++ go "-"
  else b.

(** [slugFromEmail]; [None] is the panic of a slice up to -1. *)
Definition slugFromEmail (email : gostring) : option gostring :=
  match IndexByte email (ch "@") with
  | None => None
  | Some i =>
    let slug := TrimRight (foldl slug_rune [] (runes (take i email))) (go "-") in
    let slug := if (40 <? length slug)%nat then TrimRight (take 40 slug) (go "-") else slug in
    Some (if is_empty slug then go "org" else slug)
  end.

(** ** Users *)

(** [GetUserByID]. *)
Definition GetUserByID (id : nat) (a : Tables) : store_result UserRow := or_error ErrNotFound (users a !! id).

(** [ListUsers]: with their ids, oldest first. *)
Definition ListUsers (org : nat) (a : Tables) : list (nat * UserRow) :=
  filter (fun '(_, u) => Nat.eqb (u_org u) org = true) (imap pair (users a)).

Definition new_user (org : nat) (email invitedBy : gostring) : UserRow :=
  {| u_org := org; u_email := email; u_invited_by := invitedBy; u_last_login := None |}.

Definition with_id {A} (id : nat) (r : store_result A) : store_result (nat * A) :=
  match r with inl e => inl e | inr x => inr (id, x) end.

Section users.
Context `{Unicode} `{MailAddress}.

(** [GetUserByEmail]. *)
Definition GetUserByEmail (email : gostring) (a : Tables) : store_result (nat * UserRow) :=
  match NormalizeEmail email with
  | inl e => inl e
  | inr email => or_error ErrNotFound (select (fun u => str_eqb (u_email u) email) (users a))
  end.

(** [CreateUser]. *)
Definition CreateUser (org : nat) (email invitedBy : gostring) (a : Tables) : store_result (nat * UserRow) * Tables :=
  match NormalizeEmail email with
  | inl e => (inl e, a)
  | inr email =>
    match GetOrgByID org (base a) with
    | inl e => (inl e, a)
    | inr _ =>
      match insert_unique u_email (new_user org email invitedBy) (users a) with
      | None => (inl ErrExists, a)
      | Some (id, l) => let a := set_users l a in (with_id id (GetUserByID id a), a)
      end
    end
  end.

(** The slug of an attempt; [suffix] are the two random bytes it draws. *)
Definition attempt_slug (slug : gostring) (suffix : nat -> gostring) (attempt : nat) : gostring :=
  match attempt with
  | O => slug
  | S _ => take (Nat.min (length slug) 58) slug ++ go "-" ++ hex_encode (suffix attempt)
  end.

(** The loop of [Signup] from an attempt on, with [n] attempts left: the ids of the user and of the organization. *)
Fixpoint signup_attempts (n attempt : nat) (slug email : gostring) (suffix : nat -> gostring) (a : Tables) :
    store_result (nat * UserRow * (nat * OrgRow)) * Tables :=
  match n with
  | O => (inl ErrNoFreeSlug, a)
  | S n =>
    match insert_unique o_slug {| o_slug := attempt_slug slug suffix attempt; o_name := email |} (orgs (base a)) with
    | None => signup_attempts n (S attempt) slug email suffix a
    | Some (orgID, os) =>
      let tx := set_base (set_orgs os (base a)) a in
      match insert_unique u_email (new_user orgID email []) (users tx) with
      | None => (inl ErrExists, a)
      | Some (userID, us) =>
        let a := set_users us tx in
        match GetUserByID userID a, GetOrgByID orgID (base a) with
        | inl e, _ | inr _, inl e => (inl e, a)
        | inr u, inr o => (inr (userID, u, (orgID, o)), a)
        end
      end
    end
  end.

(** [Signup]; [None] is a panic. *)
Definition Signup (suffix : nat -> gostring) (email : gostring) (a : Tables) :
    option (store_result (nat * UserRow * (nat * OrgRow)) * Tables) :=
  match NormalizeEmail email with
  | inl e => Some (inl e, a)
  | inr email => (fun slug => signup_attempts 5 0 slug email suffix a) <$> slugFromEmail email
  end.

(** ** Links *)

(** [CreateLogin]; [raw] are the 32 bytes of [randomValue]. *)
Definition CreateLogin (raw : gostring) (now : Z) (email : gostring) (ttl : Z) (a : Tables) : store_result gostring * Tables :=
  match NormalizeEmail email with
  | inl e => (inl e, a)
  | inr email =>
    let value := hex_encode raw in
    match insert_unique l_hash
            {| l_email := email; l_hash := HashToken value; l_expires := FormatTime (now + ttl); l_used := None |} (logins a) with
    | None => (inl ErrUnique, a)
    | Some (_, l) => (inr value, set_logins l a)
    end
  end.

End users.

Definition login_hash (value : gostring) (l : LoginRow) : bool := str_eqb (l_hash l) (HashToken value).

(** The [WHERE] clause of the update. *)
Definition login_open (now : stamp) (value : gostring) (l : LoginRow) : bool :=
  login_hash value l && match l_used l with None => true | Some _ => false end && stamp_ltb now (l_expires l).

Definition use_login (now : stamp) (l : LoginRow) : LoginRow :=
  {| l_email := l_email l; l_hash := l_hash l; l_expires := l_expires l; l_used := Some now |}.

(** [ConsumeLogin]. *)
Definition ConsumeLogin (now : Z) (value : gostring) (a : Tables) : store_result gostring * Tables :=
  let nowS := FormatTime now in
  let affected := count_where (login_open nowS value) (logins a) in
  let a := set_logins (update_where (login_open nowS value) (use_login nowS) (logins a)) a in
  if Nat.eqb affected 1 then (or_error ErrNoRows ((fun '(_, l) => l_email l) <$> select (login_hash value) (logins a)), a)
  else if Nat.eqb (count_where (login_hash value) (logins a)) 0 then (inl ErrNotFound, a)
  else (inl ErrExpired, a).

(** ** Sessions *)

Definition sign_in (now : stamp) (u : UserRow) : UserRow :=
  {| u_org := u_org u; u_email := u_email u; u_invited_by := u_invited_by u; u_last_login := Some now |}.

(** [expires_at <= now]. *)
Definition expired (now expires : stamp) : bool := negb (stamp_ltb now expires).

(** [CreateSession]. *)
Definition CreateSession (raw : gostring) (now : Z) (user : nat) (ttl : Z) (a : Tables) : store_result gostring * Tables :=
  let value := hex_encode raw in
  let nowS := FormatTime now in
  match insert_unique s_hash {| s_user := user; s_hash := HashToken value; s_expires := FormatTime (now + ttl) |} (sessions a) with
  | None => (inl ErrUnique, a)
  | Some (_, l) =>
    match users a !! user with
    | None => (inl ErrForeignKey, a)
    | Some _ =>
      (inr value,
       {| base := base a;
          users := alter (sign_in nowS) user (users a);
          logins := delete_where (fun x => expired nowS (l_expires x)) (logins a);
          sessions := delete_where (fun x => expired nowS (s_expires x)) l;
          reports := reports a |})
    end
  end.

(** [Session]. *)
Record Session := { sess_user_id : nat; sess_user : UserRow; sess_org : OrgRow }.

Definition session_open (now : stamp) (value : gostring) (s : SessionRow) : bool :=
  str_eqb (s_hash s) (HashToken value) && stamp_ltb now (s_expires s).

(** [GetSession]. *)
Definition GetSession (now : Z) (value : gostring) (a : Tables) : store_result Session :=
  match select (session_open (FormatTime now) value) (sessions a) with
  | None => inl ErrNotFound
  | Some (_, s) =>
    match GetUserByID (s_user s) a with
    | inl e => inl e
    | inr u =>
      match GetOrgByID (u_org u) (base a) with
      | inl e => inl e
      | inr o => inr {| sess_user_id := s_user s; sess_user := u; sess_org := o |}
      end
    end
  end.

(** [DeleteSession]. *)
Definition DeleteSession (value : gostring) (a : Tables) : Tables :=
  set_sessions (delete_where (fun s => str_eqb (s_hash s) (HashToken value)) (sessions a)) a.
