(* ===== verification/Limits.v ===== *)
(** * Rate limits by key

    [rules/internal/server/limits.go]: one token bucket per address, idle buckets dropped when there are ten
    thousand of them.  The bucket is [golang.org/x/time/rate], a parameter. *)

From Stdlib Require Import ZArith Lia Bool.
From stdpp Require Import base list option fin_maps gmap.
From S2P Require Import Prelude GoStrings.

(** [rate.NewLimiter(rate.Every(every), burst)] and [AllowN(now, 1)]. *)
Class RateLimiter := {
  limiter : Type;
  NewLimiter : Z -> Z -> limiter;
  AllowN : Z -> limiter -> bool * limiter;
}.

Section limits.
Context `{RateLimiter}.

Record bucket := { lim : limiter; seen : Z }.

Record keyedLimiter := { every : Z; burst : Z; buckets : gmap gostring bucket }.

(** [newKeyedLimiter]. *)
Definition newKeyedLimiter (e b : Z) : keyedLimiter := {| every := e; burst := b; buckets := ∅ |}.

Definition idle (k : keyedLimiter) : Z := every k * burst k.

Definition set_buckets (m : gmap gostring bucket) (k : keyedLimiter) : keyedLimiter :=
  {| every := every k; burst := burst k; buckets := m |}.

(** [prune]. *)
Definition prune (now : Z) (k : keyedLimiter) : keyedLimiter :=
  set_buckets (filter (fun '(_, b) => now - seen b <= idle k) (buckets k)) k.

(** One event on a bucket. *)
Definition use_bucket (now : Z) (key : gostring) (l : limiter) (k : keyedLimiter) : bool * keyedLimiter :=
  let '(ok, l) := AllowN now l in (ok, set_buckets (<[key := {| lim := l; seen := now |}]> (buckets k)) k).

(** [allow]. *)
Definition allow (now : Z) (key : gostring) (k : keyedLimiter) : bool * keyedLimiter :=
  match buckets k !! key with
  | Some b => use_bucket now key (lim b) k
  | None =>
    let k := if (10000 <=? size (buckets k))%nat then prune now k else k in
    use_bucket now key (NewLimiter (every k) (burst k)) k
  end.

(** The same limiter that never drops a bucket. *)
Definition allow_keeping (now : Z) (key : gostring) (k : keyedLimiter) : bool * keyedLimiter :=
  match buckets k !! key with
  | Some b => use_bucket now key (lim b) k
  | None => use_bucket now key (NewLimiter (every k) (burst k)) k
  end.

(** The answers to a sequence of events. *)
Fixpoint answers (f : Z -> gostring -> keyedLimiter -> bool * keyedLimiter) (events : list (Z * gostring)) (k : keyedLimiter) : list bool :=
  match events with
  | [] => []
  | (now, key) :: rest => let '(b, k') := f now key k in b :: answers f rest k'
  end.

(** Times that do not go back. *)
Fixpoint in_order (t : Z) (events : list (Z * gostring)) : Prop :=
  match events with
  | [] => True
  | (now, _) :: rest => t <= now /\ in_order now rest
  end.

(** ** One bucket per token *)

(** [Server.limiter] and [Allow] on the bucket it returns; [fresh] is the new bucket of the configured rate. *)
Definition allow_token (fresh : limiter) (now : Z) (id : nat) (m : gmap nat limiter) : bool * gmap nat limiter :=
  let '(ok, l) := AllowN now (default fresh (m !! id)) in (ok, <[id := l]> m).

(** The answers to a sequence of pulls, and those of one bucket. *)
Fixpoint token_answers (fresh : limiter) (events : list (Z * nat)) (m : gmap nat limiter) : list (nat * bool) :=
  match events with
  | [] => []
  | (now, id) :: rest => let '(ok, m) := allow_token fresh now id m in (id, ok) :: token_answers fresh rest m
  end.

Fixpoint bucket_answers (l : limiter) (times : list Z) : list bool :=
  match times with
  | [] => []
  | now :: rest => let '(ok, l) := AllowN now l in ok :: bucket_answers l rest
  end.

Definition pulls_of (id : nat) (events : list (Z * nat)) : list Z := (filter (fun e => e.2 = id) events).*1.

Lemma token_answers_own fresh id events m :
  (filter (fun a => a.1 = id) (token_answers fresh events m)).*2 = bucket_answers (default fresh (m !! id)) (pulls_of id events).
Proof.
  unfold pulls_of. revert m. induction events as [|[now id'] events IH]; intros m; [done|]. cbn [token_answers]. unfold allow_token.
  destruct (AllowN now (default fresh (m !! id'))) as [ok l] eqn:E. rewrite !filter_cons. cbn [fst snd].
  destruct (decide (id' = id)) as [->|Hne]; cbn [fmap list_fmap bucket_answers fst snd].
  - rewrite E, IH, lookup_insert_eq. done.
  - rewrite IH, lookup_insert_ne by done. done.
Qed.

(** ** A token bucket that has been idle is a new one *)

(** A limiter last used at a time. *)
Inductive used (e b : Z) : Z -> limiter -> Prop :=
| used_first t : used e b t (snd (AllowN t (NewLimiter e b)))
| used_again t t' l : used e b t l -> t <= t' -> used e b t' (snd (AllowN t' l)).

Class RateLimiterLaws : Prop :=
  refilled e b t t' l : 0 < e -> 0 < b -> used e b t l -> e * b < t' - t -> AllowN t' l = AllowN t' (NewLimiter e b).

Context {L : RateLimiterLaws}.

(** The buckets at a time: those kept are the same, those dropped were idle. *)
Record similar (t : Z) (k ref : keyedLimiter) : Prop := {
  sim_every : every k = every ref;
  sim_burst : burst k = burst ref;
  sim_positive : 0 < every ref /\ 0 < burst ref;
  sim_buckets : forall key,
    buckets k !! key = buckets ref !! key \/
    (buckets k !! key = None /\ exists b, buckets ref !! key = Some b /\ idle ref < t - seen b);
  sim_used : forall key b, buckets ref !! key = Some b -> used (every ref) (burst ref) (seen b) (lim b) /\ seen b <= t;
}.

Lemma similar_later t t' k ref : t <= t' -> similar t k ref -> similar t' k ref.
Proof.
  intros Ht [H1 H2 H0 H3 H4]. split; [done..| |].
  - intros key. destruct (H3 key) as [?|(? & b & ? & ?)]; [by left|]. right. split; [done|]. exists b. split; [done|lia].
  - intros key b Hb. destruct (H4 key b Hb). split; [done|lia].
Qed.

Lemma similar_prune t k ref : similar t k ref -> similar t (prune t k) ref.
Proof.
  intros [H1 H2 H0 H3 H4]. split; [done..| |done]. intros key. simpl. rewrite map_lookup_filter.
  assert (idle k = idle ref) as Hi by (unfold idle; congruence).
  destruct (H3 key) as [E|(E & ?)]; rewrite E.
  - destruct (buckets ref !! key) as [b|] eqn:Eb; [|by left]. simpl. case_guard as Hg; simpl; [by left|]. right. split; [done|].
    exists b. split; [done|]. lia.
  - right. done.
Qed.

Lemma similar_use t key l k ref :
  similar t k ref -> used (every ref) (burst ref) t (snd (AllowN t l)) ->
  fst (use_bucket t key l k) = fst (use_bucket t key l ref) /\ similar t (snd (use_bucket t key l k)) (snd (use_bucket t key l ref)).
Proof.
  intros [H1 H2 H0 H3 H4] Hu. unfold use_bucket. destruct (AllowN t l) as [ok l']. simpl in *. split; [done|]. split; [done..| |].
  - intros x. simpl. destruct (decide (x = key)) as [->|Hne]; [left; by rewrite !lookup_insert_eq|].
    rewrite !lookup_insert_ne by done. apply H3.
  - intros x b. simpl. destruct (decide (x = key)) as [->|Hne].
    + rewrite lookup_insert_eq. intros [= <-]. simpl. split; [done|lia].
    + rewrite lookup_insert_ne by done. apply H4.
Qed.

Lemma similar_step t key k ref :
  similar t k ref ->
  fst (allow t key k) = fst (allow_keeping t key ref) /\ similar t (snd (allow t key k)) (snd (allow_keeping t key ref)).
Proof.
  intros Hs. unfold allow, allow_keeping. destruct (sim_buckets _ _ _ Hs key) as [E|(E & b & Eb & Hi)]; rewrite E.
  - destruct (buckets ref !! key) as [b|] eqn:Eb.
    + apply similar_use; [done|]. destruct (sim_used _ _ _ Hs key b Eb). by eapply used_again.
    + set (k' := if (10000 <=? size (buckets k))%nat then prune t k else k). assert (similar t k' ref) as Hs' by (unfold k'; case_match; [by apply similar_prune|done]).
      rewrite (sim_every _ _ _ Hs'), (sim_burst _ _ _ Hs'). apply similar_use; [done|constructor].
  - rewrite Eb. set (k' := if (10000 <=? size (buckets k))%nat then prune t k else k). assert (similar t k' ref) as Hs' by (unfold k'; case_match; [by apply similar_prune|done]).
    rewrite (sim_every _ _ _ Hs'), (sim_burst _ _ _ Hs'). destruct (sim_used _ _ _ Hs key b Eb) as [Hu _].
    destruct (sim_positive _ _ _ Hs) as [He Hb].
    assert (AllowN t (lim b) = AllowN t (NewLimiter (every ref) (burst ref))) as Er by (by eapply refilled).
    destruct (similar_use t key (NewLimiter (every ref) (burst ref)) k' ref Hs') as [H1 H2]; [constructor|].
    unfold use_bucket in *. rewrite Er. done.
Qed.

Lemma answers_similar events t k ref : in_order t events -> similar t k ref -> answers allow events k = answers allow_keeping events ref.
Proof.
  revert t k ref. induction events as [|[now key] events IH]; intros t k ref Ho Hs; [done|]. simpl in *. destruct Ho as [Hle Ho].
  destruct (similar_step now key k ref (similar_later _ _ _ _ Hle Hs)) as [H1 H2].
  destruct (allow now key k) as [b1 k1], (allow_keeping now key ref) as [b2 k2]. simpl in *. subst b2. f_equal. by eapply IH.
Qed.

Lemma new_similar t e b : 0 < e -> 0 < b -> similar t (newKeyedLimiter e b) (newKeyedLimiter e b).
Proof. intros ? ?. split; [done..|by left|]. intros key x. simpl. by rewrite lookup_empty. Qed.

End limits.
