(* ===== verification/Auth.v ===== *)
(** * Who may call the rule server, and sign-in

    [rules/internal/server/auth.go] over [accounts.go] of the store: the caller of a management
    request, the checks on where a browser's request comes from, magic links, sessions and
    members; and the start of the server ([New] of [server.go]).

    Parameters: [url.Parse], the case folding of Unicode, [mail.ParseAddress], the answers of the
    rate limiters, whether the mailer delivers, and the random bytes drawn. *)

From Stdlib Require Import ZArith Lia Bool.
From stdpp Require Import base list option.
From S2P Require Import Prelude GoStrings Sha256 Tokens JsonString Engine Signing RulesStore RulesServer.
From S2P Require Import StoredTime Reports Accounts.

(** ** Pieces of the standard library *)

Record URL := { url_Scheme : gostring; url_Host : gostring; url_HasUser : bool; url_RawQuery : gostring; url_Fragment : gostring }.

(** [url.Parse], and a representative of the runes a rune folds to. *)
Class Web := { ParseURL : gostring -> option URL; FoldRune : rune -> rune }.

Section fold.
Context `{Web}.

(** [strings.EqualFold]. *)
Definition EqualFoldText (s t : gostring) : bool := bool_decide (FoldRune <$> runes s = FoldRune <$> runes t).

End fold.

(** [net.SplitHostPort]: the host and the port. *)
Definition SplitHostPort (hostport : gostring) : option (gostring * gostring) :=
  match LastIndexByte hostport (ch ":") with
  | None => None
  | Some i =>
    let port := drop (S i) hostport in
    match hostport with
    | c :: _ =>
      if c =? ch "[" then
        match IndexByte hostport (ch "]") with
        | Some e =>
          if Nat.eqb (S e) i && negb (ContainsByte (drop 1 hostport) (ch "[")) && negb (ContainsByte (drop (S e) hostport) (ch "]"))
          then Some (take (e - 1) (drop 1 hostport), port) else None
        | None => None
        end
      else
        let host := take i hostport in
        if ContainsByte host (ch ":") || ContainsByte hostport (ch "[") || ContainsByte hostport (ch "]") then None
        else Some (host, port)
    | [] => None
    end
  end.

(** [url.QueryEscape]. *)
Definition query_plain (c : byte) : bool :=
  isASCIILetter c || isASCIIDigit c || (c =? ch "-") || (c =? ch "_") || (c =? ch ".") || (c =? ch "~").

Definition upper_hex (n : Z) : byte := if n <? 10 then 48 + n else 55 + n.

Definition QueryEscape (s : gostring) : gostring :=
  concat ((fun c => if query_plain c then [c] else if c =? ch " " then go "+"
                    else [ch "%"; upper_hex (c / 16); upper_hex (c mod 16)]) <$> s).

(** [fmt.Sprintf] with one string operand, [None] once it is used.  A directive is a percent sign and a verb; a directive with
    flags, a width, an argument index or a verb that formats a string otherwise is [other]'s. *)
Class Formatter := { FormatOther : gostring -> option gostring -> gostring }.

Section format.
Context `{Formatter}.

Definition bad_verb (c : byte) (operand : option gostring) : gostring :=
  go "%!" ++ [c] ++ match operand with Some v => go "(string=" ++ v ++ go ")" | None => go "(MISSING)" end.

Definition plain_verb (c : byte) : bool := isASCIILetter c && negb (ContainsByte (go "xXqTpw") c).

Fixpoint Sprintf (format : gostring) (operand : option gostring) : gostring :=
  match format with
  | [] => match operand with Some v => go "%!(EXTRA string=" ++ v ++ go ")" | None => [] end
  | c :: rest =>
    if negb (c =? ch "%") then c :: Sprintf rest operand
    else
      match rest with
      | [] => go "%!(NOVERB)" ++ Sprintf rest operand
      | v :: rest' =>
        if v =? ch "%" then ch "%" :: Sprintf rest' operand
        else if (v =? ch "s") || (v =? ch "v") then
          match operand with
          | Some s => s ++ Sprintf rest' None
          | None => bad_verb v None ++ Sprintf rest' None
          end
        else if plain_verb v then bad_verb v operand ++ Sprintf rest' None
        else FormatOther (v :: rest') operand
      end
  end.

End format.

(** ** Configuration and requests *)

Record serverConfig := {
  AdminToken : gostring; SingleTenant : bool; BaseURL : gostring; HasMailer : bool; SignupOpen : bool;
  TrustProxy : bool; InsecureCookies : bool; SessionTTL : Z; LoginTTL : Z;
}.

Definition DefaultSessionTTL : Z := 30 * 24 * 3600 * second_ns.
Definition DefaultLoginTTL : Z := 15 * 60 * second_ns.
Definition DefaultOrg : gostring := go "default".

(** What is read of a request; an absent header is empty. *)
Record httpRequest := {
  rq_Method : gostring; rq_Host : gostring; rq_RemoteAddr : gostring; rq_at : Z;
  h_Authorization : gostring; h_Origin : gostring; h_Referer : gostring; h_XRequestedWith : gostring; h_XForwardedFor : gostring;
  rq_cookie : option gostring;
}.

(** A [principal] with its session value. *)
Record caller := { c_principal : principal; c_session : gostring }.

Definition nobody : principal := {| is_admin := false; is_open := false; pr_user := None; pr_org := None |}.
Definition admin_caller : caller := {| c_principal := {| is_admin := true; is_open := false; pr_user := None; pr_org := None |}; c_session := [] |}.
Definition open_caller : caller := {| c_principal := {| is_admin := false; is_open := true; pr_user := None; pr_org := None |}; c_session := [] |}.

(** [email]. *)
Definition caller_email (p : principal) : gostring := default [] (pr_user p).

(** [authenticate]: [None] is an anonymous request. *)
Definition authenticate (cfg : serverConfig) (r : httpRequest) (a : Tables) : store_result (option caller) :=
  match bearer (h_Authorization r), is_empty (AdminToken cfg) with
  | Some value, false => inr (if str_eqb value (AdminToken cfg) then Some admin_caller else None)
  | _, _ =>
    if SingleTenant cfg && is_empty (AdminToken cfg) then inr (Some open_caller)
    else
      match rq_cookie r with
      | None | Some [] => inr None
      | Some value =>
        match GetSession (rq_at r) value a with
        | inl ErrNotFound => inr None
        | inl e => inl e
        | inr sess =>
          inr (Some {| c_principal := {| is_admin := false; is_open := false; pr_user := Some (u_email (sess_user sess));
                                         pr_org := Some (u_org (sess_user sess)) |};
                       c_session := value |})
        end
      end
  end.

(** [safeMethod] and [fromBrowser]. *)
Definition safeMethod (m : gostring) : bool := in_words m [go "GET"; go "HEAD"; go "OPTIONS"].
Definition fromBrowser (r : httpRequest) : bool := negb (is_empty (h_Origin r)) || negb (is_empty (h_Referer r)).

Section origin.
Context `{Web} (cfg : serverConfig).

(** [baseHost]. *)
Definition baseHost : gostring :=
  if is_empty (BaseURL cfg) then [] else match ParseURL (BaseURL cfg) with None => [] | Some u => url_Host u end.

(** [originProblem]: the message of the refusal, empty for none. *)
Definition originProblem (r : httpRequest) : gostring :=
  let source := if is_empty (h_Origin r) || str_eqb (h_Origin r) (go "null") then h_Referer r else h_Origin r in
  if is_empty source then go "missing Origin header"
  else
    match ParseURL source with
    | None => go "unreadable Origin header"
    | Some u =>
      if is_empty (url_Host u) then go "unreadable Origin header"
      else if negb (EqualFoldText (url_Host u) (rq_Host r)) && negb (EqualFoldText (url_Host u) baseHost)
      then go "cross-site request refused"
      else []
    end.

(** [csrfProblem]. *)
Definition csrfProblem (r : httpRequest) : gostring :=
  if is_empty (h_XRequestedWith r) then go "missing X-Requested-With header" else originProblem r.

(** [baseURL]. *)
Definition baseURL : gostring := TrimRight (BaseURL cfg) (go "/").

(** [checkBaseURL]: whether the address is accepted. *)
Definition checkBaseURL (raw : gostring) : bool :=
  if is_empty raw then false
  else
    match ParseURL raw with
    | None => false
    | Some u =>
      negb ((negb (str_eqb (url_Scheme u) (go "http")) && negb (str_eqb (url_Scheme u) (go "https"))) || is_empty (url_Host u) ||
            url_HasUser u || negb (is_empty (url_RawQuery u)) || negb (is_empty (url_Fragment u)))
    end.

(** [clientIP]. *)
Definition clientIP (r : httpRequest) : gostring :=
  let peer := match SplitHostPort (rq_RemoteAddr r) with None => rq_RemoteAddr r | Some (host, _) => host end in
  if TrustProxy cfg && negb (is_empty (h_XForwardedFor r)) then
    TrimSpace (match IndexByte (h_XForwardedFor r) (ch ",") with Some i => take i (h_XForwardedFor r) | None => h_XForwardedFor r end)
  else peer.

(** [requireAccess]: the caller the request runs as, or the status of the refusal. *)
Definition requireAccess (r : httpRequest) (a : Tables) : Z + caller :=
  match authenticate cfg r a with
  | inl _ => inl 500
  | inr None => inl 401
  | inr (Some c) =>
    let p := c_principal c in
    if match pr_user p with Some _ => negb (safeMethod (rq_Method r)) && negb (is_empty (csrfProblem r)) | None => false end then inl 403
    else if is_open p && negb (safeMethod (rq_Method r)) && fromBrowser r && negb (is_empty (originProblem r)) then inl 403
    else inr c
  end.

End origin.

(** [New]: the configuration the server runs with and the store it starts on; [None]: it does not start. *)
Definition NewServer `{Web} (cfg : serverConfig) (a : Tables) : option (serverConfig * Tables) :=
  let cfg := {| AdminToken := AdminToken cfg; SingleTenant := SingleTenant cfg; BaseURL := BaseURL cfg; HasMailer := HasMailer cfg;
                SignupOpen := SignupOpen cfg; TrustProxy := TrustProxy cfg; InsecureCookies := InsecureCookies cfg;
                SessionTTL := if SessionTTL cfg <=? 0 then DefaultSessionTTL else SessionTTL cfg;
                LoginTTL := if LoginTTL cfg <=? 0 then DefaultLoginTTL else LoginTTL cfg |} in
  if HasMailer cfg && negb (checkBaseURL (BaseURL cfg)) then None
  else if SingleTenant cfg then
    match CreateOrg DefaultOrg (go "Default") (base a) with
    | inr (_, db) => Some (cfg, set_base db a)
    | inl ErrExists => Some (cfg, a)
    | inl _ => None
    end
  else Some (cfg, a).

(** ** Answers and mail *)

Record cookie := { ck_value : gostring; ck_maxAge : Z; ck_Secure : bool }.

Inductive authBody :=
| AuthMessage
| SentBody
| Location (to : gostring)
| NoContent
| MeBody (mode : gostring) (email : gostring) (org : option OrgRow) (signup : bool)
| MembersBody (l : list (nat * UserRow))
| InvitedBody (id : nat) (u : UserRow) (mailed : bool).

Record authReply := { au_status : Z; au_body : authBody; au_cookie : option cookie }.

Definition auth_fail (code : Z) : authReply := {| au_status := code; au_body := AuthMessage; au_cookie := None |}.
Definition redirect (to : gostring) (c : option cookie) : authReply := {| au_status := 303; au_body := Location to; au_cookie := c |}.
Definition auth_ok (b : authBody) : authReply := {| au_status := 200; au_body := b; au_cookie := None |}.

(** A message handed to the mailer. *)
Record mail := { m_to : gostring; m_subject : gostring; m_body : gostring }.

(** [setSessionCookie]. *)
Definition setSessionCookie (cfg : serverConfig) (value : gostring) (ttl : Z) : cookie :=
  {| ck_value := value; ck_maxAge := if ttl <? 0 then -1 else Z.quot ttl second_ns; ck_Secure := negb (InsecureCookies cfg) |}.

(** [audit], with the actor named or the caller's. *)
Definition audit_as (act : gostring) (p : principal) (now : Z) (ip : gostring) (org : nat) (action target : gostring)
    (det : list (gostring * detail)) (a : Tables) : Tables :=
  match RecordEvent {| ev_org := org; ev_at := now; ev_actor := if is_empty act then actor p else act; ev_action := action;
                       ev_target := target; ev_detail := det; ev_ip := ip |} (base a) with
  | inl _ => a
  | inr db => set_base db a
  end.

(** ** Sign-in *)

Definition loginSubject : gostring := go "Sign in to the PII-Shield rule server".
Definition loginFormat : gostring :=
  go "Open this link to sign in; it works once and for a quarter of an hour:" ++ [newline; newline] ++ go "%s" ++
  [newline; newline] ++ go "If you did not ask for it, ignore this mail.".

Definition inviteSubject : gostring := go "You were invited to the PII-Shield rule server".
Definition inviteFormat (orgName : gostring) : gostring :=
  go "You were added to the organization " ++ orgName ++
  go ". Open this link to sign in; it works once and for a quarter of an hour:" ++ [newline; newline] ++ go "%s".

Section signin.
Context `{Unicode} `{MailAddress} `{Web} `{Formatter}.
Context (cfg : serverConfig) (Send : mail -> bool).

(** The link of a value. *)
Definition magic_link (value : gostring) : gostring := baseURL cfg ++ go "/auth/verify?token=" ++ QueryEscape value.

(** [sendLink]: whether it worked, what was mailed, and the tables. *)
Definition sendLink (raw : gostring) (now : Z) (email subject bodyFormat : gostring) (a : Tables) : bool * list mail * Tables :=
  if negb (HasMailer cfg) then (false, [], a)
  else
    match CreateLogin raw now email (LoginTTL cfg) a with
    | (inl _, a) => (false, [], a)
    | (inr value, a) =>
      let m := {| m_to := email; m_subject := subject; m_body := Sprintf bodyFormat (Some (magic_link value)) |} in
      (Send m, [m], a)
    end.

(** [login]; the body is the address, or the status of one that does not decode. *)
Definition login (allowIP allowEmail : gostring -> bool) (raw : gostring) (r : httpRequest) (body : Z + gostring) (a : Tables) :
    authReply * list mail * Tables :=
  if negb (is_empty (csrfProblem cfg r)) then (auth_fail 403, [], a)
  else if negb (HasMailer cfg) then (auth_fail 503, [], a)
  else if negb (allowIP (clientIP cfg r)) then (auth_fail 429, [], a)
  else
    match body with
    | inl code => (auth_fail code, [], a)
    | inr address =>
      match NormalizeEmail address with
      | inl _ => (auth_fail 400, [], a)
      | inr email =>
        if negb (allowEmail email) then (auth_fail 429, [], a)
        else
          match GetUserByEmail email a, SignupOpen cfg with
          | inl ErrNotFound, false => (auth_ok SentBody, [], a)
          | inl ErrNotFound, true | inr _, _ =>
            match sendLink raw (rq_at r) email loginSubject loginFormat a with
            | (false, out, a) => (auth_fail 502, out, a)
            | (true, out, a) => (auth_ok SentBody, out, a)
            end
          | inl _, _ => (auth_fail 500, [], a)
          end
      end
    end.

(** The end of [verify]: a session for the user. *)
Definition start_session (raw : gostring) (r : httpRequest) (email : gostring) (id : nat) (u : UserRow) (a : Tables) : authReply * Tables :=
  match CreateSession raw (rq_at r) id (SessionTTL cfg) a with
  | (inl _, a) => (auth_fail 500, a)
  | (inr session, a) =>
    (redirect (go "/") (Some (setSessionCookie cfg session (SessionTTL cfg))),
     audit_as email nobody (rq_at r) (clientIP cfg r) (u_org u) (go "signin") [] [] a)
  end.

(** [verify]; the form's token, [None] when the form cannot be read.  [None]: a panic. *)
Definition verify (allowIP : gostring -> bool) (raw : gostring) (suffix : nat -> gostring) (r : httpRequest)
    (form : option gostring) (a : Tables) : option (authReply * Tables) :=
  if negb (is_empty (originProblem cfg r)) then Some (auth_fail 403, a)
  else if negb (allowIP (clientIP cfg r)) then Some (auth_fail 429, a)
  else
    match form with
    | None | Some [] => Some (auth_fail 400, a)
    | Some value =>
      match ConsumeLogin (rq_at r) value a with
      | (inl ErrNotFound, a) | (inl ErrExpired, a) => Some (redirect (go "/#/login?error=link") None, a)
      | (inl _, a) => Some (auth_fail 500, a)
      | (inr email, a) =>
        match GetUserByEmail email a with
        | inr (id, u) => Some (start_session raw r email id u a)
        | inl ErrNotFound =>
          if negb (SignupOpen cfg) then Some (redirect (go "/#/login?error=no-account") None, a)
          else
            match Signup suffix email a with
            | None => None
            | Some (inl _, a) => Some (auth_fail 500, a)
            | Some (inr (id, u, (org, o)), a) =>
              Some (start_session raw r email id u
                      (audit_as email nobody (rq_at r) (clientIP cfg r) org (go "org.signup") (o_slug o) [] a))
            end
        | inl _ => Some (auth_fail 500, a)
        end
      end
    end.

(** ** Requests of a caller *)

(** [logout]. *)
Definition logout (c : caller) (r : httpRequest) (a : Tables) : authReply * Tables :=
  let a := if is_empty (c_session c) then a else DeleteSession (c_session c) a in
  let a := match pr_org (c_principal c) with
           | Some org => audit_as [] (c_principal c) (rq_at r) (clientIP cfg r) org (go "signout") [] [] a
           | None => a
           end in
  ({| au_status := 204; au_body := NoContent; au_cookie := Some (setSessionCookie cfg [] (-1)) |}, a).

(** [me]. *)
Definition me (c : caller) (a : Tables) : authReply :=
  let p := c_principal c in
  auth_ok
    (if is_admin p then MeBody (go "admin") [] None (SignupOpen cfg)
     else if is_open p then
       MeBody (go "single-tenant") [] (match GetOrg DefaultOrg (base a) with inr (_, o) => Some o | inl _ => None end) (SignupOpen cfg)
     else MeBody (go "session") (caller_email p) (pr_org p ≫= fun o => orgs (base a) !! o) (SignupOpen cfg)).

(** The request as the handlers of the API see it. *)
Definition api (c : caller) (r : httpRequest) (org set : gostring) : apiRequest :=
  {| who := c_principal c; at_ := rq_at r; from := clientIP cfg r; in_org := org; in_set := set |}.

(** [listMembers]. *)
Definition listMembers (c : caller) (r : httpRequest) (org : gostring) (a : Tables) : authReply :=
  match org_of (api c r org []) (base a) with
  | inl rsp => auth_fail (status rsp)
  | inr (id, _) => auth_ok (MembersBody (ListUsers id a))
  end.

(** [invite]. *)
Definition invite (raw : gostring) (c : caller) (r : httpRequest) (org : gostring) (body : Z + gostring) (a : Tables) :
    authReply * list mail * Tables :=
  match org_of (api c r org []) (base a), body with
  | inl rsp, _ => (auth_fail (status rsp), [], a)
  | inr _, inl code => (auth_fail code, [], a)
  | inr (orgID, o), inr email =>
    match CreateUser orgID email (caller_email (c_principal c)) a with
    | (inl ErrInvalidEmail, a) => (auth_fail 400, [], a)
    | (inl ErrExists, a) => (auth_fail 409, [], a)
    | (inl e, a) => (auth_fail (status (store_failure e)), [], a)
    | (inr (id, u), a) =>
      let '(mailed, out, a) := sendLink raw (rq_at r) (u_email u) inviteSubject (inviteFormat (o_name o)) a in
      ({| au_status := 201; au_body := InvitedBody id u mailed; au_cookie := None |}, out,
       audit_as [] (c_principal c) (rq_at r) (clientIP cfg r) orgID (go "member.invite") (u_email u) [(go "mailed", DBool mailed)] a)
    end
  end.

End signin.
