(* ===== verification/RulesApi.v ===== *)
(** * The routes of the rule server

    [routes] of [rules/internal/server/server.go]: every management request goes through
    [requireAccess] to its handler, with its body decoded; and [receiveReport] of [reports.go].

    The state of the scanning process is an argument of a request, for the preview. *)

From Stdlib Require Import ZArith Lia Bool.
From stdpp Require Import base list option sets fin_maps gmap.
From S2P Require Import Prelude GoStrings Sha256 Regex Config Tokens JsonString Machine Engine Scanner.
From S2P Require Import ConfigSources Signing RulesStore RulesServer StoredTime Reports RulesPanel Accounts Auth.

(** ** Reports *)

(** The row of a report. *)
Definition report_of (now : Z) (acc : Access) (b : reportBody) : Report := {|
  rp_set := ID (acc_set acc); rp_token := acc_id acc; rp_cluster := b_Cluster b; rp_policy := b_Policy b;
  rp_received := FormatTime now; rp_from := b_From b; rp_to := b_To b; rp_mode := b_Mode b;
  rp_pods_reporting := b_PodsReporting b; rp_pods_total := b_PodsTotal b; rp_revisions := b_Revisions b;
  rp_remote_revision := default [] (rr_Revision <$> b_Remote b); rp_remote_publication := default 0 (rr_Publication <$> b_Remote b);
  rp_remote_signed_by := default [] (rr_SignedBy <$> b_Remote b); rp_lines := b_Lines b; rp_errors := b_Errors b;
  rp_redactions := b_Redactions b; rp_audit_findings := b_AuditFindings b |}.

(** [receiveReport]; the body, or the status of one that does not decode. *)
Definition receiveReport (Allow : nat -> bool) (now : Z) (r : pullRequest) (body : Z + reportBody) (a : Tables) : response * Tables :=
  match tokenAccess Allow KindReport r (base a) with
  | inl rsp => (rsp, a)
  | inr acc =>
    let a := set_base (touch now r acc (base a)) a in
    match body with
    | inl code => (failure code, a)
    | inr b =>
      if negb (checkReport b) then (failure 422, a)
      else
        match AddReport now (report_of now acc b) (base a) (reports a) with
        | inl _ => (failure 500, a)
        | inr t => ({| status := 204; body := NoBody |}, set_reports t a)
        end
    end
  end.

(** ** Bodies *)

Definition maxBody : Z := MaxBytes + 4096.
Definition maxPreviewBody : Z := MaxBytes + Z.shiftl 512 10.

(** What [json.Decoder.Decode] makes of the bytes it has: a value, an error, or it reads on. *)
Inductive decoded (A : Type) := Value (v : A) | Malformed | Unfinished.
Arguments Value {A} _.
Arguments Malformed {A}.
Arguments Unfinished {A}.

(** [decodeLimit]: the value, or the status of the refusal.  [http.MaxBytesReader] fails behind [limit] bytes. *)
Definition decodeLimit {A} (Decode : gostring -> decoded A) (limit : Z) (text : gostring) : Z + A :=
  match Decode (take (Z.to_nat limit) text) with
  | Value v => inr v
  | Malformed => inl 400
  | Unfinished => if limit <? Z.of_nat (length text) then inl 413 else inl 400
  end.

(** The report endpoint on the text of a body. *)
Definition postReport (Decode : gostring -> decoded reportBody) (Allow : nat -> bool) (now : Z) (r : pullRequest) (text : gostring) (a : Tables) :
    response * Tables :=
  receiveReport Allow now r (decodeLimit Decode maxReportBody text) a.

(** A decoder stops at the end of a value. *)
Definition stops {A} (Decode : gostring -> decoded A) : Prop := forall p q v, Decode p = Value v -> Decode (p ++ q) = Value v.

Lemma decodeLimit_value {A} (Decode : gostring -> decoded A) limit text v :
  stops Decode -> decodeLimit Decode limit text = inr v -> Decode text = Value v.
Proof.
  intros Hs. unfold decodeLimit. destruct (Decode (take _ text)) eqn:E; [|done|by case_match]. intros [= <-].
  rewrite <-(take_drop (Z.to_nat limit) text). by apply Hs.
Qed.

(** A body that fits is refused for its text only. *)
Lemma decodeLimit_fits {A} (Decode : gostring -> decoded A) limit text :
  Z.of_nat (length text) <= limit ->
  decodeLimit Decode limit text = match Decode text with Value v => inr v | _ => inl 400 end.
Proof.
  intros Hl. unfold decodeLimit. rewrite take_ge by lia. rewrite (proj2 (Z.ltb_ge _ _)) by lia. by destruct (Decode text).
Qed.

(** ** The management API *)

(** A request matched by the mux: the parts of its path, its query and its body. *)
Inductive call :=
| CallLogout
| CallMe
| CallMembers (org : gostring)
| CallInvite (org : gostring) (body : Z + gostring) (raw : gostring)
| CallListOrgs
| CallCreateOrg (slug name : gostring)
| CallListSets (org : gostring)
| CallCreateSet (org slug name : gostring)
| CallGetSet (org set : gostring)
| CallListVersions (org set : gostring)
| CallCreateVersion (org set content author comment : gostring)
| CallGetVersion (org set rev : gostring)
| CallValidate (org set content : gostring)
| CallPreview (org set content : gostring) (lines : option (list gostring)) (text : option gostring)
| CallPublish (org set : gostring) (q : publishRequest)
| CallStatement (org set : gostring) (revision : option Z)
| CallAudit (org limit before : gostring)
| CallListKeys (org : gostring)
| CallAddKey (org name publicKey : gostring)
| CallRevokeKey (org : gostring) (id : option nat)
| CallPublications (org set : gostring)
| CallListTokens (org set : gostring)
| CallListPulls (org set days : gostring)
| CallListClusters (org set hours : gostring)
| CallCreateToken (org set raw name kind : gostring)
| CallRevokeToken (org set : gostring) (id : option nat).

(** The method of the route. *)
Definition method_of (c : call) : gostring :=
  match c with
  | CallLogout | CallInvite _ _ _ | CallCreateOrg _ _ | CallCreateSet _ _ _ | CallCreateVersion _ _ _ _ _ | CallValidate _ _ _
  | CallPreview _ _ _ _ _ | CallPublish _ _ _ | CallAddKey _ _ _ | CallCreateToken _ _ _ _ _ => go "POST"
  | CallRevokeKey _ _ | CallRevokeToken _ _ _ => go "DELETE"
  | _ => go "GET"
  end.

(** A GET route also answers HEAD. *)
Definition routed (c : call) (r : httpRequest) : bool :=
  str_eqb (rq_Method r) (method_of c) || (str_eqb (method_of c) (go "GET") && str_eqb (rq_Method r) (go "HEAD")).

(** The organization of the path. *)
Definition call_org (c : call) : option gostring :=
  match c with
  | CallLogout | CallMe | CallListOrgs | CallCreateOrg _ _ => None
  | CallMembers org | CallInvite org _ _ | CallListSets org | CallCreateSet org _ _ | CallGetSet org _ | CallListVersions org _
  | CallCreateVersion org _ _ _ _ | CallGetVersion org _ _ | CallValidate org _ _ | CallPreview org _ _ _ _ | CallPublish org _ _
  | CallStatement org _ _ | CallAudit org _ _ | CallListKeys org | CallAddKey org _ _ | CallRevokeKey org _ | CallPublications org _
  | CallListTokens org _ | CallListPulls org _ _ | CallListClusters org _ _ | CallCreateToken org _ _ _ _ | CallRevokeToken org _ _ => Some org
  end.

Inductive apiReply := Panel (p : reply) | Account (p : authReply).

Definition reply_status (p : apiReply) : Z := match p with Panel p => rp_status p | Account p => au_status p end.

Section serve.
Context `{RegexpCompiler} `{RT : GoRuntime} `{GoDecoders} `{ObjectJSON} `{Ed25519} `{MailAddress} `{Web} `{Formatter}.
Context (cfg : serverConfig) (Send : mail -> bool).

(** A handler that reads, and one that changes the store. *)
Definition reads (p : reply) (a : Tables) : option (apiReply * list mail * Tables) := Some (Panel p, [], a).
Definition writes (f : DB -> response * DB) (a : Tables) : option (apiReply * list mail * Tables) :=
  let '(rsp, db) := f (base a) in Some (Panel (plain rsp), [], set_base db a).

(** The handler of a route for a caller; [None] is a panic. *)
Definition handle (scanner : ES) (c : call) (who : caller) (r : httpRequest) (a : Tables) : option (apiReply * list mail * Tables) :=
  let rq := api cfg who r in
  match c with
  | CallLogout => let '(p, a) := logout cfg who r a in Some (Account p, [], a)
  | CallMe => Some (Account (me cfg who a), [], a)
  | CallMembers org => Some (Account (listMembers cfg who r org a), [], a)
  | CallInvite org body raw => let '(p, out, a) := invite cfg Send raw who r org body a in Some (Account p, out, a)
  | CallListOrgs => reads (listOrgs (rq [] []) (base a)) a
  | CallCreateOrg slug name => writes (createOrg (rq [] []) slug name) a
  | CallListSets org => reads (listSets (rq org []) (base a)) a
  | CallCreateSet org slug name => writes (createSet (rq org []) slug name) a
  | CallGetSet org set => reads (getSet (rq org set) (base a)) a
  | CallListVersions org set => reads (listVersions (rq org set) (base a)) a
  | CallCreateVersion org set content author comment => writes (serveCreateVersion (rq org set) content author comment) a
  | CallGetVersion org set rev => reads (getVersion (rq org set) rev (base a)) a
  | CallValidate org set content => reads (validate (rq org set) content (base a)) a
  | CallPreview org set content lines text =>
    match preview (rq org set) content lines text (base a) scanner with Ok p _ => reads p a | _ => None end
  | CallPublish org set q => writes (servePublish (rq org set) q) a
  | CallStatement org set revision => reads (plain (serveStatement (rq org set) revision (base a))) a
  | CallAudit org limit before => reads (listAudit (rq org []) limit before (base a)) a
  | CallListKeys org => reads (listSigningKeys (rq org []) (base a)) a
  | CallAddKey org name publicKey => writes (addSigningKey (rq org []) name publicKey) a
  | CallRevokeKey org id => writes (revokeSigningKey (rq org []) id) a
  | CallPublications org set => reads (servePublications (rq org set) (base a)) a
  | CallListTokens org set => reads (listTokens (rq org set) (base a)) a
  | CallListPulls org set days => reads (listPulls (rq org set) days (base a)) a
  | CallListClusters org set hours => reads (listClusters (rq org set) hours (base a) (reports a)) a
  | CallCreateToken org set raw name kind => writes (createToken (rq org set) raw name kind) a
  | CallRevokeToken org set id => writes (revokeToken (rq org set) id) a
  end.

(** A management request, answered. *)
Definition serve (scanner : ES) (c : call) (r : httpRequest) (a : Tables) : option (apiReply * list mail * Tables) :=
  match requireAccess cfg r a with
  | inl code => Some (Account (auth_fail code), [], a)
  | inr who => handle scanner c who r a
  end.

End serve.
