(* ===== verification/AccountsProofs.v ===== *)
(** * Accounts: times, the invariant of the tables, links and sessions *)

From Stdlib Require Import ZArith Lia Bool.
From stdpp Require Import base list option sets relations fin_maps gmap.
From S2P Require Import Prelude GoStrings Sha256 Tokens JsonString Engine RulesStore RulesStoreProofs StoredTime.
From S2P Require Import Reports Accounts KeyMatcherFind.

(** ** The order of stored times *)

Lemma text_ltb_irrefl s : text_ltb s s = false.
Proof. induction s as [|a s IH]; [done|]. simpl. by rewrite Z.ltb_irrefl, Z.eqb_refl, IH. Qed.

Lemma text_ltb_trans s t u : text_ltb s t = true -> text_ltb t u = true -> text_ltb s u = true.
Proof.
  revert t u. induction s as [|a s IH]; intros [|b t] [|c u]; simpl; try done.
  rewrite !orb_true_iff, !andb_true_iff, !Z.ltb_lt, !Z.eqb_eq.
  intros [?|[-> H1]] [?|[-> H2]]; [left; lia..|right; split; [done|by eapply IH]].
Qed.

Lemma text_ltb_total s t : text_ltb s t = false -> text_ltb t s = false -> s = t.
Proof.
  revert t. induction s as [|a s IH]; intros [|b t]; simpl; try done.
  rewrite !orb_false_iff, !andb_false_iff, !Z.ltb_ge, !Z.eqb_neq. intros [? H1] [? H2].
  assert (a = b) as -> by lia. f_equal. apply IH; naive_solver.
Qed.

Lemma stamp_ltb_trans a b c : stamp_ltb a b = true -> stamp_ltb b c = true -> stamp_ltb a c = true.
Proof.
  unfold stamp_ltb. rewrite !orb_true_iff, !andb_true_iff, !Z.ltb_lt, !Z.eqb_eq.
  intros [?|[? H1]] [?|[? H2]]; [left; lia..|right; split; [lia|by eapply text_ltb_trans]].
Qed.

(** Stored times compare as the times do, but for less than a second. *)
Lemma stamp_ltb_lt a b : stamp_ltb (FormatTime a) (FormatTime b) = true -> a < b + second_ns.
Proof.
  unfold stamp_ltb, second_ns. rewrite orb_true_iff, andb_true_iff, Z.ltb_lt, Z.eqb_eq. simpl. unfold second_ns.
  pose proof (Z.div_mod a 1000000000). pose proof (Z.div_mod b 1000000000).
  pose proof (Z.mod_pos_bound a 1000000000). pose proof (Z.mod_pos_bound b 1000000000). lia.
Qed.

Lemma stamp_ltb_ge a b : a + second_ns <= b -> stamp_ltb (FormatTime a) (FormatTime b) = true.
Proof.
  unfold stamp_ltb, second_ns. rewrite orb_true_iff, Z.ltb_lt. simpl. unfold second_ns. intros ?. left.
  pose proof (Z.div_mod a 1000000000). pose proof (Z.div_mod b 1000000000).
  pose proof (Z.mod_pos_bound a 1000000000). pose proof (Z.mod_pos_bound b 1000000000). lia.
Qed.

(** ** Tables *)

Lemma insert_unique_inv {R} (column : R -> gostring) r t id t' :
  insert_unique column r t = Some (id, t') ->
  id = length t /\ t' = t ++ [r] /\ forall x, x ∈ t -> column x <> column r.
Proof.
  unfold insert_unique. destruct (select _ t) eqn:E; [done|]. intros [= <- <-]. split_and!; [done..|].
  intros x Hx. rewrite select_none in E. by apply str_eqb_neq, E.
Qed.

Lemma insert_unique_none {R} (column : R -> gostring) r t :
  insert_unique column r t = None -> exists x, x ∈ t /\ column x = column r.
Proof.
  unfold insert_unique. destruct (select _ t) as [[i x]|] eqn:E; [|done]. intros _.
  apply select_some in E as [E H]. exists x. split; [by eapply list_elem_of_lookup_2|by apply str_eqb_eq].
Qed.

(** A text column no two rows share. *)
Definition distinct {R} (column : R -> gostring) (t : list R) : Prop := NoDup (column <$> t).

Lemma distinct_snoc {R} (column : R -> gostring) r t :
  (forall x, x ∈ t -> column x <> column r) -> distinct column t -> distinct column (t ++ [r]).
Proof.
  intros Hr H. unfold distinct. rewrite fmap_app. apply NoDup_app. split_and!; [done| |apply NoDup_singleton].
  intros y (x & -> & Hx)%list_elem_of_fmap. simpl. rewrite list_elem_of_singleton. by apply Hr.
Qed.

Lemma distinct_update {R} (column : R -> gostring) p g t :
  (forall r, column (g r) = column r) -> column <$> update_where p g t = column <$> t.
Proof.
  intros Hg. unfold update_where. rewrite <-list_fmap_compose. apply list_fmap_ext. intros i r _. simpl. by destruct (p r).
Qed.

Lemma distinct_delete {R} (column : R -> gostring) p t : distinct column t -> distinct column (delete_where p t).
Proof.
  unfold distinct, delete_where. intros H. eapply sublist_NoDup; [exact H|]. apply fmap_sublist, sublist_filter.
Qed.

Lemma elem_of_delete {R} (p : R -> bool) t r : r ∈ delete_where p t <-> p r = false /\ r ∈ t.
Proof. unfold delete_where. by rewrite list_elem_of_filter. Qed.

Lemma distinct_eq {R} (column : R -> gostring) t x y : distinct column t -> x ∈ t -> y ∈ t -> column x = column y -> x = y.
Proof.
  intros H [i Hi]%list_elem_of_lookup_1 [j Hj]%list_elem_of_lookup_1 E.
  assert (i = j) as ->; [|congruence].
  eapply (NoDup_lookup (column <$> t)); [exact H| |]; rewrite list_lookup_fmap; [by rewrite Hi|by rewrite Hj, E].
Qed.

(** The row a query finds, whatever its position. *)
Definition row {R} (p : R -> bool) (t : list R) : option R := snd <$> select p t.

Lemma row_cons {R} (p : R -> bool) r t : row p (r :: t) = if p r then Some r else row p t.
Proof.
  unfold row, select. simpl. destruct (p r) eqn:E; [by rewrite decide_True|]. rewrite decide_False by done.
  by destruct (list_find _ t) as [[]|].
Qed.

Lemma row_ext {R} (p q : R -> bool) t : (forall r, p r = q r) -> row p t = row q t.
Proof. intros E. induction t as [|r t IH]; [done|]. by rewrite !row_cons, E, IH. Qed.

Lemma row_some {R} (p : R -> bool) t r : row p t = Some r -> r ∈ t /\ p r = true.
Proof.
  unfold row. destruct (select p t) as [[i x]|] eqn:E; [|done]. intros [= ->]. apply select_some in E as [E ?].
  split; [by eapply list_elem_of_lookup_2|done].
Qed.

Lemma row_none {R} (p : R -> bool) t : row p t = None -> forall x, x ∈ t -> p x = false.
Proof. unfold row. destruct (select p t) as [[]|] eqn:E; [done|]. intros _. by apply select_none. Qed.

Lemma row_snoc {R} (p : R -> bool) t r : row p (t ++ [r]) = match row p t with Some x => Some x | None => if p r then Some r else None end.
Proof. induction t as [|x t IH]; simpl; rewrite !row_cons; [done|]. destruct (p x); [done|exact IH]. Qed.

Lemma row_update {R} (p q : R -> bool) g t :
  (forall r, q (g r) = q r) -> row q (update_where p g t) = (fun r => if p r then g r else r) <$> row q t.
Proof.
  intros Hg. induction t as [|r t IH]; [done|]. unfold update_where in *. rewrite fmap_cons, !row_cons, IH.
  destruct (p r) eqn:Ep; rewrite ?Hg; destruct (q r) eqn:Eq; try done; simpl; by rewrite Ep.
Qed.

Lemma row_delete {R} (column : R -> gostring) (p q : R -> bool) t v :
  distinct column t -> (forall x, p x = true -> column x = v) ->
  row p (delete_where q t) = (row p t ≫= fun r => if q r then None else Some r).
Proof.
  intros Hd Hp. induction t as [|r t IH]; [done|]. unfold delete_where in *. rewrite filter_cons, row_cons.
  apply NoDup_cons in Hd as [Hr Hd]. destruct (p r) eqn:Ep; simpl.
  - case_decide as Eq; [rewrite row_cons, Ep; destruct (q r); done|].
    apply not_false_is_true in Eq. rewrite Eq. destruct (row p (filter _ t)) as [x|] eqn:E; [|done].
    exfalso. apply row_some in E as [Hx Epx]. apply list_elem_of_filter in Hx as [_ Hx]. apply Hr.
    rewrite (Hp r Ep), <-(Hp x Epx). by apply list_elem_of_fmap_2.
  - case_decide; rewrite ?row_cons, ?Ep; by apply IH.
Qed.

Lemma count_distinct {R} (column : R -> gostring) (p : R -> bool) t v :
  distinct column t -> (forall x, p x = true -> column x = v) ->
  count_where p t = match row p t with Some _ => 1%nat | None => O end.
Proof.
  intros Hd Hp. induction t as [|r t IH]; [done|]. unfold count_where in *. rewrite filter_cons, row_cons.
  apply NoDup_cons in Hd as [Hr Hd]. destruct (p r) eqn:Ep; [|by rewrite decide_False by done; apply IH].
  rewrite decide_True by done. simpl. rewrite IH by done. destruct (row p t) as [x|] eqn:E; [|done].
  exfalso. apply row_some in E as [Hx Epx]. apply Hr. rewrite (Hp r Ep), <-(Hp x Epx). by apply list_elem_of_fmap_2.
Qed.

(** A sharper condition on the only row of a key. *)
Lemma row_and {R} (column : R -> gostring) (p q : R -> bool) t v :
  distinct column t -> (forall x, p x = true -> column x = v) ->
  row (fun x => p x && q x) t = (row p t ≫= fun r => if q r then Some r else None).
Proof.
  intros Hd Hp. induction t as [|r t IH]; [done|]. rewrite !row_cons. apply NoDup_cons in Hd as [Hr Hd].
  destruct (p r) eqn:Ep; simpl; [|by apply IH]. destruct (q r); [done|].
  destruct (row _ t) as [x|] eqn:E; [|done]. exfalso. apply row_some in E as [Hx Epx]. apply andb_prop in Epx as [Epx _].
  apply Hr. rewrite (Hp r Ep), <-(Hp x Epx). by apply list_elem_of_fmap_2.
Qed.

Lemma update_none {R} (p : R -> bool) g t : (forall x, x ∈ t -> p x = false) -> update_where p g t = t.
Proof.
  unfold update_where. induction t as [|r t IH]; intros Hp; [done|]. rewrite fmap_cons, (Hp r) by left.
  f_equal. apply IH. intros x Hx. apply Hp. by right.
Qed.

(** ** Slugs of sign-ups *)

Definition slug_text (s : gostring) : bool := forallb slug_byte s.

Definition alnum_lower (c : Z) : bool := isLowerASCII c || isASCIIDigit c.

(** The slug under construction: slug bytes, and no dash first. *)
Definition slug_prefix (s : gostring) : Prop :=
  slug_text s = true /\ match s with [] => True | c :: _ => alnum_lower c = true end.

Lemma slug_rune_prefix b r : slug_prefix b -> slug_prefix (slug_rune b r).
Proof.
  unfold slug_prefix, slug_text. intros [Hb H0]. unfold slug_rune. destruct (between 97 r 122 || between 48 r 57) eqn:E.
  - assert (0 <= r < 128) as Hr by (unfold between in E; boolp; lia). rewrite (EncodeRune_single r Hr), forallb_app, Hb. simpl.
    assert (alnum_lower r = true) as Ha by exact E. unfold slug_byte. unfold alnum_lower in Ha. rewrite Ha. split; [done|].
    destruct b; [exact Ha|exact H0].
  - destruct b as [|c b]; [done|]. simpl is_empty. destruct (HasSuffix _ _); [done|]. simpl.
    rewrite forallb_app. simpl in Hb. simpl. rewrite andb_assoc, Hb. done.
Qed.

Lemma slug_foldl_prefix rs b : slug_prefix b -> slug_prefix (foldl slug_rune b rs).
Proof. revert b. induction rs as [|r rs IH]; intros b H; [done|]. simpl. by apply IH, slug_rune_prefix. Qed.

Lemma slug_prefix_take s n : slug_prefix s -> slug_prefix (take n s).
Proof.
  intros [Ht H0]. split.
  - unfold slug_text in *. rewrite forallb_forall in *. intros x Hx. apply Ht. apply list_elem_of_In in Hx.
    apply list_elem_of_In. eapply elem_of_sublist; [exact Hx|apply sublist_take].
  - destruct s; [by rewrite take_nil|]. destruct n; done.
Qed.

Lemma slug_prefix_TrimRight s chars : slug_prefix s -> slug_prefix (TrimRight s chars).
Proof. apply slug_prefix_take. Qed.

Lemma slugFromEmail_ok email slug :
  slugFromEmail email = Some slug -> slug_prefix slug /\ (1 <= length slug <= 40)%nat.
Proof.
  unfold slugFromEmail. destruct (IndexByte _ _) as [i|]; [|done]. intros [= <-].
  set (s := TrimRight _ _). assert (slug_prefix s) as Hs by (apply slug_prefix_TrimRight, slug_foldl_prefix; done).
  clearbody s. set (s' := if (40 <? length s)%nat then _ else s).
  assert (slug_prefix s' /\ (length s' <= 40)%nat) as [Hs' Hl].
  { unfold s'. destruct (40 <? length s)%nat eqn:E; [|boolp; split; [done|lia]].
    split; [by apply slug_prefix_TrimRight, slug_prefix_take|]. unfold TrimRight. rewrite !length_take. lia. }
  clearbody s'. destruct s' as [|c r] eqn:E; simpl in *; [|split; [done|lia]]. split; [|lia]. done.
Qed.

Lemma slug_prefix_CheckSlug s : slug_prefix s -> (1 <= length s <= 63)%nat -> CheckSlug s = true.
Proof.
  intros [Ht H0] Hl. destruct s as [|c r]; simpl in *; [lia|]. unfold alnum_lower in H0. rewrite H0. unfold slug_text in Ht. simpl in Ht.
  apply andb_prop in Ht as [_ Ht]. rewrite Ht. simpl. apply Nat.leb_le. lia.
Qed.

Lemma hex_encode_slug s :
  Forall (fun b => 0 <= b < 256) s -> slug_text (hex_encode s) = true /\ length (hex_encode s) = (2 * length s)%nat.
Proof.
  intros H. split.
  - unfold slug_text. apply forallb_forall. intros c Hc. apply list_elem_of_In in Hc.
    unfold hex_encode in Hc. apply list_elem_of_bind in Hc as (b & Hc & Hb). rewrite Forall_forall in H. specialize (H b Hb).
    simpl in H. assert (0 <= b / 16 < 16 /\ 0 <= b mod 16 < 16) as [? ?] by lia_div.
    set_unfold in Hc. unfold slug_byte, isLowerASCII, isASCIIDigit, between.
    destruct Hc as [->|[->|[]]]; unfold hex_digit; case_match; boolp; lia.
  - clear H. unfold hex_encode. induction s as [|b s IH]; [done|]. rewrite bind_cons, length_app, IH. simpl. lia.
Qed.

Lemma attempt_slug_ok slug suffix n :
  slug_prefix slug -> (1 <= length slug <= 40)%nat ->
  (forall k, Forall (fun b => 0 <= b < 256) (suffix k) /\ length (suffix k) = 2%nat) ->
  CheckSlug (attempt_slug slug suffix n) = true.
Proof.
  intros Hs Hl Hsuf. destruct n as [|n]; simpl; [apply slug_prefix_CheckSlug; [done|lia]|].
  destruct (Hsuf (S n)) as [Hb H2]. destruct (hex_encode_slug _ Hb) as [Ht Hx]. rewrite H2 in Hx.
  rewrite Nat.min_l, take_ge by lia. apply slug_prefix_CheckSlug.
  - destruct Hs as [Hs H0]. split; [|destruct slug; [simpl in Hl; lia|done]].
    unfold slug_text in *. rewrite forallb_app, Hs. simpl. rewrite Ht. done.
  - rewrite length_app. simpl. rewrite Hx. lia.
Qed.

(** ** Runs of the store with its accounts *)

Section runs.
Context `{Unicode} `{MailAddress}.

(** Two random bytes a time. *)
Definition random_suffix (suffix : nat -> gostring) : Prop :=
  forall k, Forall (fun b => 0 <= b < 256) (suffix k) /\ length (suffix k) = 2%nat.

(** What a run can be asked about a step: the value a link or a session is created with, the link used, the session ended. *)
Inductive event :=
| EvStore
| EvLink (value : gostring)
| EvConsume (value : gostring)
| EvSession (now : Z) (value : gostring)
| EvLogout (value : gostring).

(** One method of the store. *)
Inductive table_step (a : Tables) : event -> Tables -> Prop :=
| ts_store db : store_step (base a) db -> table_step a EvStore (set_base db a)
| ts_user org email by_ : table_step a EvStore (snd (CreateUser org email by_ a))
| ts_signup suffix email res a' : random_suffix suffix -> Signup suffix email a = Some (res, a') -> table_step a EvStore a'
| ts_login raw now email ttl : table_step a (EvLink (hex_encode raw)) (snd (CreateLogin raw now email ttl a))
| ts_consume now value : table_step a (EvConsume value) (snd (ConsumeLogin now value a))
| ts_session raw now user ttl : table_step a (EvSession now (hex_encode raw)) (snd (CreateSession raw now user ttl a))
| ts_logout value : table_step a (EvLogout value) (DeleteSession value a)
| ts_report now r t : AddReport now r (base a) (reports a) = inr t -> table_step a EvStore (set_reports t a).

(** Runs whose steps all satisfy [P], and any run. *)
Definition run_with (P : event -> Prop) : Tables -> Tables -> Prop := rtc (fun a a' => exists ev, P ev /\ table_step a ev a').
Definition table_run : Tables -> Tables -> Prop := run_with (fun _ => True).

Lemma run_with_weaken (P Q : event -> Prop) a a' : (forall ev, P ev -> Q ev) -> run_with P a a' -> run_with Q a a'.
Proof. intros HPQ Hr. induction Hr as [|x y z (ev & Hp & Hs) _ IH]; [constructor|]. eapply rtc_l; [exists ev; eauto|done]. Qed.

Lemma run_with_any (P : event -> Prop) a a' : run_with P a a' -> table_run a a'.
Proof. by apply run_with_weaken. Qed.

Definition normalized (email : gostring) : Prop := exists raw, NormalizeEmail raw = inr email.

(** What every store reached from the empty one satisfies. *)
Record tables_ok (a : Tables) : Prop := {
  tok_base : db_ok (base a);
  tok_slugs : forall o, o ∈ orgs (base a) -> CheckSlug (o_slug o) = true;
  tok_emails : distinct u_email (users a);
  tok_users : forall u, u ∈ users a -> normalized (u_email u) /\ (u_org u < length (orgs (base a)))%nat;
  tok_links : distinct l_hash (logins a);
  tok_sessions : distinct s_hash (sessions a);
  tok_session_user : forall s, s ∈ sessions a -> (s_user s < length (users a))%nat;
}.

Lemma empty_tables_ok : tables_ok emptyTables.
Proof. split; try (intros; set_solver); try constructor; apply empty_ok. Qed.

Lemma effect_orgs db db' : effect db db' ->
  orgs db' = orgs db \/ exists o, orgs db' = orgs db ++ [o].
Proof. intros []; simpl; eauto. Qed.

Lemma CreateOrg_slug slug name db id db' o :
  CreateOrg slug name db = inr (id, db') -> o ∈ orgs db' -> o ∈ orgs db \/ CheckSlug (o_slug o) = true.
Proof.
  unfold CreateOrg. intros Hc. destruct (CheckSlug slug) eqn:E; [|done]. simpl in Hc. case_match; [done|].
  injection Hc as <- <-. simpl. intros [?| ->%list_elem_of_singleton]%elem_of_app; [by left|by right].
Qed.

(** Only [CreateOrg] writes to the organizations. *)
Lemma store_step_slugs db db' o : db_ok db -> store_step db db' -> o ∈ orgs db' -> o ∈ orgs db \/ CheckSlug (o_slug o) = true.
Proof.
  intros Hok [slug name id Hc|org slug name id Hc|set author comment canonical v Hc|set req seq rev Hc
             |raw set name kind id value Hc|now set token Hc|org keyID name key by_ id Hc|now org key Hc|now token ip Hc|now token nm Hc|e Hc].
  1: by eapply CreateOrg_slug.
  all: intros Ho; left.
  - apply CreateSet_inv in Hc as (s & _ & _ & _ & _ & _ & ->). done.
  - rewrite CreateVersion_eq in Hc by done. cbv zeta in Hc. repeat case_match; simplify_eq. done.
  - rewrite Publish_eq in Hc by done. repeat case_match; simplify_eq; done.
  - apply CreateToken_inv in Hc as (t & _ & _ & _ & _ & _ & _ & ->). done.
  - unfold RevokeToken in Hc. repeat case_match; simplify_eq. done.
  - unfold AddSigningKey in Hc. repeat case_match; simplify_eq; done.
  - unfold RevokeSigningKey in Hc. repeat case_match; simplify_eq. done.
  - by subst db'.
  - unfold CountPull in Hc. repeat case_match; simplify_eq; done.
  - unfold RecordEvent in Hc. repeat case_match; simplify_eq. done.
Qed.

Lemma store_step_orgs_le db db' : db_ok db -> store_step db db' -> (length (orgs db) <= length (orgs db'))%nat.
Proof.
  intros Hok Hs. destruct (effect_orgs _ _ (store_step_effect _ _ Hok Hs)) as [->|[o ->]]; [done|]. rewrite length_app. lia.
Qed.

(** *** What each method does *)

Lemma CreateUser_inv org email by_ a :
  match CreateUser org email by_ a with
  | (inl _, a') => a' = a
  | (inr (id, u), a') =>
    exists e, NormalizeEmail email = inr e /\ (org < length (orgs (base a)))%nat /\ id = length (users a) /\
      u = new_user org e by_ /\ a' = set_users (users a ++ [u]) a /\ forall x, x ∈ users a -> u_email x <> e
  end.
Proof.
  unfold CreateUser. destruct (NormalizeEmail email) as [|e]; [done|]. unfold GetOrgByID.
  destruct (orgs (base a) !! org) eqn:Eo; [|done]. cbn [or_error].
  destruct (insert_unique _ _ _) as [[id l]|] eqn:Ei; [|done]. apply insert_unique_inv in Ei as (-> & -> & Hd).
  unfold GetUserByID. cbn [users set_users]. rewrite lookup_app_r, Nat.sub_diag by done. simpl.
  exists e. split_and!; try done. by eapply lookup_lt_Some.
Qed.

Lemma signup_attempts_inv n k slug email suffix a :
  match signup_attempts n k slug email suffix a with
  | (inl _, a') => a' = a
  | (inr (id, u, (org, o)), a') =>
    exists k', o = {| o_slug := attempt_slug slug suffix k'; o_name := email |} /\
      (forall x, x ∈ orgs (base a) -> o_slug x <> o_slug o) /\ (forall x, x ∈ users a -> u_email x <> email) /\
      id = length (users a) /\ org = length (orgs (base a)) /\ u = new_user org email [] /\
      a' = set_users (users a ++ [u]) (set_base (set_orgs (orgs (base a) ++ [o]) (base a)) a)
  end.
Proof.
  revert k. induction n as [|n IH]; intros k; [done|]. cbn [signup_attempts].
  destruct (insert_unique o_slug _ _) as [[orgID os]|] eqn:Eo; [|apply IH].
  apply insert_unique_inv in Eo as (-> & -> & Hs).
  destruct (insert_unique u_email _ _) as [[id us]|] eqn:Eu; [|done].
  apply insert_unique_inv in Eu as (-> & -> & Hu). simpl in Hu.
  unfold GetUserByID, GetOrgByID. cbn [users orgs base set_users set_base set_orgs].
  rewrite !lookup_app_r, !Nat.sub_diag by done. simpl. exists k. split_and!; done.
Qed.

Lemma CreateLogin_inv raw now email ttl a :
  match CreateLogin raw now email ttl a with
  | (inl _, a') => a' = a
  | (inr value, a') =>
    exists e l, NormalizeEmail email = inr e /\ value = hex_encode raw /\
      l = {| l_email := e; l_hash := HashToken value; l_expires := FormatTime (now + ttl); l_used := None |} /\
      a' = set_logins (logins a ++ [l]) a /\ forall x, x ∈ logins a -> l_hash x <> HashToken value
  end.
Proof.
  unfold CreateLogin. destruct (NormalizeEmail email) as [|e]; [done|].
  destruct (insert_unique _ _ _) as [[id l]|] eqn:Ei; [|done]. apply insert_unique_inv in Ei as (_ & -> & Hd). eauto 10.
Qed.

Lemma CreateSession_inv raw now user ttl a :
  match CreateSession raw now user ttl a with
  | (inl _, a') => a' = a
  | (inr value, a') =>
    exists u s, users a !! user = Some u /\ value = hex_encode raw /\
      s = {| s_user := user; s_hash := HashToken value; s_expires := FormatTime (now + ttl) |} /\
      (forall x, x ∈ sessions a -> s_hash x <> HashToken value) /\
      a' = {| base := base a; users := alter (sign_in (FormatTime now)) user (users a);
              logins := delete_where (fun x => expired (FormatTime now) (l_expires x)) (logins a);
              sessions := delete_where (fun x => expired (FormatTime now) (s_expires x)) (sessions a ++ [s]);
              reports := reports a |}
  end.
Proof.
  unfold CreateSession. destruct (insert_unique _ _ _) as [[id l]|] eqn:Ei; [|done].
  apply insert_unique_inv in Ei as (_ & -> & Hd). destruct (users a !! user) as [u|] eqn:Eu; [|done].
  exists u. eexists. split_and!; done.
Qed.

Lemma ConsumeLogin_tables now value a :
  snd (ConsumeLogin now value a) =
    set_logins (update_where (login_open (FormatTime now) value) (use_login (FormatTime now)) (logins a)) a.
Proof. unfold ConsumeLogin. by repeat case_match. Qed.

Lemma Signup_inv suffix email a res a' :
  Signup suffix email a = Some (res, a') ->
  match res with
  | inl _ => a' = a
  | inr (id, u, (org, o)) =>
    exists e slug k, NormalizeEmail email = inr e /\ slugFromEmail e = Some slug /\
      o = {| o_slug := attempt_slug slug suffix k; o_name := e |} /\
      (forall x, x ∈ orgs (base a) -> o_slug x <> o_slug o) /\ (forall x, x ∈ users a -> u_email x <> e) /\
      id = length (users a) /\ org = length (orgs (base a)) /\ u = new_user org e [] /\
      a' = set_users (users a ++ [u]) (set_base (set_orgs (orgs (base a) ++ [o]) (base a)) a)
  end.
Proof.
  unfold Signup. destruct (NormalizeEmail email) as [err|e]; [by intros [= <- <-]|].
  destruct (slugFromEmail e) as [slug|] eqn:Es; [|done]. intros Hs. apply (inj Some) in Hs.
  pose proof (signup_attempts_inv 5 0 slug e suffix a) as Hi. rewrite Hs in Hi.
  destruct res as [err|[[id u] [org o]]]; [done|]. destruct Hi as (k & ?). exists e, slug, k. naive_solver.
Qed.

(** *** The changes a method makes *)

Inductive table_effect (a : Tables) : event -> Tables -> Prop :=
| te_none ev : table_effect a ev a
| te_base db : store_step (base a) db -> table_effect a EvStore (set_base db a)
| te_user org e by_ :
    (org < length (orgs (base a)))%nat -> normalized e -> (forall x, x ∈ users a -> u_email x <> e) ->
    table_effect a EvStore (set_users (users a ++ [new_user org e by_]) a)
| te_signup o e :
    (forall x, x ∈ orgs (base a) -> o_slug x <> o_slug o) -> CheckSlug (o_slug o) = true ->
    normalized e -> (forall x, x ∈ users a -> u_email x <> e) ->
    table_effect a EvStore (set_users (users a ++ [new_user (length (orgs (base a))) e []])
      (set_base (set_orgs (orgs (base a) ++ [o]) (base a)) a))
| te_link value l :
    l_hash l = HashToken value -> (forall x, x ∈ logins a -> l_hash x <> l_hash l) ->
    table_effect a (EvLink value) (set_logins (logins a ++ [l]) a)
| te_consume now value :
    table_effect a (EvConsume value) (set_logins (update_where (login_open now value) (use_login now) (logins a)) a)
| te_session now value s u :
    s_hash s = HashToken value -> users a !! s_user s = Some u -> (forall x, x ∈ sessions a -> s_hash x <> s_hash s) ->
    table_effect a (EvSession now value)
      {| base := base a; users := alter (sign_in (FormatTime now)) (s_user s) (users a);
         logins := delete_where (fun x => expired (FormatTime now) (l_expires x)) (logins a);
         sessions := delete_where (fun x => expired (FormatTime now) (s_expires x)) (sessions a ++ [s]);
         reports := reports a |}
| te_logout value : table_effect a (EvLogout value) (DeleteSession value a)
| te_reports t : table_effect a EvStore (set_reports t a).

Lemma table_step_effect a ev a' : table_step a ev a' -> table_effect a ev a'.
Proof.
  intros [db Hst|org email by_|suffix email res a2 Hr Hsg|raw now email ttl|now value|raw now user ttl|value|now r t Ht].
  - by constructor.
  - pose proof (CreateUser_inv org email by_ a) as Hi. destruct (CreateUser org email by_ a) as [[err|[id u]] a2]; simpl.
    + subst. constructor.
    + destruct Hi as (e & He & Ho & _ & -> & -> & Hu). constructor; [done|by exists email|done].
  - apply Signup_inv in Hsg. destruct res as [err|[[id u] [org o]]]; [subst; constructor|].
    destruct Hsg as (e & slug & k & He & Hsf & -> & Ho & Hu & -> & -> & -> & ->).
    apply slugFromEmail_ok in Hsf as [? ?]. constructor; [done|by apply attempt_slug_ok|by exists email|done].
  - pose proof (CreateLogin_inv raw now email ttl a) as Hi. destruct (CreateLogin raw now email ttl a) as [[err|v] a2]; simpl.
    + subst. constructor.
    + destruct Hi as (e & l & _ & -> & -> & -> & Hd). by constructor.
  - rewrite ConsumeLogin_tables. constructor.
  - pose proof (CreateSession_inv raw now user ttl a) as Hi. destruct (CreateSession raw now user ttl a) as [[err|v] a2]; simpl.
    + subst. constructor.
    + destruct Hi as (u & s & Hu & -> & Es & Hd & ->). replace user with (s_user s) by (by rewrite Es).
      apply (te_session a now (hex_encode raw) s u); [by rewrite Es|by rewrite Es|]. rewrite Es. done.
  - constructor.
  - constructor.
Qed.

(** *** The invariant *)

Lemma users_ok_snoc a org e by_ :
  tables_ok a -> (org < length (orgs (base a)))%nat -> normalized e -> (forall x, x ∈ users a -> u_email x <> e) ->
  tables_ok (set_users (users a ++ [new_user org e by_]) a).
Proof.
  intros Hok Ho He Hu. pose proof Hok as [Hb Hs Hem Hus Hl Hse Hsu]. split; simpl; try done.
  - by apply distinct_snoc.
  - intros u [Hin| ->%list_elem_of_singleton]%elem_of_app; [by apply Hus|]. done.
  - intros s Hin. rewrite length_app. apply Hsu in Hin. lia.
Qed.

Lemma orgs_ok_snoc a o :
  tables_ok a -> (forall x, x ∈ orgs (base a) -> o_slug x <> o_slug o) -> CheckSlug (o_slug o) = true ->
  tables_ok (set_base (set_orgs (orgs (base a) ++ [o]) (base a)) a).
Proof.
  intros Hok Ho Hc. pose proof Hok as [Hb Hs Hem Hus Hl Hse Hsu]. split; simpl; try done.
  - eapply effect_ok; [exact Hb|]. by apply eff_org.
  - intros x [Hin| ->%list_elem_of_singleton]%elem_of_app; [by apply Hs|done].
  - intros u Hu. rewrite length_app. destruct (Hus u Hu). split; [done|lia].
Qed.

Lemma sign_in_emails now (user : nat) (l : list UserRow) : u_email <$> alter (sign_in now) user l = u_email <$> l.
Proof.
  apply list_eq. intros i. rewrite !list_lookup_fmap, list_lookup_alter. case_decide; [subst|done]. by destruct (l !! _).
Qed.

Lemma table_step_ok a ev a' : tables_ok a -> table_step a ev a' -> tables_ok a'.
Proof.
  intros Hok Hs. pose proof Hok as [Hb Hsl Hem Hus Hl Hse Hsu].
  destruct (table_step_effect _ _ _ Hs) as [ev|db Hst|org e by_ Ho He Hu|o e Ho Hc He Hu|value l Hh Hd|now value|now value s u Hh Hu Hd|value|t].
  - done.
  - split; simpl; try done.
    + eapply effect_ok; [exact Hb|]. by apply store_step_effect.
    + intros o Ho. by destruct (store_step_slugs _ _ o Hb Hst Ho); [apply Hsl|].
    + intros u Hu. destruct (Hus u Hu). pose proof (store_step_orgs_le _ _ Hb Hst). split; [done|lia].
  - by apply users_ok_snoc.
  - refine (users_ok_snoc (set_base _ a) _ e [] _ _ _ _); simpl; [by apply orgs_ok_snoc|rewrite length_app; simpl; lia|done|done].
  - split; simpl; try done. by apply distinct_snoc.
  - split; simpl; try done. unfold distinct. by rewrite distinct_update.
  - split; simpl; try done.
    + unfold distinct. by rewrite sign_in_emails.
    + intros x (y & Hy & [->| ->])%elem_of_alter; by apply Hus in Hy.
    + by apply distinct_delete.
    + by apply distinct_delete, distinct_snoc.
    + intros x. rewrite length_alter, elem_of_delete. intros [_ [Hin| ->%list_elem_of_singleton]%elem_of_app]; [by apply Hsu|].
      by eapply lookup_lt_Some.
  - split; simpl; try done; [by apply distinct_delete|]. intros s [_ Hin]%elem_of_delete. by apply Hsu.
  - by split.
Qed.

Lemma run_with_ok P a a' : tables_ok a -> run_with P a a' -> tables_ok a'.
Proof. intros Hok Hr. induction Hr as [|x y z (ev & _ & Hs) _ IH]; [done|]. eauto using table_step_ok. Qed.

Lemma reachable_ok a : table_run emptyTables a -> tables_ok a.
Proof. apply run_with_ok, empty_tables_ok. Qed.

(** ** Links *)

Definition link_row (value : gostring) (a : Tables) : option LoginRow := row (login_hash value) (logins a).

Lemma login_hash_eq value l : login_hash value l = true -> l_hash l = HashToken value.
Proof. apply str_eqb_eq. Qed.

Definition unused (l : LoginRow) : bool := match l_used l with None => true | Some _ => false end.

(** [ConsumeLogin] by the row of the link. *)
Lemma ConsumeLogin_eq now value a :
  tables_ok a ->
  match link_row value a with
  | None => ConsumeLogin now value a = (inl ErrNotFound, a)
  | Some l =>
    if unused l && stamp_ltb (FormatTime now) (l_expires l)
    then ConsumeLogin now value a = (inr (l_email l), snd (ConsumeLogin now value a))
    else ConsumeLogin now value a = (inl ErrExpired, a)
  end.
Proof.
  intros Hok. pose proof (tok_links _ Hok) as Hd. set (nowS := FormatTime now).
  assert (row (login_open nowS value) (logins a) =
    (link_row value a ≫= fun l => if unused l && stamp_ltb nowS (l_expires l) then Some l else None)) as Ho.
  { unfold link_row.
    rewrite <-(row_and l_hash _ (fun l => unused l && stamp_ltb nowS (l_expires l)) _ (HashToken value)); [|done|apply login_hash_eq].
    apply row_ext. intros x. unfold login_open. by rewrite <-andb_assoc. }
  assert (forall x, login_open nowS value x = true -> l_hash x = HashToken value) as Hp.
  { intros x Hx. unfold login_open in Hx. rewrite <-andb_assoc in Hx. apply andb_prop in Hx as [Hx _]. by apply login_hash_eq. }
  unfold ConsumeLogin. fold nowS. rewrite (count_distinct l_hash _ _ _ Hd Hp), Ho.
  assert (forall g, row (login_open nowS value) (logins a) = None -> update_where (login_open nowS value) g (logins a) = logins a) as Hid.
  { intros g Hn. by apply update_none, row_none. }
  assert (set_logins (logins a) a = a) as Ha by (by destruct a).
  rewrite Ho in Hid. destruct (link_row value a) as [l|] eqn:El; simpl in Ho, Hid |- *.
  - destruct (unused l && stamp_ltb nowS (l_expires l)) eqn:Eu.
    + rewrite Nat.eqb_refl. simpl. f_equal.
      change (row (login_hash value) (logins a) = Some l) in El.
      assert (row (login_hash value) (update_where (login_open nowS value) (use_login nowS) (logins a)) = Some (use_login nowS l)) as Hr.
      { rewrite row_update by done. rewrite El. simpl. apply row_some in El as [_ El]. unfold login_open. unfold unused in Eu.
        rewrite El. simpl. by rewrite Eu. }
      unfold row in Hr. destruct (select _ _) as [[i x]|]; [|done]. by injection Hr as ->.
    + rewrite Hid, Ha, (count_distinct l_hash _ _ _ Hd (login_hash_eq value)) by done.
      unfold link_row in El. by rewrite El.
  - rewrite Hid, Ha, (count_distinct l_hash _ _ _ Hd (login_hash_eq value)) by done.
    unfold link_row in El. by rewrite El.
Qed.

(** What a step does to the row of a link it does not create. *)
Lemma link_step value a ev a' :
  tables_ok a -> table_step a ev a' -> (forall w, ev = EvLink w -> HashToken w <> HashToken value) ->
  match link_row value a with
  | None => link_row value a' = None
  | Some l =>
    link_row value a' = Some l \/
    (exists w now, ev = EvConsume w /\ HashToken w = HashToken value /\ link_row value a' = Some (use_login now l)) \/
    (exists now w, ev = EvSession now w /\ expired (FormatTime now) (l_expires l) = true /\ link_row value a' = None)
  end.
Proof.
  intros Hok Hs Hne. unfold link_row.
  destruct (table_step_effect _ _ _ Hs) as [ev|db Hst|org e by_ Ho He Hu|o e Ho Hc He Hu|w l Hh Hd|now w|now w s u Hh Hu Hd|w|t];
    simpl; try (case_match; by auto).
  - rewrite row_snoc. replace (login_hash value l) with false; [case_match; auto|].
    symmetry. apply str_eqb_neq. rewrite Hh. by apply Hne.
  - rewrite row_update by done. destruct (row (login_hash value) (logins a)) as [l|] eqn:El; [|done]. simpl.
    apply row_some in El as [_ El]. destruct (login_open _ w l) eqn:Eo; [|by left]. right. left. exists w, now. split_and!; [done| |done].
    unfold login_open in Eo. rewrite <-andb_assoc in Eo. apply andb_prop in Eo as [Eo _]. apply login_hash_eq in Eo, El. congruence.
  - rewrite (row_delete l_hash _ _ _ (HashToken value)); [|by apply tok_links|apply login_hash_eq].
    destruct (row _ (logins a)) as [l|]; [|done]. simpl. destruct (expired _ _) eqn:Ex; [|by left]. right. right. eauto.
Qed.

(** No step creates a link or a session with this value again. *)
Definition not_drawn (value : gostring) (ev : event) : Prop :=
  match ev with
  | EvLink w | EvSession _ w => HashToken w <> HashToken value
  | _ => True
  end.

(** A property of the row of a link that use keeps, as long as the value is not drawn again. *)
Lemma link_run value (Q : LoginRow -> Prop) a a' :
  tables_ok a -> (forall l now, Q l -> Q (use_login now l)) ->
  (forall l, link_row value a = Some l -> Q l) -> run_with (not_drawn value) a a' ->
  forall l, link_row value a' = Some l -> Q l.
Proof.
  intros Hok HQ Hl Hr. induction Hr as [|x y z (ev & Hn & Hs) _ IH]; [done|].
  apply IH; [by eapply table_step_ok|]. pose proof (link_step value _ _ _ Hok Hs) as Hstep.
  intros l Hy. destruct (link_row value x) as [l0|].
  - destruct Hstep as [E|[(w & now & _ & _ & E)|(now & w & _ & _ & E)]];
      [by intros w ->|rewrite E in Hy; injection Hy as <-; by apply Hl|rewrite E in Hy; injection Hy as <-; by apply HQ, Hl|congruence].
  - rewrite Hstep in Hy; [done|]. by intros w ->.
Qed.

(** Nothing spends the link or lets it expire. *)
Definition link_kept (value : gostring) (expiry : Z) (ev : event) : Prop :=
  match ev with
  | EvLink w | EvConsume w => HashToken w <> HashToken value
  | EvSession now _ => now + second_ns <= expiry
  | _ => True
  end.

Lemma link_kept_run value expiry l a a' :
  tables_ok a -> l_expires l = FormatTime expiry -> link_row value a = Some l -> run_with (link_kept value expiry) a a' ->
  link_row value a' = Some l.
Proof.
  intros Hok He Hl Hr. induction Hr as [|x y z (ev & Hn & Hs) _ IH]; [done|].
  apply IH; [by eapply table_step_ok|]. pose proof (link_step value _ _ _ Hok Hs) as Hstep. rewrite Hl in Hstep.
  destruct Hstep as [E|[(w & now & -> & Hw & E)|(now & w & -> & Hx & E)]]; [by intros w ->|done|done|].
  simpl in Hn. unfold expired in Hx. rewrite He, stamp_ltb_ge in Hx by lia. done.
Qed.

(** ** Sessions *)

Definition session_hash (value : gostring) (s : SessionRow) : bool := str_eqb (s_hash s) (HashToken value).
Definition session_row (value : gostring) (a : Tables) : option SessionRow := row (session_hash value) (sessions a).

Lemma session_hash_eq value s : session_hash value s = true -> s_hash s = HashToken value.
Proof. apply str_eqb_eq. Qed.

(** [GetSession] by the row of the session: the account and its organization are there. *)
Lemma GetSession_eq now value a :
  tables_ok a ->
  match session_row value a with
  | None => GetSession now value a = inl ErrNotFound
  | Some s =>
    if stamp_ltb (FormatTime now) (s_expires s)
    then exists u o, users a !! s_user s = Some u /\ orgs (base a) !! u_org u = Some o /\
      GetSession now value a = inr {| sess_user_id := s_user s; sess_user := u; sess_org := o |}
    else GetSession now value a = inl ErrNotFound
  end.
Proof.
  intros Hok. pose proof (tok_sessions _ Hok) as Hd. unfold GetSession.
  assert (row (session_open (FormatTime now) value) (sessions a) =
    (session_row value a ≫= fun s => if stamp_ltb (FormatTime now) (s_expires s) then Some s else None)) as Ho.
  { unfold session_row.
    by rewrite <-(row_and s_hash _ (fun s => stamp_ltb (FormatTime now) (s_expires s)) _ (HashToken value)) by (done || apply session_hash_eq). }
  unfold row in Ho. destruct (session_row value a) as [s|] eqn:Es; simpl in Ho.
  - destruct (stamp_ltb _ _); [|by destruct (select _ _) as [[]|]]. destruct (select _ _) as [[i x]|]; [|done].
    injection Ho as ->. apply row_some in Es as [Hs _].
    destruct (lookup_lt_is_Some_2 _ _ (tok_session_user _ Hok s Hs)) as [u Hu].
    destruct (tok_users _ Hok u (list_elem_of_lookup_2 _ _ _ Hu)) as [_ Hlt].
    destruct (lookup_lt_is_Some_2 _ _ Hlt) as [o Ho]. exists u, o. unfold GetUserByID, GetOrgByID. rewrite Hu. simpl. by rewrite Ho.
  - by destruct (select _ _) as [[]|].
Qed.

(** What a step does to the row of a session it does not create. *)
Lemma session_step value a ev a' :
  tables_ok a -> table_step a ev a' -> (forall now w, ev = EvSession now w -> HashToken w <> HashToken value) ->
  match session_row value a with
  | None => session_row value a' = None
  | Some s =>
    session_row value a' = Some s \/
    session_row value a' = None /\
      ((exists w, ev = EvLogout w /\ HashToken w = HashToken value) \/
       (exists now w, ev = EvSession now w /\ expired (FormatTime now) (s_expires s) = true))
  end.
Proof.
  intros Hok Hs Hne. unfold session_row.
  destruct (table_step_effect _ _ _ Hs) as [ev|db Hst|org e by_ Ho He Hu|o e Ho Hc He Hu|w l Hh Hd|now w|now w s u Hh Hu Hd|w|t];
    simpl; try (case_match; by auto).
  - assert (distinct s_hash (sessions a ++ [s])) as Hdis by (apply distinct_snoc; [done|by apply tok_sessions]).
    rewrite (row_delete s_hash _ _ _ (HashToken value) Hdis (session_hash_eq value)), row_snoc.
    replace (session_hash value s) with false by (symmetry; apply str_eqb_neq; rewrite Hh; by eapply Hne).
    destruct (row _ (sessions a)) as [x|]; [|done]. simpl. destruct (expired _ _) eqn:Ex; [|by left]. right. eauto 6.
  - rewrite (row_delete s_hash _ _ _ (HashToken value)); [|by apply tok_sessions|apply session_hash_eq].
    destruct (row _ (sessions a)) as [s|] eqn:Es; [|done]. simpl. apply row_some in Es as [_ Es]. apply session_hash_eq in Es.
    destruct (str_eqb _ _) eqn:Ew; [|by left]. right. split; [done|]. left. exists w. split; [done|]. apply str_eqb_eq in Ew. congruence.
Qed.

(** The row of a session stays as it is or goes for good. *)
Lemma session_run value a a' :
  tables_ok a -> run_with (not_drawn value) a a' -> session_row value a' = session_row value a \/ session_row value a' = None.
Proof.
  intros Hok Hr. induction Hr as [|x y z (ev & Hn & Hs) _ IH]; [by left|].
  destruct (IH (table_step_ok _ _ _ Hok Hs)) as [->|?]; [|by right].
  pose proof (session_step value _ _ _ Hok Hs) as Hstep. destruct (session_row value x) as [s|].
  - destruct Hstep as [?|[? _]]; [by intros now w ->|by left|by right].
  - left. apply Hstep. by intros now w ->.
Qed.

(** Nothing ends the session or lets it expire. *)
Definition session_kept (value : gostring) (expiry : Z) (ev : event) : Prop :=
  match ev with
  | EvLogout w => HashToken w <> HashToken value
  | EvSession now w => HashToken w <> HashToken value /\ now + second_ns <= expiry
  | _ => True
  end.

Lemma session_kept_run value expiry s a a' :
  tables_ok a -> s_expires s = FormatTime expiry -> session_row value a = Some s -> run_with (session_kept value expiry) a a' ->
  session_row value a' = Some s.
Proof.
  intros Hok He Hl Hr. induction Hr as [|x y z (ev & Hn & Hs) _ IH]; [done|].
  apply IH; [by eapply table_step_ok|]. pose proof (session_step value _ _ _ Hok Hs) as Hstep. rewrite Hl in Hstep.
  destruct Hstep as [E|[_ [(w & -> & Hw)|(now & w & -> & Hx)]]]; [by intros now w ->; apply Hn|done|done|].
  destruct Hn as [_ Hn]. unfold expired in Hx. rewrite He, stamp_ltb_ge in Hx by lia. done.
Qed.

(** *** What stays *)

(** An account keeps its address and its organization. *)
Definition same_account (u u' : UserRow) : Prop := u_org u' = u_org u /\ u_email u' = u_email u.

Record tables_later (a a' : Tables) : Prop := {
  tl_base : db_later (base a) (base a');
  tl_users : forall i u, users a !! i = Some u -> exists u', users a' !! i = Some u' /\ same_account u u';
}.

Lemma table_step_later a ev a' : tables_ok a -> table_step a ev a' -> tables_later a a'.
Proof.
  intros Hok Hs. pose proof (tok_base _ Hok) as Hb.
  assert (forall l, users a `prefix_of` l -> forall i u, users a !! i = Some u -> exists u', l !! i = Some u' /\ same_account u u') as Hpre.
  { intros l [k ->] i u Hu. exists u. split; [by apply lookup_app_l_Some|done]. }
  destruct (table_step_effect _ _ _ Hs) as [ev|db Hst|org e by_ Ho He Hu|o e Ho Hc He Hu|w l Hh Hd|now w|now w s u Hh Hu Hd|w|t];
    split; simpl; try apply db_later_refl; try by apply Hpre.
  - by apply effect_later, store_step_effect.
  - by apply Hpre, prefix_app_r.
  - by apply effect_later, eff_org.
  - by apply Hpre, prefix_app_r.
  - intros i x Hx. rewrite list_lookup_alter. case_decide; [subst; rewrite Hx; simpl; eexists; split; [done|by split]|by exists x].
Qed.

Lemma run_later P a a' : tables_ok a -> run_with P a a' -> tables_later a a'.
Proof.
  intros Hok Hr. induction Hr as [x|x y z (ev & _ & Hs) _ IH].
  - split; [apply db_later_refl|]. intros i u Hu. by exists u.
  - destruct (table_step_later _ _ _ Hok Hs) as [H1 H2]. destruct (IH (table_step_ok _ _ _ Hok Hs)) as [K1 K2].
    split; [by eapply db_later_trans|]. intros i u (u' & Hu & [? ?])%H2. destruct (K2 i u' Hu) as (u2 & ? & [? ?]).
    exists u2. split; [done|]. split; congruence.
Qed.

(** *** From creation on *)

Lemma CreateLogin_row a0 raw t email ttl value a1 :
  tables_ok a0 -> CreateLogin raw t email ttl a0 = (inr value, a1) ->
  exists e, NormalizeEmail email = inr e /\ tables_ok a1 /\ value = hex_encode raw /\
    link_row value a1 = Some {| l_email := e; l_hash := HashToken value; l_expires := FormatTime (t + ttl); l_used := None |}.
Proof.
  intros Hok Hc. pose proof (table_step_ok _ _ _ Hok (ts_login a0 raw t email ttl)) as Hok1.
  pose proof (CreateLogin_inv raw t email ttl a0) as Hi. rewrite Hc in *. destruct Hi as (e & l & He & Hv & El & Ea & Hd).
  exists e. split_and!; [done..|]. rewrite Ea, <-El. unfold link_row. simpl. rewrite row_snoc.
  destruct (row _ (logins a0)) as [x|] eqn:E.
  - apply row_some in E as [Hx Hh]. apply login_hash_eq in Hh. by destruct (Hd x Hx).
  - rewrite El. unfold login_hash. simpl. by rewrite str_eqb_refl.
Qed.

Lemma ConsumeLogin_kept value l x a1 a2 now :
  tables_ok a1 -> link_row value a1 = Some l -> l_expires l = FormatTime x -> unused l = true ->
  run_with (link_kept value x) a1 a2 -> now + second_ns <= x ->
  ConsumeLogin now value a2 = (inr (l_email l), snd (ConsumeLogin now value a2)) /\
  link_row value (snd (ConsumeLogin now value a2)) = Some (use_login (FormatTime now) l).
Proof.
  intros Hok Hl Hx Hu Hr Hnow. pose proof (run_with_ok _ _ _ Hok Hr) as Hok2.
  pose proof (link_kept_run value x l _ _ Hok Hx Hl Hr) as Hl2. split.
  - pose proof (ConsumeLogin_eq now value a2 Hok2) as Hc. by rewrite Hl2, Hu, Hx, stamp_ltb_ge in Hc by done.
  - rewrite ConsumeLogin_tables. unfold link_row in *. simpl. rewrite row_update by done. rewrite Hl2. simpl.
    apply row_some in Hl2 as [_ Hh]. unfold login_open. unfold unused in Hu. rewrite Hh, Hx, stamp_ltb_ge by done. by rewrite Hu.
Qed.

Lemma CreateSession_row a0 raw t user ttl value a1 u :
  tables_ok a0 -> CreateSession raw t user ttl a0 = (inr value, a1) -> second_ns <= ttl -> users a0 !! user = Some u ->
  tables_ok a1 /\ session_row value a1 = Some {| s_user := user; s_hash := HashToken value; s_expires := FormatTime (t + ttl) |} /\
  exists u1, users a1 !! user = Some u1 /\ same_account u u1.
Proof.
  intros Hok Hc Httl Hu. pose proof (table_step_ok _ _ _ Hok (ts_session a0 raw t user ttl)) as Hok1.
  pose proof (table_step_later _ _ _ Hok (ts_session a0 raw t user ttl)) as [_ Hlater].
  pose proof (CreateSession_inv raw t user ttl a0) as Hi. rewrite Hc in *. cbn [snd] in *.
  destruct Hi as (u' & s & _ & Hv & Es & Hd & Ea). split_and!; [done| |by apply Hlater].
  rewrite Ea. unfold session_row. simpl. rewrite (row_delete s_hash _ _ _ (HashToken value)); [| |apply session_hash_eq].
  - rewrite row_snoc. destruct (row _ (sessions a0)) as [x|] eqn:E.
    + apply row_some in E as [Hx Hh]. apply session_hash_eq in Hh. by destruct (Hd x Hx).
    + rewrite Es. unfold session_hash. simpl. rewrite str_eqb_refl. simpl. unfold expired. by rewrite stamp_ltb_ge by lia.
  - apply distinct_snoc; [by rewrite Es|by apply tok_sessions].
Qed.

Lemma GetSession_kept value s x a1 a2 now u :
  tables_ok a1 -> session_row value a1 = Some s -> s_expires s = FormatTime x -> users a1 !! s_user s = Some u ->
  run_with (session_kept value x) a1 a2 -> now + second_ns <= x ->
  exists sess, GetSession now value a2 = inr sess /\ sess_user_id sess = s_user s /\ same_account u (sess_user sess).
Proof.
  intros Hok Hs Hx Hu Hr Hnow. pose proof (run_with_ok _ _ _ Hok Hr) as Hok2.
  pose proof (session_kept_run value x s _ _ Hok Hx Hs Hr) as Hs2.
  pose proof (GetSession_eq now value a2 Hok2) as Hg. rewrite Hs2, Hx, stamp_ltb_ge in Hg by done.
  destruct Hg as (u2 & o & Hu2 & _ & Hg). eexists. split; [exact Hg|]. split; [done|]. simpl.
  destruct (tl_users _ _ (run_later _ _ _ Hok Hr) _ u Hu) as (u3 & Hu3 & ?). congruence.
Qed.
End runs.
