(* ===== verification/TenantProofs.v ===== *)
(** * What a session can change

    The management requests of a session change rows of its own organization only. *)

From Stdlib Require Import ZArith Lia Bool.
From stdpp Require Import base list option sets relations fin_maps gmap.
From S2P Require Import Prelude GoStrings Sha256 Regex KeyMatcherFind Config Tokens JsonString Machine Engine.
From S2P Require Import Scanner ConfigSources PairProofs Signing RulesStore RulesStoreProofs RulesServer.
From S2P Require Import StoredTime Reports RulesPanel Accounts Auth RulesApi AccountsProofs.

(** ** Rows of an organization *)

(** The rows that satisfy [owner] are the same, at the same ids. *)
Definition same_rows {R} (owner : R -> bool) (t t' : list R) : Prop :=
  forall i r, owner r = true -> t !! i = Some r <-> t' !! i = Some r.

Lemma same_rows_refl {R} (owner : R -> bool) t : same_rows owner t t.
Proof. done. Qed.

Lemma same_rows_trans {R} (owner : R -> bool) t u v : same_rows owner t u -> same_rows owner u v -> same_rows owner t v.
Proof. intros H1 H2 i r Hr. rewrite (H1 i r Hr). by apply H2. Qed.

Lemma same_rows_ext {R} (p q : R -> bool) t t' : (forall r, p r = q r) -> same_rows p t t' -> same_rows q t t'.
Proof. intros E H i r Hr. apply H. by rewrite E. Qed.

Lemma same_rows_snoc {R} (owner : R -> bool) t r : owner r = false -> same_rows owner t (t ++ [r]).
Proof.
  intros Hr i x Hx. rewrite lookup_snoc_Some. split.
  - intros H. left. split; [by eapply lookup_lt_Some|done].
  - intros [[_ ?]|[_ <-]]; [done|congruence].
Qed.

Lemma same_rows_alter {R} (owner : R -> bool) g (k : nat) (t : list R) r :
  t !! k = Some r -> owner r = false -> owner (g r) = false -> same_rows owner t (alter g k t).
Proof.
  intros Hk Hr Hg i x Hx. rewrite list_lookup_alter. case_decide as E; [subst i|done]. rewrite Hk. simpl.
  split; intros [= <-]; congruence.
Qed.

(** Whether a set belongs to the organization. *)
Definition in_org_set (o : nat) (db : DB) (set : nat) : bool :=
  match rule_sets db !! set with Some s => Nat.eqb (rs_org s) o | None => false end.

(** Everything of an organization in the store is as it was. *)
Record untouched (o : nat) (db db' : DB) : Prop := {
  un_orgs : orgs db' = orgs db;
  un_sets : same_rows (fun s => Nat.eqb (rs_org s) o) (rule_sets db) (rule_sets db');
  un_versions : same_rows (fun v => in_org_set o db (v_set v)) (versions db) (versions db');
  un_publications : same_rows (fun p => in_org_set o db (p_set p)) (publications db) (publications db');
  un_tokens : same_rows (fun t => in_org_set o db (t_set t)) (tokens db) (tokens db');
  un_pulls : pull_counts db' = pull_counts db;
  un_keys : same_rows (fun k => Nat.eqb (k_org k) o) (signing_keys db) (signing_keys db');
  un_events : same_rows (fun e => Nat.eqb (ev_org e) o) (audit_events db) (audit_events db');
}.

Lemma untouched_refl o db : untouched o db db.
Proof. by split. Qed.

Lemma untouched_sets o db db' set : untouched o db db' -> in_org_set o db' set = in_org_set o db set.
Proof.
  intros H. unfold in_org_set. pose proof (un_sets _ _ _ H) as Hs.
  destruct (rule_sets db !! set) as [s|] eqn:E.
  - destruct (Nat.eqb (rs_org s) o) eqn:Eo.
    + apply (Hs set s Eo) in E. rewrite E. done.
    + destruct (rule_sets db' !! set) as [s'|] eqn:E'; [|done]. destruct (Nat.eqb (rs_org s') o) eqn:Eo'; [|done].
      apply (Hs set s' Eo') in E'. congruence.
  - destruct (rule_sets db' !! set) as [s'|] eqn:E'; [|done]. destruct (Nat.eqb (rs_org s') o) eqn:Eo'; [|done].
    apply (Hs set s' Eo') in E'. congruence.
Qed.

Lemma untouched_trans o a b c : untouched o a b -> untouched o b c -> untouched o a c.
Proof.
  intros H K. pose proof (fun set => untouched_sets o a b set H) as Hin. destruct H, K.
  split; try congruence; eapply same_rows_trans; try eassumption.
  all: eapply same_rows_ext; [|eassumption]; intros r; simpl; apply Hin.
Qed.

(** ** Changes within an organization *)

Definition set_in (org : nat) (db : DB) (set : nat) : Prop := exists s, rule_sets db !! set = Some s /\ rs_org s = org.

Inductive effect_in (org : nat) (db : DB) : DB -> Prop :=
| ei_set s : rs_org s = org -> effect_in org db (set_sets (rule_sets db ++ [s]) db)
| ei_version v : set_in org db (v_set v) -> effect_in org db (set_versions (versions db ++ [v]) db)
| ei_publish set vid req : set_in org db set -> effect_in org db (published_db set vid req db)
| ei_token t : set_in org db (t_set t) -> effect_in org db (set_tokens (tokens db ++ [t]) db)
| ei_revoke now token t :
    tokens db !! token = Some t -> set_in org db (t_set t) -> effect_in org db (set_tokens (alter (revoke_token now) token (tokens db)) db)
| ei_key k : k_org k = org -> effect_in org db (set_keys (signing_keys db ++ [k]) db)
| ei_revoke_key now key k :
    signing_keys db !! key = Some k -> k_org k = org -> effect_in org db (set_keys (alter (revoke_key now) key (signing_keys db)) db)
| ei_event e : ev_org e = org -> effect_in org db (set_events (audit_events db ++ [e]) db).

Lemma set_in_other org o db set : o <> org -> set_in org db set -> in_org_set o db set = false.
Proof. intros Hne (s & Hs & <-). unfold in_org_set. rewrite Hs. by apply Nat.eqb_neq. Qed.

Lemma effect_in_untouched org o db db' : o <> org -> effect_in org db db' -> untouched o db db'.
Proof.
  intros Hne He. assert (forall x, x = org -> Nat.eqb x o = false) as Hno by (intros x ->; by apply Nat.eqb_neq).
  destruct He; split; simpl; try apply same_rows_refl; try done.
  - apply same_rows_snoc. auto.
  - apply same_rows_snoc. by eapply set_in_other.
  - destruct H as (s & Hs & Ho). eapply same_rows_alter; [exact Hs|auto..]. 
  - apply same_rows_snoc. simpl. by eapply set_in_other.
  - apply same_rows_snoc. by eapply set_in_other.
  - eapply same_rows_alter; [done|by eapply set_in_other..].
  - apply same_rows_snoc. auto.
  - eapply same_rows_alter; [done|auto..].
  - apply same_rows_snoc. auto.
Qed.

Definition run_in (org : nat) : DB -> DB -> Prop := rtc (effect_in org).

Lemma run_in_untouched org o db db' : o <> org -> run_in org db db' -> untouched o db db'.
Proof.
  intros Hne Hr. induction Hr; [apply untouched_refl|]. eapply untouched_trans; [by eapply effect_in_untouched|done].
Qed.

Lemma audit_in r org action target det db : run_in org db (audit r org action target det db).
Proof.
  unfold audit, RecordEvent. simpl. destruct (orgs db !! org); [|constructor]. apply rtc_once. by constructor.
Qed.

Lemma audit_in_after r org action target det db db' : effect_in org db db' -> run_in org db (audit r org action target det db').
Proof. intros He. eapply rtc_l; [exact He|apply audit_in]. Qed.

(** ** The handlers under a session *)

Section session.
Context (r : apiRequest) (own : nat) (Hown : pr_org (who r) = Some own).

Lemma org_of_own db id o : org_of r db = inr (id, o) -> id = own /\ GetOrg (in_org r) db = inr (id, o).
Proof.
  unfold org_of. rewrite Hown. destruct (GetOrg _ _) as [|[i x]]; [done|].
  destruct (Nat.eqb own i) eqn:E; simpl; [|done]. intros [= <- <-]. by apply Nat.eqb_eq in E as ->.
Qed.

Lemma set_of_own db s : set_of r db = inr s -> OrgID s = own /\ set_in own db (ID s).
Proof.
  unfold set_of. destruct (org_of r db) as [|[id o]] eqn:Eo; [done|]. apply org_of_own in Eo as [-> _].
  destruct (GetSet _ _ _) as [|x] eqn:Es; [done|]. intros [= <-]. apply GetSet_inv in Es as (row & Hr & Hro & _ & Ho & _).
  split; [done|]. by exists row.
Qed.

Lemma createSet_in slug name db : run_in own db (snd (createSet r slug name db)).
Proof.
  unfold createSet. destruct (org_of r db) as [|[id o]] eqn:Eo; [constructor|]. apply org_of_own in Eo as [-> _].
  destruct (CreateSet _ _ _ _) as [|[sid db']] eqn:Ec; [constructor|]. apply CreateSet_inv in Ec as (s & _ & <- & _ & _ & _ & ->).
  simpl. apply audit_in_after. by constructor.
Qed.

Lemma createToken_in raw name kind db : run_in own db (snd (createToken r raw name kind db)).
Proof.
  unfold createToken. destruct (set_of r db) as [|s] eqn:Es; [constructor|]. apply set_of_own in Es as [Ho Hs].
  destruct (is_empty name); [constructor|]. destruct (CreateToken _ _ _ _ _) as [e|[[id v] db']] eqn:Ec; [by destruct e|].
  apply CreateToken_inv in Ec as (t & _ & Ht & _ & _ & -> & _ & ->). rewrite Ho.
  assert (effect_in own db (set_tokens (tokens db ++ [t]) db)) as He by (constructor; by rewrite Ht).
  cbn [snd]. case_match; [by apply audit_in_after|by apply rtc_once].
Qed.

Lemma revokeToken_in id db : run_in own db (snd (revokeToken r id db)).
Proof.
  unfold revokeToken. destruct (set_of r db) as [|s] eqn:Es; [constructor|]. apply set_of_own in Es as [Ho Hs].
  destruct id as [id|]; [|constructor]. unfold RevokeToken. destruct (tokens db !! id) as [t|] eqn:Et; [|constructor].
  destruct (Nat.eqb (t_set t) (ID s)) eqn:E; [|constructor]. apply Nat.eqb_eq in E. simpl. rewrite Ho.
  apply audit_in_after. econstructor; [done|by rewrite E].
Qed.

Lemma addSigningKey_in name key db : run_in own db (snd (addSigningKey r name key db)).
Proof.
  unfold addSigningKey. destruct (org_of r db) as [|[id o]] eqn:Eo; [constructor|]. apply org_of_own in Eo as [-> _].
  destruct (is_empty name); [constructor|]. destruct (ParsePublicKey key) as [pk|]; [|constructor].
  unfold AddSigningKey. destruct (select _ _); [constructor|]. destruct (orgs db !! own); [|constructor].
  simpl. apply audit_in_after. by constructor.
Qed.

Lemma revokeSigningKey_in id db : run_in own db (snd (revokeSigningKey r id db)).
Proof.
  unfold revokeSigningKey. destruct (org_of r db) as [|[oid o]] eqn:Eo; [constructor|]. apply org_of_own in Eo as [-> _].
  destruct id as [id|]; [|constructor]. unfold RevokeSigningKey. destruct (signing_keys db !! id) as [k|] eqn:Ek; [|constructor].
  destruct (Nat.eqb (k_org k) own) eqn:E; [|constructor]. apply Nat.eqb_eq in E. simpl. apply audit_in_after. by econstructor.
Qed.

Lemma serveCreateVersion_in `{RegexpCompiler} `{Unicode} `{GoDecoders} `{ObjectJSON} content author comment db :
  db_ok db -> run_in own db (snd (serveCreateVersion r content author comment db)).
Proof.
  intros Hok. unfold serveCreateVersion. destruct (set_of r db) as [|s] eqn:Es; [constructor|]. apply set_of_own in Es as [Ho Hs].
  destruct (is_empty content); [constructor|]. destruct (CreateVersion _ _ _ _ _) as [e|[v db']] eqn:Ec; [by destruct e|].
  rewrite CreateVersion_eq in Ec by done. cbv zeta in Ec. rewrite Ho. clear Ho. repeat case_match; simplify_eq. simpl.
  apply audit_in_after. by constructor.
Qed.

Lemma servePublish_in `{Ed25519} q db : db_ok db -> run_in own db (snd (servePublish r q db)).
Proof.
  intros Hok. unfold servePublish. destruct (set_of r db) as [|s] eqn:Es; [constructor|]. apply set_of_own in Es as [Ho Hs].
  destruct (_ <=? 0); [constructor|]. destruct (_ && _); [constructor|].
  destruct (publish_key r s q db) as [[rsp db1]|key] eqn:Ek.
  { unfold publish_key in Ek. rewrite Ho in Ek. clear Ho. repeat case_match; simplify_eq; simpl; try constructor; apply audit_in. }
  destruct (Publish _ _ _) as [e|[[seq rev] db']] eqn:Ep.
  { destruct e; try constructor. simpl. rewrite Ho. apply audit_in. }
  rewrite Publish_eq in Ep by done. rewrite Ho. clear Ho. repeat case_match; simplify_eq; simpl; apply audit_in_after; by constructor.
Qed.

End session.

(** ** Sign-in and requests of the rule server

    Addresses once normalized stay as they are, every request is a run of the store's methods, and what a
    session's request can change. *)

(** ** Addresses *)

Lemma isASCIIString_Forall s : isASCIIString s = true <-> Forall (fun b => b < 128) s.
Proof.
  unfold isASCIIString. rewrite forallb_forall, Forall_forall. setoid_rewrite Z.ltb_lt. split; intros H x Hx; apply H; by apply list_elem_of_In.
Qed.

Lemma IsSpace_lower b : IsSpace (lowerASCIIByte b) = IsSpace b.
Proof. unfold lowerASCIIByte, IsSpace, between. destruct ((65 <=? b) && (b <=? 90)) eqn:E; [|done]. boolp. lia. Qed.

Lemma lower_byte_id b : lowerASCIIByte (lowerASCIIByte b) = lowerASCIIByte b.
Proof. unfold lowerASCIIByte, between. repeat case_match; boolp; lia. Qed.

Section addresses.
Context `{Unicode} `{MailAddress}.

(** What [NormalizeEmail] accepts of an ASCII text. *)
Lemma NormalizeEmail_inv s e : NormalizeEmail s = inr e -> e = ToLower (TrimSpace s) /\ ContainsByte e (ch "@") = true.
Proof.
  unfold NormalizeEmail. intros Hn. repeat case_match; simplify_eq. split; [done|].
  match goal with Hb : _ || _ = false |- _ => apply orb_false_iff in Hb as [_ Hb]; by apply negb_false_iff in Hb end.
Qed.

(** A normalized ASCII address is normalized. *)
Lemma NormalizeEmail_again s e : isASCIIString s = true -> NormalizeEmail s = inr e -> NormalizeEmail e = inr e.
Proof.
  intros Ha Hn. pose proof Ha as Hf. apply isASCIIString_Forall in Hf.
  assert (Forall (fun b => b < 128) (TrimSpace s)) as Ht.
  { apply Forall_forall. intros x Hx. rewrite Forall_forall in Hf. apply Hf. apply list_elem_of_In, SegmentProofs.TrimSpace_incl.
    by apply list_elem_of_In. }
  assert (e = lowerASCIIByte <$> trim IsSpace s) as He.
  { apply NormalizeEmail_inv in Hn as [-> _]. unfold ToLower. apply isASCIIString_Forall in Ht. rewrite Ht. by rewrite TrimSpace_trim. }
  assert (Forall (fun b => b < 128) e) as Hea.
  { rewrite He, <-TrimSpace_trim by done. apply Forall_fmap. eapply Forall_impl; [exact Ht|]. intros b Hb. simpl in *.
    unfold lowerASCIIByte, between. destruct ((65 <=? b) && (b <=? 90)) eqn:E; boolp; lia. }
  assert (ToLower (TrimSpace e) = e) as Hid.
  { rewrite TrimSpace_trim by done. rewrite He at 1. rewrite trim_map, trim_id, <-He by (intros; apply IsSpace_lower).
    unfold ToLower. rewrite (proj2 (isASCIIString_Forall e) Hea), He, <-list_fmap_compose. apply list_fmap_ext.
    intros i b _. apply lower_byte_id. }
  destruct (NormalizeEmail_inv _ _ Hn) as [Heq _]. revert Hn. unfold NormalizeEmail. by rewrite Hid, <-Heq.
Qed.

(** A sign-up never panics: a normalized address has an at sign. *)
Lemma Signup_total suffix email a : is_Some (Signup suffix email a).
Proof.
  unfold Signup. destruct (NormalizeEmail email) as [|e] eqn:En; [done|]. apply NormalizeEmail_inv in En as [_ Hc].
  unfold slugFromEmail. destruct (IndexByte e (ch "@")) eqn:Ei; [done|]. apply IndexByte_None in Ei. apply ContainsByte_In in Hc. done.
Qed.

(** ** Requests are runs *)

Lemma base_run (P : event -> Prop) a db db' : P EvStore -> store_run db db' -> run_with P (set_base db a) (set_base db' a).
Proof.
  intros HP Hr. induction Hr as [|x y z Hxy _ IH]; [constructor|].
  eapply rtc_l; [|exact IH]. exists EvStore. split; [done|]. exact (ts_store (set_base x a) y Hxy).
Qed.

Lemma set_base_id a : set_base (base a) a = a.
Proof. by destruct a. Qed.

Lemma store_run_tables (P : event -> Prop) a db' : P EvStore -> store_run (base a) db' -> run_with P a (set_base db' a).
Proof. intros HP Hr. pose proof (base_run P a _ _ HP Hr) as H1. by rewrite set_base_id in H1. Qed.

Lemma audit_as_run (P : event -> Prop) act p now ip org action target det a :
  P EvStore -> run_with P a (audit_as act p now ip org action target det a).
Proof.
  intros HP. unfold audit_as. destruct (RecordEvent _ _) eqn:E; [constructor|].
  apply store_run_tables; [done|]. by eapply rtc_once, step_event.
Qed.

Lemma step_run (P : event -> Prop) a ev a' : P ev -> table_step a ev a' -> run_with P a a'.
Proof. intros HP Hs. apply rtc_once. by exists ev. Qed.

(** Everything the tables can go through. *)
Lemma run_any (P : event -> Prop) a a' : run_with P a a' -> table_run a a'.
Proof. apply run_with_any. Qed.

End addresses.

Section requests.
Context `{RegexpCompiler} `{RT : GoRuntime} `{GoDecoders} `{ObjectJSON} `{Ed25519} `{MailAddress} `{Web} `{Formatter}.
Context (cfg : serverConfig) (Send : mail -> bool).

Lemma sendLink_run raw now email subject fmt a good out a' :
  sendLink cfg Send raw now email subject fmt a = (good, out, a') -> table_run a a'.
Proof.
  unfold sendLink. destruct (HasMailer cfg); simpl; [|intros [= _ _ <-]; constructor].
  pose proof (step_run (fun _ => True) a _ _ I (ts_login a raw now email (LoginTTL cfg))) as Hr.
  destruct (CreateLogin _ _ _ _ a) as [[e|v] a1]; intros [= _ _ <-]; exact Hr.
Qed.

Lemma login_run allowIP allowEmail raw r body a : table_run a (snd (login cfg Send allowIP allowEmail raw r body a)).
Proof.
  unfold login. repeat (case_match; try constructor); simpl.
  all: match goal with E : sendLink _ _ _ _ _ _ _ _ = _ |- _ => by eapply sendLink_run in E end.
Qed.

Lemma start_session_run raw r email id u a : table_run a (snd (start_session cfg raw r email id u a)).
Proof.
  unfold start_session. pose proof (step_run (fun _ => True) a _ _ I (ts_session a raw (rq_at r) id (SessionTTL cfg))) as Hr.
  destruct (CreateSession _ _ _ _ a) as [[e|v] a1]; simpl in *; [exact Hr|]. etrans; [exact Hr|by apply audit_as_run].
Qed.

Lemma verify_run allowIP raw suffix r form a rep a' :
  random_suffix suffix -> verify cfg allowIP raw suffix r form a = Some (rep, a') -> table_run a a'.
Proof.
  intros Hsuf. unfold verify. case_match; [by intros [= _ <-]; constructor|]. case_match; [by intros [= _ <-]; constructor|].
  destruct form as [[|c value]|]; [by intros [= _ <-]; constructor| |by intros [= _ <-]; constructor].
  pose proof (step_run (fun _ => True) a _ _ I (ts_consume a (rq_at r) (c :: value))) as Hr.
  destruct (ConsumeLogin _ _ a) as [[e|email] a1]; cbn [snd] in Hr; [by destruct e; intros [= _ <-]|].
  destruct (GetUserByEmail email a1) as [e|[id u]].
  - destruct e; try by (intros [= _ <-]). destruct (SignupOpen cfg); simpl; [|by intros [= _ <-]].
    destruct (Signup suffix email a1) as [[res a2]|] eqn:Es; [|done].
    assert (table_run a1 a2) as Hr2 by (by eapply (step_run (fun _ => True)), ts_signup).
    destruct res as [e|[[id u] [org o]]]; [by intros [= _ <-]; etrans|].
    intros [= E]. apply (f_equal snd) in E. simpl in E. subst a'. etrans; [exact Hr|]. etrans; [exact Hr2|].
    etrans; [by apply audit_as_run|apply start_session_run].
  - intros [= E]. apply (f_equal snd) in E. simpl in E. subst a'. etrans; [exact Hr|apply start_session_run].
Qed.

Lemma logout_run c r a : table_run a (snd (logout cfg c r a)).
Proof.
  unfold logout. cbv zeta. cbn [snd].
  assert (table_run a (if is_empty (c_session c) then a else DeleteSession (c_session c) a)) as Hr.
  { destruct (is_empty _); [constructor|]. eapply (step_run (fun _ => True)), ts_logout. done. }
  etrans; [exact Hr|]. destruct (pr_org (c_principal c)); [by apply audit_as_run|constructor].
Qed.

Lemma invite_run raw c r org body a : table_run a (snd (invite cfg Send raw c r org body a)).
Proof.
  unfold invite. destruct (org_of _ _) as [|[oid o]]; [constructor|]. destruct body as [|email]; [constructor|].
  pose proof (step_run (fun _ => True) a _ _ I (ts_user a oid email (caller_email (c_principal c)))) as Hr.
  destruct (CreateUser _ _ _ a) as [[e|[id u]] a1]; cbn [snd] in Hr; [by destruct e|].
  destruct (sendLink _ _ _ _ _ _ _ a1) as [[mailed out] a2] eqn:Es. simpl.
  etrans; [exact Hr|]. etrans; [by eapply sendLink_run|by apply audit_as_run].
Qed.

Lemma writes_request f a : request (base a) (snd (f (base a))) -> forall rep out a', writes f a = Some (rep, out, a') -> table_run a a'.
Proof.
  intros Hq rep out a'. unfold writes. destruct (f (base a)) as [rsp db]. intros [= _ _ <-].
  apply store_run_tables; [done|]. by apply request_run.
Qed.

Lemma handle_run scanner c who r a rep out a' : handle cfg Send scanner c who r a = Some (rep, out, a') -> table_run a a'.
Proof.
  unfold handle, reads. cbv zeta. destruct c; try (intros [= _ _ <-]; constructor).
  - pose proof (logout_run who r a) as Hr. destruct (logout _ _ _ _) as [p a1]. intros [= _ _ <-]. exact Hr.
  - pose proof (invite_run raw who r org body a) as Hr. destruct (invite _ _ _ _ _ _ _ _) as [[p o] a1]. intros [= _ _ <-]. exact Hr.
  - apply writes_request, rq_createOrg.
  - apply writes_request, rq_createSet.
  - apply writes_request. apply rq_createVersion.
  - case_match; try done. intros [= _ _ <-]. constructor.
  - apply writes_request, rq_publish.
  - apply writes_request, rq_addKey.
  - apply writes_request, rq_revokeKey.
  - apply writes_request, rq_createToken.
  - apply writes_request, rq_revokeToken.
Qed.

(** ** What a session's request changes *)

(** Everything of an organization is as it was. *)
Record tables_untouched (o : nat) (a a' : Tables) : Prop := {
  tu_base : untouched o (base a) (base a');
  tu_users : same_rows (fun u => Nat.eqb (u_org u) o) (users a) (users a');
  tu_sessions : forall s u, users a !! s_user s = Some u -> u_org u = o -> s ∈ sessions a <-> s ∈ sessions a';
  tu_reports : reports a' = reports a;
}.

Lemma tables_untouched_refl o a : tables_untouched o a a.
Proof. by split. Qed.

Lemma set_base_untouched o a db : untouched o (base a) db -> tables_untouched o a (set_base db a).
Proof. by split. Qed.

Lemma audit_as_untouched o act p now ip org action target det a a' :
  o <> org -> tables_untouched o a a' -> tables_untouched o a (audit_as act p now ip org action target det a').
Proof.
  intros Hne Hu. unfold audit_as, RecordEvent. simpl. destruct (orgs (base a') !! org); [|done].
  destruct Hu as [Hb Hus Hse Hre]. split; try done. simpl. eapply untouched_trans; [exact Hb|].
  eapply effect_in_untouched; [exact Hne|]. by constructor.
Qed.

(** The session behind a caller with an organization. *)
Lemma authenticate_session r a who own :
  authenticate cfg r a = inr (Some who) -> pr_org (c_principal who) = Some own ->
  exists value sess, rq_cookie r = Some value /\ c_session who = value /\ GetSession (rq_at r) value a = inr sess /\
    u_org (sess_user sess) = own /\ pr_user (c_principal who) = Some (u_email (sess_user sess)).
Proof.
  unfold authenticate. intros Ha Ho.
  assert (forall c, c = admin_caller \/ c = open_caller -> Some c = Some who -> False) as Hno.
  { intros c [->| ->] [= <-]; discriminate Ho. }
  repeat case_match; simplify_eq/=; try by (exfalso; eapply Hno; eauto). all: eauto 10.
Qed.

Lemma GetSession_inv now value a sess :
  tables_ok a -> GetSession now value a = inr sess ->
  exists s u, session_row value a = Some s /\ users a !! s_user s = Some u /\ sess_user sess = u /\
    stamp_ltb (FormatTime now) (s_expires s) = true.
Proof.
  intros Hok Hg. pose proof (GetSession_eq now value a Hok) as He. destruct (session_row value a) as [s|]; [|congruence].
  destruct (stamp_ltb _ _) eqn:E; [|congruence]. destruct He as (u & o & Hu & _ & He). rewrite Hg in He. injection He as ->.
  exists s, u. done.
Qed.

Lemma logout_untouched who r a own o :
  tables_ok a -> authenticate cfg r a = inr (Some who) -> pr_org (c_principal who) = Some own -> o <> own ->
  tables_untouched o a (snd (logout cfg who r a)).
Proof.
  intros Hok Ha Ho Hne. unfold logout. cbv zeta. rewrite Ho. cbn [snd]. apply audit_as_untouched; [done|].
  destruct (authenticate_session _ _ _ _ Ha Ho) as (value & sess & _ & -> & Hg & Hown & _).
  destruct (GetSession_inv _ _ _ _ Hok Hg) as (s0 & u0 & Hs0 & Hu0 & <- & _).
  destruct (is_empty value); [apply tables_untouched_refl|]. split; [apply untouched_refl|done| |done].
  intros s u Hu Huo. simpl. rewrite elem_of_delete. split; [|by intros [_ ?]]. intros Hs. split; [|done].
  apply row_some in Hs0 as [Hin0 Hh0]. apply session_hash_eq in Hh0. apply str_eqb_neq. intros Eh.
  assert (s = s0) as -> by (eapply (distinct_eq s_hash); [by apply tok_sessions|done|done|congruence]). congruence.
Qed.

Lemma sendLink_untouched o raw now email subject fmt a a0 good out a' :
  tables_untouched o a a0 -> sendLink cfg Send raw now email subject fmt a0 = (good, out, a') -> tables_untouched o a a'.
Proof.
  intros [Hb Hus Hse Hre]. unfold sendLink. destruct (HasMailer cfg); simpl; [|by intros [= _ _ <-]].
  pose proof (CreateLogin_inv raw now email (LoginTTL cfg) a0) as Hi.
  destruct (CreateLogin _ _ _ _ a0) as [[e|v] a1]; [subst a1; by intros [= _ _ <-]|].
  destruct Hi as (e & l & _ & _ & _ & -> & _). intros [= _ _ <-]. by split.
Qed.

Lemma invite_untouched raw who r org body a own o :
  pr_org (c_principal who) = Some own -> o <> own -> tables_untouched o a (snd (invite cfg Send raw who r org body a)).
Proof.
  intros Ho Hne. unfold invite. destruct (org_of _ _) as [|[oid orow]] eqn:Eo; [apply tables_untouched_refl|].
  destruct (org_of_own (api cfg who r org []) own Ho _ _ _ Eo) as [-> _]. destruct body as [|email]; [apply tables_untouched_refl|].
  pose proof (CreateUser_inv own email (caller_email (c_principal who)) a) as Hi.
  destruct (CreateUser _ _ _ a) as [[e|[id u]] a1]; [subst a1; destruct e; apply tables_untouched_refl|].
  destruct Hi as (e & _ & _ & _ & -> & -> & _).
  destruct (sendLink _ _ _ _ _ _ _ _) as [[mailed out] a2] eqn:Es. cbn [snd]. apply audit_as_untouched; [done|].
  eapply sendLink_untouched; [|exact Es]. split; try done. simpl. apply same_rows_snoc. simpl. apply Nat.eqb_neq. congruence.
Qed.

Lemma writes_untouched own o f a rep out a' :
  o <> own -> run_in own (base a) (snd (f (base a))) -> writes f a = Some (rep, out, a') -> tables_untouched o a a'.
Proof.
  intros Hne Hr. unfold writes. destruct (f (base a)) as [rsp db]. intros [= _ _ <-].
  apply set_base_untouched. by eapply run_in_untouched.
Qed.

Lemma handle_untouched scanner c who r a rep out a' own o :
  tables_ok a -> authenticate cfg r a = inr (Some who) -> pr_org (c_principal who) = Some own -> o <> own ->
  handle cfg Send scanner c who r a = Some (rep, out, a') -> tables_untouched o a a'.
Proof.
  intros Hok Ha Ho Hne. pose proof (tok_base _ Hok) as Hb.
  assert (forall org set, pr_org (RulesServer.who (api cfg who r org set)) = Some own) as Hr by done.
  unfold handle, reads. cbv zeta. destruct c; try (intros [= _ _ <-]; apply tables_untouched_refl).
  - pose proof (logout_untouched who r a own o Hok Ha Ho Hne) as Hl. destruct (logout _ _ _ _). by intros [= _ _ <-].
  - pose proof (invite_untouched raw who r org body a own o Ho Hne) as Hl. destruct (invite _ _ _ _ _ _ _ _) as [[? ?] ?]. by intros [= _ _ <-].
  - destruct (authenticate_session _ _ _ _ Ha Ho) as (value & sess & _ & _ & _ & _ & Hu).
    apply (writes_untouched own); [done|]. unfold createOrg. cbn [RulesServer.who api]. rewrite Hu. constructor.
  - apply (writes_untouched own); [done|]. by apply createSet_in.
  - apply (writes_untouched own); [done|]. by apply serveCreateVersion_in.
  - case_match; try done. intros [= _ _ <-]. apply tables_untouched_refl.
  - apply (writes_untouched own); [done|]. by apply servePublish_in.
  - apply (writes_untouched own); [done|]. by apply addSigningKey_in.
  - apply (writes_untouched own); [done|]. by apply revokeSigningKey_in.
  - apply (writes_untouched own); [done|]. by apply createToken_in.
  - apply (writes_untouched own); [done|]. by apply revokeToken_in.
Qed.

(** ** What a session's request sees of another organization *)

Lemma org_of_foreign who r org set a own :
  pr_org (c_principal who) = Some own -> (forall o, GetOrg org (base a) <> inr (own, o)) ->
  org_of (api cfg who r org set) (base a) = inl (failure 404).
Proof.
  intros Ho Hf. unfold org_of. cbn [in_org api RulesServer.who]. rewrite Ho. destruct (GetOrg org (base a)) as [e|[id o]] eqn:Eg.
  - unfold GetOrg in Eg. destruct (select _ _); simplify_eq/=. done.
  - destruct (Nat.eqb own id) eqn:E; [|done]. apply Nat.eqb_eq in E as <-. by destruct (Hf o).
Qed.

Lemma handle_foreign scanner c who r a rep out a' own org :
  pr_org (c_principal who) = Some own -> call_org c = Some org -> (forall o, GetOrg org (base a) <> inr (own, o)) ->
  handle cfg Send scanner c who r a = Some (rep, out, a') -> reply_status rep = 404 /\ out = [] /\ a' = a.
Proof.
  intros Ho Hc Hf. pose proof (fun set => org_of_foreign who r org set a own Ho Hf) as He.
  assert (forall set, set_of (api cfg who r org set) (base a) = inl (failure 404)) as Hs by (intros set; unfold set_of; by rewrite He).
  unfold handle, reads, writes. cbv zeta. destruct c; simplify_eq/=;
    unfold listMembers, invite, listSets, createSet, getSet, listVersions, serveCreateVersion, getVersion, validate, preview,
      servePublish, serveStatement, listAudit, listSigningKeys, addSigningKey, revokeSigningKey, servePublications, listTokens,
      listPulls, listClusters, createToken, revokeToken; rewrite ?He, ?Hs; simpl; intros [= <- <- <-]; rewrite ?set_base_id; done.
Qed.
End requests.
