(* ===== verification/RulesTheorems.v ===== *)
(** * The theorems about the rule server

    The history of a set, what a publish does, the life of a token, and what a cluster
    receives. *)

From Stdlib Require Import ZArith Lia Bool SpecFloat.
From stdpp Require Import base list list_numbers option sets fin_maps gmap relations.
From S2P Require Import Prelude GoStrings Sha256 Regex Float64 Config Tokens JsonString Engine Scanner.
From S2P Require Import ConfigSources Stats Base64 Signing RulesStore RulesServer RulesStoreProofs Instances.

(** ** The store *)

(** C23: The history of a set, in every store reached from the empty one: versions and
    publications are numbered 1, 2, 3, ... without a gap, what the set serves is the
    version of its newest publication and belongs to the set, and a revision once
    written reads the same ever after. *)
Theorem store_history db set :
  store_run emptyDB db ->
  v_revision <$> ListVersions set db = reverse (seqZ 1 (Z.of_nat (length (ListVersions set db)))) /\
  pub_seq <$> Publications set db = reverse (seqZ 1 (Z.of_nat (length (Publications set db)))) /\
  match LatestPublication set db, Published set db with
  | inr p, inr v => pub_revision p = v_revision v /\ v_set v = set /\ pub_seq p + 1 = NextPublication set db
  | inl ErrNotPublished, inl ErrNotPublished => Publications set db = []
  | _, _ => False
  end /\
  forall db' rev v, store_run db db' -> GetVersion set rev db = inr v -> GetVersion set rev db' = inr v.
Proof.
  intros Hrun. assert (db_ok db) as Hok by (eapply store_run_ok; [apply empty_ok|done]).
  destruct (Publications_rows set db Hok) as [Hseq Hhead]. split_and!.
  - rewrite (ListVersions_eq _ _ Hok), fmap_reverse, (ok_versions _ Hok set), length_reverse. done.
  - pose proof (f_equal length Hseq) as Hlen. rewrite length_reverse, !length_fmap in Hlen.
    by rewrite Hseq, (ok_pubs _ Hok set), Hlen.
  - pose proof (Published_latest set db Hok) as Hp. destruct (last _) as [p|] eqn:El.
    + destruct Hp as (v & _ & Hv & -> & ->). split_and!; [done|done|]. by apply last_seq.
    + destruct Hp as [-> ->]. simpl in Hhead. by destruct (Publications set db).
  - intros db' rev v Hr. by apply GetVersion_run.
Qed.

(** [Publish], branch by branch.  It succeeds exactly when the revision is there, the
    number asked for (if any) is the next one and the check accepts; then the set serves
    that revision, under the next number, and no other set changes.  It is [ErrStale]
    only for a number that is not the next. *)
Theorem publish_exact db set req :
  store_run emptyDB db ->
  match Publish set req db with
  | inr (seq, rev, db') =>
    exists v, GetVersion set (pr_Revision req) db = inr v /\ rev = v_revision v /\ seq = NextPublication set db /\
      (pr_Seq req = 0 \/ pr_Seq req = seq) /\ (pr_Check req ≫= fun check => check seq v) = None /\
      Published set db' = inr v /\ NextPublication set db' = seq + 1 /\ versions db' = versions db /\
      forall other, other <> set -> Published other db' = Published other db /\ Publications other db' = Publications other db
  | inl e =>
    (e = ErrNotFound /\ GetVersion set (pr_Revision req) db = inl ErrNotFound) \/
    (e = ErrStale /\ pr_Seq req <> 0 /\ pr_Seq req <> NextPublication set db) \/
    (exists v, GetVersion set (pr_Revision req) db = inr v /\
      (pr_Check req ≫= fun check => check (NextPublication set db) v) = Some e)
  end.
Proof.
  intros Hrun. assert (db_ok db) as Hok by (eapply store_run_ok; [apply empty_ok|done]).
  destruct (Publish set req db) as [e|[[seq rev] db']] eqn:Ep.
  all: pose proof Ep as Ep'; rewrite (Publish_eq _ _ _ Hok) in Ep'; unfold GetVersion;
    destruct (select (is_version set (pr_Revision req)) (versions db)) as [[vid v]|] eqn:Ev; simplify_eq/=; auto.
  all: destruct (negb (pr_Seq req =? 0) && negb (pr_Seq req =? NextPublication set db)) eqn:Es; simplify_eq/=.
  - right. left. apply andb_true_iff in Es as [E1 E2]. split; [done|]. lia.
  - right. right. exists v. by destruct (pr_Check req ≫= _) eqn:Ec; simplify_eq/=.
  - destruct (pr_Check req ≫= _) eqn:Ec; simplify_eq/=. exists v. apply andb_false_iff in Es.
    pose proof (select_some _ _ _ _ Ev) as [Hv Hset]. apply andb_prop in Hset as [Hset _]. apply Nat.eqb_eq in Hset.
    assert (db_ok (published_db set vid req db)) as Hok' by (eapply effect_ok; [done|by eapply eff_publish]).
    split_and!; try done; [lia| | |by intros; apply published_db_other].
    + rewrite (Published_served _ _ Hok'), served_publish, decide_True by done. simpl. by rewrite Hv.
    + rewrite <-(last_seq set _ (publication_of set vid req db) Hok'); [done|].
      simpl. rewrite rows_of_app. unfold rows_of at 2. rewrite filter_cons_True by apply Nat.eqb_refl.
      by rewrite filter_nil, last_snoc.
Qed.


(** ** The server *)

Section server.
Context `{RegexpCompiler} `{Unicode} `{GoDecoders} `{ObjectJSON} `{Ed25519}.

(** C28: What a set serves is a file the sidecar accepts whole, under the hash of its
    bytes, after any sequence of requests. *)
Theorem served_files_accepted db set v :
  server_run emptyDB db -> Published set db = inr v ->
  v_etag v = ETag (v_content v) /\ exists cfg, ParsePolicyJSON (v_content v) = inr cfg.
Proof.
  intros Hrun Hp. destruct (server_run_ok _ Hrun) as [Hok Hf _]. apply Hf.
  rewrite (Published_served _ _ Hok) in Hp. destruct (served db set) as [vid|]; [|done]. simpl in Hp.
  destruct (versions db !! vid) eqn:E; [|done]. injection Hp as <-. by eapply list_elem_of_lookup_2.
Qed.

(** C22: A token reads its own set and nothing else: a pull answered with a file carried
    the value of a token that is not revoked, is of the kind pull, and belongs to the
    set the path names; the file is the one that set publishes. *)
Theorem token_reads_own_set Allow now r db etag rev content db' :
  server_run emptyDB db ->
  servePolicy Allow now r db = ({| status := 200; body := PolicyFile etag rev content |}, db') ->
  exists value t row o v,
    bearer (authorization r) = Some value /\ t ∈ tokens db /\ t_hash t = HashToken value /\ t_revoked t = None /\
    t_kind t = KindPull /\ rule_sets db !! t_set t = Some row /\ rs_slug row = path_set r /\
    orgs db !! rs_org row = Some o /\ o_slug o = path_org r /\
    Published (t_set t) db = inr v /\ v_set v = t_set t /\ content = v_content v /\ etag = v_etag v.
Proof.
  intros Hrun Hs. destruct (server_run_ok _ Hrun) as [Hok _ _].
  apply servePolicy_inv in Hs as (acc & v & Ha & Hp & -> & _ & -> & _).
  apply pullAccess_inv in Ha as (value & row & Hb & Hsel & Hrev & Hkind & Hset & Hrow & Ho & Hslug & _ & Horg).
  apply select_some in Hsel as [Ht Hh]. apply list_elem_of_lookup_2 in Ht. apply str_eqb_eq in Hh.
  exists value, (acc_token acc), row, (acc_org acc), v. rewrite Hset. split_and!; try done.
  pose proof (Published_latest (ID (acc_set acc)) db Hok) as Hpl. destruct (last _); [|by destruct Hpl; congruence].
  destruct Hpl as (w & _ & Hw & Hp' & _). congruence.
Qed.

(** C16: Once an organization has an active signing key, a publish request is refused and
    leaves the whole store as it was, apart from at most one event in the audit log;
    or it adds one publication, makes this set serve its version, records at most
    one event and changes nothing else, and the signature of the publication
    verifies, with an active key of the organization, over the statement of this
    set, this number and exactly the stored file. *)
Theorem signing_enforced r q s db :
  server_run emptyDB db -> set_of r db = inr s -> HasSigningKeys (OrgID s) db = true ->
  let '(rsp, db') := servePublish r q db in
  status rsp <> 200 /\ logged db db' \/
  exists p k pk v,
    status rsp = 200 /\
    logged (set_publications (alter (publish_row (p_version p)) (ID s) (rule_sets db)) (publications db ++ [p]) db) db' /\
    p_set p = ID s /\ p_seq p = NextPublication (ID s) db /\
    k ∈ signing_keys db /\ k_org k = OrgID s /\ k_keyid k = p_keyid p /\ k_revoked k = None /\
    ParsePublicKey (k_public k) = Some pk /\ versions db !! p_version p = Some v /\ v_set v = ID s /\
    VerifyStatement pk (For (in_org r ++ go "/" ++ in_set r) (p_seq p) (v_revision v) (v_content v)) (p_signature p) = true.
Proof.
  intros Hrun Hset Hhas. destruct (server_run_ok _ Hrun) as [Hok _ _].
  destruct (servePublish_cases r q db Hok) as [[Hst Hl]|(s' & vid & v & key & Es & Ek & Ev & Ec & Hc & Hst)];
    destruct (servePublish r q db) as [rsp db']; cbn [fst snd] in *.
  { left. split; [|done]. destruct Hst as [?|[rsp' Hrsp]]; [done|congruence]. }
  right. rewrite Hset in Es. injection Es as <-. apply publish_key_inv in Ek. destruct key as [pk|]; [|by destruct Ek; congruence].
  destruct Ek as (k & Hk & Hpk). apply ActiveSigningKey_inv in Hk as (? & ? & ? & ?).
  apply select_some in Ev as [Hl Hv']. apply andb_prop in Hv' as [Hv' _]. apply Nat.eqb_eq in Hv'.
  apply set_of_inv in Hset as (o & row & _ & _ & _ & _ & _ & Hin). unfold publish_check in Ec. rewrite Hin in Ec.
  exists (publication_row r q s vid db), k, pk, v. simpl. split_and!; try done. by destruct (VerifyStatement _ _ _).
Qed.

(** C17: The server's signatures are the operator's: when a cluster pulls a file and then
    its signature from a server reached from the empty one, the key the signature names
    is registered with the organization, and an operator that trusts that key, expects
    this set and has accepted no higher number accepts the file, provided the signature was
    stored without white space around it (one with a space after it is stored and
    refused, [padded_signature_refused]). *)
Theorem signed_pulls_verify Allow now now' r db etag rev content sf db1 db2 :
  server_run emptyDB db ->
  servePolicy Allow now r db = ({| status := 200; body := PolicyFile etag rev content |}, db1) ->
  serveSignature Allow now' r db1 = ({| status := 200; body := SignatureBody sf |}, db2) ->
  exists k pk, k ∈ signing_keys db /\ k_keyid k = sf_KeyID sf /\ ParsePublicKey (k_public k) = Some pk /\
    forall unmarshal sigBody keys key minPublication,
      unmarshal sigBody = Some sf -> TrimSpace (sf_Signature sf) = sf_Signature sf ->
      find_key keys (sf_KeyID sf) = Some key -> tk_Key key = pk -> minPublication <= sf_Publication sf ->
      CheckSignature unmarshal sigBody content (path_org r ++ go "/" ++ path_set r) keys minPublication =
        inr {| vf_Publication := sf_Publication sf; vf_KeyID := sf_KeyID sf |}.
Proof.
  intros Hrun Hpol Hsig. assert (server_run db db1) as Hrun1.
  { pose proof (rq_policy db Allow now r) as Hq. rewrite Hpol in Hq. by apply rtc_once. }
  destruct (server_run_ok db1) as [Hok _ Hs]; [by etrans|].
  apply servePolicy_inv in Hpol as (acc & v & Ha & Hp & _ & _ & -> & Hdb1).
  apply serveSignature_inv in Hsig as (acc1 & pub & v1 & Ha1 & Hl1 & Hne & Hp1 & E1 & E2 & E3 & E4).
  destruct (served_read_only db db1) as (Hsets & Horgs & Hkeys & Hpub); [rewrite Hdb1; by apply countPull_reads|].
  apply pullAccess_inv in Ha as (val & row & Hb & Hsel & _ & _ & Hset & Hrow & Ho & Hslug & _ & Horg).
  apply pullAccess_inv in Ha1 as (val1 & row1 & Hb1 & Hsel1 & _ & _ & Hset1 & Hrow1 & Ho1 & Hslug1 & _ & Horg1).
  assert (ID (acc_set acc1) = ID (acc_set acc)) as Hid.
  { eapply (ok_set_slug _ Hok); [exact Hrow1|rewrite Hsets; exact Hrow|]. f_equal; [|congruence].
    eapply (ok_org_slug _ Hok); [exact Ho1|rewrite Horgs; exact Ho|congruence]. }
  rewrite Hid in *. rewrite Hpub, Hp in Hp1. injection Hp1 as <-. rewrite Hsets in Hrow1. rewrite Hrow in Hrow1. injection Hrow1 as <-.
  destruct (served_signature_ok db1 (ID (acc_set acc)) v pub row (acc_org acc1)) as (k & pk & Hk & _ & Hkid & Hpk & Hver);
    [done|done|by rewrite Hsets|done|by rewrite Hpub|done|done|].
  exists k, pk. rewrite Hkeys in Hk. split_and!; [done|congruence|done|].
  intros unmarshal sigBody keys key minPub Hu Ht Hf Hkey Hm.
  eapply CheckSignature_complete; [done| |done|by exists key|done]. rewrite E1, E2, E4. by rewrite <-Horg1, <-Hslug1.
Qed.

End server.

(** ** Witnesses

    A server with one organization, one set, one signed publication and one token. *)

Definition run_objects : ObjectJSON := {| DecodeObject := fun _ => Some (Some ∅, false); MarshalObject := fun _ => go "{}" |}.

#[local] Existing Instances run_unicode run_time run_compiler run_decoders run_ed25519 run_objects.

Definition demo : apiRequest := {|
  who := {| is_admin := true; is_open := false; pr_user := None; pr_org := None |};
  at_ := 0; from := []; in_org := go "acme"; in_set := go "web" |}.

Definition demo_set : DB := Eval vm_compute in snd (createSet demo (go "web") [] (snd (createOrg demo (go "acme") [] emptyDB))).
Definition demo_version : DB := Eval vm_compute in snd (serveCreateVersion demo (go "{}") [] [] demo_set).
Definition demo_signing : DB := Eval vm_compute in snd (addSigningKey demo (go "ci") (FormatPublicKey demo_key) demo_version).

Definition demo_publish : publishRequest := Eval vm_compute in {|
  pq_Revision := 1; pq_Author := []; pq_Publication := 1; pq_KeyID := SigningKeyID demo_key;
  pq_Signature := b64_encode (demo_key ++ sha256 (Text (For (go "acme/web") 1 1 (go "{}")))) |}.

Definition demo_published : DB := Eval vm_compute in snd (servePublish demo demo_publish demo_signing).
Definition demo_db : DB := Eval vm_compute in snd (createToken demo (replicate 24 1) (go "cluster") [] demo_published).

Definition demo_pull : pullRequest := {|
  path_org := go "acme"; path_set := go "web"; authorization := go "Bearer psr_" ++ hex_encode (replicate 24 1);
  if_none_match := []; client_ip := [] |}.

Lemma demo_set_run : server_run emptyDB demo_set.
Proof.
  exact (rtc_l _ _ _ _ (rq_createOrg _ demo (go "acme") []) (rtc_once _ _ (rq_createSet _ demo (go "web") []))).
Qed.

Lemma demo_signing_run : server_run emptyDB demo_signing.
Proof.
  etrans; [exact demo_set_run|]. apply (rtc_l _ _ demo_version); [exact (rq_createVersion demo_set demo (go "{}") [] [])|].
  apply rtc_once. exact (rq_addKey demo_version demo (go "ci") (FormatPublicKey demo_key)).
Qed.

Lemma demo_published_run : server_run emptyDB demo_published.
Proof. etrans; [exact demo_signing_run|]. apply rtc_once. exact (rq_publish demo_signing demo demo_publish). Qed.

Lemma demo_run : server_run emptyDB demo_db.
Proof.
  etrans; [exact demo_published_run|]. apply rtc_once.
  exact (rq_createToken demo_published demo (replicate 24 1) (go "cluster") []).
Qed.

Lemma store_history_witness : v_revision <$> ListVersions 0 demo_db = [1] /\ pub_seq <$> Publications 0 demo_db = [1].
Proof.
  destruct (store_history demo_db 0 (server_run_store _ _ demo_run)) as (Hv & Hp & _). rewrite Hv, Hp.
  vm_compute. split; reflexivity.
Defined.

Definition demo_missing : PublishRequest :=
  {| pr_Revision := 2; pr_Author := []; pr_Seq := 0; pr_KeyID := []; pr_Signature := []; pr_Check := None |}.

Lemma publish_exact_witness : Publish 0 demo_missing demo_db = inl ErrNotFound /\ GetVersion 0 2 demo_db = inl ErrNotFound.
Proof.
  assert (Publish 0 demo_missing demo_db = inl ErrNotFound) as E by (vm_compute; reflexivity).
  pose proof (publish_exact demo_db 0 demo_missing (server_run_store _ _ demo_run)) as H. rewrite E in H.
  split; [exact E|]. destruct H as [[_ H]|[(H & _)|(v & _ & H)]]; [exact H|discriminate H|discriminate H].
Defined.


Lemma served_files_accepted_witness :
  exists v, Published 0 demo_db = inr v /\ v_content v = go "{}" /\ v_etag v = ETag (v_content v).
Proof.
  eexists. split; [vm_compute; reflexivity|]. split; [vm_compute; reflexivity|].
  refine (proj1 (served_files_accepted demo_db 0 _ demo_run _)). vm_compute. reflexivity.
Defined.

Lemma token_reads_own_set_witness :
  exists t, t ∈ tokens demo_db /\ t_kind t = KindPull.
Proof.
  destruct (token_reads_own_set (fun _ => true) 0 demo_pull demo_db (ETag (go "{}")) (go "1") (go "{}")
    (snd (servePolicy (fun _ => true) 0 demo_pull demo_db)) demo_run ltac:(vm_compute; reflexivity))
    as (value & t & row & o & v & _ & Ht & _ & _ & Hk & _).
  exists t. split; [exact Ht|exact Hk].
Defined.

Lemma signing_enforced_witness :
  HasSigningKeys 0 demo_signing = true /\
  exists p, publications demo_published = publications demo_signing ++ [p] /\ p_seq p = 1.
Proof.
  split; [vm_compute; reflexivity|].
  pose proof (signing_enforced demo demo_publish (set_columns demo_signing 0 {| rs_org := 0; rs_slug := go "web"; rs_name := go "web"; rs_published := None |})
    demo_signing demo_signing_run ltac:(vm_compute; reflexivity) ltac:(vm_compute; reflexivity)) as H.
  assert (status (fst (servePublish demo demo_publish demo_signing)) = 200) as Hst by (vm_compute; reflexivity).
  assert (snd (servePublish demo demo_publish demo_signing) = demo_published) as Hd by (vm_compute; reflexivity).
  destruct (servePublish demo demo_publish demo_signing) as [rsp db']. cbn [fst snd] in Hst, Hd. subst db'.
  destruct H as [[H _]|(p & k & pk & v & _ & Hl & _ & Hseq & _)]; [destruct (H Hst)|]. exists p. split.
  - destruct Hl as [Hl|[e Hl]]; rewrite Hl; reflexivity.
  - rewrite Hseq. vm_compute. reflexivity.
Defined.

Definition demo_sig : SignatureFile := Eval vm_compute in {|
  sf_Set := go "acme/web"; sf_Publication := 1; sf_Revision := 1; sf_SHA256 := hex_encode (sha256 (go "{}"));
  sf_KeyID := SigningKeyID demo_key; sf_Signature := pq_Signature demo_publish |}.

Lemma signed_pulls_verify_witness :
  exists db1 db2 sf k,
    servePolicy (fun _ => true) 0 demo_pull demo_db =
      ({| status := 200; body := PolicyFile (ETag (go "{}")) (go "1") (go "{}") |}, db1) /\
    serveSignature (fun _ => true) 0 demo_pull db1 = ({| status := 200; body := SignatureBody sf |}, db2) /\
    k ∈ signing_keys demo_db /\ k_keyid k = sf_KeyID sf.
Proof.
  set (db1 := snd (servePolicy (fun _ => true) 0 demo_pull demo_db)).
  set (db2 := snd (serveSignature (fun _ => true) 0 demo_pull db1)).
  assert (servePolicy (fun _ => true) 0 demo_pull demo_db =
    ({| status := 200; body := PolicyFile (ETag (go "{}")) (go "1") (go "{}") |}, db1)) as H1 by (vm_compute; reflexivity).
  assert (serveSignature (fun _ => true) 0 demo_pull db1 = ({| status := 200; body := SignatureBody demo_sig |}, db2)) as H2
    by (vm_compute; reflexivity).
  destruct (signed_pulls_verify _ _ _ _ _ _ _ _ _ _ _ demo_run H1 H2) as (k & pk & Hk & Hid & _).
  exists db1, db2, demo_sig, k. split; [exact H1|]. split; [exact H2|]. split; [exact Hk|exact Hid].
Defined.
