(* ===== verification/AccountTheorems.v ===== *)
(** * The theorems about accounts and access

    Links, sessions, the isolation of organizations, and what a request needs to change
    anything. *)

From Stdlib Require Import ZArith Lia Bool.
From stdpp Require Import base list option sets relations fin_maps gmap.
From S2P Require Import Prelude GoStrings Sha256 Regex Config Tokens JsonString Machine Engine Scanner.
From S2P Require Import ConfigSources Signing RulesStore RulesServer StoredTime Reports RulesPanel Accounts Auth.
From S2P Require Import RulesApi RulesStoreProofs AccountsProofs TenantProofs Instances RulesTheorems.

Section accounts.
Context `{Unicode} `{MailAddress}.

(** The accounts of every store reached from the empty one: one account per address, each address normalized and
    in an organization that exists; slugs are well-formed and unique, whether an administrator or a sign-up chose
    them; and a session value either resolves to an account and its organization or is [ErrNotFound]. *)
Theorem accounts_well_formed a :
  table_run emptyTables a ->
  (forall i j u v, users a !! i = Some u -> users a !! j = Some v -> u_email u = u_email v -> i = j) /\
  (forall u, u ∈ users a -> normalized (u_email u) /\ is_Some (orgs (base a) !! u_org u)) /\
  (forall i j o p, orgs (base a) !! i = Some o -> orgs (base a) !! j = Some p -> o_slug o = o_slug p -> i = j) /\
  (forall o, o ∈ orgs (base a) -> CheckSlug (o_slug o) = true) /\
  (forall now value, GetSession now value a = inl ErrNotFound \/
    exists sess u, GetSession now value a = inr sess /\ users a !! sess_user_id sess = Some u /\ sess_user sess = u /\
      orgs (base a) !! u_org u = Some (sess_org sess)).
Proof.
  intros Hr. pose proof (reachable_ok _ Hr) as Hok. split_and!.
  - intros i j u v Hi Hj E. eapply (NoDup_lookup (u_email <$> users a)); [by apply tok_emails| |];
      rewrite list_lookup_fmap; [by rewrite Hi|by rewrite Hj, E].
  - intros u Hu. destruct (tok_users _ Hok u Hu) as [? ?]. split; [done|by apply lookup_lt_is_Some_2].
  - apply (ok_org_slug _ (tok_base _ Hok)).
  - apply (tok_slugs _ Hok).
  - intros now value. pose proof (GetSession_eq now value a Hok) as He. destruct (session_row value a) as [s|]; [|by left].
    destruct (stamp_ltb _ _); [|by left]. destruct He as (u & o & ? & ? & ->). right. eauto 10.
Qed.

(** C20: The life of a magic link, among any other requests that do not draw its value again.  While nobody uses it and
    until one second before its end, it answers with the normalized address; then it never works again.  From one
    second after its end on it does not work either.  Within a second of its end the texts of the times decide, and they
    can go either way ([ended_link_accepted]). *)
Theorem link_works_once a0 raw t email ttl value a1 :
  table_run emptyTables a0 -> CreateLogin raw t email ttl a0 = (inr value, a1) ->
  (forall a2 now, run_with (link_kept value (t + ttl)) a1 a2 -> now + second_ns <= t + ttl ->
    exists e a3, ConsumeLogin now value a2 = (inr e, a3) /\ NormalizeEmail email = inr e /\
      forall a4 now', run_with (not_drawn value) a3 a4 ->
        ConsumeLogin now' value a4 = (inl ErrExpired, a4) \/ ConsumeLogin now' value a4 = (inl ErrNotFound, a4)) /\
  (forall a2 now, run_with (not_drawn value) a1 a2 -> t + ttl + second_ns <= now ->
    ConsumeLogin now value a2 = (inl ErrExpired, a2) \/ ConsumeLogin now value a2 = (inl ErrNotFound, a2)).
Proof.
  intros Hr Hc. destruct (CreateLogin_row _ _ _ _ _ _ _ (reachable_ok _ Hr) Hc) as (e & He & Hok1 & _ & Hl). split.
  - intros a2 now Hr2 Hnow. pose proof (run_with_ok _ _ _ Hok1 Hr2) as Hok2.
    destruct (ConsumeLogin_kept _ _ _ _ _ now Hok1 Hl eq_refl eq_refl Hr2 Hnow) as [Hcl Hl3].
    eexists e, _. split; [exact Hcl|]. split; [done|]. intros a4 now' Hr4.
    pose proof (table_step_ok _ _ _ Hok2 (ts_consume a2 now value)) as Hok3.
    assert (forall l4, link_row value a4 = Some l4 -> unused l4 = false) as Hu.
    { eapply (link_run value (fun x => unused x = false)); [exact Hok3|done| |exact Hr4]. rewrite Hl3. by intros x [= <-]. }
    pose proof (ConsumeLogin_eq now' value a4 (run_with_ok _ _ _ Hok3 Hr4)) as Hcl4.
    destruct (link_row value a4) as [l4|]; [|by right]. rewrite Hu in Hcl4 by done. by left.
  - intros a2 now Hr2 Hnow.
    assert (forall l2, link_row value a2 = Some l2 -> l_expires l2 = FormatTime (t + ttl)) as He2.
    { eapply (link_run value (fun x => l_expires x = FormatTime (t + ttl))); [exact Hok1|done| |exact Hr2]. rewrite Hl. by intros x [= <-]. }
    pose proof (ConsumeLogin_eq now value a2 (run_with_ok _ _ _ Hok1 Hr2)) as Hcl.
    destruct (link_row value a2) as [l2|]; [|by right]. left. rewrite He2 in Hcl by done.
    destruct (stamp_ltb (FormatTime now) (FormatTime (t + ttl))) eqn:E; [|by rewrite andb_false_r in Hcl].
    apply stamp_ltb_lt in E. unfold second_ns in *. lia.
Qed.

(** The life of a session, among any other requests that do not draw its value again: it names its account, with the
    address and organization the account has always had, until the account signs out or the time is up (to the
    second); after either it names nobody. *)
Theorem session_lifecycle a0 raw t user ttl value a1 u :
  table_run emptyTables a0 -> CreateSession raw t user ttl a0 = (inr value, a1) -> second_ns <= ttl -> users a0 !! user = Some u ->
  (forall a2 now, run_with (session_kept value (t + ttl)) a1 a2 -> now + second_ns <= t + ttl ->
    exists sess, GetSession now value a2 = inr sess /\ sess_user_id sess = user /\ same_account u (sess_user sess)) /\
  (forall a2 now, run_with (not_drawn value) a1 a2 -> t + ttl + second_ns <= now -> GetSession now value a2 = inl ErrNotFound) /\
  (forall a2 a3 now, run_with (not_drawn value) a1 a2 -> run_with (not_drawn value) (DeleteSession value a2) a3 ->
    GetSession now value a3 = inl ErrNotFound).
Proof.
  intros Hr Hc Httl Hu.
  destruct (CreateSession_row _ _ _ _ _ _ _ _ (reachable_ok _ Hr) Hc Httl Hu) as (Hok1 & Hs & u1 & Hu1 & [E1 E2]). split_and!.
  - intros a2 now Hr2 Hnow. destruct (GetSession_kept _ _ _ _ _ now _ Hok1 Hs eq_refl Hu1 Hr2 Hnow) as (sess & ? & ? & [? ?]).
    exists sess. split; [done|]. split; [done|]. split; congruence.
  - intros a2 now Hr2 Hnow. pose proof (GetSession_eq now value a2 (run_with_ok _ _ _ Hok1 Hr2)) as Hg.
    destruct (session_run value _ _ Hok1 Hr2) as [E|E]; rewrite E in Hg; [|done]. rewrite Hs in Hg. simpl in Hg.
    destruct (stamp_ltb _ _) eqn:Elt; [|done]. apply stamp_ltb_lt in Elt. unfold second_ns in *. lia.
  - intros a2 a3 now Hr2 Hr3. pose proof (run_with_ok _ _ _ Hok1 Hr2) as Hok2.
    pose proof (table_step_ok _ _ _ Hok2 (ts_logout a2 value)) as Hok2'.
    assert (session_row value (DeleteSession value a2) = None) as Hn.
    { unfold session_row. simpl. rewrite (row_delete s_hash _ _ _ (HashToken value)); [|by apply tok_sessions|apply session_hash_eq].
      destruct (row _ (sessions a2)) as [x|] eqn:E; [|done]. simpl. apply row_some in E as [_ E]. unfold session_hash in E. by rewrite E. }
    pose proof (GetSession_eq now value a3 (run_with_ok _ _ _ Hok2' Hr3)) as Hg.
    destruct (session_run value _ _ Hok2' Hr3) as [E|E]; rewrite E in Hg; [rewrite Hn in Hg|]; done.
Qed.

End accounts.

(** ** Sign-up *)

Section signup.
Context `{Unicode} `{MailAddress}.

(** The slugs a sign-up tries. *)
Definition signup_slugs (slug : gostring) (suffix : nat -> gostring) : list gostring := attempt_slug slug suffix <$> seq 0 5.

Lemma signup_attempts_errors n k slug email suffix a e a' :
  signup_attempts n k slug email suffix a = (inl e, a') ->
  (e = ErrExists /\ exists u, u ∈ users a /\ u_email u = email) \/
  (e = ErrNoFreeSlug /\ forall i, (k <= i < k + n)%nat -> exists o, o ∈ orgs (base a) /\ o_slug o = attempt_slug slug suffix i).
Proof.
  revert k. induction n as [|n IH]; intros k; cbn [signup_attempts]; [intros [= <- _]; right; split; [done|lia]|].
  destruct (insert_unique o_slug _ _) as [[orgID os]|] eqn:Eo.
  - destruct (insert_unique u_email _ _) as [[id us]|] eqn:Eu.
    + apply insert_unique_inv in Eo as (-> & -> & _). apply insert_unique_inv in Eu as (-> & -> & _).
      unfold GetUserByID, GetOrgByID. cbn [users orgs base set_users set_base set_orgs].
      rewrite !lookup_app_r, !Nat.sub_diag by done. done.
    + intros [= <- _]. left. split; [done|]. by apply insert_unique_none in Eu.
  - apply insert_unique_none in Eo as (o & Ho & Es). intros [?|[-> Hi]]%IH; [by left|right]. split; [done|].
    intros i Hle. destruct (decide (i = k)) as [->|]; [by exists o|]. apply Hi. lia.
Qed.

(** [Signup] on every branch.  It never panics.  It creates one organization, named after the address, with a
    well-formed slug of its own, and one account in it, or nothing at all; it fails only for an address that is
    not one, one that has an account already, or when all five slugs it tries are taken. *)
Theorem signup_exact suffix email a :
  random_suffix suffix ->
  match Signup suffix email a with
  | None => False
  | Some (inl e, a') =>
    a' = a /\
    ((e = ErrInvalidEmail /\ NormalizeEmail email = inl ErrInvalidEmail) \/
     exists addr slug, NormalizeEmail email = inr addr /\ slugFromEmail addr = Some slug /\
       ((e = ErrExists /\ exists u, u ∈ users a /\ u_email u = addr) \/
        (e = ErrNoFreeSlug /\ forall s, s ∈ signup_slugs slug suffix -> exists o, o ∈ orgs (base a) /\ o_slug o = s)))
  | Some (inr (id, u, (org, o)), a') =>
    exists addr, NormalizeEmail email = inr addr /\ CheckSlug (o_slug o) = true /\ o_name o = addr /\
      (forall x, x ∈ orgs (base a) -> o_slug x <> o_slug o) /\ (forall x, x ∈ users a -> u_email x <> addr) /\
      u = new_user org addr [] /\ org = length (orgs (base a)) /\ id = length (users a) /\
      orgs (base a') = orgs (base a) ++ [o] /\ users a' = users a ++ [u] /\ logins a' = logins a /\ sessions a' = sessions a
  end.
Proof.
  intros Hsuf. destruct (Signup_total suffix email a) as [[res a'] Hs]. rewrite Hs.
  pose proof (Signup_inv _ _ _ _ _ Hs) as Hi. destruct res as [e|[[id u] [org o]]].
  - split; [done|]. unfold Signup in Hs. destruct (NormalizeEmail email) as [err|addr] eqn:En.
    + left. injection Hs as <- <-. unfold NormalizeEmail in En. repeat case_match; simplify_eq; done.
    + right. destruct (slugFromEmail addr) as [slug|] eqn:Es; [|done]. apply (inj Some) in Hs. exists addr, slug.
      split_and!; [done..|]. destruct (signup_attempts_errors _ _ _ _ _ _ _ _ Hs) as [[-> ?]|[-> Hall]]; [by left|right].
      split; [done|]. intros s (i & -> & Hseq)%list_elem_of_fmap. apply elem_of_seq in Hseq. apply Hall. lia.
  - destruct Hi as (addr & slug & k & Hn & Hsl & -> & Ho & Hu & -> & -> & -> & ->). exists addr.
    apply slugFromEmail_ok in Hsl as [? ?]. split_and!; try done. by apply attempt_slug_ok.
Qed.

End signup.

(** ** Requests *)

Section requests.
Context `{RegexpCompiler} `{RT : GoRuntime} `{GoDecoders} `{ObjectJSON} `{Ed25519} `{MailAddress} `{Web} `{Formatter}.
Context (cfg : serverConfig) (Send : mail -> bool).

(** C19: Organizations are isolated: a request that runs as the account of one organization leaves every row of every
    other organization (sets, versions, publications, tokens, keys, events, accounts, sessions, reports) as it was, and
    one that names another organization in its path, or one that does not exist, is answered 404 and changes nothing. *)
Theorem session_confined scanner c who r a rep out a' own :
  table_run emptyTables a -> requireAccess cfg r a = inr who -> pr_org (c_principal who) = Some own ->
  handle cfg Send scanner c who r a = Some (rep, out, a') ->
  (exists value sess, rq_cookie r = Some value /\ GetSession (rq_at r) value a = inr sess /\ u_org (sess_user sess) = own) /\
  (forall o, o <> own -> tables_untouched o a a') /\
  (forall org, call_org c = Some org -> (forall o, GetOrg org (base a) <> inr (own, o)) ->
    reply_status rep = 404 /\ out = [] /\ a' = a).
Proof.
  intros Hr Ha Ho Hh. pose proof (reachable_ok _ Hr) as Hok.
  assert (authenticate cfg r a = inr (Some who)) as Hau by (unfold requireAccess in Ha; repeat case_match; simplify_eq; done).
  split_and!.
  - destruct (authenticate_session cfg r a who own Hau Ho) as (value & sess & Hv & _ & Hg & Hown & _). eauto.
  - intros o Hne. by eapply handle_untouched.
  - intros org Hc Hf. by eapply handle_foreign.
Qed.

(** How a request shows that it may change something. *)
Inductive may_change (r : httpRequest) (a : Tables) : Prop :=
| by_admin : AdminToken cfg <> [] -> bearer (h_Authorization r) = Some (AdminToken cfg) -> may_change r a
| by_open : SingleTenant cfg = true -> AdminToken cfg = [] -> (fromBrowser r = true -> originProblem cfg r = []) -> may_change r a
| by_session value sess :
    rq_cookie r = Some value -> GetSession (rq_at r) value a = inr sess -> h_XRequestedWith r <> [] -> originProblem cfg r = [] ->
    may_change r a.

Lemma is_empty_nil {A} (l : list A) : is_empty l = true <-> l = [].
Proof. by destruct l. Qed.

Lemma authenticate_cases r a who :
  authenticate cfg r a = inr (Some who) ->
  (who = admin_caller /\ AdminToken cfg <> [] /\ bearer (h_Authorization r) = Some (AdminToken cfg)) \/
  (who = open_caller /\ SingleTenant cfg = true /\ AdminToken cfg = []) \/
  (exists value sess, rq_cookie r = Some value /\ GetSession (rq_at r) value a = inr sess /\ is_Some (pr_user (c_principal who))).
Proof.
  unfold authenticate. intros Ha. repeat case_match; simplify_eq/=.
  all: try (right; right; by eauto).
  all: try (right; left; split_and!; [done|..]; by destruct (SingleTenant cfg), (AdminToken cfg)).
  left. split_and!; [done|by destruct (AdminToken cfg)|]. f_equal. by apply str_eqb_eq.
Qed.

Lemma requireAccess_unsafe r a who : safeMethod (rq_Method r) = false -> requireAccess cfg r a = inr who -> may_change r a.
Proof.
  intros Hm Ha. unfold requireAccess in Ha. destruct (authenticate cfg r a) as [e|[c0|]] eqn:Eau; [done| |done].
  rewrite Hm in Ha. cbv zeta in Ha.
  destruct (authenticate_cases _ _ _ Eau) as [(-> & ? & ?)|[(-> & ? & ?)|(value & sess & ? & ? & [e He])]].
  - by apply by_admin.
  - apply by_open; [done..|]. intros Hb. simpl in Ha. rewrite Hb in Ha. simpl in Ha. destruct (originProblem cfg r); done.
  - rewrite He in Ha. simpl in Ha. destruct (is_empty (csrfProblem cfg r)) eqn:Ec; [|done]. apply is_empty_nil in Ec.
    unfold csrfProblem in Ec. destruct (h_XRequestedWith r) eqn:Ex; [done|]. simpl in Ec. eapply by_session; eauto. by rewrite Ex.
Qed.

(** A GET route changes nothing. *)
Lemma handle_get scanner c who r a rep out a' :
  method_of c = go "GET" -> handle cfg Send scanner c who r a = Some (rep, out, a') -> a' = a /\ out = [].
Proof. unfold handle, reads. cbv zeta. destruct c; try discriminate; intros _ [= _ <- <-]; done. Qed.

(** C18: Nothing changes, and no mail goes out, without access: a management request that changes the store carries the
    admin token, or comes to an open single-tenant server from no browser or from the panel's own host, or carries
    the cookie of a live session together with the panel's header and an origin that is this server's. *)
Theorem no_change_without_access scanner c r a rep out a' :
  routed c r = true -> serve cfg Send scanner c r a = Some (rep, out, a') -> a' <> a \/ out <> [] -> may_change r a.
Proof.
  intros Hrt Hs Hch. unfold serve in Hs. destruct (requireAccess cfg r a) as [code|who] eqn:Ea.
  { injection Hs as _ <- <-. by destruct Hch. }
  eapply requireAccess_unsafe; [|exact Ea].
  destruct (decide (method_of c = go "GET")) as [E|E]; [destruct (handle_get _ _ _ _ _ _ _ _ E Hs); by destruct Hch|].
  unfold routed in Hrt. apply orb_true_iff in Hrt as [Hrt|Hrt].
  - apply str_eqb_eq in Hrt. rewrite Hrt. destruct c; try done; by destruct E.
  - apply andb_prop in Hrt as [Hrt _]. by apply str_eqb_eq in Hrt.
Qed.

(** ** Signing in *)

(** [Sprintf] of a text with one directive. *)
Lemma Sprintf_plain p v : ~ In (ch "%") p -> forall q, Sprintf (p ++ q) v = p ++ Sprintf q v.
Proof.
  induction p as [|c p IH]; intros Hp q; [done|]. simpl.
  destruct (c =? 37) eqn:E; [boolp; destruct Hp; left; done|]. simpl. f_equal. apply IH. intros Hin. apply Hp. by right.
Qed.

(** The mail of a sign-in carries the link. *)
Lemma login_mail_body link :
  exists before after, Sprintf loginFormat (Some link) = before ++ link ++ after.
Proof.
  set (f := go "Open this link to sign in; it works once and for a quarter of an hour:" ++ [newline; newline]).
  set (g := [newline; newline] ++ go "If you did not ask for it, ignore this mail.").
  exists f, g. change loginFormat with (f ++ go "%s" ++ g). rewrite Sprintf_plain.
  - done.
  - intros Hin. vm_compute in Hin. decompose [or] Hin; done.
Qed.

(** The answer of [login] tells nothing about the address: on a server whose mailer delivers, it is the same
    whatever accounts there are. *)
Theorem login_discloses_nothing allowIP allowEmail raw r body a b :
  (forall m, Send m = true) -> (forall x, x ∈ logins a -> l_hash x <> HashToken (hex_encode raw)) ->
  (forall x, x ∈ logins b -> l_hash x <> HashToken (hex_encode raw)) ->
  fst (fst (login cfg Send allowIP allowEmail raw r body a)) = fst (fst (login cfg Send allowIP allowEmail raw r body b)).
Proof.
  intros HS Ha Hb.
  assert (forall email e' t, (forall x, x ∈ logins t -> l_hash x <> HashToken (hex_encode raw)) -> HasMailer cfg = true ->
    NormalizeEmail email = inr e' -> fst (fst (sendLink cfg Send raw (rq_at r) email loginSubject loginFormat t)) = true) as Hsend.
  { intros email e' t Ht Hm He. unfold sendLink. rewrite Hm. simpl. unfold CreateLogin. rewrite He.
    destruct (insert_unique _ _ _) as [[id l]|] eqn:E; [apply HS|]. apply insert_unique_none in E as (x & Hx & Ex). by destruct (Ht x Hx). }
  unfold login. destruct (is_empty (csrfProblem cfg r)); [|done]. simpl. destruct (HasMailer cfg) eqn:Em; [|done]. simpl.
  destruct (allowIP _); [|done]. simpl. destruct body as [code|address]; [done|].
  destruct (NormalizeEmail address) as [|email] eqn:En; [done|]. destruct (allowEmail email); [|done]. simpl.
  unfold GetUserByEmail. destruct (NormalizeEmail email) as [e|email'] eqn:E2.
  { assert (e = ErrInvalidEmail) as -> by (unfold NormalizeEmail in E2; repeat case_match; simplify_eq; done). done. }
  pose proof (Hsend _ _ a Ha eq_refl E2) as Sa. pose proof (Hsend _ _ b Hb eq_refl E2) as Sb.
  destruct (sendLink _ _ _ _ _ _ _ a) as [[ga oa] ta], (sendLink _ _ _ _ _ _ _ b) as [[gb ob] tb]. simpl in Sa, Sb. subst ga gb.
  destruct (select _ (users a)), (select _ (users b)), (SignupOpen cfg); done.
Qed.

Lemma GetUserByEmail_later email a a' id u :
  tables_ok a' -> tables_later a a' -> GetUserByEmail email a = inr (id, u) ->
  exists u', GetUserByEmail email a' = inr (id, u') /\ users a' !! id = Some u' /\ same_account u u'.
Proof.
  intros Hok [_ Hl]. unfold GetUserByEmail. destruct (NormalizeEmail email) as [|e]; [done|].
  destruct (select _ (users a)) as [[i x]|] eqn:Es; [|done]. simpl. intros [= -> ->]. apply select_some in Es as [Hi Hx].
  apply str_eqb_eq in Hx. destruct (Hl id u Hi) as (u' & Hu' & [E1 E2]). exists u'. split_and!; [|done|by split].
  destruct (select _ (users a')) as [[j y]|] eqn:Es'.
  - apply select_some in Es' as [Hj Hy]. apply str_eqb_eq in Hy. simpl.
    assert (j = id) as -> by (eapply (NoDup_lookup (u_email <$> users a')); [by apply tok_emails| |];
      rewrite list_lookup_fmap; [by rewrite Hj|rewrite Hu'; simpl; congruence]). congruence.
  - rewrite select_none in Es'. specialize (Es' u' (list_elem_of_lookup_2 _ _ _ Hu')). apply str_eqb_neq in Es'. congruence.
Qed.

Lemma hex_encode_nonempty raw : raw <> [] -> exists c v, hex_encode raw = c :: v.
Proof. destruct raw as [|b raw]; [done|]. unfold hex_encode. rewrite bind_cons. simpl. eauto. Qed.

Lemma login_send allowIP allowEmail raw r address email a id u :
  NormalizeEmail address = inr email -> NormalizeEmail email = inr email -> GetUserByEmail email a = inr (id, u) ->
  HasMailer cfg = true -> (forall m, Send m = true) -> csrfProblem cfg r = [] -> allowIP (clientIP cfg r) = true ->
  allowEmail email = true -> (forall x, x ∈ logins a -> l_hash x <> HashToken (hex_encode raw)) ->
  exists a1, CreateLogin raw (rq_at r) email (LoginTTL cfg) a = (inr (hex_encode raw), a1) /\
    login cfg Send allowIP allowEmail raw r (inr address) a =
      (auth_ok SentBody, [{| m_to := email; m_subject := loginSubject;
                            m_body := Sprintf loginFormat (Some (magic_link cfg (hex_encode raw))) |}], a1).
Proof.
  intros Hn Hn2 Hg Hm HS Hc Hip Hem Hfresh.
  assert (exists a1, CreateLogin raw (rq_at r) email (LoginTTL cfg) a = (inr (hex_encode raw), a1)) as [a1 Hcl].
  { unfold CreateLogin. rewrite Hn2. destruct (insert_unique _ _ _) as [[i l]|] eqn:E; [by eexists|].
    apply insert_unique_none in E as (x & Hx & Ex). by destruct (Hfresh x Hx). }
  exists a1. split; [done|]. unfold login. rewrite Hc, Hm, Hip, Hn, Hem, Hg. cbn [is_empty negb].
  unfold sendLink. rewrite Hm, Hcl. cbn [negb]. by rewrite HS.
Qed.

Lemma verify_signs_in allowIP raw suffix r value email a ac id u as_ :
  value <> [] -> originProblem cfg r = [] -> allowIP (clientIP cfg r) = true ->
  ConsumeLogin (rq_at r) value a = (inr email, ac) -> GetUserByEmail email ac = inr (id, u) ->
  CreateSession raw (rq_at r) id (SessionTTL cfg) ac = (inr (hex_encode raw), as_) ->
  verify cfg allowIP raw suffix r (Some value) a =
    Some (redirect (go "/") (Some (setSessionCookie cfg (hex_encode raw) (SessionTTL cfg))),
          audit_as email nobody (rq_at r) (clientIP cfg r) (u_org u) (go "signin") [] [] as_).
Proof.
  intros Hv Ho Hip Hc Hg Hs. unfold verify. rewrite Ho, Hip. cbn [is_empty negb]. destruct value as [|b v]; [done|].
  rewrite Hc, Hg. unfold start_session. by rewrite Hs.
Qed.

Lemma CreateSession_fresh raw now user ttl a u :
  users a !! user = Some u -> (forall x, x ∈ sessions a -> s_hash x <> HashToken (hex_encode raw)) ->
  exists a', CreateSession raw now user ttl a = (inr (hex_encode raw), a').
Proof.
  intros Hu Hf. unfold CreateSession. destruct (insert_unique _ _ _) as [[i l]|] eqn:E; [rewrite Hu; by eexists|].
  apply insert_unique_none in E as (x & Hx & Ex). by destruct (Hf x Hx).
Qed.

Lemma audit_as_frame act p now ip org action target det a :
  users (audit_as act p now ip org action target det a) = users a /\
  sessions (audit_as act p now ip org action target det a) = sessions a.
Proof. unfold audit_as. by repeat case_match. Qed.

(** C21: Signing in works, whatever else happens meanwhile.  Take an account with an ASCII address, a server with a mailer that
    delivers every mail and a session time of at least a second, and a sign-in that passes the panel's header and
    origin checks and both rate limits, with a random value not drawn before.  It sends the account, and only it, a mail
    with a link.  The value in the link, posted back from an allowed origin and within the rate limit, at least a
    second before the link ends and before anyone used it, sets the session cookie, for a session value not
    drawn before.  A request with that cookie and no bearer token, at least a second before the session ends and before
    a sign-out, runs as the account, in its organization, unless the server is open to everyone (single-tenant
    without an admin token). *)
Theorem sign_in_works allowIP allowEmail raw r address email a id u :
  table_run emptyTables a -> isASCIIString address = true -> NormalizeEmail address = inr email ->
  GetUserByEmail email a = inr (id, u) -> HasMailer cfg = true -> (forall m, Send m = true) -> second_ns <= SessionTTL cfg ->
  csrfProblem cfg r = [] -> allowIP (clientIP cfg r) = true -> allowEmail email = true ->
  raw <> [] -> (forall x, x ∈ logins a -> l_hash x <> HashToken (hex_encode raw)) ->
  exists m a1, login cfg Send allowIP allowEmail raw r (inr address) a = (auth_ok SentBody, [m], a1) /\ m_to m = email /\
    (exists before after, m_body m = before ++ magic_link cfg (hex_encode raw) ++ after) /\
    forall a2 allowIP2 raw2 suffix r2,
      run_with (link_kept (hex_encode raw) (rq_at r + LoginTTL cfg)) a1 a2 -> rq_at r2 + second_ns <= rq_at r + LoginTTL cfg ->
      originProblem cfg r2 = [] -> allowIP2 (clientIP cfg r2) = true ->
      (forall x, x ∈ sessions a2 -> s_hash x <> HashToken (hex_encode raw2)) -> raw2 <> [] ->
      exists a3, verify cfg allowIP2 raw2 suffix r2 (Some (hex_encode raw)) a2 =
          Some (redirect (go "/") (Some (setSessionCookie cfg (hex_encode raw2) (SessionTTL cfg))), a3) /\
        forall a4 r3,
          run_with (session_kept (hex_encode raw2) (rq_at r2 + SessionTTL cfg)) a3 a4 ->
          rq_at r3 + second_ns <= rq_at r2 + SessionTTL cfg -> rq_cookie r3 = Some (hex_encode raw2) ->
          bearer (h_Authorization r3) = None -> SingleTenant cfg && is_empty (AdminToken cfg) = false ->
          authenticate cfg r3 a4 =
            inr (Some {| c_principal := {| is_admin := false; is_open := false; pr_user := Some email; pr_org := Some (u_org u) |};
                         c_session := hex_encode raw2 |}).
Proof.
  intros Hrun Hasc Hn Hg Hm HS Httl Hcsrf Hip Hem Hraw Hfresh. pose proof (reachable_ok _ Hrun) as Hok.
  pose proof (NormalizeEmail_again _ _ Hasc Hn) as Hagain.
  destruct (login_send allowIP allowEmail raw r address email a id u) as (a1 & Hcl & Hlog); [done..|].
  eexists _, a1. split; [exact Hlog|]. split; [done|]. split; [apply login_mail_body|].
  destruct (CreateLogin_row _ _ _ _ _ _ _ Hok Hcl) as (e & He & Hok1 & _ & Hl). rewrite Hagain in He. injection He as <-.
  intros a2 allowIP2 raw2 suffix r2 Hr2 Hnow Hor Hip2 Hfresh2 Hraw2. pose proof (run_with_ok _ _ _ Hok1 Hr2) as Hok2.
  destruct (ConsumeLogin_kept _ _ _ _ _ (rq_at r2) Hok1 Hl eq_refl eq_refl Hr2 Hnow) as [Hcons _]. simpl in Hcons.
  set (ac := snd (ConsumeLogin _ _ a2)) in *. pose proof (ts_consume a2 (rq_at r2) (hex_encode raw)) as Hstep. fold ac in Hstep.
  assert (tables_ok ac) as Hokc by (by eapply table_step_ok).
  assert (tables_later a ac) as Hlater.
  { apply (run_later (fun _ => True) a ac Hok). etrans; [|etrans; [by eapply run_with_any|by eapply (step_run (fun _ => True))]].
    pose proof (step_run (fun _ => True) a _ _ I (ts_login a raw (rq_at r) email (LoginTTL cfg))) as Hr1. by rewrite Hcl in Hr1. }
  destruct (GetUserByEmail_later _ _ _ _ _ Hokc Hlater Hg) as (u' & Hg' & Hu' & [E1 E2]).
  assert (sessions ac = sessions a2) as Hse by (unfold ac; by rewrite ConsumeLogin_tables).
  destruct (CreateSession_fresh raw2 (rq_at r2) id (SessionTTL cfg) ac u' Hu') as [as_ Has]; [by rewrite Hse|].
  destruct (hex_encode_nonempty raw Hraw) as (c & v & Ev).
  eexists. split; [eapply verify_signs_in; [by rewrite Ev|exact Hor|exact Hip2|exact Hcons|exact Hg'|exact Has]|].
  destruct (CreateSession_row _ _ _ _ _ _ _ _ Hokc Has Httl Hu') as (Hoks & Hs & u1 & Hu1 & [E3 E4]).
  set (a3 := audit_as _ _ _ _ _ _ _ _ as_).
  assert (tables_ok a3) as Hok3 by (eapply run_with_ok; [exact Hoks|by apply (audit_as_run (fun _ => True))]).
  destruct (audit_as_frame email nobody (rq_at r2) (clientIP cfg r2) (u_org u') (go "signin") [] [] as_) as [Fu Fs].
  fold a3 in Fu, Fs. intros a4 r3 Hr4 Hnow3 Hck Hb Hst.
  destruct (GetSession_kept (hex_encode raw2) _ _ a3 a4 (rq_at r3) u1 Hok3 ltac:(unfold session_row; rewrite Fs; exact Hs) eq_refl
    ltac:(rewrite Fu; exact Hu1) Hr4 Hnow3) as (sess & Hgs & _ & [E5 E6]).
  unfold authenticate. rewrite Hb, Hst, Hck. destruct (hex_encode_nonempty raw2 Hraw2) as (c2 & v2 & Ev2). rewrite Ev2, <-Ev2, Hgs.
  assert (u_email u = email) as Hue.
  { unfold GetUserByEmail in Hg. rewrite Hagain in Hg. destruct (select _ (users a)) as [[i x]|] eqn:Es; [|done].
    injection Hg as <- <-. apply select_some in Es as [_ Es]. by apply str_eqb_eq in Es. }
  do 4 f_equal; congruence.
Qed.
End requests.

(** ** Witnesses

    A server that mails, with the organizations of Ann and of Bob. *)

Definition run_mail : MailAddress := {| ParseAddress := fun s => Some ([], s) |}.
Definition run_web : Web := {|
  ParseURL := fun s => Some {| url_Scheme := go "https"; url_Host := drop 8 s; url_HasUser := false; url_RawQuery := []; url_Fragment := [] |};
  FoldRune := lowerASCIIByte |}.
Definition run_format : Formatter := {| FormatOther := fun _ _ => [] |}.

#[local] Existing Instances run_unicode run_time run_compiler run_decoders run_ed25519 run_objects run_mail run_web run_format.

Definition demo_server : serverConfig := {|
  AdminToken := go "tk"; SingleTenant := false; BaseURL := go "https://r.io"; HasMailer := true; SignupOpen := true;
  TrustProxy := false; InsecureCookies := false; SessionTTL := DefaultSessionTTL; LoginTTL := DefaultLoginTTL |}.

Definition ann : gostring := go "ann@x.io".
Definition demo_suffix (n : nat) : gostring := [1; 2].
Definition demo_send (m : mail) : bool := true.
Definition allow_all (key : gostring) : bool := true.

Definition demo_ann : Tables := Eval vm_compute in default emptyTables (snd <$> Signup demo_suffix ann emptyTables).
Definition demo_bob : Tables := Eval vm_compute in default emptyTables (snd <$> Signup demo_suffix (go "bob@x.io") demo_ann).

(** A request of the panel at a moment, with a cookie or a bearer value. *)
Definition demo_request (method : gostring) (at_ : Z) (authorization : gostring) (ck : option gostring) : httpRequest := {|
  rq_Method := method; rq_Host := go "r.io"; rq_RemoteAddr := go "10.0.0.1:80"; rq_at := at_; h_Authorization := authorization;
  h_Origin := go "https://r.io"; h_Referer := []; h_XRequestedWith := go "panel"; h_XForwardedFor := []; rq_cookie := ck |}.

Lemma demo_suffix_random : random_suffix demo_suffix.
Proof. intros k. split; [repeat constructor; lia|reflexivity]. Qed.

Lemma demo_ann_run : table_run emptyTables demo_ann.
Proof.
  assert (Signup demo_suffix ann emptyTables = Some (fst (default (inl ErrNoRows, emptyTables) (Signup demo_suffix ann emptyTables)), demo_ann)) as E
    by (vm_compute; reflexivity).
  eapply (step_run (fun _ => True)), (ts_signup _ _ _ _ _ demo_suffix_random E). exact I.
Qed.

Lemma demo_bob_run : table_run emptyTables demo_bob.
Proof.
  assert (Signup demo_suffix (go "bob@x.io") demo_ann =
    Some (fst (default (inl ErrNoRows, emptyTables) (Signup demo_suffix (go "bob@x.io") demo_ann)), demo_bob)) as E
    by (vm_compute; reflexivity).
  etrans; [exact demo_ann_run|]. eapply (step_run (fun _ => True)), (ts_signup _ _ _ _ _ demo_suffix_random E). exact I.
Qed.

Lemma accounts_well_formed_witness : exists o, orgs (base demo_bob) !! 1%nat = Some o /\ CheckSlug (o_slug o) = true.
Proof.
  destruct (accounts_well_formed demo_bob demo_bob_run) as (_ & _ & _ & H & _).
  eexists. split; [reflexivity|]. apply H. right. left.
Defined.

Lemma link_works_once_witness :
  exists e a3, ConsumeLogin 0 (hex_encode [7]) (snd (CreateLogin [7] 0 ann DefaultLoginTTL demo_ann)) = (inr e, a3) /\ NormalizeEmail ann = inr e.
Proof.
  assert (CreateLogin [7] 0 ann DefaultLoginTTL demo_ann = (inr (hex_encode [7]), snd (CreateLogin [7] 0 ann DefaultLoginTTL demo_ann))) as E
    by reflexivity.
  destruct (link_works_once _ _ _ _ _ _ _ demo_ann_run E) as [H _].
  destruct (H _ 0 (rtc_refl _ _) ltac:(vm_compute; discriminate)) as (e & a3 & H1 & H2 & _).
  exists e, a3. split; [exact H1|exact H2].
Defined.

Lemma session_lifecycle_witness :
  exists sess, GetSession 0 (hex_encode [8]) (snd (CreateSession [8] 0 0 DefaultSessionTTL demo_ann)) = inr sess /\ u_email (sess_user sess) = ann.
Proof.
  assert (CreateSession [8] 0 0 DefaultSessionTTL demo_ann = (inr (hex_encode [8]), snd (CreateSession [8] 0 0 DefaultSessionTTL demo_ann))) as E
    by reflexivity.
  destruct (session_lifecycle _ _ _ _ _ _ _ (new_user 0 ann []) demo_ann_run E ltac:(vm_compute; discriminate) eq_refl) as [H _].
  destruct (H _ 0 (rtc_refl _ _) ltac:(vm_compute; discriminate)) as (sess & H1 & _ & _ & H2).
  exists sess. split; [exact H1|exact H2].
Defined.

Lemma signup_exact_witness : exists a', Signup demo_suffix ann demo_ann = Some (inl ErrExists, a') /\ a' = demo_ann.
Proof.
  pose proof (signup_exact demo_suffix ann demo_ann demo_suffix_random) as H.
  assert (Signup demo_suffix ann demo_ann = Some (inl ErrExists, demo_ann)) as E by (vm_compute; reflexivity).
  rewrite E in H. exists demo_ann. split; [exact E|exact (proj1 H)].
Defined.

Definition demo_session : Tables := Eval vm_compute in snd (CreateSession [8] 0 0 DefaultSessionTTL demo_bob).

Lemma demo_session_run : table_run emptyTables demo_session.
Proof.
  etrans; [exact demo_bob_run|]. eapply (step_run (fun _ => True)); [exact I|]. exact (ts_session demo_bob [8] 0 0 DefaultSessionTTL).
Qed.

Definition ann_caller : caller := {|
  c_principal := {| is_admin := false; is_open := false; pr_user := Some ann; pr_org := Some 0%nat |}; c_session := hex_encode [8] |}.

Definition ann_request : httpRequest := demo_request (go "GET") 0 [] (Some (hex_encode [8])).

Lemma session_confined_witness :
  requireAccess demo_server ann_request demo_session = inr ann_caller /\
  exists rep, handle demo_server demo_send fresh (CallListSets (go "bob")) ann_caller ann_request demo_session =
    Some (rep, [], demo_session) /\ reply_status rep = 404.
Proof.
  assert (requireAccess demo_server ann_request demo_session = inr ann_caller) as Ha by (vm_compute; reflexivity).
  split; [exact Ha|]. eexists. split; [reflexivity|].
  refine (proj1 (proj2 (proj2 (session_confined demo_server demo_send fresh (CallListSets (go "bob")) ann_caller ann_request demo_session
    _ [] demo_session 0 demo_session_run Ha eq_refl eq_refl)) (go "bob") eq_refl _)).
  intros o. vm_compute. discriminate.
Defined.

Lemma no_change_without_access_witness :
  may_change demo_server (demo_request (go "POST") 0 (go "Bearer tk") None) emptyTables.
Proof.
  eapply (no_change_without_access demo_server demo_send fresh (CallCreateOrg (go "acme") []) _ emptyTables);
    [reflexivity|vm_compute; reflexivity|left; discriminate].
Defined.

Lemma login_discloses_nothing_witness :
  fst (fst (login demo_server demo_send allow_all allow_all [7] (demo_request (go "POST") 0 [] None) (inr ann) demo_ann)) =
  fst (fst (login demo_server demo_send allow_all allow_all [7] (demo_request (go "POST") 0 [] None) (inr ann) emptyTables)).
Proof.
  apply (login_discloses_nothing (RT := run_time)); [reflexivity|intros x Hx; apply elem_of_nil in Hx as []..].
Defined.

Lemma sign_in_works_witness :
  exists m a1, login demo_server demo_send allow_all allow_all [7] (demo_request (go "POST") 0 [] None) (inr ann) demo_ann =
    (auth_ok SentBody, [m], a1) /\ m_to m = ann.
Proof.
  destruct (sign_in_works (RT := run_time) demo_server demo_send allow_all allow_all [7] (demo_request (go "POST") 0 [] None) ann ann demo_ann 0
    (new_user 0 ann []) demo_ann_run eq_refl ltac:(vm_compute; reflexivity) ltac:(vm_compute; reflexivity) eq_refl
    ltac:(intros; reflexivity) ltac:(vm_compute; discriminate) ltac:(vm_compute; reflexivity) eq_refl eq_refl
    ltac:(discriminate) ltac:(intros x Hx; apply elem_of_nil in Hx as [])) as (m & a1 & H1 & H2 & _).
  exists m, a1. split; [exact H1|exact H2].
Defined.
