(* ===== verification/Mail.v ===== *)
(** * Mail

    [rules/internal/mail/mail.go]: the message, and the conversation with the SMTP server that delivers it.

    The conversation is the list of what was sent, each with whether the connection was encrypted; what the server answers is an
    argument.  [net/mail] and the clock are parameters. *)

From Stdlib Require Import ZArith Lia Bool.
From stdpp Require Import base list option.
From S2P Require Import Prelude GoStrings StoredTime Accounts Auth AccountTheorems.

(** ** The message *)

Definition crlf : gostring := [13; 10].

(** The replacer of [Message]: one line. *)
Definition one_line_value (s : gostring) : gostring := (fun c => if (c =? 13) || (c =? 10) then ch " " else c) <$> s.

(** [strings.ReplaceAll(s, "\r\n", "\n")] and [strings.ReplaceAll(s, "\n", "\r\n")]. *)
Fixpoint crlf_to_lf (s : gostring) : gostring :=
  match s with
  | [] => []
  | c :: t =>
    match t with
    | d :: u => if (c =? 13) && (d =? 10) then 10 :: crlf_to_lf u else c :: crlf_to_lf t
    | [] => [c]
    end
  end.

Definition lf_to_crlf (s : gostring) : gostring := concat ((fun c => if c =? 10 then crlf else [c]) <$> s).

(** [Message]; the date as it is formatted. *)
Definition Message (date from to subject text : gostring) : gostring :=
  go "From: " ++ one_line_value from ++ crlf ++
  go "To: " ++ one_line_value to ++ crlf ++
  go "Subject: " ++ one_line_value subject ++ crlf ++
  go "Date: " ++ date ++ crlf ++
  go "MIME-Version: 1.0" ++ crlf ++ go "Content-Type: text/plain; charset=utf-8" ++ crlf ++ crlf ++
  lf_to_crlf (crlf_to_lf text).

(** ** Delivery *)

Record SMTP := { Addr : gostring; Username : gostring; Password : gostring; From : gostring }.

(** What goes to the server. *)
Inductive smtpAction :=
| Dial (tls : bool)
| StartTLS
| AuthPlain (user password : gostring)
| MailFrom (sender : gostring)
| RcptTo (to : gostring)
| DataText (message : gostring)
| Quit.

(** What the server answers: whether it takes an action, and whether it offers STARTTLS. *)
Record smtpWorld := { sm_takes : smtpAction -> bool; sm_starttls : bool; sm_date : gostring }.

Section delivery.
Context `{MailAddress}.

(** [envelopeFrom]. *)
Definition envelopeFrom (from : gostring) : option gostring := snd <$> ParseAddress from.

(** Actions one after the other, while the server takes them: what was sent, with whether the connection was encrypted, and
    whether all was taken. *)
Fixpoint converse (w : smtpWorld) (tls : bool) (l : list smtpAction) : list (bool * smtpAction) * bool :=
  match l with
  | [] => ([], true)
  | a :: l =>
    if sm_takes w a then
      let tls' := match a with Dial t => t | StartTLS => true | _ => tls end in
      let '(sent, done) := converse w tls' l in ((tls, a) :: sent, done)
    else ([(tls, a)], false)
  end.

(** [SMTP.Send]: what was sent, and whether the message was delivered. *)
Definition Send (m : SMTP) (w : smtpWorld) (to subject text : gostring) : list (bool * smtpAction) * bool :=
  if is_empty (From m) then ([], false)
  else
    match envelopeFrom (From m), SplitHostPort (Addr m) with
    | Some sender, Some (_, port) =>
      let immediate := str_eqb port (go "465") in
      let auth := if negb (is_empty (Username m)) || negb (is_empty (Password m)) then [AuthPlain (Username m) (Password m)] else [] in
      let rest := [MailFrom sender; RcptTo to; DataText (Message (sm_date w) (From m) to subject text); Quit] in
      if immediate then converse w false (Dial true :: auth ++ rest)
      else if sm_starttls w then converse w false (Dial false :: StartTLS :: auth ++ rest)
      else if negb (is_empty (Password m)) then (fst (converse w false [Dial false]), false)
      else converse w false (Dial false :: auth ++ rest)
    | _, _ => ([], false)
    end.

End delivery.

(** ** The theorems about mail *)

(** ** A reader of messages

    As lenient as a receiver can be: a line ends at a CR, an LF or both, and the first empty line ends the headers. *)

Fixpoint read_line (s : gostring) : gostring * gostring :=
  match s with
  | [] => ([], [])
  | c :: t =>
    if c =? 10 then ([], t)
    else if c =? 13 then ([], match t with d :: u => if d =? 10 then u else t | [] => [] end)
    else let '(line, rest) := read_line t in (c :: line, rest)
  end.

Fixpoint read_headers (fuel : nat) (s : gostring) : list gostring * gostring :=
  match fuel with
  | O => ([], s)
  | S fuel =>
    let '(line, rest) := read_line s in
    if is_empty line then ([], rest) else let '(hs, b) := read_headers fuel rest in (line :: hs, b)
  end.

Definition no_break (s : gostring) : Prop := Forall (fun c => c <> 13 /\ c <> 10) s.

Lemma read_line_crlf s t : no_break s -> read_line (s ++ crlf ++ t) = (s, t).
Proof.
  induction 1 as [|c s [Hr Hl] Hs IH]; [done|]. cbn [app read_line]. rewrite (proj2 (Z.eqb_neq _ _)), (proj2 (Z.eqb_neq _ _)) by done.
  by rewrite IH.
Qed.

Lemma one_line_value_no_break s : no_break (one_line_value s).
Proof.
  apply Forall_fmap, Forall_true. intros c. cbn. destruct (Z.eqb_spec c 13), (Z.eqb_spec c 10); cbn; done.
Qed.

Lemma no_break_app s t : no_break (s ++ t) <-> no_break s /\ no_break t.
Proof. apply Forall_app. Qed.

Lemma crlf_round_trip s : crlf_to_lf (lf_to_crlf s) = s.
Proof.
  induction s as [|c s IH]; [done|]. unfold lf_to_crlf in *. cbn [fmap list_fmap concat]. destruct (Z.eqb_spec c 10) as [->|Hc].
  - cbn [app crlf]. cbn [crlf_to_lf Z.eqb andb Pos.eqb]. by rewrite IH.
  - cbn [app]. destruct (concat ((fun c => if c =? 10 then crlf else [c]) <$> s)) as [|d u] eqn:E; [by rewrite <-IH|].
    cbn [crlf_to_lf] in IH |- *. assert (d <> 10) as Hd.
    { destruct s as [|x s]; [done|]. cbn in E. destruct (Z.eqb_spec x 10); [by injection E as <- _|by injection E as <- _]. }
    rewrite (proj2 (Z.eqb_neq d 10) Hd), andb_false_r. by rewrite IH.
Qed.

Lemma read_header fuel s t : no_break s -> s <> [] -> read_headers (S fuel) (s ++ crlf ++ t) = let '(hs, b) := read_headers fuel t in (s :: hs, b).
Proof. intros Hs Hne. cbn [read_headers]. rewrite read_line_crlf by done. by destruct s. Qed.

Section delivery.
Context `{MailAddress}.

Lemma converse_sent w l tls sent : converse w tls l = (sent, true) -> sent.*2 = l.
Proof.
  revert tls sent. induction l as [|a l IH]; intros tls sent; cbn [converse]; [by intros [= <-]|].
  destruct (sm_takes w a); [|done]. destruct (converse w _ l) as [s d] eqn:E. intros [= <- ->]. cbn. f_equal. by eapply IH.
Qed.

(** Without a password in it, or once encrypted, a conversation sends no password in clear. *)
Definition no_password (l : list smtpAction) : Prop := Forall (fun a => match a with AuthPlain _ p => p = [] | _ => True end) l.

Definition no_clear_password (sent : list (bool * smtpAction)) : Prop :=
  Forall (fun x => match x with (false, AuthPlain _ p) => p = [] | _ => True end) sent.

Lemma converse_none w tls l : no_password l -> no_clear_password (converse w tls l).1.
Proof.
  intros Hl. revert tls. induction Hl as [|a l Ha Hl IH]; intros tls; cbn [converse]; [constructor|].
  destruct (sm_takes w a); [|constructor; [by destruct tls, a|constructor]]. specialize (IH (match a with Dial t => t | StartTLS => true | _ => tls end)).
  destruct (converse w _ l). constructor; [by destruct tls, a|done].
Qed.

Lemma converse_encrypted w l :
  Forall (fun a => match a with Dial _ => False | _ => True end) l -> no_clear_password (converse w true l).1.
Proof.
  induction 1 as [|a l Ha Hl IH]; cbn [converse]; [constructor|]. destruct (sm_takes w a); [|by repeat constructor].
  assert (match a with Dial t => t | StartTLS => true | _ => true end = true) as -> by (by destruct a).
  destruct (converse w true l). by constructor.
Qed.

Lemma converse_cons w tls a l :
  (converse w tls (a :: l)).1 =
    (tls, a) :: if sm_takes w a then (converse w (match a with Dial t => t | StartTLS => true | _ => tls end) l).1 else [].
Proof. cbn [converse]. destruct (sm_takes w a); [|done]. by destruct (converse w _ l). Qed.

(** C39: Mail says what it is told to and no more.  However the sender, the recipient and the subject are crafted, a receiver that takes
    any line break reads exactly the six headers of the code and then the text, its line breaks normalized.  A password is
    sent over an encrypted connection only, whatever the server offers or answers; and when [Send] reports success the
    server took the sender's bare address, the recipient, this message and the end, in this order. *)
Theorem mail_confined m w to subject text :
  no_break (sm_date w) ->
  (exists b, read_headers 7 (Message (sm_date w) (From m) to subject text) =
      ([go "From: " ++ one_line_value (From m); go "To: " ++ one_line_value to; go "Subject: " ++ one_line_value subject;
        go "Date: " ++ sm_date w; go "MIME-Version: 1.0"; go "Content-Type: text/plain; charset=utf-8"], b) /\
    crlf_to_lf b = crlf_to_lf text) /\
  no_clear_password (Send m w to subject text).1 /\
  (forall sent, Send m w to subject text = (sent, true) -> exists before sender, envelopeFrom (From m) = Some sender /\
    sent.*2 = before ++ [MailFrom sender; RcptTo to; DataText (Message (sm_date w) (From m) to subject text); Quit]).
Proof.
  intros Hd. split; [|split].
  - exists (lf_to_crlf (crlf_to_lf text)). split; [|apply crlf_round_trip]. unfold Message.
    rewrite (app_assoc (go "From: ")), (app_assoc (go "To: ")), (app_assoc (go "Subject: ")), (app_assoc (go "Date: ")).
    rewrite !read_header; [reflexivity|..].
    all: try (apply no_break_app; split; [by repeat constructor|first [apply one_line_value_no_break|done]]).
    all: try done.
    all: by repeat constructor.
  - unfold Send. destruct (is_empty (From m)); [constructor|]. destruct (envelopeFrom (From m)); [|constructor].
    destruct (SplitHostPort (Addr m)) as [[host port]|]; [|constructor]. cbv zeta.
    set (auth := if _ || _ then _ else _).
    assert (forall l, Forall (fun a => match a with Dial _ => False | _ => True end) l ->
      Forall (fun a => match a with Dial _ => False | _ => True end) (auth ++ l)) as Hauth.
    { intros l0 Hl. apply Forall_app. split; [|done]. unfold auth. case_match; by repeat constructor. }
    destruct (str_eqb port _); [|destruct (sm_starttls w); [|destruct (negb (is_empty (Password m))) eqn:Ep]].
    + rewrite converse_cons. constructor; [done|]. case_match; [|constructor]. apply converse_encrypted, Hauth. by repeat constructor.
    + rewrite converse_cons. constructor; [done|]. case_match; [|constructor]. rewrite converse_cons. constructor; [done|].
      case_match; [|constructor]. apply converse_encrypted, Hauth. by repeat constructor.
    + cbn [fst]. apply converse_none. by repeat constructor.
    + apply converse_none. constructor; [done|]. apply Forall_app. split; [|by repeat constructor].
      unfold auth. case_match; repeat constructor. by destruct (Password m).
  - intros sent. unfold Send. destruct (is_empty (From m)); [done|]. destruct (envelopeFrom (From m)) as [sender|]; [|done].
    destruct (SplitHostPort (Addr m)) as [[host port]|]; [|done]. cbv zeta. set (auth := if _ || _ then _ else _).
    destruct (str_eqb port _); [|destruct (sm_starttls w); [|destruct (negb (is_empty (Password m)))]]; intros E; try done;
      apply converse_sent in E; rewrite E.
    + by exists (Dial true :: auth), sender.
    + by exists (Dial false :: StartTLS :: auth), sender.
    + by exists (Dial false :: auth), sender.
Qed.

End delivery.

(** ** Witness *)

#[local] Existing Instance run_mail.

Definition demo_smtp : SMTP := {| Addr := go "mail.io:587"; Username := go "u"; Password := go "p"; From := go "r@r.io" |}.
Definition demo_smtp_world : smtpWorld := {| sm_takes := fun _ => true; sm_starttls := true; sm_date := go "now" |}.

Lemma mail_confined_witness :
  exists b, read_headers 7 (Message (go "now") (go "r@r.io") (go "a@x.io" ++ crlf ++ go "Bcc: e@x.io") (go "hi") (go "text")) =
    ([go "From: r@r.io"; go "To: a@x.io  Bcc: e@x.io"; go "Subject: hi"; go "Date: now"; go "MIME-Version: 1.0";
      go "Content-Type: text/plain; charset=utf-8"], b) /\ crlf_to_lf b = go "text".
Proof.
  destruct (mail_confined demo_smtp demo_smtp_world (go "a@x.io" ++ crlf ++ go "Bcc: e@x.io") (go "hi") (go "text")) as [(b & Hb & Ht) _].
  - by repeat constructor.
  - exists b. split; [exact Hb|exact Ht].
Defined.
