(* ===== verification/RulesMain.v ===== *)
(** * The rule server's process

    [rules/cmd/rules-server/main.go]: the settings and what they refuse; [rules/internal/store/db.go]: queries for Postgres.

    The flags are a record, with their defaults from the environment.  [url.URL.Redacted] is a parameter. *)

From Stdlib Require Import ZArith Lia Bool.
From stdpp Require Import base list option.
From S2P Require Import Prelude GoStrings Signing Accounts StoredTime Auth EbpfAgent.

(** ** Queries *)

(** The loop of [rebind]: [n] placeholders so far, [quoted] inside quotes. *)
Fixpoint rebind_from (n : nat) (quoted : bool) (query : gostring) : gostring :=
  match query with
  | [] => []
  | c :: query =>
    if c =? 39 then c :: rebind_from n (negb quoted) query
    else if (c =? ch "?") && negb quoted then go "$" ++ FormatInt (Z.of_nat (S n)) ++ rebind_from (S n) quoted query
    else c :: rebind_from n quoted query
  end.

(** [rebind]. *)
Definition rebind (pg : bool) (query : gostring) : gostring :=
  if negb pg || negb (ContainsByte query (ch "?")) then query else rebind_from 0 false query.

(** [IsPostgres]. *)
Definition IsPostgres (dsn : gostring) : bool := HasPrefix dsn (go "postgres://") || HasPrefix dsn (go "postgresql://").

(** ** Settings *)

(** [net.JoinHostPort]. *)
Definition JoinHostPort (host port : gostring) : gostring :=
  if ContainsByte host (ch ":") || ContainsByte host (ch "%") then go "[" ++ host ++ go "]:" ++ port else host ++ go ":" ++ port.

(** [localBaseURL]. *)
Definition localBaseURL (listen : gostring) : gostring :=
  match SplitHostPort listen with
  | None => go "http://localhost:8080"
  | Some (host, port) =>
    if is_empty port then go "http://localhost:8080"
    else
      let host := if is_empty host || str_eqb host (go "0.0.0.0") || str_eqb host (go "::") then go "localhost" else host in
      go "http://" ++ JoinHostPort host port
  end.

(** [safeDSN]. *)
Definition safeDSN (Redacted : gostring -> option gostring) (dsn : gostring) : gostring :=
  if negb (IsPostgres dsn) then dsn else match Redacted dsn with None => go "postgres://(unparsable)" | Some s => s end.

Record rulesFlags := {
  fl_listen : gostring; fl_db : gostring; fl_single : bool; fl_base : gostring; fl_signup : bool; fl_trust_proxy : bool;
  fl_metrics : gostring; fl_access_log : bool; fl_insecure : bool;
}.

(** The defaults of the flags. *)
Definition default_flags (Getenv : gostring -> gostring) : rulesFlags :=
  let is_true k := str_eqb (Getenv k) (go "true") in
  {| fl_listen := envOr Getenv (go "RULES_LISTEN") (go ":8080"); fl_db := envOr Getenv (go "RULES_DB") (go "rules.db");
     fl_single := is_true (go "RULES_SINGLE_TENANT"); fl_base := Getenv (go "RULES_BASE_URL");
     fl_signup := str_eqb (envOr Getenv (go "RULES_SIGNUP") (go "open")) (go "open");
     fl_trust_proxy := is_true (go "RULES_TRUST_PROXY"); fl_metrics := Getenv (go "RULES_METRICS_LISTEN");
     fl_access_log := negb (str_eqb (Getenv (go "RULES_ACCESS_LOG")) (go "false")); fl_insecure := is_true (go "RULES_INSECURE_COOKIES") |}.

(** How links leave the server. *)
Inductive mailer := MailNone | MailLog | MailSMTP (addr user password from : gostring).

(** The mailer and the base URL; [None] ends the process. *)
Definition choose_mailer (Getenv : gostring -> gostring) (f : rulesFlags) : option (mailer * gostring) :=
  let addr := Getenv (go "RULES_SMTP_ADDR") in
  if negb (is_empty addr) then
    if is_empty (Getenv (go "RULES_MAIL_FROM")) then None
    else if is_empty (fl_base f) then None
    else Some (MailSMTP addr (Getenv (go "RULES_SMTP_USER")) (Getenv (go "RULES_SMTP_PASSWORD")) (Getenv (go "RULES_MAIL_FROM")), fl_base f)
  else if negb (fl_single f) then Some (MailLog, if is_empty (fl_base f) then localBaseURL (fl_listen f) else fl_base f)
  else Some (MailNone, fl_base f).

(** [main], up to the server it starts; [None] ends the process. *)
Definition start_rules `{Web} (Getenv : gostring -> gostring) (f : rulesFlags) (opened : option Tables) :
    option (mailer * serverConfig * Tables) :=
  match choose_mailer Getenv f with
  | None => None
  | Some (m, base) =>
    match opened with
    | None => None
    | Some a =>
      match NewServer {| AdminToken := Getenv (go "RULES_ADMIN_TOKEN"); SingleTenant := fl_single f; BaseURL := base;
                         HasMailer := match m with MailNone => false | _ => true end; SignupOpen := fl_signup f;
                         TrustProxy := fl_trust_proxy f; InsecureCookies := fl_insecure f; SessionTTL := 0; LoginTTL := 0 |} a with
      | None => None
      | Some (cfg, a) => Some (m, cfg, a)
      end
    end
  end.

(** ** Properties *)

(** A placeholder outside quotes, and their number in a query. *)
Definition in_quotes (before : gostring) : bool := Nat.odd (CountByte before 39).

Definition placeholder (query : gostring) (i : nat) : bool := at_is query i (Z.eqb (ch "?")) && negb (in_quotes (take i query)).

Definition placeholders (query : gostring) (i : nat) : nat := length (filter (fun j => placeholder query j = true) (seq 0 i)).

(** The text at a position: the number of the placeholder, counted from one, or the byte. *)
Definition rebound (query : gostring) (i : nat) (c : byte) : gostring :=
  if placeholder query i then go "$" ++ FormatInt (Z.of_nat (S (placeholders query i))) else [c].

Lemma in_quotes_snoc s c : in_quotes (s ++ [c]) = if c =? 39 then negb (in_quotes s) else in_quotes s.
Proof.
  unfold in_quotes. rewrite CountByte_app. cbn [CountByte]. destruct (c =? 39).
  - by rewrite Nat.add_1_r, Nat.odd_succ, <-Nat.negb_odd.
  - by rewrite Nat.add_0_r.
Qed.

Lemma placeholders_S query i : placeholders query (S i) = (placeholders query i + if placeholder query i then 1 else 0)%nat.
Proof.
  unfold placeholders. rewrite seq_S, filter_app, length_app, filter_cons, filter_nil. cbn [Nat.add].
  destruct (placeholder query i); [by rewrite decide_True|by rewrite decide_False].
Qed.

Lemma rebind_from_spec pre q :
  rebind_from (placeholders (pre ++ q) (length pre)) (in_quotes pre) q = concat (imap (fun i => rebound (pre ++ q) (length pre + i)) q).
Proof.
  revert pre. induction q as [|c q IH]; intros pre; [done|]. cbn [rebind_from imap concat].
  specialize (IH (pre ++ [c])). rewrite <-app_assoc in IH. cbn [app] in IH.
  rewrite length_app, Nat.add_1_r, placeholders_S, in_quotes_snoc in IH.
  assert (placeholder (pre ++ c :: q) (length pre) = (c =? ch "?") && negb (in_quotes pre)) as Hp.
  { unfold placeholder, at_is. rewrite take_app_length, list_lookup_middle by done. by rewrite Z.eqb_sym. }
  assert (imap (fun i => rebound (pre ++ c :: q) (length pre + S i)) q = imap (fun i => rebound (pre ++ c :: q) (S (length pre) + i)) q) as Hi
    by (apply imap_ext; intros i x _; f_equal; lia).
  unfold compose. rewrite Nat.add_0_r. unfold rebound at 1. rewrite Hp in *. rewrite Hi, <-IH. clear.
  destruct (Z.eqb_spec c 39) as [->|Hq]; [cbn [Z.eqb andb]; by rewrite Nat.add_0_r|].
  destruct ((c =? ch "?") && negb (in_quotes pre)); [by rewrite Nat.add_1_r, <-app_assoc|by rewrite Nat.add_0_r].
Qed.

(** On Postgres every [?] outside quotes becomes the number of its place, from one, and nothing else changes. *)
Lemma rebind_numbers query : rebind true query = concat (imap (rebound query) query).
Proof.
  pose proof (rebind_from_spec [] query) as H. unfold rebind. cbn [negb orb app length] in *. destruct (ContainsByte query (ch "?")) eqn:Ec; [exact H|].
  cbn [negb]. transitivity (concat (imap (fun _ c => [c]) query)).
  - clear. induction query as [|c q IH]; [done|]. rewrite imap_cons. cbn [concat app]. by f_equal.
  - f_equal. apply imap_ext. intros i c Hi. unfold rebound, placeholder, at_is. rewrite Hi.
    destruct (Z.eqb_spec (ch "?") c) as [<-|]; [|done]. exfalso. apply not_true_iff_false in Ec. apply Ec.
    apply ContainsByte_In, list_elem_of_In. by eapply list_elem_of_lookup_2.
Qed.

(** A server that mails links has an address of its own to build them from, and never one without a sender. *)
Lemma started_server_addressed `{Web} Getenv f opened m cfg a :
  start_rules Getenv f opened = Some (m, cfg, a) ->
  (HasMailer cfg = true -> checkBaseURL (BaseURL cfg) = true) /\
  match m with MailSMTP addr _ _ from => addr <> [] /\ from <> [] /\ BaseURL cfg = fl_base f | _ => True end /\
  (0 < SessionTTL cfg /\ 0 < LoginTTL cfg).
Proof.
  unfold start_rules. destruct (choose_mailer Getenv f) as [[m' b]|] eqn:Em; [|done]. destruct opened as [a0|]; [|done].
  destruct (NewServer _ a0) as [[cfg' a']|] eqn:En; [|done]. intros [= -> -> ->].
  unfold NewServer in En. cbn [HasMailer BaseURL SingleTenant] in En. destruct (_ && negb (checkBaseURL b)) eqn:Ec; [done|].
  assert (HasMailer cfg = match m with MailNone => false | _ => true end /\ BaseURL cfg = b /\ SessionTTL cfg = DefaultSessionTTL /\ LoginTTL cfg = DefaultLoginTTL)
    as (Hm & Hb & Hs & Hl) by (repeat case_match; simplify_eq; done).
  rewrite Hm, Hb, Hs, Hl. split; [|split; [|split; done]].
  - intros Ht. rewrite Ht in Ec. cbn in Ec. by destruct (checkBaseURL b).
  - unfold choose_mailer in Em. destruct (is_empty (Getenv (go "RULES_SMTP_ADDR"))) eqn:E1; cbn [negb] in Em.
    + destruct (fl_single f); cbn [negb] in Em; by injection Em as <- _.
    + destruct (is_empty (Getenv (go "RULES_MAIL_FROM"))) eqn:E2; [done|]. destruct (is_empty (fl_base f)); [done|]. injection Em as <- <-.
      split_and!; [|..|done]; [intros E; by rewrite E in E1|intros E; by rewrite E in E2].
Qed.
