(* ===== verification/ReporterProofs.v ===== *)
(** * The reporter's arithmetic

    A counter of a policy followed through the passes of [OperatorStats]: what the sidecars served, what was
    added to the window, what the reports say.  The reference is in integers: [pods_counted] adds, for every pod that
    was ever read, the growth from each read of it to the next one, however far apart they are; [grown] is the
    part of it that the reporter sees, which forgets a pod that a pass did not read. *)

From Stdlib Require Import ZArith Lia Bool SpecFloat.
From stdpp Require Import base list option sorting fin_maps gmap.
From S2P Require Import Prelude GoStrings Float64 Config ConfigSources StoredTime Reports RulesPanel.
From S2P Require Import OperatorStats.

(** ** Whole numbers *)

Lemma trunc64_int a : 0 <= a < 2 ^ 53 -> trunc64 (float_of_Z a) = a.
Proof.
  intros Ha. destruct (Z.eq_dec a 0) as [->|Hne]; [done|]. destruct (float_of_Z_pos a) as (p & Hp & ->); [lia|].
  pose proof (log2_small a ltac:(lia)) as Hl. unfold trunc64.
  assert ((if 0 <=? Z.log2 a - 52 then Zpos p * 2 ^ (Z.log2 a - 52) else Zpos p / 2 ^ (- (Z.log2 a - 52))) = a) as ->.
  { destruct (Z.leb_spec 0 (Z.log2 a - 52)).
    - rewrite Hp, <-Z.mul_assoc, <-Z.pow_add_r by lia. replace (52 - Z.log2 a + (Z.log2 a - 52)) with 0 by lia. lia.
    - replace (- (Z.log2 a - 52)) with (52 - Z.log2 a) by lia. rewrite Hp, Z.div_mul; [done|lia]. }
  assert (a < 2 ^ 63) by (assert (2 ^ 53 < 2 ^ 63) by done; lia). by destruct (Z.ltb_spec a (2 ^ 63)); [|lia].
Qed.

(** [grow] on integers. *)
Definition grow_count (prev cur : Z) : Z := if prev <=? cur then cur - prev else cur.

Lemma grow_count_nonneg a b : 0 <= a -> 0 <= b -> 0 <= grow_count a b.
Proof. unfold grow_count. destruct (Z.leb_spec a b); lia. Qed.

Lemma grow_int a b : 0 <= a < 2 ^ 53 -> 0 <= b < 2 ^ 53 -> grow (float_of_Z a) (float_of_Z b) = float_of_Z (grow_count a b).
Proof.
  intros Ha Hb. unfold grow, grow_count. rewrite fleb_int by done. destruct (Z.leb_spec a b); [|done]. apply fsub_int; lia.
Qed.

(** ** A counter *)

Inductive counter := Lines | Errors | Redacted (type : gostring) | Found (type : gostring).

(** Its value in a sidecar's sample, in a window and in a report. *)
Definition value (c : counter) (s : sample) : float64 :=
  match c with
  | Lines => s_lines s
  | Errors => s_errors s
  | Redacted k => default fzero (s_redactions s !! k)
  | Found k => default fzero (s_auditFindings s !! k)
  end.

Definition held (c : counter) (t : totals) : float64 :=
  match c with
  | Lines => t_lines t
  | Errors => t_errors t
  | Redacted k => default fzero (t_redactions t !! k)
  | Found k => default fzero (t_auditFindings t !! k)
  end.

Definition told (c : counter) (r : statsReport) : Z :=
  match c with
  | Lines => sr_Lines r
  | Errors => sr_Errors r
  | Redacted k => default 0 (sr_Redactions r !! k)
  | Found k => default 0 (sr_AuditFindings r !! k)
  end.

(** Audit findings are reported in audit mode only. *)
Definition shown (c : counter) (p : statsPolicy) : bool := match c with Found _ => sp_AuditMode p | _ => true end.

Definition count (c : counter) (s : sample) : Z := trunc64 (value c s).

Definition whole (c : counter) (s : sample) : Prop := value c s = float_of_Z (count c s) /\ 0 <= count c s < 2 ^ 53.

Lemma grow_zero a : 0 <= a < 2 ^ 53 -> grow (float_of_Z a) fzero = fzero.
Proof.
  intros Ha. change fzero with (float_of_Z 0). rewrite grow_int by lia. unfold grow_count.
  destruct (Z.leb_spec a 0); [|done]. by replace (0 - a) with 0 by lia.
Qed.

Lemma held_growth c prev cur :
  whole c prev -> whole c cur -> held c (growth prev cur) = float_of_Z (grow_count (count c prev) (count c cur)).
Proof.
  intros [Ep Hp] [Ec Hc]. pose proof (grow_zero _ Hp) as Hz. rewrite <-(grow_int _ _ Hp Hc). rewrite <-Ep in *. rewrite <-Ec.
  destruct c as [| |k|k]; try done; cbn [held value growth t_redactions t_auditFindings] in *; unfold grow_map; rewrite lookup_merge;
    match goal with |- context [diag_None _ ?p ?q] => destruct p as [x|], q as [y|] end; done.
Qed.

Lemma held_add c acc g a b :
  held c acc = float_of_Z a -> held c g = float_of_Z b -> 0 <= a -> 0 <= b -> a + b < 2 ^ 53 ->
  held c (add_totals acc g) = float_of_Z (a + b).
Proof.
  intros Ea Eb Ha Hb Hab. rewrite <-(fadd_int a b), <-Ea, <-Eb by done.
  assert (fadd (float_of_Z a) fzero = float_of_Z a) as Hz by (change fzero with (float_of_Z 0); rewrite fadd_int by lia; f_equal; lia).
  destruct c as [| |k|k]; try done; cbn [held add_totals t_redactions t_auditFindings] in *; unfold add_map; rewrite lookup_merge;
    match goal with |- context [diag_None _ ?p ?q] => destruct p as [x|], q as [y|]; try done end; cbn in *; congruence.
Qed.

Lemma held_sum c gs acc a ns :
  held c acc = float_of_Z a -> 0 <= a -> Forall2 (fun g n => held c g = float_of_Z n /\ 0 <= n) gs ns -> a + zsum ns < 2 ^ 53 ->
  held c (foldl add_totals acc gs) = float_of_Z (a + zsum ns).
Proof.
  intros Ha Ha0 Hf. revert acc a Ha Ha0. induction Hf as [|g n gs ns [Hg Hn] Hf IH]; intros acc a Ha Ha0 Hb; simpl in *; [by rewrite Z.add_0_r|].
  assert (0 <= zsum ns) by (apply zsum_nonneg; clear -Hf; induction Hf; constructor; naive_solver).
  rewrite Z.add_assoc. apply IH; [by apply held_add; try lia|lia|lia].
Qed.

(** What a report says of a counter it shows. *)
Lemma told_report c p st now : shown c p = true -> told c (report_of_window p st now) = trunc64 (held c (ps_acc st)).
Proof.
  intros Hs. destruct c as [| |k|k]; try done; cbn [shown told held report_of_window sr_Redactions sr_AuditFindings] in *.
  - rewrite lookup_fmap. by destruct (t_redactions _ !! k).
  - rewrite Hs, lookup_fmap. by destruct (t_auditFindings _ !! k).
Qed.

(** ** The reads of a pass *)

Definition reads (l : list (Pod * option sample)) : list (gostring * sample) := omap (fun '(p, s) => (pair (pod_UID p)) <$> s) l.

Lemma fold_growth l rd :
  NoDup (reads l).*1 ->
  rd_growth (foldl read_pod rd l) = rd_growth rd ++ omap (fun '(u, s) => (fun prev => growth prev s) <$> rd_pods rd !! u) (reads l).
Proof.
  revert rd. induction l as [|[p [s|]] l IH]; intros rd Hnd; cbn in *; [by rewrite app_nil_r| |by apply IH].
  apply NoDup_cons in Hnd as [Hni Hnd]. rewrite IH by done. cbn.
  assert (forall rs : list (gostring * sample), pod_UID p ∉ rs.*1 ->
    omap (fun '(u, s0) => (fun prev => growth prev s0) <$> <[pod_UID p := s]> (rd_pods rd) !! u) rs =
    omap (fun '(u, s0) => (fun prev => growth prev s0) <$> rd_pods rd !! u) rs) as Hext.
  { induction rs as [|[u s'] rs IHr]; [done|]. cbn. intros Hn. apply not_elem_of_cons in Hn as [Hn Hn']. rewrite IHr by done.
    by rewrite lookup_insert_ne. }
  rewrite Hext by done. destruct (rd_pods rd !! pod_UID p); cbn; by rewrite <-?app_assoc, ?app_nil_r.
Qed.

Lemma fold_pods l rd u :
  NoDup (reads l).*1 ->
  rd_pods (foldl read_pod rd l) !! u = match (list_to_map (reads l) : gmap _ _) !! u with Some s => Some s | None => rd_pods rd !! u end.
Proof.
  revert rd. induction l as [|[p [s|]] l IH]; intros rd Hnd; cbn in *; [done| |by apply IH].
  apply NoDup_cons in Hnd as [Hni Hnd]. rewrite IH by done. cbn. destruct (decide (u = pod_UID p)) as [->|Hne].
  - rewrite (not_elem_of_list_to_map_1 (M := gmap gostring) (reads l)) by done. by rewrite !lookup_insert_eq.
  - by rewrite !lookup_insert_ne by done.
Qed.

Lemma fold_alive l rd u : is_Some (rd_alive (foldl read_pod rd l) !! u) <-> u ∈ (reads l).*1 \/ is_Some (rd_alive rd !! u).
Proof.
  revert rd. induction l as [|[p [s|]] l IH]; intros rd; cbn; [set_solver| |by apply IH].
  rewrite IH. cbn. rewrite lookup_insert_is_Some', elem_of_cons. naive_solver.
Qed.

Lemma after_reading_pods st l : NoDup (reads l).*1 -> ps_pods (after_reading st l) = list_to_map (reads l).
Proof.
  intros Hnd. apply map_eq. intros u. cbn. rewrite map_lookup_filter. unfold read_pods. rewrite fold_pods by done. cbn.
  destruct ((list_to_map (reads l) : gmap _ _) !! u) as [s|] eqn:E; cbn.
  - rewrite option_guard_True; [done|]. apply fold_alive. left.
    apply elem_of_list_to_map_2 in E. apply list_elem_of_fmap. by exists (u, s).
  - apply not_elem_of_list_to_map_2 in E. destruct (ps_pods st !! u) as [s|]; cbn; [|done].
    rewrite option_guard_False; [done|]. rewrite fold_alive. cbn. rewrite lookup_empty. intros [?|[? ?]]; done.
Qed.

(** ** Passes *)

Section passes.
Context `{GoDecoders}.

Fixpoint run_passes (passes : list (statsPolicy * statsWorld)) (st : policyState) : policyState * list statsReport :=
  match passes with
  | [] => (st, [])
  | (p, w) :: passes =>
    let '(st, r) := passPolicy p w st in
    let '(st, rs) := run_passes passes st in (st, option_list r ++ rs)
  end.

(** What a pass reads; [None]: the pods could not be listed. *)
Definition reads_of (pw : statsPolicy * statsWorld) : option (list (gostring * sample)) :=
  match sw_pods pw.2 with
  | inl _ => None
  | inr all => Some (reads (scrapeAll (sw_scrape pw.2) (policyPods (sp_Name pw.1) all)))
  end.

(** Pods have distinct UIDs. *)
Definition distinct_pods (w : statsWorld) : Prop := match sw_pods w with inl _ => True | inr all => NoDup (pod_UID <$> all) end.

(** The growth since the pass before, over the pods read in both. *)
Definition grown_once (c : counter) (last : gmap gostring Z) (l : list (gostring * sample)) : list Z :=
  omap (fun '(u, s) => (fun prev => grow_count prev (count c s)) <$> last !! u) l.

Definition counts_of (c : counter) (l : list (gostring * sample)) : gmap gostring Z := list_to_map ((fun '(u, s) => (u, count c s)) <$> l).

Fixpoint grown (c : counter) (last : gmap gostring Z) (history : list (option (list (gostring * sample)))) : Z :=
  match history with
  | [] => 0
  | None :: history => grown c last history
  | Some l :: history => zsum (grown_once c last l) + grown c (counts_of c l) history
  end.

Lemma counts_of_map c l : counts_of c l = count c <$> (list_to_map l : gmap gostring sample).
Proof. unfold counts_of. rewrite <-list_to_map_fmap. f_equal. apply list_fmap_ext. by intros _ [u s] _. Qed.

(** Windows one after the other, each at least the least interval long. *)
Fixpoint windows (from : Z) (l : list statsReport) (to : Z) : Prop :=
  match l with
  | [] => from = to
  | r :: l => sr_From r = from /\ from + statsMinInterval <= sr_To r /\ windows (sr_To r) l to
  end.

Lemma patchStatus_only w st s : exists s', patchStatus w st s = set_status s' st.
Proof.
  unfold patchStatus. destruct (statusEqual _ _); [|destruct (sw_patched w); [by eexists|]]; exists (ps_lastStatus st); by destruct st.
Qed.

Lemma statsInterval_min n : statsMinInterval <= statsInterval n.
Proof. unfold statsInterval, statsDefaultInterval, statsMinInterval. destruct (Z.leb_spec n 0); unfold second_ns; lia. Qed.

Lemma reads_distinct p w all : sw_pods w = inr all -> NoDup (pod_UID <$> all) -> NoDup (reads (scrapeAll (sw_scrape w) (policyPods (sp_Name p) all))).*1.
Proof.
  intros _ Hnd. assert (NoDup (pod_UID <$> policyPods (sp_Name p) all)) as Hp.
  { unfold policyPods. rewrite merge_sort_Permutation. revert Hnd. clear. induction all as [|q all IH]; [done|].
    cbn [fmap list_fmap]. intros [Hni Hl]%NoDup_cons. rewrite filter_cons. case_decide; [|by apply IH].
    constructor; [|by apply IH]. contradict Hni. apply list_elem_of_fmap in Hni as (x & -> & Hx%list_elem_of_filter).
    apply list_elem_of_fmap. naive_solver. }
  unfold scrapeAll. revert Hp. generalize (policyPods (sp_Name p) all). induction l as [|q l IH]; [done|].
  cbn. intros [Hni Hl]%NoDup_cons. destruct (if hasMetricsPort q then _ else _) as [s|]; cbn; [|by apply IH].
  constructor; [|by apply IH]. contradict Hni. clear -Hni. induction l as [|x l IH]; [by apply elem_of_nil in Hni|].
  cbn in *. destruct (if hasMetricsPort x then _ else _) as [s|]; cbn in *; set_solver.
Qed.

(** What the state knows of a counter: the last value of each pod, and the amount of the window. *)
Record tracks (c : counter) (st : policyState) (last : gmap gostring Z) (n : Z) : Prop := {
  tr_last : last = count c <$> ps_pods st;
  tr_whole : forall u s, ps_pods st !! u = Some s -> whole c s;
  tr_held : held c (ps_acc st) = float_of_Z n;
  tr_nonneg : 0 <= n;
}.

Lemma tracks_status c st last n s : tracks c st last n -> tracks c (set_status s st) last n.
Proof. by intros [? ? ? ?]; split. Qed.

Lemma new_tracks c t : tracks c (new_state t) ∅ 0.
Proof. split; [symmetry; apply fmap_empty|by intros u s; cbn; rewrite lookup_empty|by destruct c|done]. Qed.

Lemma grown_once_nonneg c pods l :
  (forall u s, pods !! u = Some s -> whole c s) -> (forall u s, (u, s) ∈ l -> whole c s) ->
  Forall (fun n => 0 <= n) (grown_once c (count c <$> pods) l).
Proof.
  intros Hp Hl. apply Forall_forall. intros n Hx. apply list_elem_of_omap in Hx as ([u s] & Hin & Hn). rewrite lookup_fmap in Hn.
  destruct (pods !! u) as [prev|] eqn:E; [|done]. injection Hn as <-. destruct (Hp _ _ E), (Hl _ _ Hin). apply grow_count_nonneg; lia.
Qed.

Lemma tracks_reading c st last n l :
  tracks c st last n -> NoDup (reads l).*1 -> (forall u s, (u, s) ∈ reads l -> whole c s) ->
  n + zsum (grown_once c last (reads l)) < 2 ^ 53 ->
  tracks c (after_reading st l) (counts_of c (reads l)) (n + zsum (grown_once c last (reads l))).
Proof.
  intros [-> Hw Hh Hn] Hnd Hl Hb. pose proof (grown_once_nonneg c (ps_pods st) (reads l) Hw Hl) as Hpos. split.
  - rewrite after_reading_pods by done. apply counts_of_map.
  - intros u s. rewrite after_reading_pods by done. intros E%elem_of_list_to_map_2. by eapply Hl.
  - cbn. apply held_sum; [done|done| |done]. unfold read_pods. rewrite fold_growth by done. cbn. clear -Hw Hl.
    induction (reads l) as [|[u s] rs IH]; [by constructor|]. cbn. rewrite lookup_fmap.
    assert (forall u s, (u, s) ∈ rs -> whole c s) as Hl' by (intros; eapply Hl; by right).
    destruct (ps_pods st !! u) as [prev|] eqn:E; cbn; [|by apply IH]. constructor; [|by apply IH].
    assert (whole c prev) as Hp by eauto. assert (whole c s) as Hs by (eapply Hl; by left). split; [by apply held_growth|].
    destruct Hp, Hs. apply grow_count_nonneg; lia.
  - apply zsum_nonneg in Hpos. lia.
Qed.

Ltac patched H :=
  match type of H with (patchStatus ?w ?x ?y, _) = _ => let s := fresh "s" in let E := fresh in
    destruct (patchStatus_only w x y) as [s E]; rewrite E in H; clear E; injection H as <- <- end.

(** One pass: the amount of the window and what a report takes of it add up, and windows are adjacent. *)
Lemma pass_tracks c p w st last n st' r :
  passPolicy p w st = (st', r) -> tracks c st last n -> distinct_pods w ->
  (forall l u s, reads_of (p, w) = Some l -> (u, s) ∈ l -> whole c s) ->
  n + grown c last [reads_of (p, w)] < 2 ^ 53 ->
  exists n', tracks c st' (match reads_of (p, w) with Some l => counts_of c l | None => last end) n' /\
    n' <= n + grown c last [reads_of (p, w)] /\
    (shown c p = true -> zsum (told c <$> option_list r) + n' = n + grown c last [reads_of (p, w)]) /\
    Forall (fun r => 0 <= told c r) (option_list r) /\ windows (ps_windowStart st) (option_list r) (ps_windowStart st').
Proof.
  unfold passPolicy, reads_of, distinct_pods. cbn. intros Hp Ht Hd Hw Hb. destruct (sw_pods w) as [e|all] eqn:Ew.
  { patched Hp. exists n. split; [by apply tracks_status|]. split; [lia|]. split; [cbn; lia|]. split; [by constructor|done]. }
  pose proof (reads_distinct p w all Ew Hd) as Hnd. set (l := scrapeAll (sw_scrape w) (policyPods (sp_Name p) all)) in *.
  cbn in Hb. rewrite Z.add_0_r in *. pose proof (tracks_reading c st last n l Ht Hnd (fun u s => Hw _ u s eq_refl) Hb) as Ht1.
  pose proof (tr_nonneg _ _ _ _ Ht1) as Hn1. set (st1 := after_reading st l) in *.
  assert (ps_windowStart st1 = ps_windowStart st) as Hst by done.
  destruct (Z.leb_spec (statsInterval (sp_IntervalSeconds p)) (sw_now w - ps_windowStart st)) as [Hi|Hi].
  - destruct (send p st1 w) as [e|].
    + patched Hp. eexists. split; [by apply tracks_status|]. split; [lia|]. split; [cbn; lia|]. split; [by constructor|done].
    + patched Hp. exists 0.
      assert (shown c p = true -> told c (report_of_window p st1 (sw_now w)) = n + zsum (grown_once c last (reads l))) as Htold
        by (intros Hs; rewrite told_report, (tr_held _ _ _ _ Ht1), trunc64_int; done || lia).
      split_and!.
      * destruct Ht1 as [H1 H2 H3 H4]. split; [done|done|by destruct c|done].
      * lia.
      * intros Hs. change (told c (report_of_window p st1 (sw_now w)) + 0 + 0 = n + zsum (grown_once c last (reads l))).
        rewrite Htold by done. lia.
      * constructor; [|done]. change (0 <= told c (report_of_window p st1 (sw_now w))).
        destruct (shown c p) eqn:Hs; [rewrite Htold by done; lia|]. destruct c as [| | |k]; try done. cbn in *. by rewrite Hs, lookup_empty.
      * cbn. split; [done|]. split; [|done]. pose proof (statsInterval_min (sp_IntervalSeconds p)). lia.
  - patched Hp. eexists. split; [by apply tracks_status|]. split; [lia|]. split; [cbn; lia|]. split; [by constructor|done].
Qed.

Lemma grown_cons c last o h :
  grown c last (o :: h) = grown c last [o] + grown c (match o with Some l => counts_of c l | None => last end) h.
Proof. destruct o; cbn; lia. Qed.

Lemma windows_app from a mid b to : windows from a mid -> windows mid b to -> windows from (a ++ b) to.
Proof. revert from. induction a as [|r a IH]; intros from; simpl; [by intros ->|]. intros (? & ? & ?) ?. split_and!; [done..|by apply IH]. Qed.

Definition whole_reads (c : counter) (passes : list (statsPolicy * statsWorld)) : Prop :=
  forall pw l u s, pw ∈ passes -> reads_of pw = Some l -> (u, s) ∈ l -> whole c s.

Lemma grown_nonneg c passes pods :
  whole_reads c passes -> (forall u s, pods !! u = Some s -> whole c s) -> 0 <= grown c (count c <$> pods) (reads_of <$> passes).
Proof.
  revert pods. induction passes as [|pw passes IH]; intros pods Hw Hp; [done|]. cbn [fmap list_fmap grown].
  assert (whole_reads c passes) by (intros pw' l u s ? ? ?; eapply (Hw pw'); [by right|done..]).
  destruct (reads_of pw) as [l|] eqn:El; [|by apply IH].
  assert (forall u s, (u, s) ∈ l -> whole c s) as Hl by (intros u s ?; eapply (Hw pw); [by left|done..]).
  pose proof (zsum_nonneg _ (grown_once_nonneg c pods l Hp Hl)).
  rewrite counts_of_map.
  assert (0 <= grown c (count c <$> (list_to_map l : gmap gostring sample)) (reads_of <$> passes)); [|lia].
  apply IH; [done|]. intros u s E%elem_of_list_to_map_2. by eapply Hl.
Qed.

Lemma run_tracks c passes st last n st' rs :
  run_passes passes st = (st', rs) -> tracks c st last n ->
  Forall (fun pw => distinct_pods pw.2) passes -> whole_reads c passes ->
  n + grown c last (reads_of <$> passes) < 2 ^ 53 ->
  exists n' last', tracks c st' last' n' /\
    (Forall (fun pw => shown c pw.1 = true) passes -> zsum (told c <$> rs) + n' = n + grown c last (reads_of <$> passes)) /\
    Forall (fun r => 0 <= told c r) rs /\ windows (ps_windowStart st) rs (ps_windowStart st').
Proof.
  revert st last n st' rs. induction passes as [|[p w] passes IH]; intros st last n st' rs Hr Ht Hf Hw Hb.
  { injection Hr as <- <-. exists n, last. split; [done|]. split; [cbn; lia|]. by split; [constructor|]. }
  cbn [run_passes] in Hr. destruct (passPolicy p w st) as [st1 r] eqn:Ep. destruct (run_passes passes st1) as [st2 rs2] eqn:Er.
  injection Hr as <- <-. apply Forall_cons in Hf as [Hd Hf]. cbn in Hd.
  cbn [fmap list_fmap] in *. rewrite grown_cons in *.
  assert (forall l u s, reads_of (p, w) = Some l -> (u, s) ∈ l -> whole c s) as Hw1 by (intros l u s; apply (Hw (p, w)); by left).
  assert (whole_reads c passes) as Hw2 by (intros pw l u s ?; apply (Hw pw); by right).
  set (last1 := match reads_of (p, w) with Some l => counts_of c l | None => last end) in *.
  assert (0 <= grown c last1 (reads_of <$> passes)) as Hpos.
  { unfold last1. destruct (reads_of (p, w)) as [l|] eqn:El.
    - rewrite counts_of_map. apply grown_nonneg; [done|]. intros u s E%elem_of_list_to_map_2. by eapply Hw1.
    - rewrite (tr_last _ _ _ _ Ht). apply grown_nonneg; [done|]. apply Ht. }
  destruct (pass_tracks c p w st last n st1 r Ep Ht Hd Hw1) as (n1 & Ht1 & Hle1 & Hsum1 & Hpos1 & Hwin1); [lia|].
  destruct (IH st1 last1 n1 st2 rs2 Er Ht1 Hf Hw2) as (n2 & last2 & Ht2 & Hsum2 & Hpos2 & Hwin2); [lia|].
  exists n2, last2. split; [done|]. rewrite fmap_app, zsum_app. split.
  { intros [Hs1 Hs2]%Forall_cons. specialize (Hsum1 Hs1). specialize (Hsum2 Hs2). lia. }
  split; [by apply Forall_app|]. by eapply windows_app.
Qed.

(** ** The reference: what each pod counted between two reads of it *)

(** What was read of a pod, pass by pass. *)
Definition value_in (c : counter) (u : gostring) (o : option (list (gostring * sample))) : option Z :=
  l ← o; counts_of c l !! u.

Definition pod_reads (c : counter) (h : list (option (list (gostring * sample)))) (u : gostring) : list Z := omap (value_in c u) h.

(** The growth along the values read of one pod, from each to the next. *)
Fixpoint along (l : list Z) : Z :=
  match l with
  | a :: ((b :: _) as l') => grow_count a b + along l'
  | _ => 0
  end.

(** Every pod that was ever read, once. *)
Definition uids_of {A} (o : option (list (gostring * A))) : list gostring := match o with Some l => l.*1 | None => [] end.

Definition pods_read {A} (h : list (option (list (gostring * A)))) : list gostring := remove_dups (concat (uids_of <$> h)).

Definition pods_counted (c : counter) (h : list (option (list (gostring * sample)))) : Z :=
  zsum ((fun u => along (pod_reads c h u)) <$> pods_read h).

(** A pod that is read again was read in every pass in between that listed the pods.  [read]: the pods of the pass
    before; [gone]: those read earlier and left out since. *)
Fixpoint gapless {A : Type} (read gone : gset gostring) (h : list (option (list (gostring * A)))) : Prop :=
  match h with
  | [] => True
  | None :: h => gapless read gone h
  | Some l :: h =>
    let now : gset gostring := list_to_set l.*1 in now ## gone /\ gapless now ((gone ∪ read) ∖ now) h
  end.

(** The reference from a state in which [seen] has the last value of each pod. *)
Definition counted_from (c : counter) (seen : gmap gostring Z) (h : list (option (list (gostring * sample)))) (us : list gostring) : Z :=
  zsum ((fun u => along (option_list (seen !! u) ++ pod_reads c h u)) <$> us).

Definition grows (seen now : gmap gostring Z) (u : gostring) : Z :=
  match seen !! u, now !! u with Some a, Some b => grow_count a b | _, _ => 0 end.

Lemma zsum_plus {A} (f g : A -> Z) us : zsum ((fun u => f u + g u) <$> us) = zsum (f <$> us) + zsum (g <$> us).
Proof. unfold zsum. induction us as [|u us IH]; [done|]. cbn in *. lia. Qed.

Lemma zsum_zero {A} (f : A -> Z) us : (forall u, u ∈ us -> f u = 0) -> zsum (f <$> us) = 0.
Proof.
  unfold zsum. induction us as [|u us IH]; intros Hf; [done|]. cbn in *. rewrite IH, (Hf u) by set_solver. done.
Qed.

Lemma zsum_one (d : Z) v (us : list gostring) : NoDup us -> v ∈ us -> zsum ((fun u => if decide (u = v) then d else 0) <$> us) = d.
Proof.
  induction 1 as [|u us Hni Hnd IH]; [by intros ?%elem_of_nil|]. intros Hin. unfold zsum in *. cbn [fmap list_fmap foldr].
  destruct (decide (u = v)) as [->|Hne].
  - pose proof (zsum_zero (fun u => if decide (u = v) then d else 0) us) as Hz. unfold zsum in Hz. rewrite Hz; [lia|].
    intros u Hu. rewrite decide_False; [done|]. by intros ->.
  - rewrite IH; [lia|]. set_solver.
Qed.

(** The growth of one pass, pod by pod. *)
Lemma grown_once_sum c seen l us :
  NoDup us -> NoDup l.*1 -> (forall u, u ∈ l.*1 -> u ∈ us) ->
  zsum (grown_once c seen l) = zsum (grows seen (counts_of c l) <$> us).
Proof.
  intros Hus. induction l as [|[v s] l IH]; intros Hnd Hin.
  - rewrite zsum_zero; [done|]. intros u _. unfold grows, counts_of. cbn. rewrite lookup_empty. by destruct (seen !! u).
  - cbn in Hnd. apply NoDup_cons in Hnd as [Hni Hnd].
    assert (counts_of c l !! v = None) as Hv.
    { rewrite counts_of_map, lookup_fmap, (not_elem_of_list_to_map_1 (M := gmap gostring) l) by done. done. }
    set (d := match seen !! v with Some a => grow_count a (count c s) | None => 0 end).
    assert (zsum (grown_once c seen ((v, s) :: l)) = d + zsum (grown_once c seen l)) as ->.
    { unfold grown_once, d. cbn. by destruct (seen !! v). }
    rewrite IH by set_solver. rewrite <-(zsum_one d v us), <-zsum_plus by set_solver. f_equal. apply list_fmap_ext. intros _ u _.
    unfold grows, counts_of. cbn [fmap list_fmap list_to_map]. destruct (decide (u = v)) as [->|Hne].
    + fold (counts_of c l). cbn. rewrite lookup_insert_eq, Hv. unfold d. by destruct (seen !! v); rewrite Z.add_0_r.
    + cbn. by rewrite lookup_insert_ne.
Qed.

Lemma counted_from_cons c seen l h us :
  NoDup us -> NoDup l.*1 -> (forall u, u ∈ l.*1 -> u ∈ us) ->
  counted_from c seen (Some l :: h) us = zsum (grown_once c seen l) + counted_from c (counts_of c l ∪ seen) h us.
Proof.
  intros Hus Hnd Hin. rewrite (grown_once_sum c seen l us) by done. unfold counted_from. rewrite <-zsum_plus. f_equal.
  apply list_fmap_ext. intros _ u _. unfold pod_reads, grows. cbn. rewrite lookup_union.
  destruct (counts_of c l !! u) as [b|], (seen !! u) as [a|]; cbn; lia.
Qed.

(** A reporter that remembers fewer pods sees no more, and the same if it remembers those that are read. *)
Lemma grown_once_forgets (c : counter) (last seen : gmap gostring Z) (l : list (gostring * sample)) :
  last ⊆ seen -> (forall u a, seen !! u = Some a -> 0 <= a) -> (forall u s, (u, s) ∈ l -> 0 <= count c s) ->
  zsum (grown_once c last l) <= zsum (grown_once c seen l) /\
  ((list_to_set l.*1 : gset gostring) ## (dom seen : gset gostring) ∖ dom last -> zsum (grown_once c last l) = zsum (grown_once c seen l)).
Proof.
  intros Hsub Hseen. induction l as [|[u s] l IH]; intros Hl; [done|]. destruct IH as [IH1 IH2]; [set_solver|].
  assert (0 <= count c s) as Hs by (eapply Hl; by left). unfold grown_once, zsum in *. cbn in *.
  destruct (last !! u) as [a|] eqn:Ea; [rewrite (lookup_weaken _ _ _ _ Ea Hsub); cbn; split; [lia|intros Hd; rewrite IH2 by set_solver; done]|].
  destruct (seen !! u) as [a|] eqn:Es; cbn; [|split; [done|intros Hd; apply IH2; set_solver]].
  pose proof (grow_count_nonneg a (count c s) (Hseen _ _ Es) Hs). split; [lia|]. intros Hd. exfalso.
  apply (Hd u); [set_solver|]. apply elem_of_difference. split; [by apply elem_of_dom_2 in Es|by apply not_elem_of_dom].
Qed.

Lemma counts_of_dom (c : counter) (l : list (gostring * sample)) : dom (counts_of c l) = (list_to_set l.*1 : gset gostring).
Proof. rewrite counts_of_map, dom_fmap_L. apply dom_list_to_map_L. Qed.

Lemma grown_counted (c : counter) (last seen : gmap gostring Z) (h : list (option (list (gostring * sample)))) (us : list gostring) :
  NoDup us -> (forall l, Some l ∈ h -> NoDup l.*1 /\ forall u s, (u, s) ∈ l -> u ∈ us /\ 0 <= count c s) ->
  last ⊆ seen -> (forall u a, seen !! u = Some a -> 0 <= a) ->
  grown c last h <= counted_from c seen h us /\
  (gapless (dom last) (dom seen ∖ dom last) h -> grown c last h = counted_from c seen h us).
Proof.
  intros Hus. revert last seen. induction h as [|[l|] h IH]; intros last seen Hh Hsub Hseen.
  - cbn. unfold counted_from. rewrite zsum_zero; [done|]. intros u _. cbn. by destruct (seen !! u).
  - destruct (Hh l) as [Hnd Hl]; [by left|].
    assert (forall u, u ∈ l.*1 -> u ∈ us) as Hin.
    { intros u ([u' s] & -> & Hx)%list_elem_of_fmap. by destruct (Hl u' s Hx). }
    rewrite counted_from_cons by done. cbn [grown gapless].
    destruct (grown_once_forgets c last seen l Hsub Hseen) as [H1 H2]; [intros u s Hx; by destruct (Hl u s Hx)|].
    destruct (IH (counts_of c l) (counts_of c l ∪ seen)) as [H3 H4].
    + intros l' Hl'. apply Hh. by right.
    + apply map_union_subseteq_l.
    + intros u a [E|[_ E]]%lookup_union_Some_raw; [|by eapply Hseen]. rewrite counts_of_map, lookup_fmap in E.
      destruct ((list_to_map l : gmap gostring sample) !! u) as [s|] eqn:Ex; [|done]. injection E as <-.
      apply elem_of_list_to_map_2 in Ex. by destruct (Hl u s Ex).
    + split; [lia|]. intros [Hd Hg]. rewrite H2 by done. f_equal. apply H4. rewrite dom_union_L, counts_of_dom.
      replace ((list_to_set l.*1 ∪ dom seen) ∖ list_to_set l.*1) with ((dom seen ∖ dom last ∪ dom last) ∖ list_to_set l.*1); [done|].
      apply subseteq_dom in Hsub. apply set_eq. intros u. destruct (decide (u ∈ dom last)); set_solver.
  - apply (IH last seen); [|done..]. intros l' Hl'. apply Hh. by right.
Qed.

Lemma pods_read_NoDup {A} (h : list (option (list (gostring * A)))) : NoDup (pods_read h).
Proof. apply NoDup_remove_dups. Qed.

Lemma elem_of_pods_read {A} (h : list (option (list (gostring * A)))) l u (s : A) : Some l ∈ h -> (u, s) ∈ l -> u ∈ pods_read h.
Proof.
  intros Hl Hs. apply elem_of_remove_dups, list_elem_of_In, in_concat. exists l.*1.
  rewrite <-!list_elem_of_In. split; [apply list_elem_of_fmap; by exists (Some l)|apply list_elem_of_fmap; by exists (u, s)].
Qed.

(** The reporter sees no more than the pods counted, and all of it when no pod is left out between two reads of it. *)
Lemma grown_le_counted c passes :
  whole_reads c passes -> Forall (fun pw => distinct_pods pw.2) passes ->
  grown c ∅ (reads_of <$> passes) <= pods_counted c (reads_of <$> passes) /\
  (gapless ∅ ∅ (reads_of <$> passes) -> grown c ∅ (reads_of <$> passes) = pods_counted c (reads_of <$> passes)).
Proof.
  intros Hw Hd. destruct (grown_counted c ∅ ∅ (reads_of <$> passes) (pods_read (reads_of <$> passes))) as [H1 H2].
  - apply pods_read_NoDup.
  - intros l Hl. split.
    + apply list_elem_of_fmap in Hl as ([p w] & E & Hin). rewrite Forall_forall in Hd. specialize (Hd _ Hin).
      unfold reads_of, distinct_pods in *. cbn in *. destruct (sw_pods w) as [|all] eqn:Ew; [done|]. injection E as ->.
      by eapply reads_distinct.
    + intros u s Hs. split; [by eapply elem_of_pods_read|]. apply list_elem_of_fmap in Hl as (pw & E & Hin).
      destruct (Hw pw l u s Hin (eq_sym E) Hs). lia.
  - done.
  - intros u a. by rewrite lookup_empty.
  - assert (counted_from c ∅ (reads_of <$> passes) (pods_read (reads_of <$> passes)) = pods_counted c (reads_of <$> passes)) as E.
    { done. }
    rewrite E in *. split; [done|]. intros Hg. apply H2. rewrite dom_empty_L.
    replace ((∅ : gset gostring) ∖ ∅) with (∅ : gset gostring) by set_solver. done.
Qed.

(** Along values that do not go down the growth is the last less the first. *)
Definition span (l : list Z) : Z := default 0 (a ← head l; b ← last l; Some (b - a)).

Fixpoint rising (l : list Z) : Prop :=
  match l with
  | a :: ((b :: _) as l') => a <= b /\ rising l'
  | _ => True
  end.

Lemma along_rising l : rising l -> along l = span l.
Proof.
  induction l as [|a [|b l] IH]; [done|intros _; unfold span; cbn; lia|]. intros [Hab Hr].
  specialize (IH Hr). change (along (a :: b :: l)) with (grow_count a b + along (b :: l)). rewrite IH.
  unfold span, grow_count. cbn [head mbind option_bind default]. rewrite (proj2 (Z.leb_le a b) Hab).
  change (last (a :: b :: l)) with (last (b :: l)). destruct (last (b :: l)) as [z|] eqn:El; cbn; [lia|].
  apply last_None in El. done.
Qed.

(** ** The report at the server *)

(** What the rule server decodes of a report. *)
Definition as_body (r : statsReport) : reportBody := {|
  b_Schema := sr_Schema r; b_Cluster := sr_Cluster r; b_Policy := sr_Policy r; b_From := sr_From r; b_To := sr_To r; b_Mode := sr_Mode r;
  b_PodsReporting := sr_PodsReporting r; b_PodsTotal := sr_PodsTotal r; b_Revisions := sr_Revisions r;
  b_Remote := (fun x => {| rr_Revision := ref_Revision x; rr_Publication := ref_Publication x; rr_SignedBy := ref_SignedBy x |}) <$> sr_Remote r;
  b_Lines := sr_Lines r; b_Errors := sr_Errors r; b_Redactions := sr_Redactions r; b_AuditFindings := sr_AuditFindings r |}.

(** The sizes the server allows. *)
Definition keys_fit (m : gmap gostring Z) : bool :=
  (size m <=? maxReportKeys)%nat && forallb (fun '(k, _) => (length k <=? maxKeyLen)%nat) (map_to_list m).

Definition report_fits (r : statsReport) : bool :=
  (length (sr_Policy r) <=? 253)%nat && (length (sr_Cluster r) <=? maxKeyLen)%nat &&
  keys_fit (sr_Revisions r) && keys_fit (sr_Redactions r) && keys_fit (sr_AuditFindings r) &&
  match sr_Remote r with
  | Some x => (length (ref_Revision x) <=? maxKeyLen)%nat && (length (ref_SignedBy x) <=? maxKeyLen)%nat
  | None => true
  end.

Definition nonneg_counts (m : gmap gostring Z) : Prop := forall k v, m !! k = Some v -> 0 <= v.

Lemma counts_fit_keys m : nonneg_counts m -> counts_fit m = forallb (fun '(k, _) => (length k <=? maxKeyLen)%nat) (map_to_list m).
Proof.
  intros Hm. unfold counts_fit. assert (Forall (fun kv => 0 <= kv.2) (map_to_list m)) as Hf.
  { apply Forall_forall. intros [k v] Hin%elem_of_map_to_list. by eapply Hm. }
  induction Hf as [|[k v] l Hv Hf IH]; [done|]. cbn in *. rewrite IH. f_equal. destruct (Z.ltb_spec v 0); [lia|].
  rewrite orb_false_r. by rewrite Nat.leb_antisym.
Qed.

(** A report of counts that are not negative, over a window in order, is refused for its sizes only. *)
Lemma check_fits r :
  sr_Schema r = reportSchema -> is_empty (sr_Policy r) = false -> (sr_Mode r = go "redact" \/ sr_Mode r = go "audit") ->
  sr_From r <> zeroTime -> sr_From r <= sr_To r -> 0 <= sr_Lines r -> 0 <= sr_Errors r -> 0 <= sr_PodsReporting r <= sr_PodsTotal r ->
  nonneg_counts (sr_Revisions r) -> nonneg_counts (sr_Redactions r) -> nonneg_counts (sr_AuditFindings r) ->
  checkReport (as_body r) = report_fits r.
Proof.
  intros Es Ep Hm Hz Ht Hl He Hpods Hr1 Hr2 Hr3. unfold checkReport, report_fits, keys_fit.
  cbn [as_body b_Schema b_Cluster b_Policy b_From b_To b_Mode b_PodsReporting b_PodsTotal b_Revisions b_Remote b_Lines b_Errors b_Redactions b_AuditFindings forallb].
  rewrite Es, Ep, str_eqb_refl, !counts_fit_keys by done. cbn [negb orb].
  replace (negb (str_eqb (sr_Mode r) (go "redact")) && negb (str_eqb (sr_Mode r) (go "audit"))) with false
    by (destruct Hm as [-> | ->]; done).
  destruct (Z.eqb_spec (sr_From r) zeroTime); [done|]. rewrite !(proj2 (Z.ltb_ge _ _)) by lia. cbn [orb].
  rewrite !Nat.ltb_antisym.
  repeat match goal with |- context [(?a <=? ?b)%nat] => destruct (a <=? b)%nat; cbn [negb orb andb]; rewrite ?andb_false_r; try done end.
  all: repeat match goal with |- context [forallb ?f ?l] => destruct (forallb f l); cbn [negb andb]; rewrite ?andb_false_r; try done end.
  all: destruct (sr_Remote r) as [x|]; cbn [fmap option_fmap option_map andb rr_Revision rr_SignedBy];
    rewrite ?Nat.ltb_antisym, ?negb_orb, ?negb_involutive; done.
Qed.

Lemma read_pods_sizes l rd :
  let rd' := foldl read_pod rd l in
  (size (rd_alive rd') <= size (rd_alive rd) + length l)%nat /\ (nonneg_counts (rd_revisions rd) -> nonneg_counts (rd_revisions rd')).
Proof.
  revert rd. induction l as [|[p [s|]] l IH]; intros rd; cbn [foldl read_pod length]; [split; [lia|done]| |].
  - edestruct IH as [H1 H2]. split.
    + etrans; [exact H1|]. cbn [rd_alive]. rewrite map_size_insert. clear. generalize (size (rd_alive rd)). intros n. destruct (rd_alive rd !! _); unfold id; lia.
    + intros Hr. apply H2. intros k v. cbn. destruct (decide (k = if s_haveRevision s then s_revision s else [])) as [->|Hne].
      * rewrite lookup_insert_eq. intros [= <-].
        destruct (rd_revisions rd !! _) as [x|] eqn:E; cbn; [apply Hr in E; lia|lia].
      * rewrite lookup_insert_ne by done. apply Hr.
  - edestruct IH as [H1 H2]. split; [etrans; [exact H1|]; lia|exact H2].
Qed.

Lemma window_check p st l now :
  let r := report_of_window p (after_reading st l) now in
  (forall c, 0 <= told c r) -> sr_From r <> zeroTime -> sr_From r <= now -> checkReport (as_body r) = report_fits r.
Proof.
  intros r Ht Hz Hle. destruct (read_pods_sizes l {| rd_pods := ps_pods st; rd_alive := ∅; rd_revisions := ∅; rd_growth := [] |}) as [Hs Hr].
  apply check_fits; try done.
  - cbn. by destruct (sp_Namespace p).
  - unfold r. cbn. destruct (sp_AuditMode p); [by right|by left].
  - apply (Ht Lines).
  - apply (Ht Errors).
  - unfold r. cbn in *. unfold read_pods. rewrite map_size_empty in Hs. lia.
  - apply Hr. intros k v. cbn. by rewrite lookup_empty.
  - intros k v E. specialize (Ht (Redacted k)). cbn in Ht, E. rewrite E in Ht. done.
  - intros k v E. specialize (Ht (Found k)). cbn [told] in Ht. rewrite E in Ht. done.
Qed.

Lemma pass_report p w st st' r :
  passPolicy p w st = (st', Some r) -> exists l, r = report_of_window p (after_reading st l) (sw_now w).
Proof.
  unfold passPolicy. destruct (sw_pods w) as [e|all]; [done|]. cbv zeta. destruct (_ <=? _); [|done].
  destruct (send _ _ w); [done|]. intros [= _ <-]. by eexists.
Qed.

Lemma run_reports passes st st' rs :
  run_passes passes st = (st', rs) -> Forall (fun r => exists p st l now, r = report_of_window p (after_reading st l) now) rs.
Proof.
  revert st st' rs. induction passes as [|[p w] passes IH]; intros st st' rs Hr; [by injection Hr as <- <-|].
  cbn [run_passes] in Hr. destruct (passPolicy p w st) as [st1 r] eqn:Ep. destruct (run_passes passes st1) as [st2 rs2] eqn:Er.
  injection Hr as <- <-. apply Forall_app. split; [|by eapply IH]. destruct r as [r|]; [|done].
  constructor; [|done]. apply pass_report in Ep as [l ->]. eauto.
Qed.

Lemma windows_order from l to : windows from l to -> Forall (fun r => from <= sr_From r <= sr_To r) l.
Proof.
  revert from. induction l as [|r l IH]; intros from; simpl; [done|]. intros (E & Hle & Hw). apply IH in Hw.
  assert (from <= sr_To r) by (unfold statsMinInterval, second_ns in Hle; lia). constructor; [lia|].
  eapply Forall_impl; [exact Hw|]. cbn. intros x ?. lia.
Qed.

End passes.
