(* ===== verification/Metrics.v ===== *)
(** * Metrics of the sidecar

    [pkg/metrics/prometheus.go]: the counters a sidecar serves on /metrics, what
    [cmd/cleaner] does to them line by line and load by load, and the text the
    operator reads them from.

    A counter that is only incremented by whole numbers is kept as an integer by the
    client library, so it is a [Z] here; a vector is a map from the value of its label.
    Of the duration histogram only the number of observations is modelled.  The text of
    /metrics is written by the library: a parameter, with the documented format as its
    law. *)

From Stdlib Require Import ZArith Lia Bool SpecFloat.
From stdpp Require Import base list option sets fin_maps gmap.
From S2P Require Import Prelude GoStrings Float64 Regex KeyMatcher Config Entropy Tokens Adaptive Machine Engine.
From S2P Require Import Scanner ConfigSources Output Stats Redaction ScannerProofs Cleaner PairProofs OperatorStats ReporterProofs.

(** ** The counters *)

Record Metrics := {
  ProcessedBytesTotal : Z;
  RedactionEventsTotal : gmap gostring Z;
  ProcessingDuration : Z;
  ErrorsTotal : Z;
  ConfigReloadsTotal : Z;
  ConfigReloadErrorsTotal : Z;
  ConfigLastReloadTimestamp : float64;
  ConfigRevisionInfo : gmap gostring Z;
  AuditLinesTotal : gmap gostring Z;
  AuditFindingsTotal : gmap gostring Z;
  AuditMode : Z;
}.

Definition newMetrics : Metrics := {|
  ProcessedBytesTotal := 0; RedactionEventsTotal := ∅; ProcessingDuration := 0; ErrorsTotal := 0; ConfigReloadsTotal := 0;
  ConfigReloadErrorsTotal := 0; ConfigLastReloadTimestamp := fzero; ConfigRevisionInfo := ∅; AuditLinesTotal := ∅;
  AuditFindingsTotal := ∅; AuditMode := 0 |}.

(** [vec.WithLabelValues(k).Add(n)]. *)
Definition add_at (k : gostring) (n : Z) (vec : gmap gostring Z) : gmap gostring Z := <[k := default 0 (vec !! k) + n]> vec.

Definition StartAudit (m : Metrics) : Metrics := {|
  ProcessedBytesTotal := ProcessedBytesTotal m; RedactionEventsTotal := RedactionEventsTotal m;
  ProcessingDuration := ProcessingDuration m; ErrorsTotal := ErrorsTotal m; ConfigReloadsTotal := ConfigReloadsTotal m;
  ConfigReloadErrorsTotal := ConfigReloadErrorsTotal m; ConfigLastReloadTimestamp := ConfigLastReloadTimestamp m;
  ConfigRevisionInfo := ConfigRevisionInfo m;
  AuditLinesTotal := add_at (go "would_redact") 0 (add_at (go "clean") 0 (AuditLinesTotal m));
  AuditFindingsTotal := AuditFindingsTotal m; AuditMode := 1 |}.

Definition boundStrategy (strategyType : gostring) : gostring :=
  if in_words strategyType [go "entropy"; go "regex"; go "luhn"; go "signature"; go "key"] then strategyType
  else go "unknown".

Definition IncrementRedaction (strategyType : gostring) (m : Metrics) : Metrics := {|
  ProcessedBytesTotal := ProcessedBytesTotal m;
  RedactionEventsTotal := add_at (boundStrategy strategyType) 1 (RedactionEventsTotal m);
  ProcessingDuration := ProcessingDuration m; ErrorsTotal := ErrorsTotal m; ConfigReloadsTotal := ConfigReloadsTotal m;
  ConfigReloadErrorsTotal := ConfigReloadErrorsTotal m; ConfigLastReloadTimestamp := ConfigLastReloadTimestamp m;
  ConfigRevisionInfo := ConfigRevisionInfo m; AuditLinesTotal := AuditLinesTotal m;
  AuditFindingsTotal := AuditFindingsTotal m; AuditMode := AuditMode m |}.

Definition IncrementAuditFinding (strategyType : gostring) (m : Metrics) : Metrics := {|
  ProcessedBytesTotal := ProcessedBytesTotal m; RedactionEventsTotal := RedactionEventsTotal m;
  ProcessingDuration := ProcessingDuration m; ErrorsTotal := ErrorsTotal m; ConfigReloadsTotal := ConfigReloadsTotal m;
  ConfigReloadErrorsTotal := ConfigReloadErrorsTotal m; ConfigLastReloadTimestamp := ConfigLastReloadTimestamp m;
  ConfigRevisionInfo := ConfigRevisionInfo m; AuditLinesTotal := AuditLinesTotal m;
  AuditFindingsTotal := add_at (boundStrategy strategyType) 1 (AuditFindingsTotal m); AuditMode := AuditMode m |}.

Definition RecordAuditLine (wouldRedact : bool) (m : Metrics) : Metrics := {|
  ProcessedBytesTotal := ProcessedBytesTotal m; RedactionEventsTotal := RedactionEventsTotal m;
  ProcessingDuration := ProcessingDuration m; ErrorsTotal := ErrorsTotal m; ConfigReloadsTotal := ConfigReloadsTotal m;
  ConfigReloadErrorsTotal := ConfigReloadErrorsTotal m; ConfigLastReloadTimestamp := ConfigLastReloadTimestamp m;
  ConfigRevisionInfo := ConfigRevisionInfo m;
  AuditLinesTotal := add_at (if wouldRedact then go "would_redact" else go "clean") 1 (AuditLinesTotal m);
  AuditFindingsTotal := AuditFindingsTotal m; AuditMode := AuditMode m |}.

(** The counters the sidecar adds to itself: bytes, observed lines, errors. *)
Definition add_work (bytes lines errors : Z) (m : Metrics) : Metrics := {|
  ProcessedBytesTotal := ProcessedBytesTotal m + bytes; RedactionEventsTotal := RedactionEventsTotal m;
  ProcessingDuration := ProcessingDuration m + lines; ErrorsTotal := ErrorsTotal m + errors;
  ConfigReloadsTotal := ConfigReloadsTotal m; ConfigReloadErrorsTotal := ConfigReloadErrorsTotal m;
  ConfigLastReloadTimestamp := ConfigLastReloadTimestamp m; ConfigRevisionInfo := ConfigRevisionInfo m;
  AuditLinesTotal := AuditLinesTotal m; AuditFindingsTotal := AuditFindingsTotal m; AuditMode := AuditMode m |}.

(** [gauge.SetToCurrentTime]: [now] is in nanoseconds, the gauge in seconds with a fraction. *)
Definition SetToCurrentTime (now : Z) : float64 := fdiv (float_of_Z now) (float_of_Z 1000000000).

(** A policy file that was rejected, or applied at [now] with the revision [rev]. *)
Definition reload_rejected (m : Metrics) : Metrics := {|
  ProcessedBytesTotal := ProcessedBytesTotal m; RedactionEventsTotal := RedactionEventsTotal m;
  ProcessingDuration := ProcessingDuration m; ErrorsTotal := ErrorsTotal m; ConfigReloadsTotal := ConfigReloadsTotal m;
  ConfigReloadErrorsTotal := ConfigReloadErrorsTotal m + 1; ConfigLastReloadTimestamp := ConfigLastReloadTimestamp m;
  ConfigRevisionInfo := ConfigRevisionInfo m; AuditLinesTotal := AuditLinesTotal m;
  AuditFindingsTotal := AuditFindingsTotal m; AuditMode := AuditMode m |}.

Definition reload_applied (now : Z) (rev : gostring) (m : Metrics) : Metrics := {|
  ProcessedBytesTotal := ProcessedBytesTotal m; RedactionEventsTotal := RedactionEventsTotal m;
  ProcessingDuration := ProcessingDuration m; ErrorsTotal := ErrorsTotal m; ConfigReloadsTotal := ConfigReloadsTotal m + 1;
  ConfigReloadErrorsTotal := ConfigReloadErrorsTotal m; ConfigLastReloadTimestamp := SetToCurrentTime now;
  ConfigRevisionInfo := {[rev := 1]}; AuditLinesTotal := AuditLinesTotal m;
  AuditFindingsTotal := AuditFindingsTotal m; AuditMode := AuditMode m |}.

(** ** The sidecar with metrics on *)

Section line.
Context `{RT : GoRuntime} (cfg : settings).

(** The scanner's callback. *)
Definition count_strategy (m : Metrics) (strategy : gostring) : Metrics :=
  if auditMode cfg then IncrementAuditFinding strategy m else IncrementRedaction strategy m.

(** What [processLine] does to the metrics, in the state [p] it is called in. *)
Definition line_metrics (st : configState) (text : gostring) (p : process) (m : Metrics) : Metrics :=
  let m := add_work (len text) 0 0 m in
  match ScanAndRedact st text {| sb := []; baseline := p_baseline p; callbacks := [] |} with
  | Ok cleaned s =>
    let m := add_work 0 1 0 (foldl count_strategy m (callbacks s)) in
    if auditMode cfg then RecordAuditLine (negb (str_eqb cleaned text)) m else m
  | Panic s => add_work 0 0 1 (foldl count_strategy m (callbacks s))
  | NoFuel => m
  end.

End line.

Section run.
Context `{RT : GoRuntime} `{RegexpCompiler} `{GoDecoders} (Getenv : gostring -> gostring).
Notation cfg := (read_settings Getenv).

(** What [check] does to the metrics, at [now]. *)
Definition check_metrics (now : Z) (f : file_view) (r : policyReloader) (m : Metrics) : Metrics :=
  match fv_stat f with
  | None => m
  | Some stat =>
    if bool_decide (seen r = Some stat) then m
    else
      match LoadPolicyFile (fv_content f) with
      | inl _ => reload_rejected m
      | inr (_, rev) => reload_applied now rev m
      end
  end.

(** The metrics at the start. *)
Definition start_metrics : Metrics := if auditMode cfg then StartAudit newMetrics else newMetrics.

End run.

(** ** The text of /metrics *)

Record series := { sr_name : gostring; sr_labels : list (gostring * gostring); sr_value : float64 }.

Definition vec_series (name label : gostring) (vec : gmap gostring Z) : list series :=
  (fun '(k, n) => {| sr_name := name; sr_labels := [(label, k)]; sr_value := float_of_Z n |}) <$> map_to_list vec.

Definition gauge (name : gostring) (x : float64) : series := {| sr_name := name; sr_labels := []; sr_value := x |}.

Definition scalar (name : gostring) (n : Z) : series := gauge name (float_of_Z n).

(** The series of the registry, under the names the code registers them with. *)
Definition registered (m : Metrics) : list series :=
  [scalar (go "piishield_processed_bytes_total") (ProcessedBytesTotal m);
   scalar (go "piishield_processing_duration_seconds_count") (ProcessingDuration m);
   scalar (go "piishield_errors_total") (ErrorsTotal m);
   scalar (go "piishield_config_reloads_total") (ConfigReloadsTotal m);
   scalar (go "piishield_config_reload_errors_total") (ConfigReloadErrorsTotal m);
   gauge (go "piishield_config_last_reload_timestamp_seconds") (ConfigLastReloadTimestamp m);
   scalar (go "piishield_audit_mode") (AuditMode m)] ++
  vec_series (go "piishield_redaction_events_total") (go "type") (RedactionEventsTotal m) ++
  vec_series (go "piishield_config_revision_info") (go "revision") (ConfigRevisionInfo m) ++
  vec_series (go "piishield_audit_lines_total") (go "result") (AuditLinesTotal m) ++
  vec_series (go "piishield_audit_findings_total") (go "type") (AuditFindingsTotal m).

(** The library: how a number is written, and the text of the registry. *)
Class Exposition := { FormatFloat : float64 -> gostring; Expose : Metrics -> gostring }.

(** The documented format: a line per series, [name{label="value"} number], the value of a label
    with its backslashes, quotes and line feeds escaped. *)
Definition escape_byte (c : byte) : gostring :=
  if c =? backslash then [backslash; backslash]
  else if c =? dquote then [backslash; dquote]
  else if c =? newline then [backslash; ch "n"] else [c].

Definition escape_label (v : gostring) : gostring := concat (escape_byte <$> v).

Definition label_text (kv : gostring * gostring) : gostring := kv.1 ++ go "=" ++ [dquote] ++ escape_label kv.2 ++ [dquote].

Definition series_line `{Exposition} (s : series) : gostring :=
  sr_name s ++ (if is_empty (sr_labels s) then [] else go "{" ++ Join (label_text <$> sr_labels s) (go ",") ++ go "}") ++
  go " " ++ FormatFloat (sr_value s).

(** A byte of a metric name. *)
Definition metric_name_byte (c : byte) : bool := isAlnumByte c || (c =? ch "_") || (c =? ch ":").

(** The names the operator reads. *)
Definition read_names : list gostring :=
  [metricLines; metricErrors; metricRedactions; metricAuditFindings; metricAuditMode; metricRevision].

(** A line that is no series the operator reads: empty, a comment, or a series of another name. *)
Definition other_line (l : gostring) : Prop :=
  Forall (fun b => b < 128) l /\ len l < maxScrapeLine /\ ~ In newline l /\ ~ In 13 l /\
  (l = [] \/ (exists t, l = ch "#" :: t) \/
   exists name t, l = name ++ t /\ name <> [] /\ forallb metric_name_byte name = true /\ name ∉ read_names /\
     ((exists t', t = ch "{" :: t') \/ (exists t', t = ch " " :: t' /\ ~ In (ch "{") t'))).

(** What the library documents: whole numbers read back, a number is a word of printable ASCII, and the
    text has a line for each series, in any order, among lines of other series and comments. *)
Class ExpositionLaws `{GoDecoders} `{Exposition} : Prop := {
  format_reads n : 0 <= n < 2 ^ 53 -> ParseFloat (FormatFloat (float_of_Z n)) = Some (float_of_Z n);
  format_word x : FormatFloat x <> [] /\ (length (FormatFloat x) <= 400)%nat /\
    Forall (fun c => 32 < c < 127 /\ c <> ch "{") (FormatFloat x);
  exposed m : exists lines others, Expose m = concat ((fun l => l ++ [newline]) <$> lines) /\
    lines ≡ₚ (series_line <$> registered m) ++ others /\ Forall other_line others;
}.

(** ** The operator reads what the sidecar counted *)

(** Names and words are trimmed to themselves. *)
Definition wordy (c : byte) : Prop := c < 128 /\ IsSpace c = false.

Lemma TrimSpace_words a m b :
  a <> [] -> b <> [] -> Forall wordy a -> Forall wordy b -> Forall (fun c => c < 128) m -> TrimSpace (a ++ m ++ b) = a ++ m ++ b.
Proof.
  intros Ha Hb Wa Wb Hm. rewrite TrimSpace_trim.
  - unfold trim. rewrite (skip_id _ (a ++ m ++ b)).
    + rewrite skip_id; [apply rev_involutive|]. rewrite app_assoc, rev_app_distr.
      destruct (rev b) as [|c l] eqn:Er; [apply (f_equal (@rev Z)) in Er; rewrite rev_involutive in Er; by subst|].
      assert (In c b) as Hc by (apply in_rev; rewrite Er; by left). simpl.
      rewrite Forall_forall in Wb. by apply Wb, list_elem_of_In.
    + destruct a as [|c a]; [done|]. by apply Forall_cons in Wa as [[_ ?] _].
  - rewrite !Forall_app. split_and!; [|done|]; eapply Forall_impl; try done; by intros ? [].
Qed.

Lemma TrimSpace_word w : w <> [] -> Forall wordy w -> TrimSpace w = w.
Proof.
  intros Hw Ha. destruct w as [|c w]; [done|]. destruct w as [|d w].
  - apply Forall_cons in Ha as [[Hc Hs] _]. rewrite TrimSpace_trim by (by constructor). unfold trim, skip. simpl. rewrite Hs. simpl. by rewrite Hs.
  - apply Forall_cons in Ha as [Hc Ha]. apply (TrimSpace_words [c] [] (d :: w)); try done. by constructor.
Qed.

(** What is left of a name with something behind it. *)
Lemma TrimSpace_prefix a t :
  a <> [] -> Forall wordy a -> Forall (fun c => c < 128) t -> exists t', TrimSpace (a ++ t) = a ++ t' /\ t' `prefix_of` t.
Proof.
  intros Ha Wa Ht. rewrite TrimSpace_trim by (apply Forall_app; split; [eapply Forall_impl; [done|by intros ? []]|done]).
  unfold trim. rewrite (skip_id _ (a ++ t)) by (destruct a as [|c a]; [done|by apply Forall_cons in Wa as [[_ ?] _]]).
  rewrite rev_app_distr. unfold skip.
  assert (span_len IsSpace (rev t ++ rev a) <= length (rev t))%nat as Hs.
  { induction (rev t) as [|c l IH]; simpl.
    - destruct (rev a) as [|c l] eqn:Er; [done|]. assert (In c a) as Hc by (apply in_rev; rewrite Er; by left). simpl.
      rewrite Forall_forall in Wa. rewrite (proj2 (Wa c (proj2 (list_elem_of_In _ _) Hc))). done.
    - destruct (IsSpace c); simpl; lia. }
  set (n := span_len _ _) in *. exists (rev (drop n (rev t))).
  rewrite drop_app_le, rev_app_distr, rev_involutive by done. split; [done|].
  exists (rev (take n (rev t))). by rewrite <- rev_app_distr, take_drop, rev_involutive.
Qed.

Lemma name_wordy name : forallb metric_name_byte name = true -> Forall wordy name /\ ~ In (ch "{") name /\ ~ In (ch " ") name /\ ~ In 9 name /\ ~ In (ch "=") name /\ ~ In (ch "#") name.
Proof.
  intros Hn. assert (forall c, In c name -> 48 <= c <= 122 /\ c <> ch "=") as Hc.
  { intros c Hin. rewrite forallb_forall in Hn. specialize (Hn c Hin). revert Hn.
    unfold metric_name_byte, isAlnumByte, isASCIILetter, isASCIIDigit, between. intros Hn. boolp. repeat (destruct Hn as [Hn|Hn]; boolp); lia. }
  split.
  - apply Forall_forall. intros c Hin%list_elem_of_In%Hc. unfold wordy, IsSpace, between. split; [lia|].
    repeat (apply orb_false_iff; split); try (apply andb_false_iff); rewrite ?Z.leb_gt, ?Z.eqb_neq; lia.
  - repeat split; intros Hin%Hc; revert Hin; vm_compute; intros [[] ?]; congruence.
Qed.

Lemma IndexAny_name name rest :
  ~ In (ch " ") name -> ~ In 9 name ->
  IndexAny (name ++ rest) [ch " "; 9] = (fun i => length name + i)%nat <$> IndexAny rest [ch " "; 9].
Proof.
  intros Hs H9. induction name as [|b name IH]; simpl; [by destruct (IndexAny _ _)|].
  assert (b <> ch " " /\ b <> 9) as [? ?] by (split; intros ->; [apply Hs|apply H9]; by left).
  rewrite IH; [|intros ?; apply Hs; by right|intros ?; apply H9; by right]. unfold ContainsByte. simpl.
  rewrite (proj2 (Z.eqb_neq b (ch " "))), (proj2 (Z.eqb_neq b 9)) by done. simpl. clear. by destruct (IndexAny rest _).
Qed.

Section parsing.
Context `{GoDecoders}.

(** Whatever is behind it, the name of a series is read first. *)
Lemma splitSeries_name name t :
  forallb metric_name_byte name = true ->
  (t = [] \/ (exists t', t = ch "{" :: t') \/ exists t', t = ch " " :: t' /\ ~ In (ch "{") t') ->
  match splitSeries (name ++ t) with Some (n, _, _) => n = name | None => True end.
Proof.
  intros Hn Ht. destruct (name_wordy name Hn) as (_ & Hb & Hs & H9 & _). unfold splitSeries.
  destruct Ht as [->|[[t' ->]|(t' & -> & Hb')]].
  - by rewrite IndexAny_name, app_nil_r, (proj2 (IndexByte_None name _) Hb) by done.
  - rewrite IndexByte_first by done. destruct (readLabels _ _ _) as [[ls rest]|]; [|done].
    destruct (Fields rest); [done|]. destruct (ParseFloat _); [|done]. by rewrite take_app_length.
  - rewrite (proj2 (IndexByte_None (name ++ _) _)) by (intros [?|[Hd|?]]%in_app_or; [done|discriminate Hd|done]).
    rewrite IndexAny_name by done. simpl. rewrite Nat.add_0_r.
    destruct (Fields _); [done|]. destruct (ParseFloat _); [|done]. by rewrite take_app_length.
Qed.

Lemma label_value_escape v rest acc : label_value (escape_label v ++ dquote :: rest) acc = Some (acc ++ v, rest).
Proof.
  revert acc. induction v as [|c v IH]; intros acc; [by rewrite app_nil_r|]. unfold escape_label. cbn [fmap list_fmap concat].
  fold (escape_label v). rewrite <- app_assoc. unfold escape_byte.
  assert (acc ++ c :: v = (acc ++ [c]) ++ v) as -> by (by rewrite <- app_assoc).
  destruct (c =? backslash) eqn:E1; [apply Z.eqb_eq in E1 as ->; cbn; apply IH|].
  destruct (c =? dquote) eqn:E2; [apply Z.eqb_eq in E2 as ->; cbn; apply IH|].
  destruct (c =? newline) eqn:E3; [apply Z.eqb_eq in E3 as ->; cbn; apply IH|].
  cbn [app label_value]. rewrite E1, E2. apply IH.
Qed.

Lemma Fields_word w : w <> [] -> Forall wordy w -> Fields (ch " " :: w) = [w].
Proof.
  intros Hne Hw. unfold Fields.
  rewrite chunks_ascii by (constructor; [done|]; eapply Forall_impl; [exact Hw|by intros ? []]).
  cbn [fmap list_fmap fields_from]. change (IsSpace (ch " ")) with true. cbn [is_empty].
  assert (forall cur, cur <> [] \/ w <> [] -> fields_from ((fun c => (c, [c])) <$> w) cur = [cur ++ w]) as Hf; [|by rewrite Hf by (by right)].
  clear Hne. induction Hw as [|c w [_ Hc] Hw IH]; intros cur Hn; cbn [fmap list_fmap fields_from].
  - destruct Hn as [Hn|]; [|done]. rewrite app_nil_r. by destruct cur.
  - rewrite Hc, IH; [by rewrite <- app_assoc|]. left. by destruct cur.
Qed.

Lemma splitSeries_scalar name num x :
  forallb metric_name_byte name = true -> num <> [] -> Forall wordy num -> ~ In (ch "{") num -> ParseFloat num = Some x ->
  splitSeries (name ++ ch " " :: num) = Some (name, ∅, x).
Proof.
  intros Hn Hne Hw Hb Hp. destruct (name_wordy name Hn) as (_ & Hnb & Hs & H9 & _). unfold splitSeries.
  rewrite (proj2 (IndexByte_None (name ++ _) _)) by (intros [?|[Hd|?]]%in_app_or; [done|discriminate Hd|done]).
  rewrite IndexAny_name by done. simpl. rewrite Nat.add_0_r, take_app_length, drop_app_length, Fields_word by done.
  by rewrite Hp.
Qed.

Lemma readLabels_one fuel key v rest labels :
  forallb metric_name_byte key = true -> key <> [] ->
  readLabels (S (S fuel)) (key ++ ch "=" :: dquote :: escape_label v ++ dquote :: ch "}" :: rest) labels = Some (<[key := v]> labels, rest).
Proof.
  intros Hk Hne. destruct (name_wordy key Hk) as (Hkw & _ & Hks & _ & Hke & _).
  remember (key ++ ch "=" :: dquote :: escape_label v ++ dquote :: ch "}" :: rest) as s eqn:Es.
  assert (exists c s', s = c :: s' /\ metric_name_byte c = true) as (c & s' & Ec & Hc).
  { destruct key as [|c key]; [done|]. cbn in Hk. apply andb_true_iff in Hk as [Hk _]. eauto. }
  assert (c <> ch " " /\ c <> ch "," /\ c <> ch "}") as (? & ? & ?) by (split_and!; intros ->; by cbn in Hc).
  remember (S fuel) as f eqn:Ef. cbn [readLabels].
  assert (span_len (fun c => (c =? ch " ") || (c =? ch ",")) s = O) as ->.
  { subst s. rewrite Ec. cbn. by rewrite (proj2 (Z.eqb_neq c (ch " "))), (proj2 (Z.eqb_neq c (ch ","))). }
  rewrite drop_0, Ec, (proj2 (Z.eqb_neq c (ch "}"))) by done. rewrite <- Ec, Es, IndexByte_first by done.
  assert (at_is (key ++ ch "=" :: dquote :: escape_label v ++ dquote :: ch "}" :: rest) (S (length key)) (Z.eqb dquote) = true) as ->.
  { unfold at_is. replace (S (length key)) with (length key + 1)%nat by lia. by rewrite lookup_app_r, Nat.add_comm, Nat.add_sub by lia. }
  rewrite <- drop_drop, drop_app_length. cbn [drop]. rewrite drop_0, label_value_escape, take_app_length, TrimSpace_word by done.
  by subst f.
Qed.

Lemma splitSeries_label name key v num x :
  forallb metric_name_byte name = true -> forallb metric_name_byte key = true -> key <> [] -> num <> [] -> Forall wordy num -> ParseFloat num = Some x ->
  splitSeries (name ++ ch "{" :: label_text (key, v) ++ ch "}" :: ch " " :: num) = Some (name, {[key := v]}, x).
Proof.
  intros Hn Hk Hkne Hne Hw Hp. destruct (name_wordy name Hn) as (_ & Hnb & _). unfold splitSeries.
  rewrite IndexByte_first, take_app_length by done.
  replace (S (length name)) with (length name + 1)%nat by lia. rewrite <- drop_drop, drop_app_length. cbn [drop]. rewrite drop_0.
  assert (label_text (key, v) ++ ch "}" :: ch " " :: num = key ++ ch "=" :: dquote :: escape_label v ++ dquote :: ch "}" :: ch " " :: num) as ->
    by (unfold label_text; cbn [fst snd]; by rewrite <- !app_assoc).
  destruct (length (key ++ _)) as [|fuel] eqn:El; [rewrite length_app in El; simpl in El; lia|].
  rewrite readLabels_one, Fields_word by done. by rewrite Hp.
Qed.

(** A series the operator does not read. *)
Lemma add_series_other s name labels v : name ∉ read_names -> add_series s name labels v = s.
Proof.
  intros Hn. unfold add_series. assert (forall n, n ∈ read_names -> str_eqb name n = false) as Hne.
  { intros n Hin. apply str_eqb_neq. by intros ->. }
  by rewrite !Hne by (unfold read_names; set_solver).
Qed.

Lemma named_ignored s name t :
  name <> [] -> forallb metric_name_byte name = true -> name ∉ read_names -> Forall (fun c => c < 128) t ->
  ((exists t', t = ch "{" :: t') \/ exists t', t = ch " " :: t' /\ ~ In (ch "{") t') -> parse_line s (name ++ t) = s.
Proof.
  intros Hne Hn Hr Ha Ht. destruct (name_wordy name Hn) as (Hw & _ & _ & _ & _ & Hh). unfold parse_line.
  destruct (TrimSpace_prefix name t Hne Hw Ha) as (t1 & -> & [t2 Hp]).
  destruct (_ || _); [done|].
  assert (t1 = [] \/ (exists t', t1 = ch "{" :: t') \/ exists t', t1 = ch " " :: t' /\ ~ In (ch "{") t') as Ht1.
  { destruct t1 as [|d t1]; [by left|]. right. subst t. destruct Ht as [[t' [= -> _]]|(t' & [= -> <-] & Hin)]; [left; eauto|].
    right. exists t1. split; [done|]. intros ?. apply Hin, in_or_app. by left. }
  pose proof (splitSeries_name name t1 Hn Ht1) as Hsp. destruct (splitSeries _) as [[[n ls] v]|]; [|done].
  subst n. by apply add_series_other.
Qed.

Lemma other_ignored s l : other_line l -> parse_line s l = s.
Proof.
  intros (Ha & _ & _ & _ & [->|[[t ->]|(name & t & -> & Hne & Hn & Hr & Ht)]]); [done| |].
  - apply Forall_cons in Ha as [_ Ha]. destruct (TrimSpace_prefix [ch "#"] t) as (t1 & Ht & _); [done| |done|].
    + by repeat constructor.
    + unfold parse_line. change (ch "#" :: t) with ([ch "#"] ++ t). by rewrite Ht.
  - apply named_ignored; try done. by apply Forall_app in Ha as [_ ?].
Qed.

End parsing.

(** ** Lines of the text *)

Lemma Split_no_sep s c : ~ In c s -> Split s c = [s].
Proof.
  induction s as [|b s IH]; intros Hn; [done|]. simpl. rewrite IH by (intros ?; apply Hn; by right).
  rewrite (proj2 (Z.eqb_neq b c)); [done|]. intros ->. apply Hn. by left.
Qed.

Lemma Split_sep s c t : ~ In c s -> Split (s ++ c :: t) c = s :: Split t c.
Proof.
  induction s as [|b s IH]; intros Hn; simpl; [by rewrite Z.eqb_refl|].
  rewrite IH by (intros ?; apply Hn; by right). rewrite (proj2 (Z.eqb_neq b c)); [done|]. intros ->. apply Hn. by left.
Qed.

Lemma Split_lines ls : Forall (fun l => ~ In newline l) ls -> Split (concat ((fun l => l ++ [newline]) <$> ls)) newline = ls ++ [[]].
Proof.
  induction 1 as [|l ls Hl _ IH]; [done|]. cbn [fmap list_fmap concat]. rewrite <- app_assoc. cbn [app]. by rewrite Split_sep, IH.
Qed.

(** A line as the reader of the operator takes it: it fits, and does not end in a carriage return. *)
Definition fits (l : gostring) : Prop := ~ In newline l /\ len l < maxScrapeLine /\ drop_cr l = l.

Lemma scan_exposed ls : Forall fits ls -> scrape_lines (concat ((fun l => l ++ [newline]) <$> ls)) = ls.
Proof.
  intros Hf. unfold scrape_lines. rewrite Split_lines by (eapply Forall_impl; [exact Hf|by intros ? []]).
  rewrite last_snoc, length_app, Nat.add_sub, take_app_length.
  induction Hf as [|l ls (_ & Hl & Hd) _ IH]; [done|]. cbn [fitting]. unfold len in Hl.
  by rewrite (proj2 (Z.ltb_lt _ _)), Hd, IH.
Qed.

Lemma drop_cr_word a b : b <> [] -> ~ In 13 b -> drop_cr (a ++ b) = a ++ b.
Proof.
  intros Hb Hn. unfold drop_cr, TrimSuffix. destruct (HasSuffix (a ++ b) [13]) eqn:E; [|done]. exfalso.
  apply HasSuffix_app in E as [u Hu]. destruct (exists_last Hb) as (b' & d & ->).
  rewrite app_assoc in Hu. apply app_inj_tail in Hu as [_ ->]. apply Hn, in_or_app. right. by left.
Qed.

Lemma other_fits l : other_line l -> fits l.
Proof.
  intros (_ & Hl & Hn & Hc & _). split_and!; [done..|]. destruct l as [|c l]; [done|]. by apply (drop_cr_word []).
Qed.

Section reading.
Context `{GD : GoDecoders} `{EX : Exposition} `{EL : !ExpositionLaws}.

(** A series with at most one label, whose value is ASCII and not too long. *)
Definition plain_series (x : series) : Prop :=
  sr_name x <> [] /\ forallb metric_name_byte (sr_name x) = true /\ (length (sr_name x) <= 64)%nat /\
  match sr_labels x with
  | [] => True
  | [(key, v)] => key <> [] /\ forallb metric_name_byte key = true /\ (length key <= 16)%nat /\ Forall (fun c => c < 128) v /\ len v <= 2 ^ 18
  | _ => False
  end.

Definition labels_of (x : series) : gmap gostring gostring := list_to_map (sr_labels x).

(** The text between the name and the number. *)
Definition labels_text (x : series) : gostring :=
  if is_empty (sr_labels x) then [] else go "{" ++ Join (label_text <$> sr_labels x) (go ",") ++ go "}".

Lemma number_word x : let w := FormatFloat x in
  w <> [] /\ Forall wordy w /\ ~ In (ch "{") w /\ ~ In 13 w /\ ~ In newline w /\ (length w <= 400)%nat.
Proof.
  cbn. destruct (format_word x) as (Hne & Hl & Hf). rewrite Forall_forall in Hf.
  assert (forall c, 32 < c < 127 -> wordy c) as Hw.
  { intros c Hc. split; [lia|]. unfold IsSpace, between. repeat (apply orb_false_iff; split); try apply andb_false_iff; rewrite ?Z.leb_gt, ?Z.eqb_neq; lia. }
  split_and!; [done| | | | |done].
  - apply Forall_forall. intros c Hc. apply Hw. by destruct (Hf c Hc).
  - intros Hc%list_elem_of_In%Hf. by destruct Hc as [_ []].
  - intros Hc%list_elem_of_In%Hf. lia.
  - intros Hc%list_elem_of_In%Hf. destruct Hc as [Hc _]. revert Hc. vm_compute. by intros [? ?].
Qed.

Lemma escape_byte_bytes c d : In d (escape_byte c) -> d <> newline /\ (d = c \/ d = backslash \/ d = dquote \/ d = ch "n").
Proof.
  unfold escape_byte. destruct (c =? backslash); [|destruct (c =? dquote); [|destruct (c =? newline) eqn:E; [|apply Z.eqb_neq in E]]];
    simpl; intros Hd; repeat (destruct Hd as [<-|Hd]); try done; (split; [done|]); auto.
Qed.

Lemma escape_label_bytes v : (forall d, In d (escape_label v) -> d <> newline /\ (In d v \/ d = backslash \/ d = dquote \/ d = ch "n")) /\
  (length (escape_label v) <= 2 * length v)%nat.
Proof.
  induction v as [|c v [IH1 IH2]]; [split; [intros ? []|simpl; lia]|]. unfold escape_label in *. cbn [fmap list_fmap concat]. split.
  - intros d [Hd%escape_byte_bytes|Hd%IH1]%in_app_or; simpl; naive_solver.
  - rewrite length_app. simpl. assert (length (escape_byte c) <= 2)%nat by (unfold escape_byte; repeat case_match; simpl; lia). lia.
Qed.

Lemma labels_text_bytes x : plain_series x ->
  Forall (fun c => c < 128) (labels_text x) /\ ~ In newline (labels_text x) /\ len (labels_text x) <= 2 ^ 19 + 40.
Proof.
  intros (_ & _ & _ & Hl). unfold labels_text. destruct (sr_labels x) as [|[key v] [|]]; [by split_and!; [constructor|intros []|vm_compute]| |done].
  destruct Hl as (Hne & Hk & Hkl & Hv & Hvl). cbn [is_empty fmap list_fmap Join label_text fst snd].
  destruct (name_wordy key Hk) as (Hkw & _). destruct (escape_label_bytes v) as [He Hel]. unfold label_text. cbn [fst snd].
  split_and!.
  - rewrite !Forall_app. split_and!; try (by repeat constructor).
    + eapply Forall_impl; [exact Hkw|by intros ? []].
    + apply Forall_forall. intros c [_ [Hc|[->|[->| ->]]]]%list_elem_of_In%He; [|done..]. rewrite Forall_forall in Hv. by apply Hv, list_elem_of_In.
  - rewrite !in_app_iff. intros Hin.
    assert (~ In newline key) as Hkn. { intros Hc%list_elem_of_In. rewrite Forall_forall in Hkw. apply Hkw in Hc as [_ Hc]. by vm_compute in Hc. }
    cbn in Hin. assert (~ In newline (escape_label v)) by (by intros [Hc _]%He). intuition discriminate.
  - unfold len in *. rewrite !length_app. cbn [length]. lia.
Qed.
Lemma series_line_eq x : series_line x = sr_name x ++ labels_text x ++ ch " " :: FormatFloat (sr_value x).
Proof. done. Qed.

Lemma series_line_fits x : plain_series x -> fits (series_line x).
Proof.
  intros Hx. destruct (labels_text_bytes x Hx) as (_ & Hln & Hll). destruct Hx as (Hne & Hn & Hnl & _).
  destruct (number_word (sr_value x)) as (Hwne & _ & _ & Hw13 & Hwn & Hwl). destruct (name_wordy _ Hn) as (Hnw & _).
  rewrite series_line_eq. split_and!.
  - rewrite !in_app_iff. intros [Hc|[Hc|[Hc|Hc]]]; [|done|discriminate Hc|done].
    apply list_elem_of_In in Hc. rewrite Forall_forall in Hnw. apply Hnw in Hc as [_ Hc]. by vm_compute in Hc.
  - unfold len, maxScrapeLine in *. rewrite !length_app. cbn [length]. change (Z.shiftl 1 20) with 1048576. lia.
  - rewrite (cons_middle (ch " ")), !app_assoc. by apply drop_cr_word.
Qed.

Lemma series_trimmed x : plain_series x -> TrimSpace (series_line x) = series_line x.
Proof.
  intros Hx. destruct (labels_text_bytes x Hx) as (Hla & _). destruct Hx as (Hne & Hn & _).
  destruct (number_word (sr_value x)) as (Hwne & Hww & _). destruct (name_wordy _ Hn) as (Hnw & _).
  rewrite series_line_eq, (cons_middle (ch " ")), (app_assoc (labels_text x)). apply TrimSpace_words; try done.
  apply Forall_app. split; [done|]. by repeat constructor.
Qed.

(** A number the operator reads as it is. *)
Definition whole_value (x : float64) : Prop := exists n, x = float_of_Z n /\ 0 <= n < 2 ^ 53.

Lemma whole_value_reads x : whole_value x -> ParseFloat (FormatFloat x) = Some x.
Proof. intros (n & -> & Hn). by apply format_reads. Qed.

Lemma parse_series s x :
  plain_series x -> whole_value (sr_value x) ->
  parse_line s (series_line x) = add_series s (sr_name x) (labels_of x) (sr_value x).
Proof.
  intros Hx Hv. unfold parse_line. rewrite series_trimmed by done.
  destruct (number_word (sr_value x)) as (Hwne & Hww & Hwb & _). destruct Hx as (Hne & Hn & _ & Hl).
  assert (is_empty (series_line x) || at_is (series_line x) 0 (Z.eqb (ch "#")) = false) as ->.
  { rewrite series_line_eq. destruct (name_wordy _ Hn) as (_ & _ & _ & _ & _ & Hh). destruct (sr_name x) as [|c name]; [done|].
    change ((ch "#" =? c) = false). apply Z.eqb_neq. intros <-. apply Hh. by left. }
  rewrite series_line_eq. unfold labels_text, labels_of. destruct (sr_labels x) as [|[key v] [|]]; [| |done]; cbn [is_empty].
  - rewrite app_nil_l. by erewrite splitSeries_scalar by (done || by apply whole_value_reads).
  - destruct Hl as (Hkne & Hk & _). cbn [fmap list_fmap Join list_to_map fst snd].
    assert (forall t, (go "{" ++ label_text (key, v) ++ go "}") ++ ch " " :: t = ch "{" :: label_text (key, v) ++ ch "}" :: ch " " :: t) as ->
      by (intros t; rewrite <- !app_assoc; done).
    by erewrite splitSeries_label by (done || by apply whole_value_reads).
Qed.

Lemma parse_unread s x : plain_series x -> sr_name x ∉ read_names -> parse_line s (series_line x) = s.
Proof.
  intros Hx Hr. destruct (labels_text_bytes x Hx) as (Hla & _). destruct Hx as (Hne & Hn & _).
  destruct (number_word (sr_value x)) as (_ & Hww & Hwb & _). rewrite series_line_eq. apply named_ignored; try done.
  - apply Forall_app. split; [done|]. constructor; [done|]. eapply Forall_impl; [exact Hww|by intros ? []].
  - unfold labels_text. destruct (is_empty _); [right; by eexists|left]. cbn. by eexists.
Qed.
(** Lines that do not bear on a part of the sample can be left out. *)
Lemma fold_part {A} (part : sample -> A) lines ours rest s :
  (forall s s' l, part s = part s' -> part (parse_line s l) = part (parse_line s' l)) ->
  (forall s l, l ∈ rest -> part (parse_line s l) = part s) ->
  lines ≡ₚ ours ++ rest ->
  exists ours', ours' ≡ₚ ours /\ part (foldl parse_line s lines) = part (foldl parse_line s ours').
Proof.
  intros Hpart. assert (forall l s s', part s = part s' -> part (foldl parse_line s l) = part (foldl parse_line s' l)) as Hfold.
  { intros l. induction l as [|x l IH]; intros s1 s2 E; [done|]. apply IH. by apply Hpart. }
  revert ours rest s. induction lines as [|l lines IH]; intros ours rest s Hrest Hp.
  { apply Permutation_nil in Hp. apply app_eq_nil in Hp as [-> ->]. by exists []. }
  assert (l ∈ ours ++ rest) as [Hl|Hl]%elem_of_app by (rewrite <- Hp; by left).
  - apply elem_of_Permutation in Hl as [ours1 Ho]. rewrite Ho in Hp. cbn in Hp. apply Permutation_cons_inv in Hp.
    destruct (IH ours1 rest (parse_line s l) Hrest Hp) as (ours' & Ho' & E). exists (l :: ours'). split; [by rewrite Ho, Ho'|done].
  - apply elem_of_Permutation in Hl as [rest1 Hr].
    assert (lines ≡ₚ ours ++ rest1) as Hp1 by (apply (Permutation_cons_inv (a := l)); rewrite Hp, Hr; by rewrite Permutation_middle).
    destruct (IH ours rest1 (parse_line s l)) as (ours' & Ho' & E); [intros s1 l1 H1; apply Hrest; rewrite Hr; by right|done|].
    exists ours'. split; [done|]. cbn. rewrite E. apply Hfold, Hrest. rewrite Hr. by left.
Qed.

(** A series whose number the operator can take, if it reads it. *)
Definition series_ok (x : series) : Prop := plain_series x /\ (sr_name x ∈ read_names -> whole_value (sr_value x)).

Lemma parse_apart {A} (part : sample -> A) name s x :
  (forall s n ls v, n <> name -> part (add_series s n ls v) = part s) -> series_ok x -> sr_name x <> name ->
  part (parse_line s (series_line x)) = part s.
Proof.
  intros Hpart [Hx Hv] Hn. destruct (decide (sr_name x ∈ read_names)) as [Hr|Hr]; [|by rewrite parse_unread].
  rewrite parse_series by auto. by apply Hpart.
Qed.

(** The part of a sample that comes from the series of one name. *)
Lemma read_part {A} (part : sample -> A) name m :
  (forall s s' n ls v, part s = part s' -> part (add_series s n ls v) = part (add_series s' n ls v)) ->
  (forall s n ls v, n <> name -> part (add_series s n ls v) = part s) ->
  Forall series_ok (registered m) ->
  exists xs, xs ≡ₚ filter (fun x => sr_name x = name) (registered m) /\
    part (parse (Expose m)) = part (foldl parse_line no_sample (series_line <$> xs)).
Proof.
  intros Hcong Hother Hok. destruct (exposed m) as (lines & others & -> & Hp & Hoth).
  assert (Forall fits lines) as Hfits.
  { rewrite Hp, Forall_app. split; [|eapply Forall_impl; [exact Hoth|apply other_fits]].
    apply Forall_fmap. eapply Forall_impl; [exact Hok|]. intros x [Hx _]. by apply series_line_fits. }
  unfold parse. rewrite scan_exposed by done.
  rewrite <- (filter_app_complement (fun x => sr_name x = name) (registered m)), fmap_app, <- app_assoc in Hp.
  apply (fold_part part) with (s := no_sample) in Hp as (ours' & Ho & E).
  - apply Permutation_map_inv in Ho as (xs & -> & Hxs). exists xs. split; [done|exact E].
  - intros s s' l Hs. unfold parse_line. destruct (_ || _); [done|]. destruct (splitSeries _) as [[[n ls] v]|]; [by apply Hcong|done].
  - intros s l [(x & -> & [Hx Hin]%list_elem_of_filter)%list_elem_of_fmap|Hl]%elem_of_app.
    + rewrite Forall_forall in Hok. apply (parse_apart part name); [done|by apply Hok|done].
    + rewrite Forall_forall in Hoth. by rewrite other_ignored by (by apply Hoth).
Qed.
(** Counters whose numbers a float64 holds, and labels of a plain text. *)
Definition vec_ok (vec : gmap gostring Z) : Prop :=
  map_Forall (fun k n => Forall (fun c => c < 128) k /\ len k <= 2 ^ 18 /\ 0 <= n < 2 ^ 53) vec.

Record metrics_ok (m : Metrics) : Prop := {
  mo_lines : 0 <= ProcessingDuration m < 2 ^ 53;
  mo_errors : 0 <= ErrorsTotal m < 2 ^ 53;
  mo_mode : AuditMode m = 0 \/ AuditMode m = 1;
  mo_redactions : vec_ok (RedactionEventsTotal m);
  mo_audit_lines : vec_ok (AuditLinesTotal m);
  mo_findings : vec_ok (AuditFindingsTotal m);
  mo_revision : vec_ok (ConfigRevisionInfo m);
  mo_one_revision : ConfigRevisionInfo m = ∅ \/ exists rev, ConfigRevisionInfo m = {[rev := 1]};
}.

Lemma vec_series_ok name key vec :
  vec_ok vec -> name <> [] -> forallb metric_name_byte name = true -> (length name <= 64)%nat -> key <> [] -> forallb metric_name_byte key = true ->
  (length key <= 16)%nat -> Forall series_ok (vec_series name key vec).
Proof.
  intros Hv Hne Hn Hl Hkne Hk Hkl. unfold vec_series. apply Forall_fmap, Forall_forall. intros [k n] Hin%elem_of_map_to_list%Hv.
  destruct Hin as (Ha & Hlen & Hr). split; [|by exists n]. unfold plain_series. cbn [sr_name sr_labels]. by split_and!.
Qed.

Lemma gauge_ok name x :
  negb (is_empty name) && forallb metric_name_byte name && (length name <=? 64)%nat = true ->
  (bool_decide (name ∈ read_names) = true -> whole_value x) -> series_ok (gauge name x).
Proof.
  intros Hn Hv. apply andb_true_iff in Hn as [[Hne Hn]%andb_true_iff Hl%Nat.leb_le]. split; [|intros Hr; by apply Hv, bool_decide_eq_true].
  split_and!; [|done|done|done]. by destruct name.
Qed.

Lemma registered_ok m : metrics_ok m -> Forall series_ok (registered m).
Proof.
  intros [Hl He Hm Hr Ha Hf Hv _]. unfold registered. rewrite !Forall_app. split_and!.
  - assert (forall name x, bool_decide (name ∈ read_names) = false -> bool_decide (name ∈ read_names) = true -> whole_value x) as Hu
      by congruence.
    repeat (apply Forall_cons; split); try (apply Forall_nil; exact I); (apply gauge_ok; [reflexivity|]);
      [by apply Hu|intros _; by eexists|intros _; by eexists|by apply Hu|by apply Hu|by apply Hu|].
    intros _. eexists. split; [done|]. destruct Hm as [-> | ->]; lia.
  - apply vec_series_ok; try done; cbn; lia.
  - apply vec_series_ok; try done; cbn; lia.
  - apply vec_series_ok; try done; cbn; lia.
  - apply vec_series_ok; try done; cbn; lia.
Qed.
Lemma filter_vec name name' key vec :
  filter (fun x => sr_name x = name) (vec_series name' key vec) = if bool_decide (name' = name) then vec_series name' key vec else [].
Proof.
  unfold vec_series. induction (map_to_list vec) as [|[k n] l IH]; [by destruct (bool_decide _)|].
  cbn [fmap list_fmap]. rewrite filter_cons, IH. cbn [sr_name]. case_decide; case_bool_decide; done.
Qed.

Lemma filter_registered name m : filter (fun x => sr_name x = name) (registered m) =
  filter (fun x => sr_name x = name) (take 7 (registered m)) ++
  (if bool_decide (metricRedactions = name) then vec_series metricRedactions (go "type") (RedactionEventsTotal m) else []) ++
  (if bool_decide (metricRevision = name) then vec_series metricRevision (go "revision") (ConfigRevisionInfo m) else []) ++
  (if bool_decide (go "piishield_audit_lines_total" = name) then vec_series (go "piishield_audit_lines_total") (go "result") (AuditLinesTotal m) else []) ++
  (if bool_decide (metricAuditFindings = name) then vec_series metricAuditFindings (go "type") (AuditFindingsTotal m) else []).
Proof. unfold registered. rewrite !filter_app, !filter_vec. done. Qed.

(** The two side conditions of [read_part], by the switch on the name. *)
Ltac switch := intros; unfold add_series;
  repeat match goal with H : ?n <> ?name |- _ => rewrite (proj2 (str_eqb_neq n name)) by done; clear H end;
  cbn [andb]; repeat case_match; simpl; congruence.

(** A part that one series gives. *)
Lemma read_scalar {A} (part : sample -> A) name n m :
  (forall s s' n ls v, part s = part s' -> part (add_series s n ls v) = part (add_series s' n ls v)) ->
  (forall s n ls v, n <> name -> part (add_series s n ls v) = part s) ->
  metrics_ok m -> filter (fun x => sr_name x = name) (registered m) = [scalar name n] -> name ∈ read_names ->
  part (parse (Expose m)) = part (add_series no_sample name ∅ (float_of_Z n)).
Proof.
  intros Hc Ho Hok%registered_ok Hf Hr. destruct (read_part part name m Hc Ho Hok) as (xs & Hxs & ->).
  rewrite Hf in Hxs. apply Permutation_singleton_r in Hxs as ->. cbn [fmap list_fmap foldl].
  assert (series_ok (scalar name n)) as [Hx Hv].
  { rewrite Forall_forall in Hok. apply Hok. assert (scalar name n ∈ filter (fun x => sr_name x = name) (registered m)) as Hin by (rewrite Hf; by left).
    by apply list_elem_of_filter in Hin as [_ ?]. }
  rewrite parse_series by auto. done.
Qed.

Lemma read_lines m : metrics_ok m -> s_lines (parse (Expose m)) = float_of_Z (ProcessingDuration m).
Proof.
  intros Hok. pose proof (mo_lines _ Hok). rewrite (read_scalar s_lines metricLines (ProcessingDuration m)); [|switch|switch|done|..].
  - change (fadd (float_of_Z 0) (float_of_Z (ProcessingDuration m)) = float_of_Z (ProcessingDuration m)). by rewrite fadd_int by lia.
  - by rewrite filter_registered.
  - by apply (bool_decide_unpack (_ ∈ read_names)).
Qed.

Lemma read_errors m : metrics_ok m -> s_errors (parse (Expose m)) = float_of_Z (ErrorsTotal m).
Proof.
  intros Hok. pose proof (mo_errors _ Hok). rewrite (read_scalar s_errors metricErrors (ErrorsTotal m)); [|switch|switch|done|..].
  - change (fadd (float_of_Z 0) (float_of_Z (ErrorsTotal m)) = float_of_Z (ErrorsTotal m)). by rewrite fadd_int by lia.
  - by rewrite filter_registered.
  - by apply (bool_decide_unpack (_ ∈ read_names)).
Qed.

Lemma read_mode m : metrics_ok m -> s_audit (parse (Expose m)) = (AuditMode m =? 1).
Proof.
  intros Hok. rewrite (read_scalar s_audit metricAuditMode (AuditMode m)); [|switch|switch|done|..].
  - by destruct (mo_mode _ Hok) as [-> | ->].
  - by rewrite filter_registered.
  - by apply (bool_decide_unpack (_ ∈ read_names)).
Qed.

Lemma read_revision m : metrics_ok m ->
  let s := parse (Expose m) in
  (ConfigRevisionInfo m = ∅ -> s_haveRevision s = false) /\
  forall rev, ConfigRevisionInfo m = {[rev := 1]} -> s_haveRevision s = true /\ s_revision s = rev.
Proof.
  intros Hok s. pose (part := fun s => (s_haveRevision s, s_revision s)).
  destruct (read_part part metricRevision m) as (xs & Hxs & E); [unfold part; switch|unfold part; switch|by apply registered_ok|].
  fold s in E. rewrite filter_registered in Hxs. cbn in Hxs. split.
  - intros Hr. rewrite Hr in Hxs. apply Permutation_nil_r in Hxs as ->. by injection E.
  - intros rev Hr. pose proof (mo_revision _ Hok) as Hv. rewrite Hr in Hxs, Hv. unfold vec_series in Hxs. rewrite map_to_list_singleton in Hxs.
    apply Permutation_singleton_r in Hxs as ->. apply map_Forall_singleton in Hv as (Ha & Hl & Hn).
    cbn [fmap list_fmap foldl] in E. rewrite parse_series in E; [|by split_and!; [..|cbn; lia|by split_and!; [..|cbn; lia| |]]|by eexists].
    by injection E.
Qed.

(** Adding up a vector of distinct labels gives the vector. *)
Lemma fadd_all (kvs : list (gostring * Z)) (m0 : gmap gostring float64) :
  NoDup kvs.*1 -> (forall k, k ∈ kvs.*1 -> m0 !! k = None) -> Forall (fun kv => 0 <= kv.2 < 2 ^ 53) kvs ->
  foldl (fun mm kv => fadd_at kv.1 (float_of_Z kv.2) mm) m0 kvs = (float_of_Z <$> (list_to_map kvs : gmap gostring Z)) ∪ m0.
Proof.
  revert m0. induction kvs as [|[k n] kvs IH]; intros m0 Hd H0 Hr; [cbn; by rewrite fmap_empty, map_empty_union|].
  apply NoDup_cons in Hd as [Hk Hd]. apply Forall_cons in Hr as [Hn Hr]. cbn [snd] in Hn. cbn [foldl fst snd]. rewrite IH; [|done| |done].
  - unfold fadd_at. rewrite H0 by (by left). cbn [default from_option]. change fzero with (float_of_Z 0). rewrite fadd_int by lia.
    rewrite Z.add_0_l.
    change (list_to_map ((k, n) :: kvs) : gmap gostring Z) with (<[k := n]> (list_to_map kvs : gmap gostring Z)).
    rewrite fmap_insert, <- insert_union_l, insert_union_r; [done|]. rewrite lookup_fmap. by rewrite not_elem_of_list_to_map_1.
  - intros k' Hk'. unfold fadd_at. rewrite lookup_insert_ne; [apply H0; by right|]. by intros ->.
Qed.
(** A vector of counters, read under its label. *)
Lemma read_vec (part : sample -> gmap gostring float64) name vec m :
  (forall s s' n ls v, part s = part s' -> part (add_series s n ls v) = part (add_series s' n ls v)) ->
  (forall s n ls v, n <> name -> part (add_series s n ls v) = part s) ->
  (forall s k v, part (add_series s name {[go "type" := k]} v) = fadd_at k v (part s)) -> part no_sample = ∅ ->
  metrics_ok m -> vec_ok vec -> filter (fun x => sr_name x = name) (registered m) = vec_series name (go "type") vec ->
  name <> [] -> forallb metric_name_byte name = true -> (length name <= 64)%nat ->
  part (parse (Expose m)) = float_of_Z <$> vec.
Proof.
  intros Hc Ho Hat H0 Hok Hv Hf Hne Hn Hl. destruct (read_part part name m Hc Ho (registered_ok m Hok)) as (xs & Hxs & ->).
  rewrite Hf in Hxs. apply Permutation_map_inv in Hxs as (kvs & -> & Hk).
  set (f := fun kv : gostring * Z => _).
  assert (Forall series_ok (f <$> kvs)) as Hks.
  { rewrite <- Hk. apply (vec_series_ok name (go "type") vec); try done; cbn; lia. }
  assert (Forall (fun kv => 0 <= kv.2 < 2 ^ 53) kvs) as Hr.
  { rewrite <- Hk. apply Forall_forall. intros [k n] Hin%elem_of_map_to_list%Hv. by destruct Hin as (_ & _ & ?). }
  assert (forall s, part (foldl parse_line s (series_line <$> (f <$> kvs))) =
    foldl (fun mm kv => fadd_at kv.1 (float_of_Z kv.2) mm) (part s) kvs) as ->.
  { clear Hk. induction kvs as [|[k n] kvs IH]; intros s; [done|]. apply Forall_cons in Hr as [Hr1 Hr].
    cbn [fmap list_fmap] in Hks. apply Forall_cons in Hks as [[Hx _] Hks]. cbn [fmap list_fmap foldl]. rewrite parse_series, IH by (done || by eexists).
    f_equal. exact (Hat s k (float_of_Z n)). }
  rewrite H0, fadd_all, map_union_empty; [| |set_solver|done].
  - f_equal. rewrite <- (list_to_map_to_list vec). symmetry. apply list_to_map_proper; [apply NoDup_fst_map_to_list|done].
  - rewrite <- Hk. apply NoDup_fst_map_to_list.
Qed.

Lemma read_redactions m : metrics_ok m -> s_redactions (parse (Expose m)) = float_of_Z <$> RedactionEventsTotal m.
Proof.
  intros Hok. apply (read_vec s_redactions metricRedactions); try done; [switch|switch|apply Hok|by rewrite filter_registered, !app_nil_r|cbn; lia].
Qed.

Lemma read_findings m : metrics_ok m -> s_auditFindings (parse (Expose m)) = float_of_Z <$> AuditFindingsTotal m.
Proof.
  intros Hok. apply (read_vec s_auditFindings metricAuditFindings); try done; [switch|switch|apply Hok|by rewrite filter_registered|cbn; lia].
Qed.
End reading.

(** ** What a run of the sidecar counts *)

(** A line as the process saw it: what the scan returned ([None] when it panicked) and the detectors it
    reported. *)
Record seen_line := { sn_text : gostring; sn_scan : option gostring; sn_reports : list gostring }.

Definition see `{GoRuntime} (st : configState) (text : gostring) (p : process) : seen_line :=
  match ScanAndRedact st text {| sb := []; baseline := p_baseline p; callbacks := [] |} with
  | Ok cleaned s => {| sn_text := text; sn_scan := Some cleaned; sn_reports := callbacks s |}
  | Panic s => {| sn_text := text; sn_scan := None; sn_reports := callbacks s |}
  | NoFuel => {| sn_text := text; sn_scan := None; sn_reports := [] |}
  end.

Section counts.
Context `{RT : GoRuntime} (cfg : settings).

(** How often something happened to these lines. *)
Definition reported (k : gostring) (l : seen_line) : Z := Z.of_nat (length (filter (fun r => boundStrategy r = k) (sn_reports l))).

Definition occurs (c : counter) (l : seen_line) : Z :=
  match c with
  | Lines => if sn_scan l then 1 else 0
  | Errors => if sn_scan l then 0 else 1
  | Redacted k => if auditMode cfg then 0 else reported k l
  | Found k => if auditMode cfg then reported k l else 0
  end.

Definition metric_of (c : counter) (m : Metrics) : Z :=
  match c with
  | Lines => ProcessingDuration m
  | Errors => ErrorsTotal m
  | Redacted k => default 0 (RedactionEventsTotal m !! k)
  | Found k => default 0 (AuditFindingsTotal m !! k)
  end.

Lemma add_at_lookup k k' n vec : default 0 (add_at k n vec !! k') = default 0 (vec !! k') + if bool_decide (k = k') then n else 0.
Proof.
  unfold add_at. case_bool_decide as E; [subst; by rewrite lookup_insert_eq|]. rewrite lookup_insert_ne by done. lia.
Qed.

Lemma count_strategies c rs m :
  metric_of c (foldl (count_strategy cfg) m rs) = metric_of c m +
    match c with
    | Lines | Errors => 0
    | Redacted k => if auditMode cfg then 0 else Z.of_nat (length (filter (fun r => boundStrategy r = k) rs))
    | Found k => if auditMode cfg then Z.of_nat (length (filter (fun r => boundStrategy r = k) rs)) else 0
    end.
Proof.
  revert m. induction rs as [|r rs IH]; intros m; cbn [foldl].
  - destruct c; cbn; destruct (auditMode cfg); lia.
  - rewrite IH. unfold count_strategy. destruct c as [| |k|k]; destruct (auditMode cfg); cbn [metric_of IncrementAuditFinding IncrementRedaction
      ProcessingDuration ErrorsTotal RedactionEventsTotal AuditFindingsTotal]; rewrite ?add_at_lookup, ?filter_cons; try lia;
      case_bool_decide; case_decide; try done; cbn [length]; lia.
Qed.

Lemma line_metrics_counts c st text p m :
  metric_of c (line_metrics cfg st text p m) = metric_of c m + occurs c (see st text p).
Proof.
  unfold line_metrics, see. pose proof (ScanAndRedact_spec st text {| sb := []; baseline := p_baseline p; callbacks := [] |}) as Hs.
  destruct (ScanAndRedact _ _ _) as [cleaned s|s|]; [| |done]; clear Hs;
    pose proof (count_strategies c (callbacks s) (add_work (len text) 0 0 m)) as Hc; set (m1 := foldl _ _ _) in *;
    destruct c as [| |k|k]; cbn [metric_of occurs add_work ProcessingDuration ErrorsTotal RedactionEventsTotal AuditFindingsTotal sn_scan] in *;
    unfold reported in *; cbn [sn_reports] in *; destruct (auditMode cfg); cbn in *; lia.
Qed.
(** Labels come from fixed lists, and no counter is ahead of the lines or of the reports. *)
Definition type_names : list gostring := [go "entropy"; go "regex"; go "luhn"; go "signature"; go "key"; go "unknown"].
Definition result_names : list gostring := [go "clean"; go "would_redact"].

Definition labelled (names : list gostring) (bound : Z) (vec : gmap gostring Z) : Prop :=
  map_Forall (fun k n => k ∈ names /\ 0 <= n <= bound) vec.

Record bounded (lines reports : Z) (m : Metrics) : Prop := {
  bd_lines : 0 <= ProcessingDuration m <= lines;
  bd_errors : 0 <= ErrorsTotal m <= lines;
  bd_mode : AuditMode m = if auditMode cfg then 1 else 0;
  bd_redactions : labelled type_names reports (RedactionEventsTotal m);
  bd_findings : labelled type_names reports (AuditFindingsTotal m);
  bd_audit_lines : labelled result_names lines (AuditLinesTotal m);
  bd_revision : ConfigRevisionInfo m = ∅ \/ exists rev, ConfigRevisionInfo m = {[rev := 1]};
}.

Lemma labelled_weaken names b b' vec : labelled names b vec -> b <= b' -> labelled names b' vec.
Proof. intros Hl Hb k n Hk%Hl. destruct Hk. split; [done|lia]. Qed.

Lemma labelled_add names b d k vec : labelled names b vec -> 0 <= b -> 0 <= d -> k ∈ names -> labelled names (b + d) (add_at k d vec).
Proof.
  intros Hl Hb Hd Hk. unfold add_at. intros k' n' [[<- <-]|[Hne Hk']]%lookup_insert_Some.
  - split; [done|]. destruct (vec !! k) as [n|] eqn:E; cbn; [apply Hl in E; lia|lia].
  - apply Hl in Hk' as [? ?]. split; [done|lia].
Qed.

Lemma boundStrategy_name r : boundStrategy r ∈ type_names.
Proof.
  unfold boundStrategy. destruct (in_words _ _) eqn:E; [|by apply (bool_decide_unpack (_ ∈ type_names))].
  apply in_words_In, list_elem_of_In in E. unfold type_names. set_solver.
Qed.

Lemma bounded_strategies lines reports rs m :
  0 <= reports -> bounded lines reports m -> bounded lines (reports + Z.of_nat (length rs)) (foldl (count_strategy cfg) m rs).
Proof.
  revert reports m. induction rs as [|r rs IH]; intros reports m H0 Hb; [by rewrite Z.add_0_r|]. cbn [foldl length].
  replace (reports + Z.of_nat (S (length rs))) with (reports + 1 + Z.of_nat (length rs)) by lia. apply IH; [lia|].
  destruct Hb as [H1 H2 H3 H4 H5 H6 H7]. unfold count_strategy. pose proof (boundStrategy_name r).
  destruct (auditMode cfg) eqn:Ea; split; cbn; rewrite ?Ea; try done;
    (by apply labelled_add; [..|lia|]) || (eapply labelled_weaken; [eassumption|lia]).
Qed.

Lemma bounded_line lines reports st text p m :
  0 <= lines -> 0 <= reports -> bounded lines reports m ->
  bounded (lines + 1) (reports + Z.of_nat (length (sn_reports (see st text p)))) (line_metrics cfg st text p m).
Proof.
  intros Hl Hr Hb. unfold line_metrics, see.
  pose proof (ScanAndRedact_spec st text {| sb := []; baseline := p_baseline p; callbacks := [] |}) as Hs.
  assert (bounded lines reports (add_work (len text) 0 0 m)) as Hb0 by (destruct Hb; split; cbn; try done; lia).
  destruct (ScanAndRedact _ _ _) as [cleaned s|s|]; [| |done]; cbn [sn_reports];
    apply (bounded_strategies _ _ (callbacks s)) in Hb0 as [H1 H2 H3 H4 H5 H6 H7]; [|done| |done].
  - destruct (auditMode cfg) eqn:Ea; split; cbn; rewrite ?Ea; try done; try lia;
      try (by apply labelled_add; [..|lia|by apply (bool_decide_unpack (_ ∈ result_names)); destruct (negb _)]);
      eapply labelled_weaken; [eassumption|lia].
  - split; cbn; try done; try lia. eapply labelled_weaken; [eassumption|lia].
Qed.
End counts.

