(* ===== verification/CleanerMain.v ===== *)
(** * The process of the sidecar

    [main] of [cmd/cleaner]: the start from the environment and the command line, the
    three sources of lines (standard input, a named pipe with one writer after the
    other, a file that is followed), the policy file's timer, the counters, signals and
    every way the process ends.

    The operating system is the sequence of [input]s.  Goroutines meet in the output
    writer, the published configuration and the metrics, whose operations are atomic, so
    a run is an interleaving of whole steps; in particular a signal comes between
    lines.  The tail library is represented by the lines it delivers; the HTTP server
    of the metrics is not modelled. *)

From Stdlib Require Import ZArith Lia Bool SpecFloat.
From stdpp Require Import base list option sets fin_maps gmap.
From S2P Require Import Prelude GoStrings Sha256 Float64 Regex KeyMatcher Config Entropy Tokens Adaptive Machine Engine.
From S2P Require Import Redaction Scanner ConfigSources ConfigProofs ScannerProofs Output Stats Cleaner PairProofs ReporterProofs Metrics.

(** ** The command line and the watched file *)

(** The loop over [os.Args]: the argument after the first [--watch-file] that has one. *)
Fixpoint watch_argument (args : list gostring) : gostring :=
  match args with
  | flag :: ((file :: _) as rest) => if str_eqb flag (go "--watch-file") then file else watch_argument rest
  | _ => []
  end.

Definition ModeNamedPipe : Z := 2 ^ 25.

(** [isNamedPipe], on the mode [os.Stat] returns. *)
Definition isNamedPipe (stat : option Z) : bool :=
  match stat with Some mode => negb (Z.land mode ModeNamedPipe =? 0) | None => false end.

(** ** The state *)

(** What the process waits for: the watched file; a writer of the pipe; the pipe's, the
    file's or standard input's next line.  [stopping] is set when the tail was told to
    stop. *)
Inductive phase :=
| Waiting
| Opening
| Piping
| Tailing (stopping : bool)
| Reading
| Exited (code : Z).

(** [c_reload] is the interval of the policy file's timer, 0 without one; [c_port] the
    port of the metrics server, [c_summaries] the summaries that were logged. *)
Record cleaner := {
  c_sidecar : sidecar;
  c_phase : phase;
  c_metrics : option Metrics;
  c_port : option gostring;
  c_reload : Z;
  c_summaries : list (option gostring);
}.

Definition set_phase (ph : phase) (c : cleaner) : cleaner := {|
  c_sidecar := c_sidecar c; c_phase := ph; c_metrics := c_metrics c; c_port := c_port c; c_reload := c_reload c;
  c_summaries := c_summaries c |}.

Definition set_sidecar (s : sidecar) (m : option Metrics) (c : cleaner) : cleaner := {|
  c_sidecar := s; c_phase := c_phase c; c_metrics := m; c_port := c_port c; c_reload := c_reload c; c_summaries := c_summaries c |}.

Definition set_out (o : outputWriter) (s : sidecar) : sidecar :=
  let p := s_process s in
  {| s_process := {| p_baseline := p_baseline p; p_out := o; p_stats := p_stats p |}; s_reloader := s_reloader s; s_active := s_active s |}.

(** What the operating system does next. *)
Inductive input :=
| InPoll (found : bool) (stat : option Z) (tails : bool)
| InOpen (opened : bool)
| InLine (text : gostring)
| InLineError
| InEnd (error : option bool)
| InCheck (now : Z) (fresh : gostring) (f : file_view)
| InFlush
| InTick
| InSignal.

Section main.
Context `{RT : GoRuntime} `{RegexpCompiler} `{GoDecoders} (Getenv : gostring -> gostring).
Notation cfg := (read_settings Getenv).

Definition metricsEnabled : bool := str_eqb (Getenv (go "PII_METRICS_ENABLED")) (go "true").

(** ** The start *)

(** [startPolicyReloader], after the package has published the environment's
    configuration (with the salt [fresh] if it sets none): the process, its metrics and the
    interval of the timer.  [check] runs once, at [now]. *)
Definition startPolicyReloader (fresh fresh' : gostring) (now : Z) (f : file_view) (flush : Z) (stats : bool) (m : option Metrics) :
    option (sidecar * option Metrics * Z) :=
  s ← sidecar_start Getenv fresh flush stats;
  if is_empty (Getenv (go "PII_CONFIG_FILE")) then Some (s, m, 0)
  else
    let interval := default defaultPolicyReloadInterval (parseReloadInterval (Getenv (go "PII_CONFIG_RELOAD_SECONDS"))) in
    s ← sidecar_start Getenv fresh' flush stats;
    s' ← sidecar_step Getenv s (EvCheck fresh' f);
    Some (s', check_metrics now f (s_reloader s) <$> m, if 0 <? interval then interval else 0).

(** [main] up to its source of lines; [None] is the panic on a weak salt. *)
Definition main_start (args : list gostring) (fresh fresh' : gostring) (now : Z) (f : file_view) : option cleaner :=
  let stats := 0 <? parseStatsInterval (Getenv (go "PII_STATS_LOG_INTERVAL")) in
  let m := if metricsEnabled then Some (start_metrics Getenv) else None in
  let port := if metricsEnabled then resolveMetricsPort (Getenv (go "PII_METRICS_PORT")) else None in
  let flush := (parseFlushInterval (Getenv (go "PII_OUTPUT_FLUSH_INTERVAL"))).1 in
  '(s, m, interval) ← startPolicyReloader fresh fresh' now f flush stats m;
  Some {| c_sidecar := s; c_phase := if is_empty (watch_argument (drop 1 args)) then Reading else Waiting;
          c_metrics := m; c_port := port; c_reload := interval; c_summaries := [] |}.

(** ** The steps *)

(** The summary, when counters are kept. *)
Definition log_summary (c : cleaner) : cleaner :=
  match p_stats (s_process (c_sidecar c)) with
  | Some st => {| c_sidecar := c_sidecar c; c_phase := c_phase c; c_metrics := c_metrics c; c_port := c_port c;
                  c_reload := c_reload c; c_summaries := c_summaries c ++ [summary (auditMode cfg) st] |}
  | None => c
  end.

(** [finalize] and the exit. *)
Definition finalize (code : Z) (c : cleaner) : cleaner :=
  let s := c_sidecar c in
  let c := log_summary (set_sidecar (set_out (Close (p_out (s_process s))) s) (c_metrics c) c) in
  {| c_sidecar := c_sidecar c; c_phase := Exited code; c_metrics := c_metrics c; c_port := None; c_reload := c_reload c;
     c_summaries := c_summaries c |}.

(** [processLine], from any source. *)
Definition take_line (text : gostring) (c : cleaner) : cleaner :=
  let s := c_sidecar c in
  set_sidecar {| s_process := processLine cfg (s_active s) text (s_process s); s_reloader := s_reloader s; s_active := s_active s |}
    (line_metrics cfg (s_active s) text (s_process s) <$> c_metrics c) c.

(** A stream that ended with an error: counted, and marked when a line was too long. *)
Definition stream_error (too_long : bool) (c : cleaner) : cleaner :=
  let s := c_sidecar c in
  set_sidecar (if too_long then set_out (writeMarker (p_out (s_process s)) (overflowMarker cfg)) s else s)
    (add_work 0 0 1 <$> c_metrics c) c.

Definition failed (error : option bool) (c : cleaner) : cleaner :=
  match error with Some too_long => stream_error too_long c | None => c end.

(** One step; [None] where the input does not come in this state. *)
Definition main_step (c : cleaner) (i : input) : option cleaner :=
  match c_phase c, i with
  | Exited _, _ => None
  | _, InCheck now fresh f =>
    if c_reload c =? 0 then None
    else
      match sidecar_step Getenv (c_sidecar c) (EvCheck fresh f) with
      | Some s => Some (set_sidecar s (check_metrics now f (s_reloader (c_sidecar c)) <$> c_metrics c) c)
      | None => Some (set_phase (Exited 2) c)
      end
  | _, InFlush => s ← sidecar_step Getenv (c_sidecar c) EvFlush; Some (set_sidecar s (c_metrics c) c)
  | _, InTick => if p_stats (s_process (c_sidecar c)) then Some (log_summary c) else None
  (* the wait for the watched file *)
  | Waiting, InPoll found stat tails =>
    if negb found then Some c
    else if isNamedPipe stat then Some (set_phase Opening c)
    else if tails then Some (set_phase (Tailing false) c)
    else Some (set_phase (Exited 1) c)
  | Waiting, InSignal => Some (finalize 0 c)
  (* readFIFO and streamPipeOnce *)
  | Opening, InOpen opened => Some (set_phase (if opened then Piping else Exited 1) c)
  | Piping, InLine text => Some (take_line text c)
  | Piping, InEnd error => Some (set_phase Opening (failed error c))
  | (Opening | Piping), InSignal => Some (finalize 0 c)
  (* the followed file *)
  | Tailing _, InLine text => Some (take_line text c)
  | Tailing _, InLineError => Some c
  | Tailing _, InSignal => Some (set_phase (Tailing true) c)
  | Tailing _, InEnd None => Some (finalize 0 c)
  (* standard input *)
  | Reading, InLine text => Some (take_line text c)
  | Reading, InEnd error => Some (finalize (if error then 1 else 0) (failed error c))
  | Reading, InSignal => Some (finalize 0 c)
  | _, _ => None
  end.

Fixpoint main_run (c : cleaner) (ins : list input) : option cleaner :=
  match ins with
  | [] => Some c
  | i :: ins => c' ← main_step c i; main_run c' ins
  end.

End main.

(** ** Runs of the process *)

Section main_runs.
Context `{RT : GoRuntime} `{RC : RegexpCompiler} `{GD : GoDecoders} (Getenv : gostring -> gostring).
Notation cfg := (read_settings Getenv).
Notation out_of c := (p_out (s_process (c_sidecar c))).

(** The lines that came in, and the streams that broke. *)
Definition input_lines (ins : list input) : list gostring := omap (fun i => match i with InLine t => Some t | _ => None end) ins.

Definition broken_streams (ins : list input) : Z :=
  Z.of_nat (length (omap (fun i => match i with InEnd e => e | _ => None end) ins)).

(** What goes out: a line for each line, and a marker where a stream broke at a line that was too long. *)
Fixpoint main_outs (ins : list input) (log : list line_log) : list gostring :=
  match ins, log with
  | InLine _ :: ins, l :: log => line_out cfg l :: main_outs ins log
  | InEnd (Some true) :: ins, log => overflowMarker cfg :: main_outs ins log
  | _ :: ins, log => main_outs ins log
  | [], _ => []
  end.

(** The log of a step or a run explains its output and its counters. *)
Record explains (salt : gostring) (c : cleaner) (ins : list input) (c' : cleaner) (log : list line_log) : Prop := {
  ex_inv : side_inv salt (c_sidecar c');
  ex_texts : l_text <$> log = input_lines ins;
  ex_scanned : Forall (fun l => exists st, active_ok salt st /\ line_scanned st l) log;
  ex_out : accepted (out_of c') = accepted (out_of c) ++ stream (main_outs ins log);
  ex_stats : stats_rel (log_counted cfg log) (s_process (c_sidecar c)) (s_process (c_sidecar c'));
  ex_metrics : option_Forall2 (fun m m' => ProcessingDuration m' + ErrorsTotal m' =
    ProcessingDuration m + ErrorsTotal m + Z.of_nat (length log) + broken_streams ins) (c_metrics c) (c_metrics c');
}.

Lemma stats_rel_same p p' : p_stats p = p_stats p' -> stats_rel (log_counted cfg []) p p'.
Proof. intros E. unfold stats_rel. rewrite <-E. destruct (p_stats p); constructor. apply log_counted_nil. Qed.

(** A step without a line: the output gets [extra], which is what the input stands for. *)
Lemma explains_quiet salt c i c' :
  side_inv salt (c_sidecar c') -> input_lines [i] = [] ->
  accepted (out_of c') = accepted (out_of c) ++ stream (main_outs [i] []) ->
  p_stats (s_process (c_sidecar c)) = p_stats (s_process (c_sidecar c')) ->
  option_Forall2 (fun m m' => ProcessingDuration m' + ErrorsTotal m' = ProcessingDuration m + ErrorsTotal m + broken_streams [i])
    (c_metrics c) (c_metrics c') ->
  explains salt c [i] c' [].
Proof.
  intros Hi Hl Ho Hs Hm. split; [done|done|constructor|done|by apply stats_rel_same|].
  destruct Hm; constructor. cbn [length]. lia.
Qed.

Lemma explains_app salt c i c1 ins c' log1 log :
  explains salt c [i] c1 log1 -> explains salt c1 ins c' log -> explains salt c (i :: ins) c' (log1 ++ log).
Proof.
  intros [H1 H2 H3 H4 H5 H6] [K1 K2 K3 K4 K5 K6]. split; [done| | | | |].
  - rewrite fmap_app, H2, K2. by destruct i.
  - by apply Forall_app.
  - rewrite K4, H4, <-app_assoc. f_equal. unfold stream. rewrite <-concat_app, <-fmap_app. do 2 f_equal.
    destruct i as [| |t| |[[]|]| | | |]; destruct log1 as [|l [|? ?]]; cbn in H2; try done.
  - eapply stats_rel_trans; [|exact H5|exact K5]. intros a b d Ha Hb. unfold log_counted in *. rewrite !fmap_app, !foldr_app.
    eapply counted_then; [exact Ha|exact Hb|rewrite length_app; lia|..].
    all: match goal with |- foldr Z.add _ ?l = _ => generalize l end; intros l; induction l as [|x l IH]; cbn; lia.
  - destruct H6 as [m m1 H6|]; inversion K6 as [? m2 K6'|]; subst; constructor.
    rewrite length_app. unfold broken_streams in *. destruct i as [| |t| |[]| | | |]; cbn in *; lia.
Qed.

Lemma take_line_explains salt t c : side_inv salt (c_sidecar c) -> exists log, explains salt c [InLine t] (take_line Getenv t c) log.
Proof.
  intros [Ho Hr Ha]. destruct (processLine_log cfg (s_active (c_sidecar c)) t (s_process (c_sidecar c)) Ho) as (l & Hl & Hs & Hacc & Hw & Hst).
  exists [l]. split; [by split| |constructor; [eauto|constructor]| | |].
  - cbn. by rewrite Hl.
  - cbn. rewrite Hacc. unfold stream. cbn. by rewrite app_nil_r.
  - eapply stats_rel_trans; [|exact Hst|apply stats_rel_same; reflexivity]. intros a b d H1 H2. rewrite <-Hl in H1. by eapply log_counted_cons.
  - destruct (c_metrics c) as [m|] eqn:Em; cbn; rewrite Em; constructor.
    pose proof (line_metrics_counts cfg Lines (s_active (c_sidecar c)) t (s_process (c_sidecar c)) m).
    pose proof (line_metrics_counts cfg Errors (s_active (c_sidecar c)) t (s_process (c_sidecar c)) m). cbn [metric_of occurs] in *.
    change (broken_streams [InLine t]) with 0. cbn [length]. destruct (sn_scan _); lia.
Qed.

Lemma set_out_inv salt o s : side_inv salt s -> out_wf o -> side_inv salt (set_out o s).
Proof. intros [? ? ?] ?. by split. Qed.

(** [finalize] settles the output and says so. *)
Lemma finalize_state code c :
  out_wf (out_of c) -> let c' := finalize Getenv code c in
  c_phase c' = Exited code /\ c_sidecar c' = set_out (Close (out_of c)) (c_sidecar c) /\ c_metrics c' = c_metrics c /\
  dst (out_of c') = accepted (out_of c) /\ accepted (out_of c') = accepted (out_of c) /\ out_wf (out_of c').
Proof.
  intros Ho. unfold finalize, log_summary. cbn.
  assert (dst (Close (out_of c)) = accepted (out_of c)) by (apply (flush_settles _ CallClose); auto).
  assert (accepted (Close (out_of c)) = accepted (out_of c)) by (change (Close ?o) with (out_step o CallClose); by rewrite accepted_step, app_nil_r).
  assert (out_wf (Close (out_of c))) by (by apply (out_wf_step _ CallClose)).
  by destruct (p_stats (s_process (c_sidecar c))).
Qed.

Lemma failed_explains salt error c : side_inv salt (c_sidecar c) -> explains salt c [InEnd error] (failed Getenv error c) [].
Proof.
  intros Hi. destruct error as [[]|]; apply explains_quiet; cbn; try done.
  - apply set_out_inv; [done|]. by apply writeMarker_accepted, Hi.
  - rewrite (proj1 (writeMarker_accepted _ _ (si_out _ _ Hi))). unfold stream. cbn. by rewrite app_nil_r.
  - destruct (c_metrics c); constructor. unfold broken_streams. cbn. lia.
  - unfold stream. cbn. by rewrite app_nil_r.
  - destruct (c_metrics c); constructor. unfold broken_streams. cbn. lia.
  - unfold stream. cbn. by rewrite app_nil_r.
  - destruct (c_metrics c); constructor. unfold broken_streams. cbn. lia.
Qed.

(** An input that stands for nothing written and nothing counted. *)
Definition quiet (i : input) : bool := match i with InLine _ | InEnd (Some _) => false | _ => true end.

Lemma explains_same salt c i : side_inv salt (c_sidecar c) -> quiet i = true -> explains salt c [i] c [].
Proof.
  intros Hi Hq. apply explains_quiet; [done|by destruct i as [| |t| |[]| | | |]| |done|].
  - unfold stream. destruct i as [| |t| |[]| | | |]; try done; cbn; by rewrite app_nil_r.
  - unfold broken_streams. destruct (c_metrics c); constructor. destruct i as [| |t| |[]| | | |]; try done; cbn; lia.
Qed.

Lemma explains_moved salt c ins c1 c2 log :
  explains salt c ins c1 log -> c_sidecar c2 = c_sidecar c1 -> c_metrics c2 = c_metrics c1 -> explains salt c ins c2 log.
Proof. intros [H1 H2 H3 H4 H5 H6] Es Em. by split; rewrite ?Es, ?Em. Qed.

Lemma explains_finalize salt c ins c1 log code : explains salt c ins c1 log -> explains salt c ins (finalize Getenv code c1) log.
Proof.
  intros [H1 H2 H3 H4 H5 H6]. destruct (finalize_state code c1 (si_out _ _ H1)) as (_ & Es & Em & _ & Ha & Hw).
  split; [rewrite Es in *; by apply set_out_inv|done|done|by rewrite Ha|by rewrite Es|by rewrite Em].
Qed.

Lemma log_summary_moved c : c_sidecar (log_summary Getenv c) = c_sidecar c /\ c_metrics (log_summary Getenv c) = c_metrics c /\
  c_phase (log_summary Getenv c) = c_phase c.
Proof. unfold log_summary. by destruct (p_stats _). Qed.

Lemma check_step_explains salt c now fresh f :
  process_salt Getenv salt -> side_inv salt (c_sidecar c) ->
  exists s, sidecar_step Getenv (c_sidecar c) (EvCheck fresh f) = Some s /\
    explains salt c [InCheck now fresh f] (set_sidecar s (check_metrics now f (s_reloader (c_sidecar c)) <$> c_metrics c) c) [].
Proof.
  intros Hp [Ho Hr Ha]. destruct (check_ok Getenv salt fresh f (s_reloader (c_sidecar c)) (s_active (c_sidecar c))) as (r' & a' & b & E & Hr' & Ha'); [done..|].
  cbn. rewrite E. eexists. split; [reflexivity|]. apply explains_quiet; [by split|done|unfold stream; cbn; by rewrite app_nil_r|done|].
  cbn. destruct (c_metrics c) as [m|]; constructor. unfold broken_streams. cbn. unfold check_metrics. repeat case_match; cbn; lia.
Qed.

Lemma flush_step_explains salt c s :
  side_inv salt (c_sidecar c) -> sidecar_step Getenv (c_sidecar c) EvFlush = Some s -> explains salt c [InFlush] (set_sidecar s (c_metrics c) c) [].
Proof.
  intros Hi [= <-]. apply explains_quiet; cbn; try done.
  - destruct Hi as [Ho ? ?]. split; [apply (out_wf_step _ CallFlush Ho)|done|done].
  - change (Flush ?o) with (out_step o CallFlush). rewrite accepted_step by apply Hi. by unfold stream.
  - destruct (c_metrics c); constructor. unfold broken_streams. cbn. lia.
Qed.

Lemma main_step_explains salt c i c' :
  process_salt Getenv salt -> side_inv salt (c_sidecar c) -> main_step Getenv c i = Some c' -> exists log, explains salt c [i] c' log.
Proof.
  intros Hp Hi. pose proof (explains_same salt c i Hi) as Hsame.
  destruct i as [found stat tails|opened|t| |error|now fresh f| | |].
  6: { destruct (check_step_explains salt c now fresh f Hp Hi) as (s & Es & Hex). unfold main_step. rewrite Es.
       destruct (c_phase c), (c_reload c =? 0); try done; intros [= <-]; by exists []. }
  6: { destruct (sidecar_step Getenv (c_sidecar c) EvFlush) as [s|] eqn:Es; [|by unfold main_step; rewrite Es; destruct (c_phase c)].
       pose proof (flush_step_explains salt c s Hi Es). unfold main_step. rewrite Es. destruct (c_phase c); try done; intros [= <-]; by exists []. }
  6: { assert (explains salt c [InTick] (log_summary Getenv c) []) by (eapply explains_moved; [by apply Hsame|apply log_summary_moved..]).
       unfold main_step. destruct (c_phase c), (p_stats (s_process (c_sidecar c))); try done; intros [= <-]; by exists []. }
  all: unfold main_step; destruct (c_phase c) as [| | |stopping| |code]; try done.
  all: try (intros [= <-]; first [by apply take_line_explains|exists []; by (apply explains_finalize, Hsame || (eapply explains_moved; [by apply Hsame|done..]) || apply Hsame)]).
  - destruct (negb found); [intros [= <-]; exists []; by apply Hsame|].
    destruct (isNamedPipe stat); [|destruct tails]; intros [= <-]; exists []; (eapply explains_moved; [by apply Hsame|done..]).
  - intros [= <-]. exists []. eapply explains_moved; [by apply failed_explains|done..].
  - destruct error; [done|]. intros [= <-]. exists []. by apply explains_finalize, Hsame.
  - intros [= <-]. exists []. by apply explains_finalize, failed_explains.
Qed.

Lemma main_run_explains salt c ins c' :
  process_salt Getenv salt -> side_inv salt (c_sidecar c) -> main_run Getenv c ins = Some c' -> exists log, explains salt c ins c' log.
Proof.
  intros Hp. revert c. induction ins as [|i ins IH]; intros c Hi; cbn [main_run].
  - intros [= <-]. exists []. split; [done|done|constructor|unfold stream; cbn; by rewrite app_nil_r|by apply stats_rel_same|].
    destruct (c_metrics c); constructor. unfold broken_streams. cbn. lia.
  - destruct (main_step Getenv c i) as [c1|] eqn:E; [|done]. cbn. intros Hr.
    destruct (main_step_explains salt c i c1 Hp Hi E) as [log1 H1]. destruct (IH c1 (ex_inv _ _ _ _ _ H1) Hr) as [log H2].
    exists (log1 ++ log). by eapply explains_app.
Qed.

(** ** The start and the ends *)

(** The ends that do not pass through [finalize]: a pipe that cannot be opened, a file that cannot be followed. *)
Definition fatal (i : input) : bool :=
  match i with
  | InOpen opened => negb opened
  | InPoll found stat tails => found && negb (isNamedPipe stat) && negb tails
  | _ => false
  end.

Definition exit_cause (i : input) (code : Z) : Prop :=
  (i = InSignal \/ i = InEnd None) /\ code = 0 \/ (exists too_long, i = InEnd (Some too_long)) /\ code = 1 \/ fatal i = true /\ code = 1.

(** Nothing is held back, and the last summary is of the last counters. *)
Definition settled_end (c : cleaner) : Prop :=
  dst (out_of c) = accepted (out_of c) /\
  forall st, p_stats (s_process (c_sidecar c)) = Some st -> last (c_summaries c) = Some (summary (auditMode cfg) st).

Lemma finalize_settled code c : out_wf (out_of c) -> settled_end (finalize Getenv code c).
Proof.
  intros Ho. destruct (finalize_state code c Ho) as (_ & _ & _ & Hd & Ha & _). split; [by rewrite Hd, Ha|].
  unfold finalize, log_summary. cbn. destruct (p_stats (s_process (c_sidecar c))) as [s0|] eqn:E; cbn; rewrite E; [|done].
  intros st [= <-]. by rewrite last_snoc.
Qed.

Lemma main_step_exit salt c i c' code :
  process_salt Getenv salt -> side_inv salt (c_sidecar c) -> main_step Getenv c i = Some c' -> c_phase c' = Exited code ->
  exit_cause i code /\ (fatal i = false -> settled_end c') /\
  (c_phase c = Opening \/ c_phase c = Piping -> i = InSignal \/ i = InOpen false).
Proof.
  intros Hp Hi. pose proof (si_out _ _ Hi) as Ho. destruct i as [found stat tails|opened|t| |error|now fresh f| | |].
  6: { destruct (check_step_explains salt c now fresh f Hp Hi) as (s & Es & _). unfold main_step. rewrite Es.
       destruct (c_phase c) eqn:Ec, (c_reload c =? 0); try done; intros [= <-]; cbn; by rewrite Ec. }
  6: { unfold main_step. cbn [sidecar_step]. destruct (c_phase c) eqn:Ec; try done; intros [= <-]; cbn; by rewrite Ec. }
  6: { unfold main_step. destruct (log_summary_moved c) as (_ & _ & Ecp).
       destruct (c_phase c) eqn:Ec, (p_stats (s_process (c_sidecar c))); try done; intros [= <-]; by rewrite Ecp. }
  all: unfold main_step; destruct (c_phase c) as [| | |stopping| |code0] eqn:Ec; try done.
  all: unfold exit_cause.
  all: try (intros [= <-]; cbn; by rewrite ?Ec).
  - destruct found; [|cbn; intros [= <-]; by rewrite Ec]. cbn [negb fatal andb].
    destruct (isNamedPipe stat); [by intros [= <-]|]. destruct tails; [by intros [= <-]|]. intros [= <-] [= <-]. naive_solver.
  - destruct opened; intros [= <-]; [done|]. intros [= <-]. naive_solver.
  - destruct error; [done|]. intros [= <-] [= <-]. split; [naive_solver|]. split; [intros _; by apply finalize_settled|naive_solver].
  - intros [= <-] Hc. pose proof (ex_inv _ _ _ _ _ (failed_explains salt error c Hi)) as Hf.
    destruct error as [b|]; injection Hc as <-; (split; [naive_solver|]); (split; [intros _; apply finalize_settled, Hf|naive_solver]).
  - intros [= <-] [= <-]. split; [naive_solver|]. split; [intros _; by apply finalize_settled|naive_solver].
  - intros [= <-] [= <-]. split; [naive_solver|]. split; [intros _; by apply finalize_settled|naive_solver].
  - intros [= <-] [= <-]. split; [naive_solver|]. split; [intros _; by apply finalize_settled|naive_solver].
  - intros [= <-] [= <-]. split; [naive_solver|]. split; [intros _; by apply finalize_settled|naive_solver].
Qed.

(** A signal ends the process, a followed file after the rest of its lines. *)
Lemma signal_ends c : (forall code, c_phase c <> Exited code) ->
  exists c1, main_step Getenv c InSignal = Some c1 /\
    (c_phase c1 = Exited 0 \/ exists c2, main_step Getenv c1 (InEnd None) = Some c2 /\ c_phase c2 = Exited 0).
Proof.
  intros Hne. unfold main_step at 1. destruct (c_phase c) as [| | |stopping| |code] eqn:Ec; [..|by destruct (Hne code)].
  all: eexists; split; [reflexivity|]; try (by left). right. eexists. split; reflexivity.
Qed.

Lemma main_start_inv args fresh fresh' now f c :
  fresh <> [] -> fresh' <> [] -> main_start Getenv args fresh fresh' now f = Some c ->
  exists salt, process_salt Getenv salt /\ side_inv salt (c_sidecar c) /\ accepted (out_of c) = [] /\
    (forall st, p_stats (s_process (c_sidecar c)) = Some st -> st = newStatsCollector) /\
    (forall m, c_metrics c = Some m -> ProcessingDuration m + ErrorsTotal m = 0) /\ (forall code, c_phase c <> Exited code).
Proof.
  intros Hf Hf'. unfold main_start, startPolicyReloader. set (stats := 0 <? parseStatsInterval _). set (flush := fst (parseFlushInterval _)).
  assert (forall m, (if metricsEnabled Getenv then Some (start_metrics Getenv) else None) = Some m -> ProcessingDuration m + ErrorsTotal m = 0) as Hm.
  { destruct (metricsEnabled Getenv); [|done]. intros m [= <-]. unfold start_metrics. by destruct (auditMode _). }
  assert (forall code, (if is_empty (watch_argument (drop 1 args)) then Reading else Waiting) <> Exited code) as Hph by (by destruct (is_empty _)).
  destruct (sidecar_start Getenv fresh flush stats) as [s|] eqn:Es; [|done]. cbn [mbind option_bind].
  destruct (sidecar_start_inv Getenv fresh flush stats s Hf Es) as (salt & Hp & Hi & Ha & Hst).
  assert (forall (st : statsCollector), (if stats then Some newStatsCollector else None) = Some st -> st = newStatsCollector) as Hnew by (destruct stats; congruence).
  destruct (is_empty (Getenv _)).
  - cbn. intros [= <-]. exists salt. cbn. rewrite Hst. by split_and!.
  - clear s Es salt Hp Hi Ha Hst. destruct (sidecar_start Getenv fresh' flush stats) as [s|] eqn:Es; [|done]. cbn [mbind option_bind].
    destruct (sidecar_start_inv Getenv fresh' flush stats s Hf' Es) as (salt & Hp & [Ho Hr Hact] & Ha & Hst). cbn [sidecar_step].
    destruct (check_ok Getenv salt fresh' f (s_reloader s) (s_active s)) as (r' & a' & b & E & Hr' & Ha'); [done..|]. rewrite E. cbn.
    intros [= <-]. exists salt. cbn. rewrite Hst. split_and!; try done; try apply Hp.
    intros m. destruct (if metricsEnabled Getenv then _ else _) as [m0|]; [|done]. cbn. intros [= <-]. specialize (Hm m0 eq_refl).
    unfold check_metrics. by repeat case_match.
Qed.

Lemma main_run_app c l1 l2 : main_run Getenv c (l1 ++ l2) = c1 ← main_run Getenv c l1; main_run Getenv c1 l2.
Proof. revert c. induction l1 as [|i l1 IH]; intros c; [done|]. cbn. destruct (main_step Getenv c i); cbn; [apply IH|done]. Qed.

(** A process that ended: its last step. *)
Lemma main_run_last salt c ins c' code :
  process_salt Getenv salt -> side_inv salt (c_sidecar c) -> main_run Getenv c ins = Some c' -> c_phase c' = Exited code ->
  (forall code, c_phase c <> Exited code) ->
  exists before i c1, ins = before ++ [i] /\ main_run Getenv c before = Some c1 /\ exit_cause i code /\ (fatal i = false -> settled_end c') /\
    (c_phase c1 = Opening \/ c_phase c1 = Piping -> i = InSignal \/ i = InOpen false).
Proof.
  intros Hp Hi Hr Hc Hne. destruct ins as [|i before _] using rev_ind; [injection Hr as <-; by destruct (Hne code)|].
  rewrite main_run_app in Hr. destruct (main_run Getenv c before) as [c1|] eqn:Eb; [|done]. cbn in Hr.
  destruct (main_step Getenv c1 i) as [c2|] eqn:Es; [|done]. injection Hr as ->.
  destruct (main_run_explains salt c before c1 Hp Hi Eb) as [log Hex].
  exists before, i, c1. split; [done|]. split; [done|]. eapply main_step_exit; [exact Hp|apply Hex|exact Es|exact Hc].
Qed.
End main_runs.

(** ** What the metrics of a run say *)

(** What bears on the counters: a line, as the process saw it, and a stream that broke. *)
Inductive happening := SawLine (l : seen_line) | SawBreak.

Definition lines_in (hs : list happening) : list seen_line :=
  omap (fun h => match h with SawLine l => Some l | SawBreak => None end) hs.

(** The lines on which the scan panicked. *)
Definition panicked (hs : list happening) : Z := Z.of_nat (length (filter (fun l => sn_scan l = None) (lines_in hs))).

Definition reports_in (h : happening) : Z := match h with SawLine l => Z.of_nat (length (sn_reports l)) | SawBreak => 0 end.

Definition all_reports (hs : list happening) : Z := zsum (reports_in <$> hs).

Section metered.
Context `{RT : GoRuntime} `{RC : RegexpCompiler} `{GD : GoDecoders} (Getenv : gostring -> gostring).
Notation cfg := (read_settings Getenv).

(** How often a counter's event happened. *)
Definition happens (k : counter) (h : happening) : Z :=
  match h with
  | SawLine l => occurs cfg k l
  | SawBreak => match k with Errors => 1 | _ => 0 end
  end.

Definition occurred (k : counter) (hs : list happening) : Z := zsum (happens k <$> hs).

Lemma occurred_app k l1 l2 : occurred k (l1 ++ l2) = occurred k l1 + occurred k l2.
Proof. unfold occurred. by rewrite fmap_app, zsum_app. Qed.

Lemma occurred_nonneg k hs : 0 <= occurred k hs.
Proof.
  apply zsum_nonneg, Forall_fmap, Forall_true. intros [l|]; cbn; [|destruct k; lia].
  unfold occurs, reported. destruct k; repeat case_match; lia.
Qed.

Lemma occurred_prefix k l1 l2 : l1 `prefix_of` l2 -> occurred k l1 <= occurred k l2.
Proof. intros [l ->]. rewrite occurred_app. pose proof (occurred_nonneg k l). lia. Qed.

(** Each line is scanned or an error, and so is each stream that broke. *)
Lemma lines_and_errors hs :
  occurred Lines hs + panicked hs = Z.of_nat (length (lines_in hs)) /\
  occurred Errors hs = panicked hs + Z.of_nat (length hs - length (lines_in hs)) /\ (length (lines_in hs) <= length hs)%nat.
Proof.
  unfold occurred, panicked, zsum. induction hs as [|[l|] hs (IH1 & IH2 & IH3)]; [done|..].
  - change (lines_in (SawLine l :: hs)) with (l :: lines_in hs). rewrite filter_cons. cbn [fmap list_fmap foldr happens occurs length]. destruct (sn_scan l) eqn:E; [rewrite decide_False by congruence|rewrite decide_True by done]; cbn [length]; lia.
  - change (lines_in (SawBreak :: hs)) with (lines_in hs). cbn [fmap list_fmap foldr happens length]. lia.
Qed.

(** The lines of a run, each under the configuration and baseline of its moment, and the streams that broke. *)
Definition step_seen (c : cleaner) (i : input) : list happening :=
  match i with
  | InLine text => [SawLine (see (s_active (c_sidecar c)) text (s_process (c_sidecar c)))]
  | InEnd (Some _) => [SawBreak]
  | _ => []
  end.

Fixpoint main_seen (c : cleaner) (ins : list input) : list happening :=
  match ins with
  | [] => []
  | i :: ins => step_seen c i ++ match main_step Getenv c i with Some c' => main_seen c' ins | None => [] end
  end.

Lemma see_text st text p : sn_text (see st text p) = text.
Proof. unfold see. by destruct (ScanAndRedact _ _ _). Qed.

(** They are the lines that came in and the streams that broke. *)
Lemma main_seen_inputs c ins c' :
  main_run Getenv c ins = Some c' ->
  sn_text <$> lines_in (main_seen c ins) = input_lines ins /\
  Z.of_nat (length (main_seen c ins) - length (lines_in (main_seen c ins))) = broken_streams ins.
Proof.
  revert c. induction ins as [|i ins IH]; intros c; cbn [main_run main_seen]; [by intros [= <-]|].
  destruct (main_step Getenv c i) as [c1|]; [|done]. cbn [mbind option_bind]. intros Hr. destruct (IH c1 Hr) as [H1 H2].
  pose proof (lines_and_errors (main_seen c1 ins)) as (_ & _ & Hle). unfold broken_streams in *.
  set (hs := main_seen c1 ins) in *. destruct i as [| |t| |[b|]| | | |]; cbn [step_seen app]; try (by split).
  - change (lines_in (SawLine ?l :: hs)) with (l :: lines_in hs). cbn [fmap list_fmap length]. rewrite see_text, H1. split; [done|exact H2].
  - change (lines_in (SawBreak :: hs)) with (lines_in hs). split; [done|]. cbn [length omap list_omap] in *. lia.
Qed.

(** The metrics of a process that has seen [hs]. *)
Record metered (c : cleaner) (hs : list happening) (m : Metrics) : Prop := {
  mt_counts : forall k, metric_of k m = occurred k hs;
  mt_bounded : bounded cfg (Z.of_nat (length hs)) (all_reports hs) m;
  mt_revision : ConfigRevisionInfo m = ∅ \/ ConfigRevisionInfo m = {[revision (s_reloader (c_sidecar c)) := 1]};
}.

Lemma all_reports_nonneg hs : 0 <= all_reports hs.
Proof. apply zsum_nonneg, Forall_fmap, Forall_true. intros [l|]; cbn; lia. Qed.

Lemma metered_moved c c' hs m : metered c hs m -> s_reloader (c_sidecar c') = s_reloader (c_sidecar c) -> metered c' hs m.
Proof. intros [H1 H2 H3] E. split; [done|done|by rewrite E]. Qed.

Lemma line_metrics_revision st text p m : ConfigRevisionInfo (line_metrics cfg st text p m) = ConfigRevisionInfo m.
Proof.
  assert (forall rs m, ConfigRevisionInfo (foldl (count_strategy cfg) m rs) = ConfigRevisionInfo m) as Hf.
  { intros rs. induction rs as [|r rs IH]; intros m1; [done|]. cbn [foldl]. rewrite IH. unfold count_strategy. by destruct (auditMode cfg). }
  unfold line_metrics. destruct (ScanAndRedact _ _ _); [destruct (auditMode cfg)| |]; cbn; by rewrite ?Hf.
Qed.

Lemma metered_line c hs m text :
  metered c hs m ->
  metered (take_line Getenv text c) (hs ++ step_seen c (InLine text))
    (line_metrics cfg (s_active (c_sidecar c)) text (s_process (c_sidecar c)) m).
Proof.
  intros [H1 H2 H3]. split.
  - intros k. rewrite line_metrics_counts, H1, occurred_app. unfold occurred at 3. cbn. unfold zsum. cbn. lia.
  - apply (bounded_line cfg _ _ (s_active (c_sidecar c)) text (s_process (c_sidecar c))) in H2; [|lia|apply all_reports_nonneg].
    unfold all_reports in *. rewrite fmap_app, zsum_app, length_app. cbn [step_seen fmap list_fmap reports_in length]. unfold zsum at 2. cbn [foldr].
    by rewrite Nat2Z.inj_add, Z.add_0_r.
  - by rewrite line_metrics_revision.
Qed.

Lemma metered_break c hs m : metered c hs m -> metered c (hs ++ [SawBreak]) (add_work 0 0 1 m).
Proof.
  intros [H1 [B1 B2 B3 B4 B5 B6 B7] H3]. split; [| |done].
  - intros k. rewrite occurred_app, <-H1. destruct k; cbn; unfold occurred, zsum; cbn; lia.
  - unfold all_reports. rewrite fmap_app, zsum_app, length_app. change (zsum (reports_in <$> [SawBreak])) with 0. rewrite Z.add_0_r. cbn [length].
    rewrite Nat2Z.inj_add. split; cbn; try done; try lia. eapply labelled_weaken; [exact B6|lia].
Qed.

Lemma check_metrics_counts now f r m k : metric_of k (check_metrics now f r m) = metric_of k m.
Proof. unfold check_metrics. by repeat case_match; destruct k. Qed.

Lemma check_metrics_bounded now f r m lines reports : bounded cfg lines reports m -> bounded cfg lines reports (check_metrics now f r m).
Proof.
  intros Hb. unfold check_metrics. destruct (fv_stat f); [|done]. destruct (bool_decide _); [done|].
  destruct (LoadPolicyFile _) as [|[? rev]]; destruct Hb as [H1 H2 H3 H4 H5 H6 H7]; split; try assumption. right. by eexists.
Qed.

(** The revision that is served is the reloader's. *)
Lemma check_metrics_revision now fresh f s s' m :
  sidecar_step Getenv s (EvCheck fresh f) = Some s' ->
  ConfigRevisionInfo m = ∅ \/ ConfigRevisionInfo m = {[revision (s_reloader s) := 1]} ->
  let m' := check_metrics now f (s_reloader s) m in
  ConfigRevisionInfo m' = ∅ \/ ConfigRevisionInfo m' = {[revision (s_reloader s') := 1]}.
Proof.
  cbn. intros Es Hrev. unfold check in Es. unfold check_metrics. destruct (fv_stat f) as [stat|]; [|by injection Es as <-].
  cbn in Es. destruct (bool_decide _); [by injection Es as <-|]. destruct (LoadPolicyFile _) as [err|[c rev]]; [by injection Es as <-|].
  cbn in Es. destruct (ApplyEnvOverrides _ _ _) as [c'|]; [|done]. injection Es as <-. cbn. by right.
Qed.

Lemma metered_check c hs m now fresh f s :
  metered c hs m -> sidecar_step Getenv (c_sidecar c) (EvCheck fresh f) = Some s ->
  metered (set_sidecar s (check_metrics now f (s_reloader (c_sidecar c)) <$> c_metrics c) c) hs (check_metrics now f (s_reloader (c_sidecar c)) m).
Proof.
  intros [H1 H2 H3] Es. split; [intros k; by rewrite check_metrics_counts|by apply check_metrics_bounded|]. by eapply check_metrics_revision.
Qed.

(** *** A step *)

Definition stays (c c' : cleaner) : Prop := c_metrics c' = c_metrics c /\ s_reloader (c_sidecar c') = s_reloader (c_sidecar c).

Lemma stays_metered c c' hs m : stays c c' -> c_metrics c = Some m -> metered c hs m -> exists m', c_metrics c' = Some m' /\ metered c' (hs ++ []) m'.
Proof. intros [Em Er] Hm Hc. exists m. rewrite app_nil_r. split; [congruence|]. by eapply metered_moved. Qed.

Lemma finalize_stays code c : stays c (finalize Getenv code c).
Proof. unfold finalize, log_summary. cbn. by destruct (p_stats _). Qed.

Lemma failed_metered error c hs m :
  c_metrics c = Some m -> metered c hs m ->
  exists m', c_metrics (failed Getenv error c) = Some m' /\ metered (failed Getenv error c) (hs ++ step_seen c (InEnd error)) m'.
Proof.
  intros Hm Hc. destruct error as [b|]; [|by apply (stays_metered c c hs m)].
  exists (add_work 0 0 1 m). split; [cbn; by rewrite Hm|]. eapply metered_moved; [by apply metered_break|]. by destruct b.
Qed.

Lemma metered_after c c' hs m : stays c c' -> c_metrics c = Some m /\ metered c hs m -> exists m', c_metrics c' = Some m' /\ metered c' hs m'.
Proof. intros [Em Er] [Hm Hc]. exists m. split; [congruence|]. by eapply metered_moved. Qed.

Lemma main_step_metered c i c' hs m :
  main_step Getenv c i = Some c' -> c_metrics c = Some m -> metered c hs m ->
  exists m', c_metrics c' = Some m' /\ metered c' (hs ++ step_seen c i) m'.
Proof.
  intros Hs Hm Hc. destruct i as [found stat tails|opened|t| |error|now fresh f| | |].
  3: { assert (c' = take_line Getenv t c) as -> by (unfold main_step in Hs; destruct (c_phase c); congruence).
       eexists. split; [cbn; by rewrite Hm|by apply metered_line]. }
  4: { destruct (failed_metered error c hs m Hm Hc) as (m1 & Hm1 & Hc1).
       unfold main_step in Hs. destruct (c_phase c) as [| | |stopping| |code]; try done.
       - injection Hs as <-. by eapply metered_after; [|split; [exact Hm1|exact Hc1]].
       - destruct error; [done|]. injection Hs as <-. by eapply metered_after; [apply finalize_stays|split; [exact Hm1|exact Hc1]].
       - injection Hs as <-. by eapply metered_after; [apply finalize_stays|split; [exact Hm1|exact Hc1]]. }
  4: { cbn [step_seen]. unfold main_step in Hs.
       destruct (c_phase c); try done; (destruct (c_reload c =? 0); [done|]);
       (destruct (sidecar_step Getenv (c_sidecar c) _) as [s|] eqn:Es; injection Hs as <-; [|by apply (stays_metered c _ hs m)]);
       (rewrite app_nil_r; eexists; split; [cbn; rewrite Hm; reflexivity|]; by apply metered_check with (fresh := fresh)). }
  all: apply (stays_metered c _ hs m); [|done..]; unfold main_step in Hs.
  - destruct (c_phase c); try done. repeat case_match; by simplify_eq.
  - destruct (c_phase c); try done. by simplify_eq.
  - destruct (c_phase c); try done. by simplify_eq.
  - cbn [sidecar_step mbind option_bind] in Hs. destruct (c_phase c); simplify_eq; done.
  - pose proof (log_summary_moved Getenv c) as (E1 & E2 & _).
    destruct (c_phase c), (p_stats (s_process (c_sidecar c))); simplify_eq; (split; [done|by rewrite E1]).
  - destruct (c_phase c); simplify_eq; try apply finalize_stays; done.
Qed.

Lemma main_run_metered c ins c' hs m :
  main_run Getenv c ins = Some c' -> c_metrics c = Some m -> metered c hs m ->
  exists m', c_metrics c' = Some m' /\ metered c' (hs ++ main_seen c ins) m'.
Proof.
  revert c hs m. induction ins as [|i ins IH]; intros c hs m; cbn [main_run main_seen].
  - intros [= <-] Hm Hc. exists m. by rewrite app_nil_r.
  - destruct (main_step Getenv c i) as [c1|] eqn:Es; [|done]. cbn [mbind option_bind]. intros Hr Hm Hc.
    destruct (main_step_metered c i c1 hs m Es Hm Hc) as (m1 & Hm1 & Hc1). rewrite app_assoc. by eapply IH.
Qed.

(** *** The start *)

Lemma start_metered s : metered s [] (start_metrics Getenv).
Proof.
  split.
  - intros k. unfold start_metrics. destruct (auditMode cfg), k; cbn; by rewrite ?lookup_empty.
  - unfold start_metrics. destruct (auditMode cfg) eqn:Ea; split; cbn [StartAudit newMetrics ProcessingDuration ErrorsTotal AuditMode
      RedactionEventsTotal AuditFindingsTotal AuditLinesTotal ConfigRevisionInfo length]; rewrite ?Ea; try done; try lia; try (by left).
    change (Z.of_nat 0) with (0 + 0 + 0). apply labelled_add; [apply labelled_add; [done|lia|lia|]|lia|lia|]; by apply (bool_decide_unpack (_ ∈ result_names)).
  - left. unfold start_metrics. by destruct (auditMode cfg).
Qed.

Lemma main_start_metered args fresh fresh' now f c :
  metricsEnabled Getenv = true -> main_start Getenv args fresh fresh' now f = Some c -> exists m, c_metrics c = Some m /\ metered c [] m.
Proof.
  intros Hm. unfold main_start, startPolicyReloader. rewrite Hm. set (stats := 0 <? parseStatsInterval _). set (flush := fst (parseFlushInterval _)).
  destruct (sidecar_start Getenv fresh flush stats) as [s|]; [|done]. cbn [mbind option_bind]. destruct (is_empty (Getenv _)).
  - cbn. intros [= <-]. eexists. split; [reflexivity|apply start_metered].
  - destruct (sidecar_start Getenv fresh' flush stats) as [s1|]; [|done]. cbn [mbind option_bind].
    destruct (sidecar_step Getenv s1 (EvCheck fresh' f)) as [s2|] eqn:Es; [|done]. cbn. intros [= <-]. eexists. split; [reflexivity|].
    match goal with |- metered ?c _ _ => destruct (start_metered c) as [H1 H2 H3] end.
    split; [intros k; by rewrite check_metrics_counts|by apply check_metrics_bounded|].
    cbn. eapply check_metrics_revision; [exact Es|]. left. unfold start_metrics. by destruct (auditMode cfg).
Qed.

Lemma bounded_ok lines reports m :
  bounded cfg lines reports m -> lines < 2 ^ 53 -> reports < 2 ^ 53 ->
  (forall rev n, ConfigRevisionInfo m !! rev = Some n -> Forall (fun c => c < 128) rev /\ len rev <= 2 ^ 18) -> metrics_ok m.
Proof.
  intros [H1 H2 H3 H4 H5 H6 H7] Hl Hr Hrev.
  assert (forall names b vec, Forall (fun k => Forall (fun c => c < 128) k /\ len k <= 2 ^ 18) names -> b < 2 ^ 53 -> labelled names b vec -> vec_ok vec) as Hv.
  { intros names b vec Hn Hb Hvec k n Hk%Hvec. destruct Hk as [Hk ?]. rewrite Forall_forall in Hn. destruct (Hn k Hk). split_and!; try done; lia. }
  assert (Forall (fun k => Forall (fun c => c < 128) k /\ len k <= 2 ^ 18) (type_names ++ result_names)) as [Ht Hres]%Forall_app.
  { repeat constructor; vm_compute; congruence. }
  split; [lia|lia| |by apply (Hv type_names reports)|by apply (Hv result_names lines)|by apply (Hv type_names reports)| |done].
  - destruct (auditMode cfg); auto.
  - intros rev n Hn. destruct (Hrev rev n Hn). split_and!; try done.
    all: destruct H7 as [E|[rev' E]]; rewrite E in Hn; [by rewrite lookup_empty in Hn|apply lookup_singleton_Some in Hn as [_ <-]; lia].
Qed.
End metered.
