(* ===== verification/PanelProofs.v ===== *)
(** * From a cluster's counters to the panel

    The reports of an operator, received by the rule server one by one, among other requests: the rows they leave, and
    the summary [Clusters] makes of them. *)

From Stdlib Require Import ZArith Lia Bool.
From stdpp Require Import base list option sets fin_maps gmap.
From S2P Require Import Prelude GoStrings Sha256 Float64 Config Tokens JsonString Engine ConfigSources RulesStore.
From S2P Require Import RulesServer StoredTime Reports RulesPanel OperatorStats Accounts Auth RulesApi.
From S2P Require Import RulesStoreProofs AccountsProofs ReporterProofs.

(** The rows of a set, a token, a cluster name and a policy. *)
Definition mine (set : nat) (k : cluster_key) (t : list Report) : list Report :=
  filter (fun r => rp_set r = set /\ row_key (r, []) = k) t.

(** The rows not older than a time, to the second. *)
Definition newer (t0 : Z) (rows : list Report) : Prop := Forall (fun r => exists t, rp_received r = FormatTime t /\ t0 <= t) rows.

(** Reports received in a row, with the rows they left; what happens in between leaves the rows alone. *)
Inductive delivered (set : nat) (k : cluster_key) : Tables -> list (Z * statsReport) -> Tables -> Prop :=
| delivered_nil a : delivered set k a [] a
| delivered_other a a' ds a'' :
    mine set k (reports a') = mine set k (reports a) -> delivered set k a' ds a'' -> delivered set k a ds a''
| delivered_report a Allow now req acc r a' ds a'' :
    tokenAccess Allow KindReport req (base a) = inr acc -> ID (acc_set acc) = set -> acc_id acc = k.1.1 ->
    receiveReport Allow now req (inr (as_body r)) a = ({| status := 204; body := NoBody |}, a') ->
    delivered set k a' ds a'' -> delivered set k a ((now, r) :: ds) a''.

(** The row of a report. *)
Definition row_of (set : nat) (tok : nat) (d : Z * statsReport) : Report :=
  let '(now, r) := d in
  {| rp_set := set; rp_token := tok; rp_cluster := sr_Cluster r; rp_policy := sr_Policy r; rp_received := FormatTime now;
     rp_from := sr_From r; rp_to := sr_To r; rp_mode := sr_Mode r; rp_pods_reporting := sr_PodsReporting r;
     rp_pods_total := sr_PodsTotal r; rp_revisions := sr_Revisions r;
     rp_remote_revision := default [] (ref_Revision <$> sr_Remote r); rp_remote_publication := default 0 (ref_Publication <$> sr_Remote r);
     rp_remote_signed_by := default [] (ref_SignedBy <$> sr_Remote r); rp_lines := sr_Lines r; rp_errors := sr_Errors r;
     rp_redactions := sr_Redactions r; rp_audit_findings := sr_AuditFindings r |}.

Lemma report_of_row now acc r : report_of now acc (as_body r) = row_of (ID (acc_set acc)) (acc_id acc) (now, r).
Proof. unfold report_of, row_of. cbn. by destruct (sr_Remote r). Qed.

Lemma mine_app set k t u : mine set k (t ++ u) = mine set k t ++ mine set k u.
Proof. apply filter_app. Qed.

(** The retention keeps what is newer than its cutoff. *)
Lemma mine_kept set k cutoff now t :
  newer cutoff (mine set k t) -> now + second_ns <= cutoff + ReportRetention ->
  mine set k (filter (fun x => Nat.eqb (rp_set x) set && stamp_ltb (rp_received x) (FormatTime (now - ReportRetention)) = false) t) = mine set k t.
Proof.
  intros Hn Hc. unfold mine, newer in *. induction t as [|r t IH]; [done|]. rewrite !(filter_cons (fun x => _ /\ _)) in *.
  rewrite (filter_cons (fun x => _ = false)). destruct (decide (rp_set r = set /\ row_key (r, []) = k)) as [Hr|Hr].
  - apply Forall_cons in Hn as [(t' & Ht & Hle) Hn]. rewrite decide_True.
    + rewrite filter_cons, decide_True by done. f_equal. by apply IH.
    + rewrite Ht. destruct (stamp_ltb _ _) eqn:E; [|by rewrite andb_false_r]. apply stamp_ltb_lt in E. lia.
  - case_decide; [|by apply IH]. rewrite filter_cons, decide_False by done. by apply IH.
Qed.

Lemma received_rows Allow now req acc r a a' set k cutoff :
  tokenAccess Allow KindReport req (base a) = inr acc -> ID (acc_set acc) = set -> acc_id acc = k.1.1 ->
  receiveReport Allow now req (inr (as_body r)) a = ({| status := 204; body := NoBody |}, a') ->
  sr_Cluster r = k.1.2 -> sr_Policy r = k.2 -> newer cutoff (mine set k (reports a)) -> cutoff <= now -> now + second_ns <= cutoff + ReportRetention ->
  mine set k (reports a') = mine set k (reports a) ++ [row_of set k.1.1 (now, r)] /\ newer cutoff (mine set k (reports a')).
Proof.
  intros Ha Hs Hk Hr Hc Hp Hn Hle Hret. unfold receiveReport, failure in Hr. rewrite Ha in Hr. destruct (negb (checkReport _)); [done|].
  rewrite report_of_row, Hs, Hk in Hr. unfold AddReport in Hr.
  change (rp_set (row_of set k.1.1 (now, r))) with set in Hr. change (rp_token (row_of set k.1.1 (now, r))) with k.1.1 in Hr.
  destruct (rule_sets _ !! set); [|done]. destruct (tokens _ !! k.1.1); [|done]. injection Hr as <-. cbn [reports set_reports set_base].
  assert (mine set k [row_of set k.1.1 (now, r)] = [row_of set k.1.1 (now, r)]) as Hm.
  { unfold mine. rewrite filter_cons, decide_True; [done|]. split; [done|]. unfold row_key. cbn. rewrite Hc, Hp. by destruct k as [[? ?] ?]. }
  assert (newer cutoff (mine set k (reports a ++ [row_of set k.1.1 (now, r)]))) as Hn'.
  { rewrite mine_app, Hm. apply Forall_app. split; [done|]. constructor; [|done]. by exists now. }
  rewrite (mine_kept set k cutoff) by done. split; [|done]. rewrite mine_app. f_equal. exact Hm.
Qed.

(** The rows after a sequence of reports. *)
Lemma delivered_rows set k cutoff a ds a' :
  delivered set k a ds a' -> Forall (fun d => sr_Cluster d.2 = k.1.2 /\ sr_Policy d.2 = k.2) ds ->
  Forall (fun d => cutoff <= d.1 /\ d.1 + second_ns <= cutoff + ReportRetention) ds -> newer cutoff (mine set k (reports a)) ->
  mine set k (reports a') = mine set k (reports a) ++ (row_of set k.1.1 <$> ds) /\ newer cutoff (mine set k (reports a')).
Proof.
  induction 1 as [a|a a' ds a'' Hm Hd IH|a Allow now req acc r a' ds a'' Ha Hs Hk Hr Hd IH]; intros Hf Ht Hn.
  - by rewrite app_nil_r.
  - rewrite <-Hm in *. by apply IH.
  - apply Forall_cons in Hf as [[Hc Hp] Hf]. apply Forall_cons in Ht as [[Ht1 Ht2] Ht]. cbn in Hc, Hp, Ht1, Ht2.
    destruct (received_rows _ _ _ _ _ _ _ _ _ cutoff Ha Hs Hk Hr Hc Hp Hn Ht1 Ht2) as [Hm Hn'].
    destruct (IH Hf Ht Hn') as [Hm' Hn'']. split; [|done]. by rewrite Hm', Hm, <-app_assoc.
Qed.

(** The group of a key in the rows of the query. *)
Lemma group_rows set k since cutoff db t tr :
  tokens db !! k.1.1 = Some tr -> newer cutoff (mine set k t) -> since + second_ns <= cutoff ->
  group k (cluster_rows set (FormatTime since) db t) = (fun r => (r, t_name tr)) <$> reverse (mine set k t).
Proof.
  intros Ht Hn Hs. unfold cluster_rows, group, mine, newer in *. induction t as [|r t IH] using rev_ind; [done|].
  rewrite filter_app in Hn. apply Forall_app in Hn as [Hn Hr]. rewrite reverse_snoc, filter_app, reverse_app. cbn [omap list_omap].
  rewrite filter_cons, filter_nil in *. destruct (decide (rp_set r = set /\ row_key (r, []) = k)) as [[Es Ek]|Hk].
  - apply Forall_cons in Hr as [(t' & Et & Hle) _]. rewrite Es, Nat.eqb_refl, Et. destruct (stamp_ltb _ _) eqn:E; [apply stamp_ltb_lt in E; lia|].
    cbn [andb negb]. assert (rp_token r = k.1.1) as -> by (by rewrite <-Ek). rewrite Ht. cbn [fmap option_fmap option_map].
    rewrite filter_cons, decide_True by done. rewrite (IH Hn). done.
  - rewrite reverse_nil, app_nil_l. destruct (Nat.eqb (rp_set r) set && _) eqn:E; [|by apply IH].
    destruct (tokens db !! rp_token r) as [x|]; cbn [fmap option_fmap option_map]; [|by apply IH].
    rewrite filter_cons, decide_False; [by apply IH|]. intros Ek. apply Hk. split; [|done].
    apply andb_true_iff in E as [E _]. by apply Nat.eqb_eq.
Qed.

(** ** Sums *)

Lemma zsum_reverse l : zsum (reverse l) = zsum l.
Proof. induction l as [|x l IH]; [done|]. rewrite reverse_cons, zsum_app, IH. unfold zsum. cbn. lia. Qed.

(** A counter in a row and in a summary. *)
Definition row_value (c : counter) (r : Report) : Z :=
  match c with
  | Lines => rp_lines r
  | Errors => rp_errors r
  | Redacted k => count_at k (rp_redactions r)
  | Found k => count_at k (rp_audit_findings r)
  end.

Definition panel (c : counter) (s : ClusterSummary) : Z :=
  match c with
  | Lines => cs_lines s
  | Errors => cs_errors s
  | Redacted k => count_at k (cs_redactions s)
  | Found k => count_at k (cs_audit_findings s)
  end.

Lemma row_value_told c set tok d : row_value c (row_of set tok d) = told c d.2.
Proof. by destruct d, c. Qed.

Lemma panel_sum c rows s : summarizes rows s -> panel c s = sum_of (row_value c) (group (summary_key s) rows).
Proof. intros [? ? ? ? ? ?]. destruct c; cbn; eauto. Qed.

Lemma sum_rows c set tok n ds :
  sum_of (row_value c) ((fun r => (r, n)) <$> reverse (row_of set tok <$> ds)) = int64 (zsum (told c <$> ds.*2)).
Proof.
  unfold sum_of. f_equal. rewrite <-list_fmap_compose, fmap_reverse, zsum_reverse, <-!list_fmap_compose. f_equal.
  apply list_fmap_ext. intros _ d _. apply row_value_told.
Qed.

Lemma rows_fit set since db t : Forall (fun r => row_fits (r, [])) t -> Forall row_fits (cluster_rows set since db t).
Proof.
  intros Hf. apply Forall_forall. intros [r n] Hin. unfold cluster_rows in Hin. apply list_elem_of_omap in Hin as (x & Hx & E).
  rewrite elem_of_reverse in Hx. rewrite Forall_forall in Hf. destruct (_ && _); [|done]. destruct (tokens db !! _); [|done].
  injection E as <- <-. exact (Hf _ Hx).
Qed.

(** The panel's entry for a cluster's policy is the sum of the reports that were delivered. *)
Lemma panel_total set k a nows rs a' since cutoff tr :
  delivered set k a (zip nows rs) a' -> length nows = length rs -> Forall (fun r => sr_Cluster r = k.1.2 /\ sr_Policy r = k.2) rs ->
  mine set k (reports a) = [] ->
  Forall (fun now => cutoff <= now /\ now + second_ns <= cutoff + ReportRetention) nows -> since + second_ns <= cutoff ->
  tokens (base a') !! k.1.1 = Some tr -> Forall (fun r => row_fits (r, [])) (reports a') ->
  (rs <> [] -> exists s, s ∈ Clusters set since (base a') (reports a') /\ summary_key s = k) /\
  (forall s, s ∈ Clusters set since (base a') (reports a') -> summary_key s = k ->
    cs_reports s = Z.of_nat (length rs) /\ forall c, panel c s = int64 (zsum (told c <$> rs))).
Proof.
  intros Hdel Hlen Hk Hmine Htimes Hsince Htok Hfit. assert ((zip nows rs).*2 = rs) as Ezip by (apply snd_zip; lia).
  assert (Forall (fun d => sr_Cluster d.2 = k.1.2 /\ sr_Policy d.2 = k.2) (zip nows rs)) as Hk'
    by (apply (Forall_fmap snd (fun r => sr_Cluster r = k.1.2 /\ sr_Policy r = k.2)); by rewrite Ezip).
  assert (Forall (fun d => cutoff <= d.1 /\ d.1 + second_ns <= cutoff + ReportRetention) (zip nows rs)) as Ht'
    by (apply (Forall_fmap fst (fun now => cutoff <= now /\ now + second_ns <= cutoff + ReportRetention)); rewrite fst_zip by lia; done).
  destruct (delivered_rows set k cutoff a _ a' Hdel Hk' Ht') as [Hrows Hnew]; [rewrite Hmine; constructor|]. rewrite Hmine in Hrows. cbn [app] in Hrows.
  pose proof (group_rows set k since cutoff (base a') (reports a') tr Htok Hnew Hsince) as Hg. rewrite Hrows in Hg.
  destruct (summarize_ok _ (rows_fit set (FormatTime since) (base a') _ Hfit)) as [Hkeys Hsums].
  change (foldl summarize_row [] _) with (Clusters set since (base a') (reports a')) in *. split.
  - intros Hne. assert (k ∈ summary_key <$> Clusters set since (base a') (reports a')) as (s & -> & Hin)%list_elem_of_fmap; [|by exists s].
    rewrite Hkeys, keys_elem. destruct rs as [|r rs]; [done|]. destruct nows as [|now nows]; [done|].
    assert ((row_of set k.1.1 (now, r), t_name tr) ∈ group k (cluster_rows set (FormatTime since) (base a') (reports a'))) as Hin.
    { rewrite Hg. apply list_elem_of_fmap. eexists. split; [done|]. apply elem_of_reverse. by left. }
    apply list_elem_of_filter in Hin as [E Hin]. apply list_elem_of_fmap. by eexists.
  - intros s Hin Hks. rewrite Forall_forall in Hsums. specialize (Hsums s Hin). subst k. split.
    + rewrite (sm_reports _ _ Hsums), Hg, length_fmap, length_reverse, length_fmap, length_zip_with, Hlen. lia.
    + intros c. by rewrite (panel_sum c _ s Hsums), Hg, sum_rows, Ezip.
Qed.

(** The reports of a policy from its first pass, and its open window: they add up to what grew between reads. *)
Lemma reports_total `{GoDecoders} c t0 passes st rs :
  run_passes passes (new_state t0) = (st, rs) ->
  Forall (fun pw => shown c pw.1 = true) passes -> Forall (fun pw => distinct_pods pw.2) passes -> whole_reads c passes ->
  grown c ∅ (reads_of <$> passes) < 2 ^ 53 ->
  exists n, 0 <= n /\ held c (ps_acc st) = float_of_Z n /\ zsum (told c <$> rs) + n = grown c ∅ (reads_of <$> passes) /\
    int64 (zsum (told c <$> rs)) = zsum (told c <$> rs) /\ windows t0 rs (ps_windowStart st).
Proof.
  intros Hr Hs Hd Hw Hb.
  destruct (run_tracks c passes (new_state t0) ∅ 0 st rs Hr (new_tracks c t0) Hd Hw) as (n & last & Ht & Hsum & Hpos & Hwin); [lia|].
  specialize (Hsum Hs). pose proof (tr_nonneg _ _ _ _ Ht).
  assert (0 <= zsum (told c <$> rs)) by (by apply zsum_nonneg, Forall_fmap).
  exists n. split_and!; [done|apply Ht|lia|rewrite int64_small; lia|exact Hwin].
Qed.
