(* ===== verification/ScannerTheorems.v ===== *)
(** * The theorems about scans

    What [ScanAndRedact] and [ScanAndRedactText] guarantee for every
    configuration and every input, with a witness where a theorem has hypotheses. *)

From Stdlib Require Import ZArith Lia Bool SpecFloat.
From stdpp Require Import base list option sets.
From S2P Require Import Prelude GoStrings Sha256 Regex Float64 KeyMatcher Config Entropy Signatures Luhn Shapes.
From S2P Require Import Whitelist Tokens JsonString Keys Adaptive Machine Engine Redaction EngineProofs.
From S2P Require Import TokenLogic Append Segment SegmentProofs Scanner ScannerProofs Instances.

Section scans.
Context `{RT : GoRuntime} (st : configState).

(** C1: When [ScanAndRedact] returns on a line of ASCII text without a backslash, the
    line and the result are cut into the same pieces, in order ([pieces_of]): a
    piece is written as it is, or as the marker of exactly its bytes, or as this
    marker with the quotes of [piece_output] around or in front of it; a quote
    is put in front of kept bytes only where a rule of the operator whitelists
    them.  There are no more markers than reported redactions.  On any line the
    result is related to it by [Redacts], which also has invalid UTF-8 replaced and
    escaped JSON strings decoded. *)
Theorem scan_redacts line s out s' :
  ScanAndRedact st line s = Ok out s' ->
  (plain line = true -> exists n ps, pieces_of st line out n ps /\
    (length (callbacks s) + n <= length (callbacks s'))%nat) /\
  exists n, Redacts st n line out /\ (length (callbacks s) + n <= length (callbacks s'))%nat.
Proof.
  intros H. pose proof (ScanAndRedact_spec st line s) as Hs. rewrite H in Hs.
  destruct Hs as (n & HR & _ & _ & Hn & _). split; [|eauto].
  intros Hp. destruct (Redacts_pieces st n line out HR Hp) as [ps Hps]. eauto.
Qed.

(** C2: The recursion of the engine ends on every line: with the fuel computed from
    the length of the line a scan never runs out of it. *)
Theorem scan_terminates line s : ScanAndRedact st line s <> NoFuel.
Proof. intros H. pose proof (ScanAndRedact_spec st line s) as Hs. by rewrite H in Hs. Qed.

(** On a line of ASCII text without a backslash and without a question mark the
    scan returns: the slices of [maskURLParameters] and the index of
    [isGenericValueKey], which are the operations of the model that panic when
    they are out of range, are in range.  The other slices of the engine are total
    in the model; nothing is shown about them. *)
Theorem scan_never_panics line s :
  tame line = true -> exists out s', ScanAndRedact st line s = Ok out s'.
Proof.
  intros Ht. pose proof (ScanAndRedact_spec st line s) as Hs.
  destruct (ScanAndRedact st line s) as [out s'| |]; [eauto| |done]. destruct Hs. congruence.
Qed.

(** A plain line (ASCII, no backslash) for which no redaction is reported comes
    back byte for byte, when no rule whitelists values. *)
Theorem scan_untouched line s out s' :
  SafeRegexes (config st) = [] -> plain line = true ->
  ScanAndRedact st line s = Ok out s' -> callbacks s' = callbacks s -> out = line.
Proof.
  intros Hsafe Hp H Hcb. pose proof (ScanAndRedact_spec st line s) as Hs. rewrite H in Hs.
  destruct Hs as (n & HR & _ & _ & Hn & _). simpl in Hn. rewrite Hcb in Hn.
  eapply Redacts_plain; [done|lia|done..].
Qed.

(** C4: [ScanAndRedactText] scans a text with a line break in it line by line: its run is
    that of the reference [scan_parts], which scans every line of [line_parts] on
    its own, in order, and puts the ending of the line after its result.  The parts
    are the whole text in order, no line has a line break in it, every ending is
    empty, a newline or either after a carriage return, and there are as many
    parts that end in a newline as newlines in the text.  A text without a newline
    is scanned as one line. *)
Theorem text_by_lines text s :
  ScanAndRedactText st text s =
    (if ContainsByte text newline then scan_parts st (line_parts text) s else ScanAndRedact st text s) /\
  concat ((fun p => p.1 ++ p.2) <$> line_parts text) = text /\
  Forall part_ok (line_parts text) /\
  length (filter (fun p => newline ∈ p.2) (line_parts text)) = CountByte text newline.
Proof.
  split; [|apply line_parts_text]. destruct (ContainsByte text newline) eqn:Ec.
  - by apply ScanAndRedactText_parts.
  - unfold ScanAndRedactText. by rewrite Ec.
Qed.

(** [ScanAndRedactText] ends on every text, can only panic on one that is not tame,
    and otherwise returns a redacted form of the text, line endings included. *)
Theorem text_redacts text s :
  match ScanAndRedactText st text s with
  | Ok out s' => exists n, Redacts st n text out /\ (length (callbacks s) + n <= length (callbacks s'))%nat
  | Panic _ => tame text = false
  | NoFuel => False
  end.
Proof.
  pose proof (ScanAndRedactText_spec st text s) as Hs.
  destruct (ScanAndRedactText st text s) as [out s'| |]; [|apply Hs|done].
  destruct Hs as (n & HR & _ & _ & Hn & _). eauto.
Qed.

(** [ScanAndRedactText] keeps the number of lines of a plain text, when the names
    of the operator's rules have no line break in them. *)
Theorem text_keeps_lines text s out s' :
  names_one_line st -> plain text = true ->
  ScanAndRedactText st text s = Ok out s' -> CountByte out newline = CountByte text newline.
Proof.
  intros Hn Hp. unfold ScanAndRedactText. destruct (ContainsByte text newline) eqn:Ec.
  - unfold mbind, M_bind, with_builder. destruct (text_loop _ _ _ _) as [[] s1| |] eqn:El; [|done..].
    intros [= <- _]. apply text_loop_lines in El as (o & Ho & Hc); [|done..]. simpl in *. by rewrite Ho.
  - intros H. pose proof (ScanAndRedact_spec st text s) as Hs. rewrite H in Hs.
    destruct Hs as (n & HR & _).
    assert (no_newline text) by (intros Hin; apply ContainsByte_In in Hin; congruence).
    apply Redacts_one_line in HR; [|done..]. by rewrite !CountByte_no_newline.
Qed.

(** Whether it returns or panics, a scan touches the shared adaptive baseline only by
    [Update], and not at all unless the adaptive threshold is on; it never writes
    to the caller's builder. *)
Theorem scan_frame text s :
  match ScanAndRedactText st text s with
  | Ok _ s' | Panic s' =>
      sb s' = sb s /\ (exists scores, baseline s' = foldl Update (baseline s) scores) /\
      (AdaptiveThreshold (config st) = false -> baseline s' = baseline s)
  | NoFuel => False
  end.
Proof.
  pose proof (ScanAndRedactText_spec st text s) as Hs.
  destruct (ScanAndRedactText st text s) as [out s'|s'|]; [|destruct Hs as (_ & Hsb & Hf)|done].
  - destruct Hs as (n & _ & Hsb & Hr). split; [done|]. apply (fed_frame _ _ _ (ran_fed _ _ _ _ _ _ Hr (fed_refl _ _))).
  - split; [done|]. by apply fed_frame.
Qed.

End scans.

(** ** Witnesses *)

#[local] Existing Instances run_unicode run_time run_compiler run_decoders run_unicode_laws.

Lemma scan_redacts_witness :
  exists out s', ScanAndRedact small_state (go "pw=abc") fresh = Ok out s' /\
    (plain (go "pw=abc") = true -> exists n ps, pieces_of small_state (go "pw=abc") out n ps /\
      (length (callbacks fresh) + n <= length (callbacks s'))%nat) /\
    exists n, Redacts small_state n (go "pw=abc") out /\ (length (callbacks fresh) + n <= length (callbacks s'))%nat.
Proof.
  eexists _, _. split; [vm_compute; reflexivity|]. eapply scan_redacts with (s := fresh). vm_compute. reflexivity.
Defined.

(** The pieces of this line: the key and the equals sign are kept, the value is hidden. *)
Example pieces_of_pair :
  exists out s', ScanAndRedact small_state (go "pw=abc") fresh = Ok out s' /\
    pieces_of small_state (go "pw=abc") out 1 [Kept (go "pw="); Hidden (go "abc") []].
Proof.
  eexists _, _. split; [vm_compute; reflexivity|]. unfold pieces_of.
  split_and!; [repeat constructor; by left|reflexivity|vm_compute; reflexivity|reflexivity].
Qed.

Lemma scan_never_panics_witness :
  exists out s', ScanAndRedact small_state (go "user bob pw=abc") fresh = Ok out s'.
Proof. apply scan_never_panics. reflexivity. Defined.

Lemma scan_untouched_witness :
  exists out s', ScanAndRedact small_state (go "ok") fresh = Ok out s' /\ out = go "ok".
Proof.
  eexists _, _. split; [vm_compute; reflexivity|].
  eapply scan_untouched with (st := small_state) (s := fresh); [reflexivity|reflexivity|vm_compute; reflexivity|reflexivity].
Defined.

Lemma text_keeps_lines_witness :
  exists out s', ScanAndRedactText small_state (go "a" ++ [newline] ++ go "b") fresh = Ok out s' /\
    CountByte out newline = 1%nat.
Proof.
  eexists _, _. split; [vm_compute; reflexivity|].
  refine (text_keeps_lines small_state (go "a" ++ [newline] ++ go "b") fresh _ _ _ _ _);
    [split; constructor|reflexivity|vm_compute; reflexivity].
Defined.
