(* ===== verification/TokenTheorems.v ===== *)
(** * The theorems about tokens

    What happens to a forced value, to a sensitive pair and to the markers of an
    earlier pass. *)

From Stdlib Require Import ZArith Lia Bool SpecFloat.
From stdpp Require Import base list option sets.
From S2P Require Import Prelude GoStrings Regex Float64 KeyMatcher Config Entropy Signatures Luhn Shapes.
From S2P Require Import Whitelist Tokens JsonString Keys Adaptive Machine Engine Redaction EngineProofs.
From S2P Require Import TokenLogic Append Segment SegmentProofs Scanner KeyMatcherFind ScannerProofs PairProofs.
From S2P Require Import Instances.

Section tokens.
Context `{RT : GoRuntime} (st : configState).

(** C5: A line that is one pair [key=value] of two words with a sensitive key comes back with
    the value hidden, whole: the output is a redacted form of the key, the '=' and the marker
    of the value.  Words are ASCII letters, digits and underscores ([is_word]); the value is not empty, no safe rule of the operator matches
    it, it is not the name of an auth scheme (the value of the pair [pw=bearer] is
    kept), and no number is carved out of the line. *)
Theorem sensitive_pair_hidden k v s :
  is_word k = true -> is_word v = true -> v <> [] ->
  isSensitiveKey st k = true -> existsb (rule_matches v) (SafeRegexes (config st)) = false ->
  auth_scheme v = false -> line_carves st (k ++ go "=" ++ v) = [] ->
  exists n ko name s', ScanAndRedact st (k ++ go "=" ++ v) s = Ok (ko ++ go "=" ++ marker st v name) s' /\
    Redacts st n k ko /\ marker_name st name.
Proof. intros. by apply pair_line_run. Qed.

(** C6: The keys a snapshot finds sensitive are those of the specification: a word of
    the configured list somewhere in the lower-case key, but for public keys and
    long random tokens, or else a password abbreviation or a pattern of the
    operator.  The automaton and the copies it avoids do not show. *)
Theorem sensitive_keys_specified `{RC : RegexpCompiler} `{UL : !UnicodeLaws rt_unicode} cfg key :
  Forall (Forall is_byte) (SensitiveKeys cfg) -> Forall is_byte key ->
  isSensitiveKey (buildConfigState cfg) key = sensitive_key_spec cfg key.
Proof. apply isSensitiveKey_spec. Qed.


(** C7: A marker of an earlier pass, alone or in quotes, is never hidden again nor
    altered: at every depth and under every flag [processTokenLogic] writes it as it
    is and reports nothing. *)
Theorem marker_opaque E depth a s :
  isRedacted (trimQuotes (rawToken a)) = true -> Contains (rawToken a) (go "://") = false ->
  processTokenLogic st E depth a s =
  Ok false {| sb := sb s ++ rawToken a; baseline := baseline s; callbacks := callbacks s |}.
Proof. apply marker_token_run. Qed.

(** The answers of a lowered token are those of [strings.ToLower] on its text:
    the byte-wise path for short ASCII tokens changes nothing. *)
Theorem lowered_token_refines tok lit words :
  low_is (newLoweredToken tok) lit = str_eqb (ToLower tok) lit /\
  low_in (newLoweredToken tok) words = in_words (ToLower tok) words.
Proof. unfold low_is, low_in. by rewrite newLoweredToken_low. Qed.

End tokens.

(** ** Witnesses *)

#[local] Existing Instances run_unicode run_time run_compiler run_decoders run_unicode_laws.

Lemma sensitive_pair_hidden_witness :
  exists n ko name s', ScanAndRedact small_state (go "pw=abc") fresh =
      Ok (ko ++ go "=" ++ marker small_state (go "abc") name) s' /\
    Redacts small_state n (go "pw") ko /\ marker_name small_state name.
Proof.
  apply (sensitive_pair_hidden small_state (go "pw") (go "abc") fresh);
    [reflexivity|reflexivity|discriminate|vm_compute; reflexivity|reflexivity|reflexivity|vm_compute; reflexivity].
Defined.

Lemma sensitive_keys_specified_witness :
  isSensitiveKey small_state (go "dbPW") = sensitive_key_spec small_config (go "dbPW").
Proof. apply (sensitive_keys_specified small_config (go "dbPW")); repeat constructor; vm_compute; done. Defined.


Lemma marker_opaque_witness :
  processTokenLogic small_state (engine small_state 1) 3 (token_args (go "[HIDDEN:abc123]") true true true true true) fresh =
  Ok false {| sb := sb fresh ++ go "[HIDDEN:abc123]"; baseline := baseline fresh; callbacks := callbacks fresh |}.
Proof. apply (marker_opaque small_state _ 3 (token_args (go "[HIDDEN:abc123]") true true true true true)); reflexivity. Defined.
