(* ===== verification/ConfigTheorems.v ===== *)
(** * The theorems about configurations

    What the environment, a policy file and a list of rules make of a
    configuration, on every branch. *)

From Stdlib Require Import ZArith Lia Bool SpecFloat.
From stdpp Require Import base list option sets.
From S2P Require Import Prelude GoStrings Float64 Regex KeyMatcher Config Scanner ConfigSources ConfigProofs.
From S2P Require Import Instances.

(** C37: A policy file is all or nothing.  A decoded file is either valid, and then every
    field it gives and every one of its rules is in the configuration, over the
    defaults and without a salt; or it is not, and then there is an error and no
    configuration. *)
Theorem policy_all_or_nothing `{RegexpCompiler} `{Unicode} `{GoDecoders} b pf :
  UnmarshalPolicy b = Some pf ->
  (valid_policy (pfConfig pf) /\ ParsePolicyJSON b = inr (policy_spec (pfConfig pf), Revision pf)) \/
  (~ valid_policy (pfConfig pf) /\ exists e, ParsePolicyJSON b = inl e).
Proof. apply ParsePolicyJSON_decides. Qed.

(** The environment wins over the configuration below it, field by field: a variable
    that is set and readable decides its field, any other leaves it, a salt already
    there is kept, and the only failure is a weak salt where a strong one is
    required.  Laying the same environment over the result changes nothing. *)
Theorem environment_wins `{RegexpCompiler} `{Unicode} `{GoDecoders} Getenv fresh c :
  ApplyEnvOverrides Getenv fresh c =
    (if weak_salt Getenv then None else Some (env_spec Getenv (set_Salt (env_salt_of Getenv fresh c) c))) /\
  forall r fresh', fresh <> [] -> ApplyEnvOverrides Getenv fresh c = Some r ->
    ApplyEnvOverrides Getenv fresh' r = Some r.
Proof.
  split; [apply ApplyEnvOverrides_eq|]. intros r fresh' Hf. rewrite !ApplyEnvOverrides_eq.
  destruct (weak_salt Getenv); [done|]. intros [= <-]. f_equal.
  set (c' := set_Salt _ c). rewrite (env_salt_of_settled Getenv fresh fresh' c) by done.
  change (set_Salt _ (env_spec Getenv c')) with (env_spec Getenv c'). apply env_spec_idemp.
Qed.

(** C38: Every configuration the program builds is well formed: the minimum length is
    between 1 and its limit, the sample size is positive, and a combined rule
    expression has exactly one name per rule.  From the defaults, from a policy file,
    and kept by the environment over either. *)
Theorem configurations_well_formed `{RegexpCompiler} `{Unicode} `{GoDecoders} :
  config_wf DefaultConfig /\
  (forall b c rev, ParsePolicyJSON b = inr (c, rev) -> config_wf c) /\
  (forall Getenv fresh c r, config_wf c -> ApplyEnvOverrides Getenv fresh c = Some r -> config_wf r).
Proof.
  split_and!; [apply config_wf_default| |].
  - intros b c rev Hb. destruct (UnmarshalPolicy b) as [pf|] eqn:E; [|unfold ParsePolicyJSON in Hb; by rewrite E in Hb].
    destruct (ParsePolicyJSON_decides b pf E) as [[Hv He]|[_ [e He]]]; [|congruence].
    rewrite Hb in He. injection He as -> _. by apply policy_spec_wf.
  - intros Getenv fresh c r [Hl Hs Hr]. rewrite ApplyEnvOverrides_eq. destruct (weak_salt Getenv); [done|].
    intros [= <-]. apply env_spec_wf. by split.
Qed.

(** A rule that does not compile drops out alone: the configuration is the one of the
    list without it, for the custom and for the safe rules, and it is reported. *)
Theorem bad_rule_drops_alone `{RegexpCompiler} `{Unicode} l1 r l2 c :
  Compile (Pattern r) = None ->
  (ApplyCustomRegexes (l1 ++ r :: l2) c).1 = (ApplyCustomRegexes (l1 ++ l2) c).1 /\
  (ApplySafeRegexes (l1 ++ r :: l2) c).1 = (ApplySafeRegexes (l1 ++ l2) c).1 /\
  r ∈ (ApplyCustomRegexes (l1 ++ r :: l2) c).2.
Proof.
  intros Hr. rewrite !ApplyCustomRegexes_eq, !ApplySafeRegexes_eq. cbn [fst snd].
  rewrite (combined_of_skip _ r), (names_of_skip _ r), (omap_skip _ r) by done. split_and!; [done..|].
  apply list_elem_of_filter. split; [rewrite Hr; by intros []|set_solver].
Qed.

(** ** Witnesses *)

#[local] Existing Instances run_unicode run_time run_compiler run_decoders run_unicode_laws.

Lemma policy_all_or_nothing_witness :
  (valid_policy empty_sdk /\ ParsePolicyJSON (go "{}") = inr (policy_spec empty_sdk, go "r1")) \/
  (~ valid_policy empty_sdk /\ exists e, ParsePolicyJSON (go "{}") = inl e).
Proof.
  exact (policy_all_or_nothing (go "{}") {| pfConfig := empty_sdk; Revision := go "r1" |} eq_refl).
Defined.

Lemma bad_rule_drops_alone_witness :
  let r := {| Pattern := go "a("; Name := go "bad" |} in
  r ∈ (ApplyCustomRegexes [r] small_config).2.
Proof. apply (bad_rule_drops_alone [] {| Pattern := go "a("; Name := go "bad" |} [] small_config). reflexivity. Defined.
