(* ===== verification/SidecarTheorems.v ===== *)
(** * The theorems about the sidecar

    The output stream, runs of the process, audit mode, policy reloads and the
    counters. *)

From Stdlib Require Import ZArith Lia Bool SpecFloat.
From stdpp Require Import base list option sets fin_maps gmap.
From S2P Require Import Prelude GoStrings Sha256 Float64 Regex KeyMatcher Config Entropy Adaptive Machine Engine.
From S2P Require Import Redaction Scanner ConfigSources ConfigProofs ScannerProofs Output Stats Cleaner Metrics CleanerMain Instances.

(** ** The output stream *)

(** Whatever the order of writes, flushes (by the timer or by a marker) and closes,
    the destination has received a prefix of what was written, the rest is at most one
    buffer, and after a flush or a close it has received everything; a closed writer
    holds nothing back. *)
Theorem output_delivers interval cs :
  let o := out_run (newOutputWriter interval) cs in
  let written := concat (call_bytes <$> cs) in
  dst o ++ pending o = written /\ len (pending o) <= outputBufferSize /\
  (closed o = true -> dst o = written) /\
  dst (out_step o CallFlush) = written /\ dst (out_step o CallClose) = written.
Proof.
  destruct (out_run_accepted (newOutputWriter interval) cs (out_wf_new interval)) as [Ha Hw]. simpl.
  set (o := out_run _ cs) in *.
  assert (accepted o = concat (call_bytes <$> cs)) as Ho
    by (rewrite Ha; unfold newOutputWriter, accepted; by destruct (interval <=? 0)).
  pose proof Hw as [Hs Hc]. rewrite <-Ho. split_and!; [done|done| | |].
  - intros Hcl. by apply settled, Hc.
  - apply (flush_settles o CallFlush); auto.
  - apply (flush_settles o CallClose); auto.
Qed.

(** ** Runs of the process *)

Section runs.
Context `{RT : GoRuntime} `{RegexpCompiler} `{GoDecoders} (Getenv : gostring -> gostring).
Notation cfg := (read_settings Getenv).

(** C9: A process that started never ends by itself, whatever lines it reads, whatever is
    in the policy file and whenever the buffer is flushed.  There is one result per line
    read, in order, and the output accepted is these results with a line feed after
    each.  A result is what [ScanAndRedact] returns for the line, under a well-formed
    configuration with the process's salt (the line itself in audit mode); where the
    scan panicked, which takes a line that is not tame, it is the drop marker under the closed
    fail policy and the line under the open one.  What the scan returns is a redacted
    form of the line, and for a plain line (ASCII, no backslash) it is one line.  On other
    lines it can hold a line break of its own: see [kept_json_adds_line]. *)
Theorem sidecar_runs fresh interval stats s0 es :
  fresh <> [] -> sidecar_start Getenv fresh interval stats = Some s0 ->
  exists s salt log, sidecar_run Getenv s0 es = Some s /\ l_text <$> log = lines_of es /\
    Forall (fun l => exists st, active_ok salt st /\ line_scanned st l /\ line_redacted st l /\ stays_one_line cfg st l) log /\
    accepted (p_out (s_process s)) = stream (line_out cfg <$> log).
Proof.
  intros Hf Hs. destruct (sidecar_start_inv _ _ _ _ _ Hf Hs) as (salt & Hp & Hi & Ha & _).
  destruct (sidecar_run_log Getenv salt s0 es Hp Hi) as (s & log & Hr & _ & Ht & Hl & Ho & _).
  rewrite Ha in Ho. exists s, salt, log. split_and!; [exact Hr|exact Ht|by apply lines_scanned_spec|exact Ho].
Qed.

(** The tags of a running process never change: at any two points of a run the
    active configurations have the salt the process started with, so that equal
    values get equal markers.  A policy file that is missing, unreadable, unchanged
    or invalid leaves the active configuration as it is. *)
Theorem tags_stable fresh interval stats s0 es s :
  fresh <> [] -> sidecar_start Getenv fresh interval stats = Some s0 -> sidecar_run Getenv s0 es = Some s ->
  (forall data name, marker (s_active s) data name = marker (s_active s0) data name) /\
  (forall fresh' f,
     (fv_stat f = None \/ fv_stat f = seen (s_reloader s) \/ exists e, LoadPolicyFile (fv_content f) = inl e) ->
     s_active <$> sidecar_step Getenv s (EvCheck fresh' f) = Some (s_active s)).
Proof.
  intros Hf Hs Hr. destruct (sidecar_start_inv _ _ _ _ _ Hf Hs) as (salt & Hp & Hi & _).
  destruct (sidecar_run_log Getenv salt s0 es Hp Hi) as (s' & log & Hr' & Hi' & _).
  rewrite Hr in Hr'. injection Hr' as <-. destruct (si_active _ _ Hi) as [Hs0 _], (si_active _ _ Hi') as [Hs1 _]. split.
  - intros data name. unfold marker. by rewrite Hs0, Hs1.
  - intros fresh' f Hbad. simpl. unfold check. destruct (fv_stat f) as [stat|]; [|done].
    simpl. case_bool_decide as Hseen; [done|].
    destruct Hbad as [|[Hsn|[e He]]]; [done|by rewrite <- Hsn in Hseen|by rewrite He].
Qed.

(** The counters say what the run did: as many lines as were read, with their bytes,
    as many redactions as the scans reported, and in audit mode as many lines as a
    redacting process would have changed, all modulo the width of a counter. *)
Theorem counters_exact fresh interval s0 es s :
  fresh <> [] -> sidecar_start Getenv fresh interval true = Some s0 -> sidecar_run Getenv s0 es = Some s ->
  exists salt log counters, l_text <$> log = lines_of es /\ p_stats (s_process s) = Some counters /\
    Forall (fun l => exists st, active_ok salt st /\ line_scanned st l) log /\
    log_counted cfg log newStatsCollector counters /\
    accepted (p_out (s_process s)) = stream (line_out cfg <$> log).
Proof.
  intros Hf Hs Hr. destruct (sidecar_start_inv _ _ _ _ _ Hf Hs) as (salt & Hp & Hi & Ha & Hst).
  destruct (sidecar_run_log Getenv salt s0 es Hp Hi) as (s' & log & Hr' & _ & Ht & Hl & Ho & Hcnt).
  rewrite Hr in Hr'. injection Hr' as <-. rewrite Ha in Ho. unfold stats_rel in Hcnt. rewrite Hst in Hcnt.
  destruct (p_stats (s_process s)) as [c|]; [|by inversion Hcnt]. inversion Hcnt; subst. exists salt, log, c. by split_and!.
Qed.

End runs.

(** Audit mode is a dry run: a stream of lines that end in a line feed, without
    carriage returns and short enough for the reader, is written out byte for byte, whatever
    the configuration, the fail policy, and the lines on which the scanner panics. *)
Theorem audit_stream_unchanged `{RT : GoRuntime} cfg st input p lines :
  auditMode cfg = true -> out_wf (p_out p) -> ends_line input -> ~ In 13 input ->
  scan_lines (length input) input = (lines, false) ->
  accepted (p_out (streamPipeOnce cfg st input p)) = accepted (p_out p) ++ input.
Proof.
  intros Ha Ho He Hcr Hl. pose proof (streamPipeOnce_log cfg st input p Ho) as Hs. rewrite Hl in Hs.
  destruct Hs as (log & Ht & _ & ->). rewrite app_nil_r, audit_lines, Ht by done. f_equal.
  by eapply scan_lines_stream.
Qed.

(** ** The summary line *)

(** The numbers of the summary read back: a counter is written in groups of three
    digits of which only the first may be shorter, the digits give the counter, and
    every count of bytes has a unit. *)
Theorem summary_numbers n :
  0 <= n < 2 ^ 64 ->
  (exists h gs, withThousands n = Join (h :: gs) [ch ","] /\ (1 <= length h <= 3)%nat /\
    Forall (fun g => length g = 3%nat) gs /\ Atoi (h ++ concat gs) = (if n <? 2 ^ 63 then Some n else None)) /\
  is_Some (humanBytes n).
Proof.
  intros Hn. split; [|by apply humanBytes_total].
  destruct (withThousands_groups n Hn) as (h & gs & Hj & Hh & Hg & Hv). exists h, gs. split_and!; [done|lia|lia|done|].
  apply Atoi_digits; [destruct h; simpl in *; [lia|done]|done|lia].
Qed.

(** ** The whole process *)

Section process.
Context `{RT : GoRuntime} `{RC : RegexpCompiler} `{GD : GoDecoders} (Getenv : gostring -> gostring).
Notation cfg := (read_settings Getenv).
Notation out_of c := (p_out (s_process (c_sidecar c))).

End process.

(** ** Witnesses *)

#[local] Existing Instances run_unicode run_time run_compiler run_decoders run_unicode_laws.

Definition audit_env : gostring -> gostring := run_env (go "audit").
Definition some_fresh : gostring := go "r".

(** A process started in the environment [audit_env]. *)
Definition started : sidecar :=
  let base := env_spec audit_env (set_Salt (go "0123456789abcdef") DefaultConfig) in
  {| s_process := {| p_baseline := newBaselineStats 100; p_out := newOutputWriter 0; p_stats := Some newStatsCollector |};
     s_reloader := {| rSalt := go "0123456789abcdef"; seen := None; missingLogged := false; revision := [] |};
     s_active := buildConfigState base |}.

Lemma started_ok : sidecar_start audit_env some_fresh 0 true = Some started.
Proof. unfold sidecar_start, newPolicyReloader. rewrite ApplyEnvOverrides_eq. reflexivity. Qed.

(** A line, a rejected file, a file that appears, and a flush. *)
Definition some_events : list event :=
  [EvLine (go "pw=abc"); EvCheck some_fresh {| fv_stat := None; fv_content := None |};
   EvCheck some_fresh {| fv_stat := Some (1, 2); fv_content := Some (go "{}") |}; EvFlush].

Lemma sidecar_runs_witness :
  exists s salt log, sidecar_run audit_env started some_events = Some s /\ l_text <$> log = [go "pw=abc"] /\
    Forall (fun l => exists st, active_ok salt st /\ line_scanned st l /\ line_redacted st l /\
      stays_one_line (read_settings audit_env) st l) log /\
    accepted (p_out (s_process s)) = stream (line_out (read_settings audit_env) <$> log).
Proof. apply (sidecar_runs audit_env some_fresh 0 true started some_events); [discriminate|apply started_ok]. Defined.

Definition after : sidecar := default started (sidecar_run audit_env started some_events).

Lemma tags_stable_witness :
  marker (s_active after) (go "abc") [] = marker (s_active started) (go "abc") [].
Proof.
  apply (tags_stable audit_env some_fresh 0 true started some_events after); [discriminate|apply started_ok|reflexivity].
Defined.

Lemma counters_exact_witness :
  exists salt log counters, l_text <$> log = [go "pw=abc"] /\ p_stats (s_process after) = Some counters /\
    Forall (fun l => exists st, active_ok salt st /\ line_scanned st l) log /\
    log_counted (read_settings audit_env) log newStatsCollector counters /\
    accepted (p_out (s_process after)) = stream (line_out (read_settings audit_env) <$> log).
Proof.
  apply (counters_exact audit_env some_fresh 0 started some_events after); [discriminate|apply started_ok|reflexivity].
Defined.

Lemma audit_stream_unchanged_witness :
  let p := s_process started in
  accepted (p_out (streamPipeOnce (read_settings audit_env) small_state (go "pw=abc" ++ [newline]) p)) =
  go "pw=abc" ++ [newline].
Proof.
  apply (audit_stream_unchanged (read_settings audit_env) small_state (go "pw=abc" ++ [newline]) (s_process started) [go "pw=abc"]).
  - reflexivity.
  - apply out_wf_new.
  - right. by exists (go "pw=abc").
  - vm_compute. intuition discriminate.
  - reflexivity.
Defined.

Lemma summary_numbers_witness :
  (exists h gs, withThousands 1240 = Join (h :: gs) [ch ","] /\ (1 <= length h <= 3)%nat /\
    Forall (fun g => length g = 3%nat) gs /\ Atoi (h ++ concat gs) = Some 1240) /\ is_Some (humanBytes 1240).
Proof. apply (summary_numbers 1240). lia. Defined.

(** A process on a named pipe with two writers, the second of which writes a line that is too long. *)
Definition piped : cleaner := {|
  c_sidecar := {| s_process := {| p_baseline := newBaselineStats 100; p_out := newOutputWriter defaultFlushInterval; p_stats := None |};
                  s_reloader := s_reloader started; s_active := s_active started |};
  c_phase := Waiting; c_metrics := None; c_port := None; c_reload := 0; c_summaries := [] |}.

Definition no_policy_file : file_view := {| fv_stat := None; fv_content := None |}.

Lemma piped_ok : main_start audit_env [go "pii-shield"; go "--watch-file"; go "/logs/pipe"] some_fresh some_fresh 0 no_policy_file = Some piped.
Proof.
  unfold main_start, startPolicyReloader, sidecar_start, newPolicyReloader. rewrite ApplyEnvOverrides_eq. reflexivity.
Qed.

Definition two_writers : list input :=
  [InPoll false None false; InPoll true (Some ModeNamedPipe) false; InOpen true; InLine (go "pw=abc"); InEnd None; InFlush;
   InOpen true; InEnd (Some true); InSignal].

