(* ===== verification/EbpfTheorems.v ===== *)
(** * The eBPF audit agent: what its theorems say

    No byte of a stream is lost, doubled or given to another stream on its way into
    lines, and a ring buffer record reads back. *)

From Stdlib Require Import ZArith Lia Bool.
From stdpp Require Import base list option sets gmap.
From S2P Require Import Prelude GoStrings Config Adaptive Machine Engine Redaction Output Stats Ebpf EbpfAgent.
From S2P Require Import Instances.

(** Lines from writes, for any sequence of writes and idle flushes: the lines given
    out for a stream, with the line breaks that ended them, followed by what waits, are
    exactly the bytes written to it; no line holds a newline, what waits is shorter than
    the limit, and a flush after every stream went quiet leaves nothing waiting. *)
Theorem agent_lines `{O : MapOrder} `{!MapOrderLaws O} ops :
  let a := agent_run New ops in
  let received k := concat (op_bytes k <$> ops) in
  (forall k, sent_bytes k (lines a) ++ waiting k (streams a) = received k) /\
  Forall (fun e => one_line (e_line e)) (lines a) /\
  (forall k p, streams a !! k = Some p -> len (p_buf p) < DefaultMaxLine) /\
  (forall now idle, (forall k p, streams a !! k = Some p -> p_seen p <= now) ->
    forall k, sent_bytes k (lines (FlushIdle a (now + idle) idle)) = received k).
Proof.
  pose proof (agent_run_ok _ _ ops New_ok) as Hok. pose proof Hok as [Hb Hl Hp _]. simpl in *. split_and!; [done|done| |].
  - intros k p Hk. change DefaultMaxLine with (MaxLine New). rewrite <-(agent_run_max ops New). by apply (Hp k).
  - intros now idle Hs k. pose proof (agent_step_ok _ _ (OpFlush (now + idle) idle) Hok) as [Hf _ _ _].
    specialize (Hf k). simpl in Hf. unfold waiting in Hf. rewrite (FlushIdle_final now idle _ Hs), lookup_empty in Hf.
    simpl in Hf. by rewrite !app_nil_r in Hf.
Qed.

(** C35: The whole run of the agent, from the first record to the last summary: for any records, flushes and summaries, and
    any records left in the channel when it is told to stop.  It ends early only when the scanner panics on a line, which
    takes a stream whose data is not tame.  Otherwise the lines audited, with the line breaks that ended them, are exactly
    the data of each stream's records, none holds a newline and nothing waits; the auditor counted these lines
    and their bytes, every record of the loop was counted once (those drained at the end are not), and the last thing
    logged is the summary of these counts.  What the kernel cut off or dropped is in no record. *)
Theorem agent_audits_everything `{GoRuntime} `{MO : MapOrder} `{!MapOrderLaws MO} st flushIdle bs ts left now :
  Forall (tick_by now) ts -> Forall (fun e => e.2 <= now) left ->
  match agent_main st flushIdle bs ts left now with
  | Some s =>
    (forall k, sent_bytes k (lines (ag_asm s)) = run_bytes flushIdle ts left k) /\ streams (ag_asm s) = ∅ /\
    Forall (fun e => one_line (e_line e)) (lines (ag_asm s)) /\ counted (lines (ag_asm s)) (ag_auditor s) /\
    records (ag_counters s) = Z.of_nat (length (filter (fun t => is_record t = true) ts)) /\
    last (ag_logged s) = Some (audit_summary (ag_auditor s))
  | None => exists k, tame (run_bytes flushIdle ts left k) = false
  end.
Proof. apply main_ok. Qed.

(** A ring buffer record reads back: [ParseEvent] on the header and the bytes the
    kernel side writes, with any padding after them, gives the event, and a record cut
    inside its header or its data is refused. *)
Theorem record_round_trip e pad :
  is_u32 (Tgid e) -> is_u32 (FD e) -> is_u32 (Flags e) -> is_u32 (len (Data e)) ->
  ParseEvent (encode_event e ++ pad) = Some e /\
  forall n, (n < length (encode_event e))%nat -> ParseEvent (take n (encode_event e)) = None.
Proof. intros Ht Hf Hfl Hd. split; [by apply ParseEvent_encode|]. intros n Hn. by apply ParseEvent_cut. Qed.

(** ** Witnesses *)

Definition key_order : MapOrder := {| map_order := id |}.

Lemma key_order_laws : MapOrderLaws key_order.
Proof. split. reflexivity. Qed.

#[local] Existing Instances key_order key_order_laws.

Lemma agent_lines_witness :
  sent_bytes (1, 2) (lines (agent_run New [OpPush (1, 2) (go "ab") 0; OpPush (1, 2) (go "c" ++ [newline] ++ go "d") 1])) = go "abc" ++ [newline] /\
  sent_bytes (1, 2) (lines (FlushIdle (agent_run New [OpPush (1, 2) (go "ab") 0; OpPush (1, 2) (go "c" ++ [newline] ++ go "d") 1]) 11 10)) =
    concat (op_bytes (1, 2) <$> [OpPush (1, 2) (go "ab") 0; OpPush (1, 2) (go "c" ++ [newline] ++ go "d") 1]).
Proof.
  split; [vm_compute; reflexivity|].
  refine (proj2 (proj2 (proj2 (agent_lines [OpPush (1, 2) (go "ab") 0; OpPush (1, 2) (go "c" ++ [newline] ++ go "d") 1]))) 1 10 _ (1, 2)).
  intros k p. destruct (decide (k = (1, 2))) as [->|Hk].
  - intros H. vm_compute in H. injection H as <-. simpl. lia.
  - assert (streams (agent_run New [OpPush (1, 2) (go "ab") 0; OpPush (1, 2) (go "c" ++ [newline] ++ go "d") 1]) =
      {[(1, 2) := {| p_buf := go "d"; p_seen := 1 |}]}) as -> by (vm_compute; reflexivity).
    rewrite lookup_singleton_ne by done. done.
Defined.

Lemma record_round_trip_witness :
  ParseEvent (encode_event {| Tgid := 7; FD := 1; Flags := 0; Data := go "hi" |} ++ [0; 0]) =
    Some {| Tgid := 7; FD := 1; Flags := 0; Data := go "hi" |}.
Proof. apply (record_round_trip {| Tgid := 7; FD := 1; Flags := 0; Data := go "hi" |} [0; 0]); split; vm_compute; done. Defined.

#[local] Existing Instances run_unicode run_time run_compiler.

Definition demo_record (data : gostring) : Event := {| Tgid := 7; FD := 1; Flags := 0; Data := data |}.

Definition demo_ticks : list agentTick :=
  [TickRecord (demo_record (go "user bob ")) 0; TickFlush 1; TickRecord (demo_record (go "pw=abc" ++ [newline] ++ go "bye")) 1; TickSummary None].

Definition demo_run_end : option agentState := Eval vm_compute in agent_main small_state 2 (newBaselineStats 100) demo_ticks [] 3.

Lemma agent_audits_everything_witness :
  exists s, demo_run_end = Some s /\ au_lines (ag_auditor s) = 2 /\ au_wouldRedact (ag_auditor s) = 1 /\
    sent_bytes (7, 1) (lines (ag_asm s)) = go "user bob pw=abc" ++ [newline] ++ go "bye".
Proof.
  pose proof (agent_audits_everything small_state 2 (newBaselineStats 100) demo_ticks [] 3) as H.
  assert (agent_main small_state 2 (newBaselineStats 100) demo_ticks [] 3 = demo_run_end) as E by (vm_compute; reflexivity).
  rewrite E in H. eexists. split; [reflexivity|]. split; [reflexivity|]. split; [reflexivity|].
  destruct H as [H _]; [repeat constructor; cbn; lia|constructor|]. exact (H (7, 1)).
Defined.
