(* ===== verification/ServiceTheorems.v ===== *)
(** * The theorems about counters, reports and limits

    What a cluster counts, what its operator reports, what the panel shows; the rate limits. *)

From Stdlib Require Import ZArith Lia Bool SpecFloat.
From stdpp Require Import base list option sets fin_maps gmap.
From S2P Require Import Prelude GoStrings Sha256 Regex Float64 Config Tokens JsonString Machine Engine Redaction.
From S2P Require Import Scanner ScannerProofs ConfigSources Signing RulesStore RulesServer StoredTime Reports.
From S2P Require Import RulesPanel OperatorStats Accounts Limits Auth RulesApi RulesStoreProofs AccountsProofs.
From S2P Require Import ReporterProofs PanelProofs Instances RulesTheorems AccountTheorems.

Section stats.
Context `{GoDecoders}.

(** C24: The reports of a policy say no more than its sidecars counted, and nothing is said twice.  Take any passes from the
    first one: pods come, go and restart, lists and scrapes fail, the receiver refuses; pods have distinct UIDs, the
    counter's values are whole numbers below 2^53, it is one the reports show (findings only in audit mode), and what
    was counted is below 2^53.  Then the reports accepted so far and the open window add up to at most the growth of
    each pod from every read of it to its next read ([pods_counted]), and to exactly that if no pod is left out between two
    reads of it ([gapless]; a pod that a pass could not read is forgotten, [failed_scrape_loses_counts]).  The windows are
    adjacent, from the first pass on, and at least a minute long.  Where no counter goes back, the growth is the
    last value read of each pod less its first. *)
Theorem reports_exact c t0 passes st rs :
  run_passes passes (new_state t0) = (st, rs) ->
  Forall (fun pw => shown c pw.1 = true) passes -> Forall (fun pw => distinct_pods pw.2) passes -> whole_reads c passes ->
  pods_counted c (reads_of <$> passes) < 2 ^ 53 ->
  (exists n, 0 <= n /\ held c (ps_acc st) = float_of_Z n /\ zsum (told c <$> rs) + n <= pods_counted c (reads_of <$> passes) /\
    (gapless ∅ ∅ (reads_of <$> passes) -> zsum (told c <$> rs) + n = pods_counted c (reads_of <$> passes))) /\
  windows t0 rs (ps_windowStart st) /\
  ((forall u, rising (pod_reads c (reads_of <$> passes) u)) ->
    pods_counted c (reads_of <$> passes) = zsum ((fun u => span (pod_reads c (reads_of <$> passes) u)) <$> pods_read (reads_of <$> passes))).
Proof.
  intros Hr Hs Hd Hw Hb. destruct (grown_le_counted c passes Hw Hd) as [Hle Heq].
  destruct (reports_total c t0 passes st rs Hr Hs Hd Hw) as (n & Hn & Hh & Hsum & _ & Hwin); [lia|]. split_and!; [|done|].
  - exists n. split_and!; [done|done|lia|]. intros Hg%Heq. lia.
  - intros Hup. unfold pods_counted. f_equal. apply list_fmap_ext. intros _ u _. by apply along_rising.
Qed.


(** The panel's summary of a cluster is grouping and summing: one entry per token, cluster name and policy, in the
    order of their newest reports; each with its newest report, the number of its reports, and the sums of their
    counters in [int64]. *)
Theorem clusters_exact set since db t :
  Forall (fun r => row_fits (r, [])) t ->
  summary_key <$> Clusters set since db t = keys_in_order (cluster_rows set (FormatTime since) db t) /\
  Forall (summarizes (cluster_rows set (FormatTime since) db t)) (Clusters set since db t).
Proof. intros Hf. by apply summarize_ok, rows_fit. Qed.

(** C25: From the sidecars to the panel.  Under the conditions of the reports (distinct UIDs, whole values, what was counted
    below 2^53), let the accepted reports of a policy be received with one token that had no reports of this cluster
    and policy before, among any other requests that leave its rows alone, all of them within the retention and the
    period asked for, with counts that fit [int64] sums.  Then the panel has one entry for the cluster's policy as soon as
    there is a report, and for each counter this entry and the operator's open window add up to at most what the pods
    counted between reads, and to exactly that if no pod is left out between two reads of it. *)
Theorem panel_exact c t0 passes st rs set k a nows a' since cutoff tr :
  run_passes passes (new_state t0) = (st, rs) ->
  Forall (fun pw => shown c pw.1 = true) passes -> Forall (fun pw => distinct_pods pw.2) passes -> whole_reads c passes ->
  pods_counted c (reads_of <$> passes) < 2 ^ 53 ->
  Forall (fun r => sr_Cluster r = k.1.2 /\ sr_Policy r = k.2) rs ->
  delivered set k a (zip nows rs) a' -> length nows = length rs -> mine set k (reports a) = [] ->
  Forall (fun now => cutoff <= now /\ now + second_ns <= cutoff + ReportRetention) nows -> since + second_ns <= cutoff ->
  tokens (base a') !! k.1.1 = Some tr -> Forall (fun r => row_fits (r, [])) (reports a') ->
  (rs <> [] -> exists s, s ∈ Clusters set since (base a') (reports a') /\ summary_key s = k) /\
  (forall s, s ∈ Clusters set since (base a') (reports a') -> summary_key s = k ->
    cs_reports s = Z.of_nat (length rs) /\
    exists n, 0 <= n /\ held c (ps_acc st) = float_of_Z n /\ panel c s + n <= pods_counted c (reads_of <$> passes) /\
      (gapless ∅ ∅ (reads_of <$> passes) -> panel c s + n = pods_counted c (reads_of <$> passes))).
Proof.
  intros Hr Hs Hd Hw Hb Hk Hdel Hlen Hmine Htimes Hsince Htok Hfit. destruct (grown_le_counted c passes Hw Hd) as [Hle Heq].
  destruct (reports_total c t0 passes st rs Hr Hs Hd Hw) as (n & Hn & Hh & Hsum & Hint & _); [lia|].
  destruct (panel_total set k a nows rs a' since cutoff tr) as [Hex Hval]; try done. split; [exact Hex|].
  intros s Hin Hks. destruct (Hval s Hin Hks) as [Hlr Hp]. split; [exact Hlr|]. exists n. rewrite Hp, Hint.
  split_and!; [done|done|lia|]. intros Hg%Heq. lia.
Qed.

End stats.

(** A report is stored only from a text that decodes, as a whole, to an acceptable report, and the row has its values; any other
    text changes at most the record of the token's last use. *)
Theorem stored_report_decodes Decode Allow now r text a rsp a' :
  stops Decode -> postReport Decode Allow now r text a = (rsp, a') ->
  (exists acc b t, tokenAccess Allow KindReport r (base a) = inr acc /\ Decode text = Value b /\ checkReport b = true /\
    AddReport now (report_of now acc b) (base a') (reports a) = inr t /\ status rsp = 204 /\ reports a' = t) \/
  (status rsp <> 204 /\ reports a' = reports a).
Proof.
  intros Hs. unfold postReport, receiveReport. destruct (tokenAccess Allow KindReport r (base a)) as [rsp0|acc] eqn:Ea.
  - intros [= <- <-]. right. split; [|done]. revert Ea. unfold tokenAccess. repeat case_match; by intros [= <-].
  - destruct (decodeLimit Decode maxReportBody text) as [code|b] eqn:Ed.
    + intros [= <- <-]. right. split; [|done]. revert Ed. unfold decodeLimit. repeat case_match; by intros [= <-].
    + apply decodeLimit_value in Ed; [|done]. destruct (checkReport b) eqn:Ec; [|intros [= <- <-]; by right]. cbn [negb].
      destruct (AddReport now _ _ _) as [e|t] eqn:Er; intros [= <- <-]; [by right|]. left. exists acc, b, t. by split_and!.
Qed.

(** A token's pulls are limited by themselves: in any interleaving of the pulls of all tokens each one gets the answers
    its own bucket gives to its own pulls. *)
Theorem token_limits_separate `{RateLimiter} fresh id events :
  (filter (fun a => a.1 = id) (token_answers fresh events ∅)).*2 = bucket_answers fresh (pulls_of id events).
Proof. by rewrite token_answers_own, lookup_empty. Qed.

Section limits.
Context `{RateLimiterLaws}.

(** Dropping idle buckets cannot be seen: with positive settings and a clock that does not go back, every sequence of
    requests, from any addresses, gets the answers it would get if no bucket were ever dropped. *)
Theorem pruning_unobservable t every burst events :
  0 < every -> 0 < burst -> in_order t events ->
  answers allow events (newKeyedLimiter every burst) = answers allow_keeping events (newKeyedLimiter every burst).
Proof. intros He Hb Ho. eapply answers_similar; [exact Ho|by apply new_similar]. Qed.

End limits.

Section preview.
Context `{RegexpCompiler} `{RT : GoRuntime} `{GoDecoders} `{ObjectJSON}.

Lemma preview_loop_ok st lines s :
  match preview_loop st lines s with
  | Ok out s' =>
    pl_In <$> out = lines /\ Forall (fun l => exists n, Redacts st n (pl_In l) (pl_Out l)) out /\
    Forall (fun l => pl_Changed l = true <-> pl_Out l <> pl_In l) out /\
    sb s' = sb s /\ (AdaptiveThreshold (config st) = false -> baseline s' = baseline s)
  | Panic s' =>
    (exists l, l ∈ lines /\ tame l = false) /\ sb s' = sb s /\ (AdaptiveThreshold (config st) = false -> baseline s' = baseline s)
  | NoFuel => False
  end.
Proof.
  revert s. induction lines as [|line lines IH]; intros s; [by repeat split|]. cbn [preview_loop].
  unfold mbind, M_bind. pose proof (ScanAndRedactText_spec st line s) as Hs. destruct (ScanAndRedactText st line s) as [out s1|s1|]; [| |done].
  - destruct Hs as (n & HR & Hsb & Hr). destruct (fed_frame _ _ _ (ran_fed _ _ _ _ _ _ Hr (fed_refl _ _))) as [_ Hb]. cbn in Hb.
    specialize (IH s1). destruct (preview_loop st lines s1) as [rest s2|s2|]; [| |done].
    + destruct IH as (G1 & G2 & G3 & G4 & G5). cbn. split_and!.
      * by rewrite G1.
      * constructor; [by eexists|done].
      * constructor; [|done]. cbn. rewrite negb_true_iff. apply str_eqb_neq.
      * congruence.
      * intros Ha. rewrite G5, Hb; done.
    + destruct IH as ((l & Hl & Ht) & G4 & G5). split_and!; [exists l; set_solver|congruence|intros Ha; rewrite G5, Hb; done].
  - destruct Hs as (Ht & Hsb & Hf). apply fed_frame in Hf as [_ Hb]. split_and!; [exists line; set_solver|done|done].
Qed.

(** A preview shows what the rules do and changes nothing.  It ends on all lines and panics only on one that is not
    tame; either way the process's adaptive baseline and the caller's builder stay as they were, so a preview learns
    nothing and teaches nothing.  An answer has the given lines in their order, each with a redacted form of it under the
    draft's or the published rules, marked as changed exactly when it is, and their number. *)
Theorem preview_safe r content lines text db s :
  match preview r content lines text db s with
  | Ok rep s' =>
    sb s' = sb s /\ baseline s' = baseline s /\
    (forall p, rp_page rep = Previewed p -> exists set c ls,
      set_of r db = inr set /\ preview_config (ID set) content db = inr (c, pv_Revision p) /\ previewLines lines text = inr ls /\
      pl_In <$> pv_Lines p = ls /\
      Forall (fun l => exists n, Redacts (NewScanner (preview_settings c)) n (pl_In l) (pl_Out l)) (pv_Lines p) /\
      Forall (fun l => pl_Changed l = true <-> pl_Out l <> pl_In l) (pv_Lines p) /\
      pv_Changed p = Z.of_nat (length (filter (fun l => pl_Changed l = true) (pv_Lines p))))
  | Panic s' =>
    sb s' = sb s /\ baseline s' = baseline s /\ exists ls l, previewLines lines text = inr ls /\ l ∈ ls /\ tame l = false
  | NoFuel => False
  end.
Proof.
  unfold preview. destruct (set_of r db) as [rsp|set] eqn:Es; [by repeat split|].
  destruct (previewLines lines text) as [code|ls] eqn:El; [by repeat split|].
  destruct (preview_config (ID set) content db) as [code|[c rev]] eqn:Ec; [by repeat split|].
  unfold mbind, M_bind. pose proof (preview_loop_ok (NewScanner (preview_settings c)) ls s) as Hl.
  destruct (preview_loop _ ls s) as [out s1|s1|]; [| |done].
  - destruct Hl as (G1 & G2 & G3 & G4 & G5). cbn. split; [done|]. split; [by apply G5|]. intros p [= <-]. cbn. by exists set, c, ls.
  - destruct Hl as ((l & Hl & Ht) & G4 & G5). split; [done|]. split; [by apply G5|]. eauto.
Qed.

End preview.

(** ** Witnesses *)

(** A token bucket in integers: the level in units of [1 / every] of a token, and the time it was counted at. *)
Record int_bucket := { ib_every : Z; ib_burst : Z; ib_level : Z; ib_at : Z; ib_fresh : bool }.

Definition ib_now (t : Z) (l : int_bucket) : Z :=
  if ib_fresh l then ib_every l * ib_burst l else Z.min (ib_every l * ib_burst l) (ib_level l + Z.max 0 (t - ib_at l)).

Definition run_limiter : RateLimiter := {|
  limiter := int_bucket;
  NewLimiter := fun e b => {| ib_every := e; ib_burst := b; ib_level := 0; ib_at := 0; ib_fresh := true |};
  AllowN := fun t l =>
    let level := ib_now t l in
    let ok := ib_every l <=? level in
    (ok, {| ib_every := ib_every l; ib_burst := ib_burst l; ib_level := if ok then level - ib_every l else level; ib_at := t; ib_fresh := false |}) |}.

Lemma run_limiter_used e b t l :
  0 < e -> 0 < b -> @used run_limiter e b t l -> ib_every l = e /\ ib_burst l = b /\ ib_fresh l = false /\ ib_at l = t /\ 0 <= ib_level l.
Proof.
  intros He Hb. induction 1 as [t|t t' l Hu IH Hle]; cbn.
  - repeat split; try done. destruct (Z.leb_spec e (e * b)); nia.
  - destruct IH as (E1 & E2 & Ef & E4 & Hl). repeat split; try done. unfold ib_now. rewrite Ef, E1, E2. cbn.
    assert (0 < e * b) by nia. destruct (Z.leb_spec e (Z.min (e * b) (ib_level l + Z.max 0 (t' - ib_at l)))); lia.
Qed.

#[local] Existing Instance run_limiter.

Lemma run_limiter_laws : RateLimiterLaws.
Proof.
  intros e b t t' l He Hb Hu Hi. destruct (run_limiter_used e b t l He Hb Hu) as (E1 & E2 & E3 & E4 & Hl).
  cbn. assert (ib_now t' l = e * b) as Hn by (unfold ib_now; rewrite E1, E2, E3, E4; nia). rewrite Hn, E1, E2. done.
Qed.

Lemma pruning_unobservable_witness :
  answers allow [(0, go "a"); (1, go "a"); (2, go "b"); (30, go "a")] (newKeyedLimiter 10 1) = [true; false; true; true].
Proof. rewrite (@pruning_unobservable run_limiter run_limiter_laws 0 10 1); [reflexivity|lia|lia|cbn; lia]. Defined.

(** A policy with one pod, read four times; the sidecar restarts before the third read, after which a report is due. *)
Definition run_numbers : GoDecoders := {|
  ParseFloat := fun s => float_of_Z <$> Atoi s; ParseDuration := fun _ => None; UnmarshalRules := fun _ => None;
  UnmarshalSDK := fun _ => None; UnmarshalPolicy := fun _ => None |}.

#[local] Existing Instance run_numbers.

Definition stats_policy : statsPolicy := {|
  sp_Namespace := go "ns"; sp_Name := go "default"; sp_IntervalSeconds := 300; sp_ClusterName := go "eu"; sp_AuditMode := false;
  sp_Remote := None; sp_Header := None; sp_CABundle := None |}.

Definition stats_pod : Pod := {|
  pod_UID := go "u1"; pod_Name := go "p"; pod_policy := []; pod_deleting := false; pod_running := true; pod_IP := go "10.0.0.1";
  pod_ports := [go "pii-metrics"] |}.

Definition stats_world (seconds : Z) (text : gostring) : statsWorld := {|
  sw_pods := inr [stats_pod]; sw_scrape := fun _ => Some text; sw_now := seconds * second_ns; sw_send := fun _ _ _ => None; sw_patched := true |}.

Definition metrics_text (lines redactions : gostring) : gostring :=
  go "piishield_processing_duration_seconds_count " ++ lines ++ [newline] ++
  go "piishield_redaction_events_total{type=" ++ [dquote] ++ go "card" ++ [dquote] ++ go "} " ++ redactions ++ [newline].

Definition demo_passes : list (statsPolicy * statsWorld) :=
  [(stats_policy, stats_world 30 (metrics_text (go "5") (go "1"))); (stats_policy, stats_world 60 (metrics_text (go "12") (go "3")));
   (stats_policy, stats_world 331 (metrics_text (go "4") (go "1"))); (stats_policy, stats_world 361 (metrics_text (go "6") (go "2")))].

Definition demo_end : policyState * list statsReport := Eval vm_compute in run_passes demo_passes (new_state 0).

Ltac whole_each :=
  intros pw l u s Hpw Hl Hin; repeat (apply elem_of_cons in Hpw as [->|Hpw]); try (by apply elem_of_nil in Hpw);
  vm_compute in Hl; injection Hl as <-; apply list_elem_of_singleton in Hin; injection Hin as -> ->; (split; [vm_compute; reflexivity|vm_compute; by split]).

Lemma demo_whole : whole_reads (Redacted (go "card")) demo_passes.
Proof. whole_each. Qed.

Ltac gapless_each := cbn [fmap list_fmap gapless]; vm_compute (reads_of _); cbn [gapless]; split_and!; set_solver.

Lemma demo_gapless : gapless ∅ ∅ (reads_of <$> demo_passes).
Proof. gapless_each. Qed.

Lemma reports_exact_witness :
  told (Redacted (go "card")) <$> demo_end.2 = [3] /\ windows 0 demo_end.2 (331 * second_ns) /\
  pods_counted (Redacted (go "card")) (reads_of <$> demo_passes) = 4 /\
  exists n, held (Redacted (go "card")) (ps_acc demo_end.1) = float_of_Z n /\ zsum [3] + n = 4.
Proof.
  destruct (reports_exact (Redacted (go "card")) 0 demo_passes demo_end.1 demo_end.2) as ((n & Hn & Hh & _ & Hs) & Hw & _).
  - vm_compute. reflexivity.
  - repeat constructor.
  - repeat constructor; set_solver.
  - exact demo_whole.
  - vm_compute. reflexivity.
  - split; [reflexivity|]. split; [exact Hw|]. split; [vm_compute; reflexivity|]. exists n. split; [exact Hh|exact (Hs demo_gapless)].
Defined.

(** Passes over a sidecar that only counts lines, for the report at the server. *)
Definition lines_text (lines : gostring) : gostring := go "piishield_processing_duration_seconds_count " ++ lines ++ [newline].

Definition lines_passes : list (statsPolicy * statsWorld) :=
  [(stats_policy, stats_world 30 (lines_text (go "5"))); (stats_policy, stats_world 331 (lines_text (go "12")))].

Definition lines_end : policyState * list statsReport := Eval vm_compute in run_passes lines_passes (new_state 0).

Lemma lines_whole c : whole_reads c lines_passes.
Proof. destruct c; whole_each. Qed.

Lemma lines_gapless : gapless ∅ ∅ (reads_of <$> lines_passes).
Proof. gapless_each. Qed.


(** A store with a token for reports, and that report received. *)
Definition stats_tables : Tables := Eval vm_compute in
  set_base (snd (createToken demo (replicate 24 2) (go "stats") KindReport demo_db)) emptyTables.

Definition stats_request : pullRequest := {|
  path_org := go "acme"; path_set := go "web"; authorization := go "Bearer pss_" ++ hex_encode (replicate 24 2);
  if_none_match := []; client_ip := [] |}.

Definition first_report : statsReport := Eval vm_compute in
  default (report_of_window stats_policy (new_state 0) 0) (head lines_end.2).

Definition stats_received : Tables := Eval vm_compute in
  snd (receiveReport (fun _ => true) (400 * second_ns) stats_request (inr (as_body first_report)) stats_tables).

Definition stats_key : cluster_key := (1%nat, go "eu", go "ns/default").

Lemma stats_opened :
  exists acc, tokenAccess (fun _ => true) KindReport stats_request (base stats_tables) = inr acc /\ ID (acc_set acc) = 0%nat /\ acc_id acc = 1%nat.
Proof. eexists. split; [vm_compute; reflexivity|]. split; reflexivity. Qed.

Lemma stats_delivered : delivered 0 stats_key stats_tables [(400 * second_ns, first_report)] stats_received.
Proof.
  destruct stats_opened as (acc & Ha & Hs & Hi). eapply delivered_report; [exact Ha|exact Hs|exact Hi| |constructor].
  vm_compute. reflexivity.
Qed.

Definition stats_summaries : list ClusterSummary := Eval vm_compute in Clusters 0 0 (base stats_received) (reports stats_received).

Lemma row_fits_no_counts r n : rp_redactions r = ∅ -> rp_audit_findings r = ∅ -> row_fits (r, n).
Proof. intros E1 E2 k. cbn. rewrite E1, E2. unfold count_at. rewrite lookup_empty. by vm_compute. Qed.

Lemma clusters_exact_witness : summary_key <$> stats_summaries = [stats_key] /\ cs_lines <$> stats_summaries = [7].
Proof.
  destruct (clusters_exact 0 0 (base stats_received) (reports stats_received)) as [Hk _].
  - constructor; [apply row_fits_no_counts; vm_compute; reflexivity|constructor].
  - split; [exact Hk|reflexivity].
Defined.

Lemma panel_exact_witness :
  exists s, s ∈ stats_summaries /\ summary_key s = stats_key /\ exists n, panel Lines s + n = 7 /\ held Lines (ps_acc lines_end.1) = float_of_Z n.
Proof.
  assert (exists tr, tokens (base stats_received) !! 1%nat = Some tr) as [tr Htr] by (eexists; reflexivity).
  destruct (panel_exact Lines 0 lines_passes lines_end.1 lines_end.2 0 stats_key stats_tables [400 * second_ns] stats_received 0
    (400 * second_ns) tr) as [Hex Hval].
  - vm_compute. reflexivity.
  - repeat constructor.
  - repeat constructor; set_solver.
  - apply lines_whole.
  - vm_compute. reflexivity.
  - constructor; [by split|constructor].
  - exact stats_delivered.
  - reflexivity.
  - reflexivity.
  - constructor; [by split; vm_compute|constructor].
  - by vm_compute.
  - exact Htr.
  - constructor; [apply row_fits_no_counts; vm_compute; reflexivity|constructor].
  - destruct Hex as (s & Hin & Hk); [done|]. exists s. split; [exact Hin|]. split; [exact Hk|].
    destruct (Hval s Hin Hk) as (_ & n & _ & Hh & _ & Hs). exists n. split; [|exact Hh].
    rewrite Hs; [vm_compute; reflexivity|exact lines_gapless].
Defined.
