(* ===== verification/CounterTheorems.v ===== *)
(** * The theorems about the metrics

    From the lines a sidecar reads, through the text of /metrics and the operator's
    reports, to the panel of the rule server. *)

From Stdlib Require Import ZArith Lia Bool SpecFloat.
From stdpp Require Import base list option sets fin_maps gmap.
From S2P Require Import Prelude GoStrings Sha256 Float64 Regex KeyMatcher Config Entropy Tokens Adaptive Machine Engine.
From S2P Require Import Redaction Scanner ConfigSources ConfigProofs ScannerProofs Output Stats Signing RulesStore RulesServer StoredTime Reports.
From S2P Require Import RulesPanel OperatorStats Accounts Auth RulesApi RulesStoreProofs AccountsProofs ReporterProofs PanelProofs.
From S2P Require Import Cleaner Metrics CleanerMain Instances RulesTheorems AccountTheorems SidecarTheorems ServiceTheorems.

(** ** Sidecars, read by the operator *)

Section fleet.
Context `{RT : GoRuntime} `{RC : RegexpCompiler} `{GD : GoDecoders} `{EX : Exposition} `{EL : !ExpositionLaws}.

(** What a process with metrics serves after a run from its start, in which [hs] happened: counts a double
    represents, and a revision in ASCII that fits a line. *)
Record served (Getenv : gostring -> gostring) (c : cleaner) (hs : list happening) (text : gostring) : Prop := {
  sv_run : exists args fresh fresh' now f c0 ins m,
    metricsEnabled Getenv = true /\ main_start Getenv args fresh fresh' now f = Some c0 /\
    main_run Getenv c0 ins = Some c /\ hs = main_seen Getenv c0 ins /\ c_metrics c = Some m /\ text = Expose m;
  sv_seen : Z.of_nat (length hs) < 2 ^ 53;
  sv_reports : all_reports hs < 2 ^ 53;
  sv_revision : Forall (fun b => b < 128) (revision (s_reloader (c_sidecar c))) /\ len (revision (s_reloader (c_sidecar c))) <= 2 ^ 18;
}.

Lemma read_counter k m : metrics_ok m -> value k (parse (Expose m)) = float_of_Z (metric_of k m).
Proof.
  intros Hm. destruct k as [| |x|x]; cbn [value metric_of].
  - by apply read_lines.
  - by apply read_errors.
  - rewrite read_redactions, lookup_fmap by done. by destruct (RedactionEventsTotal m !! x).
  - rewrite read_findings, lookup_fmap by done. by destruct (AuditFindingsTotal m !! x).
Qed.

Lemma served_metrics Getenv c hs text : served Getenv c hs text ->
  exists m, text = Expose m /\ metrics_ok m /\ metered Getenv c hs m.
Proof.
  intros [(args & fresh & fresh' & now & f & c0 & ins & m & Hen & Hst & Hr & -> & Hm & ->) Hl Hrep [Ha Hlen]]. exists m.
  destruct (main_start_metered Getenv _ _ _ _ _ _ Hen Hst) as (m0 & Hm0 & Hc0).
  destruct (main_run_metered Getenv _ _ _ _ _ Hr Hm0 Hc0) as (m' & Hm' & Hc). rewrite Hm in Hm'. injection Hm' as <-.
  split_and!; [done| |exact Hc]. eapply bounded_ok; [apply Hc|done|done|]. intros rev n Hn.
  destruct (mt_revision _ _ _ _ Hc) as [E|E]; rewrite E in Hn; [by rewrite lookup_empty in Hn|by apply lookup_singleton_Some in Hn as [<- _]].
Qed.

Lemma metric_range k m : metrics_ok m -> 0 <= metric_of k m < 2 ^ 53.
Proof.
  intros Hm. destruct k as [| |x|x]; cbn [metric_of]; [apply Hm..| |].
  - destruct (RedactionEventsTotal m !! x) eqn:E; cbn; [apply (mo_redactions _ Hm) in E; lia|lia].
  - destruct (AuditFindingsTotal m !! x) eqn:E; cbn; [apply (mo_findings _ Hm) in E; lia|lia].
Qed.

Lemma served_counts Getenv k c hs text :
  served Getenv c hs text -> whole k (parse text) /\ count k (parse text) = occurred Getenv k hs.
Proof.
  intros (m & -> & Hok & Hc)%served_metrics. pose proof (metric_range k m Hok).
  assert (count k (parse (Expose m)) = metric_of k m) as E by (unfold count; by rewrite read_counter, trunc64_int).
  unfold whole. rewrite E. split; [|apply (mt_counts _ _ _ _ Hc)]. split; [by apply read_counter|done].
Qed.

Lemma served_state Getenv c hs text : served Getenv c hs text ->
  s_audit (parse text) = auditMode (read_settings Getenv) /\
  (s_haveRevision (parse text) = true -> s_revision (parse text) = revision (s_reloader (c_sidecar c))).
Proof.
  intros (m & -> & Hok & Hc)%served_metrics. split.
  - rewrite read_mode, (bd_mode _ _ _ _ (mt_bounded _ _ _ _ Hc)) by done. by destruct (auditMode _).
  - destruct (read_revision m Hok) as [He Hone]. destruct (mt_revision _ _ _ _ Hc) as [E|E]; [by rewrite He|]. intros _. by apply (Hone _ E).
Qed.

(** The sidecars of a policy at one read: each pod with what happened in its sidecar so far. *)
Definition fleet : Type := list (gostring * list happening).

Context (Getenv : gostring -> gostring).

(** A pod is read as its sidecar served; every sidecar has an environment of its own, with the mode of the policy. *)
Definition read_as (x : gostring * sample) (y : gostring * list happening) : Prop :=
  x.1 = y.1 /\ exists env c text, auditMode (read_settings env) = auditMode (read_settings Getenv) /\ served env c y.2 text /\ x.2 = parse text.

Lemma occurred_mode env k hs : auditMode (read_settings env) = auditMode (read_settings Getenv) -> occurred env k hs = occurred Getenv k hs.
Proof.
  intros E. unfold occurred. f_equal. apply list_fmap_ext. intros _ h _. destruct h as [l|]; [|done]. cbn. unfold occurs. by rewrite E.
Qed.

Lemma read_as_counts k x y : read_as x y -> whole k x.2 /\ count k x.2 = occurred Getenv k y.2.
Proof.
  intros [_ (env & c & text & He & Hs & ->)]. destruct (served_counts env k _ _ _ Hs) as [? E]. split; [done|]. by rewrite E, (occurred_mode env).
Qed.

(** What happened in a pod up to each read of it. *)
Definition pod_logs (fs : list (option fleet)) (u : gostring) : list (list happening) :=
  omap (fun o => l ← o; (list_to_map l : gmap gostring (list happening)) !! u) fs.

(** Without a restart each goes on where the one before ended. *)
Fixpoint extending (l : list (list happening)) : Prop :=
  match l with
  | a :: ((b :: _) as l') => a `prefix_of` b /\ extending l'
  | _ => True
  end.

(** What happened in each pod from the first read of it to the last. *)
Definition happened_between (k : counter) (fs : list (option fleet)) : Z :=
  zsum ((fun u => span (occurred Getenv k <$> pod_logs fs u)) <$> pods_read fs).

Definition history_as : list (option (list (gostring * sample))) -> list (option fleet) -> Prop :=
  Forall2 (option_Forall2 (Forall2 read_as)).

Lemma read_as_uids l f : Forall2 read_as l f -> l.*1 = f.*1.
Proof. induction 1 as [|x y l f [E _] _ IH]; [done|]. cbn. by rewrite E, IH. Qed.

Lemma history_uids h fs : history_as h fs -> uids_of <$> h = uids_of <$> fs.
Proof. induction 1 as [|o o' h fs Ho _ IH]; [done|]. cbn. rewrite IH. f_equal. destruct Ho; [by apply read_as_uids|done]. Qed.

Lemma history_pods h fs : history_as h fs -> pods_read h = pods_read fs.
Proof. intros E%history_uids. unfold pods_read. by rewrite E. Qed.

Lemma history_gapless h fs read gone : history_as h fs -> gapless read gone fs -> gapless read gone h.
Proof.
  intros Hh. revert read gone. induction Hh as [|o o' h fs Ho _ IH]; intros read gone; [done|].
  destruct Ho as [l f Hl|]; cbn [gapless]; [|apply IH]. rewrite (read_as_uids l f Hl). intros [? ?]. split; [done|]. by apply IH.
Qed.

Lemma read_as_lookup k l f u : Forall2 read_as l f ->
  counts_of k l !! u = occurred Getenv k <$> (list_to_map f : gmap gostring (list happening)) !! u.
Proof.
  unfold counts_of. induction 1 as [|[v x] [v' hs] l f Hxy _ IH]; [done|].
  destruct (read_as_counts k _ _ Hxy) as [_ E]. destruct Hxy as [Ev _]. cbn in Ev, E. subst v'.
  cbn [fmap list_fmap list_to_map]. cbn. destruct (decide (u = v)) as [->|Hne].
  - rewrite !lookup_insert_eq. cbn. by rewrite E.
  - rewrite !lookup_insert_ne by done. exact IH.
Qed.

Lemma history_reads k h fs u : history_as h fs -> pod_reads k h u = occurred Getenv k <$> pod_logs fs u.
Proof.
  induction 1 as [|o o' h fs Ho _ IH]; [done|]. unfold pod_reads, pod_logs in *. cbn [omap list_omap].
  destruct Ho as [l f Hl|]; [|exact IH]. cbn [value_in mbind option_bind]. rewrite (read_as_lookup k l f u Hl).
  destruct ((list_to_map f : gmap gostring (list happening)) !! u); cbn; by rewrite ?IH.
Qed.

Lemma extending_rising k l : extending l -> rising (occurred Getenv k <$> l).
Proof.
  induction l as [|a [|b l] IH]; [done|done|]. intros [Hp He]. split; [by apply occurred_prefix|by apply IH].
Qed.

(** What the operator could count over the reads is what happened in between. *)
Lemma fleet_counted k h fs :
  history_as h fs -> (forall u, extending (pod_logs fs u)) -> pods_counted k h = happened_between k fs.
Proof.
  intros Hh He. unfold pods_counted, happened_between. rewrite (history_pods h fs Hh). f_equal. apply list_fmap_ext. intros _ u _.
  rewrite (history_reads k h fs u Hh). by apply along_rising, extending_rising.
Qed.

Lemma fleet_whole k passes fs : history_as (reads_of <$> passes) fs -> whole_reads k passes.
Proof.
  intros Hf pw l u x Hin Hl Hx.
  apply (list_elem_of_fmap_2 reads_of) in Hin. rewrite Hl in Hin. apply list_elem_of_lookup in Hin as [i Hi].
  destruct (Forall2_lookup_l _ _ _ _ _ Hf Hi) as (o & _ & Ho). inversion Ho as [? f Hlf|]; subst. apply list_elem_of_lookup in Hx as [j Hj].
  destruct (Forall2_lookup_l _ _ _ _ _ Hlf Hj) as (y & _ & Hxy). by apply (read_as_counts k _ _ Hxy).
Qed.
End fleet.

Section counters.
Context `{RT : GoRuntime} `{RC : RegexpCompiler} `{GD : GoDecoders} `{EX : Exposition} `{EL : !ExpositionLaws} (Getenv : gostring -> gostring).
Notation cfg := (read_settings Getenv).

(** C26: Metrics tell the operator what happened in a sidecar.  Take a process with metrics on after any inputs: lines from its
    source, streams that end or break, checks of the policy file, flushes, summaries, signals.  The lines it saw are
    the lines that came in; each was scanned or panicked, and errors are the panicked lines and the streams that broke.
    For as long as it saw fewer than 2^53 lines and breaks with fewer than 2^53 reports, and the revision of its rules is
    ASCII of at most 2^18 bytes, the operator's parser reads from the text of /metrics exactly these numbers, for each
    detector how often it reported, as redactions or, in audit mode, as findings; the mode; and, if it reads a
    revision, the revision of the rules in force. *)
Theorem sidecar_counts_read args fresh fresh' now f c0 ins c :
  metricsEnabled Getenv = true -> main_start Getenv args fresh fresh' now f = Some c0 -> main_run Getenv c0 ins = Some c ->
  let hs := main_seen Getenv c0 ins in
  exists m, c_metrics c = Some m /\ sn_text <$> lines_in hs = input_lines ins /\
    occurred Getenv Lines hs + panicked hs = Z.of_nat (length (input_lines ins)) /\
    occurred Getenv Errors hs = panicked hs + broken_streams ins /\
    (Z.of_nat (length hs) < 2 ^ 53 -> all_reports hs < 2 ^ 53 ->
     let rev := revision (s_reloader (c_sidecar c)) in
     Forall (fun b => b < 128) rev -> len rev <= 2 ^ 18 ->
     let read := parse (Expose m) in
     (forall k, whole k read /\ count k read = occurred Getenv k hs) /\ s_audit read = auditMode cfg /\
     (s_haveRevision read = true -> s_revision read = rev)).
Proof.
  intros Hen Hst Hr hs. destruct (main_start_metered Getenv _ _ _ _ _ _ Hen Hst) as (m0 & Hm0 & Hc0).
  destruct (main_run_metered Getenv _ _ _ _ _ Hr Hm0 Hc0) as (m & Hm & _). exists m.
  destruct (main_seen_inputs Getenv c0 ins c Hr) as [Ht Hb]. destruct (lines_and_errors Getenv hs) as (H1 & H2 & _).
  split_and!; [exact Hm|exact Ht|rewrite H1, <-Ht; by rewrite length_fmap|rewrite H2; unfold hs; by rewrite Hb|].
  intros Hl Hrep rev Ha Hrev read.
  assert (served Getenv c hs (Expose m)) as Hsv by (split; [by exists args, fresh, fresh', now, f, c0, ins, m|done..]).
  split; [intros k; by apply (served_counts Getenv k _ _ _ Hsv)|]. by apply (served_state Getenv _ _ _ Hsv).
Qed.

End counters.

(** ** Witnesses *)

#[local] Existing Instances run_unicode run_time run_compiler run_numbers.

(** A registry that writes whole numbers in decimal, one line per series. *)
Definition run_exposition : Exposition :=
  let EX := {| FormatFloat := fun x => decimal (trunc64 x); Expose := fun _ => [] |} in
  {| FormatFloat := fun x => decimal (trunc64 x); Expose := fun m => concat ((fun x => @series_line EX x ++ [newline]) <$> registered m) |}.

#[local] Existing Instance run_exposition.

Lemma decimal_loop_word f n acc :
  Forall (fun c => 32 < c < 127 /\ c <> ch "{") acc ->
  Forall (fun c => 32 < c < 127 /\ c <> ch "{") (decimal_loop f n acc) /\ (length (decimal_loop f n acc) <= f + length acc)%nat.
Proof.
  revert n acc. induction f as [|f IH]; intros n acc Ha; [by split|]. cbn [decimal_loop].
  assert (Forall (fun c => 32 < c < 127 /\ c <> ch "{") ((48 + n mod 10) :: acc)) as Hc.
  { constructor; [|done]. pose proof (Z.mod_pos_bound n 10). change (ch "{") with 123. lia. }
  case_match; [split; [done|cbn; lia]|]. destruct (IH (n / 10) _ Hc) as [? Hl]. split; [done|]. cbn in Hl. lia.
Qed.

Lemma run_exposition_laws : ExpositionLaws.
Proof.
  split.
  - intros n Hn. change (float_of_Z <$> Atoi (decimal (trunc64 (float_of_Z n))) = Some (float_of_Z n)). rewrite trunc64_int by done.
    pose proof (Atoi_FormatInt n) as Ha. unfold FormatInt, Signing.int64 in Ha.
    rewrite (proj2 (Z.ltb_ge n 0)) in Ha by lia. by rewrite Ha by lia.
  - intros x. change (FormatFloat x) with (decimal (trunc64 x)). generalize (trunc64 x). intros k.
    destruct (decimal_loop_word 20 k []) as [Hw Hl]; [constructor|]. fold (decimal k) in Hw, Hl. rewrite Nat.add_0_r in Hl.
    pose proof (decimal_nonempty k) as Hne. split_and!; [|lia|done]. intros E. rewrite E in Hne. by apply Nat.lt_irrefl in Hne.
  - intros m. exists (series_line <$> registered m), []. split_and!; [|by rewrite app_nil_r|constructor].
    unfold Expose. cbn [run_exposition]. by rewrite <-list_fmap_compose.
Qed.

#[local] Existing Instance run_exposition_laws.

(** A sidecar with metrics on a named pipe: one writer sends a line and its stream breaks, another connects. *)
Definition count_env (name : gostring) : gostring :=
  if str_eqb name (go "PII_METRICS_ENABLED") then go "true" else run_env [] name.

Definition count_args : list gostring := [go "pii-shield"; go "--watch-file"; go "/shared/log.pipe"].

Definition no_file : file_view := {| fv_stat := None; fv_content := None |}.

Definition count_started : option cleaner := main_start count_env count_args (go "r") (go "r") 0 no_file.

Definition piped_line : list input :=
  [InPoll true (Some ModeNamedPipe) false; InOpen true; InLine (go "pw=abc"); InEnd (Some true); InOpen true].

Definition from_start {A} (f : cleaner -> A) (d : A) : A := from_option f d count_started.

Definition ended (c : cleaner) : option cleaner := main_run count_env c piped_line.

Definition count_log : list happening := Eval vm_compute in from_start (fun c => main_seen count_env c piped_line) [].
Definition count_text : gostring := Eval vm_compute in from_start (fun c => from_option (fun c => from_option Expose [] (c_metrics c)) [] (ended c)) [].
Definition start_text : gostring := Eval vm_compute in from_start (fun c => from_option Expose [] (c_metrics c)) [].

(** The process before and after, with what the theorems ask of it. *)
Lemma count_runs : exists c0 c, count_started = Some c0 /\ main_run count_env c0 piped_line = Some c /\
  main_seen count_env c0 piped_line = count_log /\ revision (s_reloader (c_sidecar c0)) = [] /\ revision (s_reloader (c_sidecar c)) = [].
Proof.
  assert (is_Some count_started) as [c0 E0] by (eexists; vm_compute; reflexivity).
  assert (from_start (fun c => main_seen count_env c piped_line) [] = count_log) as Hlog by (vm_compute; reflexivity).
  assert (from_start (fun c => revision (s_reloader (c_sidecar c))) [ch "x"] = []) as Hr0 by (vm_compute; reflexivity).
  assert (from_start (fun c => from_option (fun c => revision (s_reloader (c_sidecar c))) [ch "x"] (ended c)) [ch "x"] = []) as Hr1 by (vm_compute; reflexivity).
  unfold from_start in *. rewrite E0 in *. cbn [from_option] in *. destruct (ended c0) as [c|] eqn:Ec; [|discriminate Hr1].
  exists c0, c. split_and!; try done.
Qed.

Lemma sidecar_counts_read_witness :
  exists c m, c_metrics c = Some m /\ count Lines (parse (Expose m)) = 1 /\ count Errors (parse (Expose m)) = 1 /\
    count (Redacted (go "key")) (parse (Expose m)) = 1 /\ s_audit (parse (Expose m)) = false.
Proof.
  destruct count_runs as (c0 & c & Hs & Hr & Hlog & _ & Hrev).
  destruct (sidecar_counts_read count_env count_args (go "r") (go "r") 0 no_file c0 piped_line c) as (m & Hm & _ & _ & _ & Hread);
    [reflexivity|exact Hs|exact Hr|].
  rewrite Hlog, Hrev in Hread.
  destruct Hread as (Hc & Ha & _); [vm_compute; reflexivity|vm_compute; reflexivity|constructor|discriminate|].
  exists c, m. split; [exact Hm|]. split; [rewrite (proj2 (Hc _)); reflexivity|]. split; [rewrite (proj2 (Hc _)); reflexivity|].
  split; [rewrite (proj2 (Hc _)); reflexivity|exact Ha].
Defined.

(** A pod whose sidecar is read before and after that, and the report of it received. *)
Definition counted_passes : list (statsPolicy * statsWorld) :=
  [(stats_policy, stats_world 30 start_text); (stats_policy, stats_world 331 count_text)].

Definition counted_end : policyState * list statsReport := Eval vm_compute in run_passes counted_passes (new_state 0).

Definition counted_report : statsReport := Eval vm_compute in
  default (report_of_window stats_policy (new_state 0) 0) (head counted_end.2).

Definition counted_received : Tables := Eval vm_compute in
  snd (receiveReport (fun _ => true) (400 * second_ns) stats_request (inr (as_body counted_report)) stats_tables).

Lemma counted_delivered : delivered 0 stats_key stats_tables [(400 * second_ns, counted_report)] counted_received.
Proof.
  destruct stats_opened as (acc & Ha & Hs & Hi). eapply delivered_report; [exact Ha|exact Hs|exact Hi| |constructor].
  vm_compute. reflexivity.
Qed.

Definition count_fleets : list (option fleet) := [Some [(go "u1", [])]; Some [(go "u1", count_log)]].

(** What the pod served at the start and after the run. *)
Lemma start_served : exists c, served count_env c [] start_text.
Proof.
  destruct count_runs as (c0 & _ & Hs & _ & _ & Hrev & _).
  assert (from_start (fun c => from_option Expose [] (c_metrics c)) [] = start_text) as Ht by (vm_compute; reflexivity).
  assert (from_start (fun c => bool_decide (is_Some (c_metrics c))) false = true) as Hm by (vm_compute; reflexivity).
  unfold from_start in *. rewrite Hs in *. cbn [from_option] in *. apply bool_decide_eq_true in Hm as [m Hm].
  exists c0. split; [|reflexivity|reflexivity|rewrite Hrev; split; [constructor|discriminate]].
  exists count_args, (go "r"), (go "r"), 0, no_file, c0, [], m. rewrite Hm in Ht. by split_and!.
Qed.

Lemma count_served : exists c, served count_env c count_log count_text.
Proof.
  destruct count_runs as (c0 & c & Hs & Hr & Hlog & _ & Hrev).
  assert (from_start (fun c => from_option (fun c => from_option Expose [] (c_metrics c)) [] (ended c)) [] = count_text) as Ht by (vm_compute; reflexivity).
  assert (from_start (fun c => from_option (fun c => bool_decide (is_Some (c_metrics c))) false (ended c)) false = true) as Hm by (vm_compute; reflexivity).
  unfold from_start, ended in *. rewrite Hs in *. cbn [from_option] in *. rewrite Hr in *. cbn [from_option] in *. apply bool_decide_eq_true in Hm as [m Hm].
  exists c. split; [|reflexivity|reflexivity|rewrite Hrev; split; [constructor|discriminate]].
  exists count_args, (go "r"), (go "r"), 0, no_file, c0, piped_line, m. rewrite Hm in Ht. by split_and!.
Qed.

Lemma counted_reads : history_as count_env (reads_of <$> counted_passes) count_fleets.
Proof.
  assert (forall t text, reads_of (stats_policy, stats_world t text) = Some [(go "u1", parse text)]) as Hr by reflexivity.
  unfold counted_passes, count_fleets. cbn [fmap list_fmap]. rewrite !Hr. destruct count_served as [c Hc], start_served as [c0 Hc0].
  constructor; [|constructor; [|constructor]]; (constructor; constructor; [|constructor]); (split; [reflexivity|]).
  - exists count_env, c0, start_text. by split_and!.
  - exists count_env, c, count_text. by split_and!.
Qed.

Lemma count_extending u : extending (pod_logs count_fleets u).
Proof.
  unfold pod_logs, count_fleets. cbn [omap list_omap mbind option_bind]. cbn [list_to_map fst snd].
  destruct (decide (u = go "u1")) as [->|Hne].
  - cbn. rewrite !lookup_insert_eq. cbn. split; [apply prefix_nil|done].
  - cbn. rewrite !lookup_insert_ne, !lookup_empty by done. done.
Qed.

Definition counted_summaries : list ClusterSummary := Eval vm_compute in Clusters 0 0 (base counted_received) (reports counted_received).

Lemma counted_row_fits : Forall (fun r => row_fits (r, [])) (reports counted_received).
Proof.
  assert (forall (k k' : gostring) (n : Z), - 2 ^ 63 <= n < 2 ^ 63 -> - 2 ^ 63 <= count_at k' ({[k := n]} : gmap gostring Z) < 2 ^ 63) as Hone.
  { intros k k' n Hn. unfold count_at. rewrite lookup_singleton. case_decide; cbn; lia. }
  constructor; [|constructor]. intros k. split; [apply (Hone (go "key") k 1); lia|]. change (- 2 ^ 63 <= count_at k ∅ < 2 ^ 63).
  unfold count_at. rewrite lookup_empty. cbn. lia.
Qed.

Lemma count_gapless : gapless ∅ ∅ count_fleets.
Proof. unfold count_fleets. cbn [gapless fmap list_fmap fst]. split_and!; set_solver. Qed.

