(* ===== verification/OperatorTheorems.v ===== *)
(** * The theorems about signed remote rules in the operator

    What a signature binds, how the operator's reading of a file compares with the
    sidecar's, and what a run of reconciles keeps. *)

From Stdlib Require Import ZArith Lia Bool SpecFloat.
From stdpp Require Import base list option sets.
From S2P Require Import Prelude GoStrings Sha256 Float64 Regex KeyMatcher Config Tokens JsonString Engine Scanner.
From S2P Require Import ConfigSources ConfigProofs Stats PairProofs Base64 Signing PolicyFile RemoteSync RemoteClient.
From S2P Require Import Instances.

(** A signed text binds the set, the publication number, the revision and the hash of
    the file: two statements with the same text are the same.  (The names of sets hold no
    newline, and the numbers are 64-bit.) *)
Theorem statement_binds set pub rev content set' pub' rev' content' :
  no_newline set -> no_newline set' -> int64 pub -> int64 pub' -> int64 rev -> int64 rev' ->
  Text (For set pub rev content) = Text (For set' pub' rev' content') ->
  set = set' /\ pub = pub' /\ rev = rev' /\ sha256 content = sha256 content'.
Proof. apply Text_For_inj. Qed.

(** A public key printed by the server is read back by the server and by the
    operator, under the same id. *)
Theorem public_key_round_trip k :
  Forall is_byte k -> length k = PublicKeySize ->
  ParsePublicKey (FormatPublicKey k) = Some k /\
  ParseTrustedKeys [FormatPublicKey k] = Some [{| tk_ID := SigningKeyID k; tk_Key := k |}].
Proof.
  intros Hk Hl. pose proof (ParsePublicKey_format k Hk Hl) as Hp. split; [done|].
  unfold ParseTrustedKeys. simpl mapM. rewrite parse_trusted_key_eq, Hp. done.
Qed.

(** The operator and the sidecar read a policy file alike: the sidecar accepts a file
    exactly when the operator does and the file's sensitive key patterns also compile as
    one expression, which the operator does not try. *)
Theorem parsers_agree `{RegexpCompiler} `{Unicode} `{GoDecoders} b :
  (exists cfg, ParsePolicyJSON b = inr cfg) <->
  (exists doc, ParseRemote b = inr doc) /\
  (forall pf, UnmarshalPolicy b = Some pf ->
    is_Some (compileSensitiveKeyPatterns (clean_patterns (SDK.SensitiveKeyPatterns (pfConfig pf))))).
Proof. apply ParseRemote_agrees. Qed.

Section reconciles.
Context `{RegexpCompiler} `{Unicode} `{GoDecoders} `{Ed25519} `{Float32}.
Context (UnmarshalSignature : gostring -> option SignatureFile) (Encode : Document -> gostring).

(** Only signed rules are applied.  With signatures required, after any sequence of
    pulls and whatever the network answered, a remote file in the ConfigMap is valid, was
    signed by a key of the policy for the policy's set, and the rendered policy is this
    file under the local rules. *)
Theorem remote_rules_authentic rc p keys set sigURL ws cm raw :
  JsonLaws UnmarshalSignature -> signature_settings rc = Some (Some (keys, set, sigURL)) ->
  snd (reconciles UnmarshalSignature Encode rc p ws) = Some cm -> cm_remote cm = Some raw ->
  exists doc ign v, ParseRemote raw = inr (doc, ign) /\ cm_policy cm = Encode (Merge doc p) /\ authentic keys set raw v.
Proof.
  intros Hl Hs Hcm Hr. pose proof (reconciles_ok UnmarshalSignature Encode Hl rc p keys set sigURL Hs ws) as Hok.
  rewrite Hcm in Hok. unfold state_ok in Hok. rewrite Hr in Hok.
  destruct Hok as (doc & ign & etag & v & Hp & _ & Hpol & Ha & _). by exists doc, ign, v.
Qed.

(** Rules never go back while the policy and its keys stay and signatures are required: one
    more reconcile never lowers the publication number the operator stands at, and one
    whose pull fails, for whatever reason, leaves the remote file and the rendered policy as
    they were.  Another set of keys can lower it, see [rotation_forgets_floor]. *)
Theorem remote_rules_never_go_back rc p keys set sigURL ws w :
  JsonLaws UnmarshalSignature -> signature_settings rc = Some (Some (keys, set, sigURL)) ->
  let st := reconciles UnmarshalSignature Encode rc p ws in
  let st' := reconciles UnmarshalSignature Encode rc p (ws ++ [w]) in
  floor keys (snd st) <= floor keys (snd st') /\
  (ro_reason (syncRemote UnmarshalSignature rc (fst st) (snd st) w) <> None ->
   forall cm, snd st = Some cm -> cm_remote cm <> None ->
   exists cm', snd st' = Some cm' /\ cm_remote cm' = cm_remote cm /\ cm_policy cm' = cm_policy cm).
Proof.
  intros Hl Hs. pose proof (reconciles_ok UnmarshalSignature Encode Hl rc p keys set sigURL Hs ws) as Hok. simpl.
  assert (reconciles UnmarshalSignature Encode rc p (ws ++ [w]) =
    reconcile UnmarshalSignature Encode rc p (reconciles UnmarshalSignature Encode rc p ws) w) as ->
    by (unfold reconciles; by rewrite foldl_snoc).
  split; [by eapply reconcile_ok|]. intros Hr cm Hcm Hc. by eapply failed_pull_keeps.
Qed.

(** ** Findings *)

(** When the last signer leaves the list of keys and the next pull fails, the ConfigMap
    forgets the file and its number: back under the old keys the operator stands at 0. *)
Theorem rotation_forgets_floor rc p old new set sigURL status cm w :
  signature_settings rc = Some (Some (new, set, sigURL)) ->
  trusted new (default [] (cm_signed_by cm)) = false ->
  ro_reason (syncRemote UnmarshalSignature rc status (Some cm) w) <> None ->
  floor old (snd (reconcile UnmarshalSignature Encode rc p (status, Some cm) w)) = 0.
Proof.
  intros Hs Ht Hr. assert (last_good (Some new) (Some cm) = None) as Hl.
  { unfold last_good. simpl. destruct (cm_remote cm); [|done]. simpl. repeat case_match; congruence. }
  unfold reconcile. cbn [fst snd].
  destruct (syncRemote_cases UnmarshalSignature rc new set sigURL Hs status (Some cm) w)
    as [[r E]|[(? & ? & ? & ? & E & _)|(? & ? & ? & ? & ? & ? & _ & _ & E)]].
  - rewrite E, Hl. done.
  - by rewrite Hl in E.
  - by rewrite E in Hr.
Qed.

(** The server trims the space around a signature, the operator does not: it refuses the
    same signature with a space in front. *)
Theorem padded_signature_refused pk st s sigBody sf body set keys key minPublication :
  UnmarshalSignature sigBody = Some sf -> sf_Signature sf = ch " " :: s -> find_key keys (sf_KeyID sf) = Some key ->
  VerifyStatement pk st (ch " " :: s) = VerifyStatement pk st s /\
  CheckSignature UnmarshalSignature sigBody body set keys minPublication = inl SignatureInvalid.
Proof.
  intros Hu Hsig Hk. split; [unfold VerifyStatement; by rewrite TrimSpace_space|].
  unfold CheckSignature. rewrite Hu, Hk, Hsig. by rewrite b64_decode_space.
Qed.

End reconciles.

(** C40: What the operator sends, whatever the network answers.  A pull makes at most five requests, redirects included, all of them GETs
    without a body that carry the policy's Authorization and ETag or less, over https unless the policy allows http; certificates
    are checked against the policy's bundle, or the system's roots without one, unless it allows insecure ones.  A file it
    accepts is the whole body of a 200 reply and fits the limit; that nothing changed is accepted only for the copy that was
    asked about.  A report is posted at most once, under the same rules, and succeeds exactly with a 2xx reply. *)
Theorem client_confined `{Unicode} `{HttpLibrary} net src body :
  let confined r := scheme_of (req_url r) = Some HTTPS \/ (scheme_of (req_url r) = Some HTTP /\ src_AllowInsecure src = true) in
  (forall tls, newTransport src = Some tls -> InsecureSkipVerify tls = src_AllowInsecure src /\
    RootCAs tls = (if is_empty (src_CABundle src) then None else Some (src_CABundle src))) /\
  (let '(sent, res) := pull net src in
   (length sent <= 5)%nat /\ Forall (fun r => confined r /\ derived (get_request src) r) sent /\
   forall ok, res = inr ok -> exists rep, replied net src sent rep /\
     ((rep_status rep = 200 /\ ok = NewBody (rep_body rep) (rep_etag rep) /\ Z.of_nat (length (rep_body rep)) <= RemoteMaxBytes) \/
      (rep_status rep = 304 /\ ok = NotModified (src_ETag src) /\ src_ETag src <> []))) /\
  (let '(sent, err) := Post net src body in
   (length sent <= 1)%nat /\
   Forall (fun r => confined r /\ req_body r = Some body /\ req_url r = src_URL src /\ req_authorization r = src_Authorization src) sent /\
   (err = None <-> exists rep, replied net src sent rep /\ 200 <= rep_status rep <= 299)).
Proof.
  split; [apply newTransport_checks|]. split.
  - unfold pull. pose proof (get_sent net src) as Hg. destruct (get net src) as [sent ans]. destruct Hg as (Hl & Hf & Ha).
    split_and!; [exact Hl|eapply Forall_impl; [exact Hf|]; intros r [Hr Hd]; split; [by apply (allowed_https src)|done]|].
    intros ok Hok. destruct (fetch_results _ _ _ _ _ Hok) as (status & tag & content & E & Hcases).
    destruct (Ha _ E) as (rep & Hrep & [= -> -> ->]). by exists rep.
  - unfold Post. destruct (checkURL _ _) eqn:Eu; [split_and!; [cbn; lia|constructor|]; split; [done|]; by intros (? & (? & ? & _ & ? & _) & _)|].
    destruct (newTransport src) as [tls|] eqn:Et; [|split_and!; [cbn; lia|constructor|]; split; [done|]; by intros (? & (? & ? & _ & ? & _) & _)].
    set (req := {| req_method := _ |}). split_and!; [cbn; lia|constructor; [|constructor]; split_and!; try done; by apply (allowed_https src)|].
    destruct (net tls req) as [rep|] eqn:En.
    + destruct (_ || _) eqn:Es; split; try done.
      * intros (rep' & (tls' & r & E1 & [= <-] & E3) & Hs). simplify_eq. boolp. lia.
      * intros _. exists rep. split; [by exists tls, req|]. boolp. lia.
    + split; [done|]. intros (rep' & (tls' & r & E1 & [= <-] & E3) & _). by simplify_eq.
Qed.

(** The requests of a whole reconcile: at most ten, for the file and its signature, all of them within the policy's rules, none
    where a secret it names is missing; what is fetched is what the client returns for the policy's source. *)
Theorem reconcile_confined `{RegexpCompiler} `{Unicode} `{GoDecoders} `{Ed25519} `{HttpLibrary} UnmarshalSignature net url sigURL rc status prev sec :
  rc_URL rc = scheme_of url ->
  let w := world_of net url sigURL rc sec in
  let sent := sync_requests net url sigURL rc prev sec in
  (length sent <= 10)%nat /\ Forall (within rc sec) sent /\
  (forall etag src, source_of url rc sec etag = Some src ->
    Fetch (rc_URL rc) (rc_AllowInsecure rc) etag (w_file w etag) = (pull net src).2) /\
  (source_of url rc sec [] = None -> sent = [] /\
    (signature_settings rc <> None -> ro_reason (syncRemote UnmarshalSignature rc status prev w) = Some SecretNotFound)).
Proof.
  intros Hu w sent. destruct (sync_requests_within net url sigURL rc prev sec) as [Hl Hf]. split_and!; [exact Hl|exact Hf| |].
  - intros etag src Hs. unfold w, world_of, pull. cbn [w_file]. rewrite Hs.
    assert (src_URL src = url /\ src_AllowInsecure src = rc_AllowInsecure rc /\ src_ETag src = etag) as (-> & -> & ->).
    { unfold source_of in Hs. destruct (named_secret (rc_HeaderSecret rc) _ _); [|done]. cbn in Hs.
      destruct (named_secret (rc_CASecret rc) _ _); [|done]. by injection Hs as <-. }
    rewrite Hu. by destruct (get net src).
  - intros Hs. assert (forall etag, source_of url rc sec etag = None) as Hnone.
    { intros etag. revert Hs. unfold source_of. destruct (named_secret (rc_HeaderSecret rc) _ _); [|done]. cbn.
      by destruct (named_secret (rc_CASecret rc) _ _). }
    split; [unfold sent, sync_requests; destruct (signature_settings rc); [|done]; by rewrite Hnone|]. intros Hsig.
    unfold syncRemote. destruct (signature_settings rc) as [sig|]; [|done]. unfold kept. revert Hs. unfold source_of, named_secret, w, world_of. cbn [w_header w_ca].
    destruct (rc_HeaderSecret rc); [destruct (secretValue (header_key sec) _); [rewrite bool_decide_true by by eexists|by repeat case_match]|];
      (destruct (rc_CASecret rc); [destruct (secretValue (ca_key sec) _); [done|]|done]); intros _; by repeat case_match.
Qed.

(** ** Witnesses

    One key, one set, and a source that answers with a signed file. *)

#[local] Existing Instances run_unicode run_time run_compiler run_decoders run_ed25519 run_float32.

Definition demo_file : SignatureFile := Eval vm_compute in {|
  sf_Set := go "acme/web"; sf_Publication := 3; sf_Revision := 1; sf_SHA256 := []; sf_KeyID := SigningKeyID demo_key;
  sf_Signature := b64_encode (demo_key ++ sha256 (Text (For (go "acme/web") 3 1 (go "{}")))) |}.

Definition demo_unmarshal (b : gostring) : option SignatureFile := Some demo_file.

Definition demo_rc : RemoteConfig := {|
  rc_URL := Some HTTPS; rc_Path := Some (go "/v1/acme/web/policy.json"); rc_Interval := 0; rc_AllowInsecure := false;
  rc_HeaderSecret := false; rc_CASecret := false;
  rc_Signature := Some {| ss_PublicKeys := [FormatPublicKey demo_key]; ss_Set := []; ss_URL := None |} |}.

Definition demo_policy : PiiPolicy := {|
  spec_EntropyThreshold := tt; spec_ConfidenceThreshold := tt; spec_MinSecretLength := 0; spec_SensitiveKeys := [];
  spec_SensitiveKeyPatterns := []; spec_CustomRegexList := []; spec_SafeRegexList := []; Generation := 1 |}.

Definition demo_encode (d : Document) : gostring := d_Revision d.

Definition up : World := {|
  w_header := true; w_ca := true; w_file := fun _ => Some (200, go "tag", go "{}"); w_signature := Some (200, [], go "sig") |}.
Definition down : World := {| w_header := true; w_ca := true; w_file := fun _ => None; w_signature := None |}.

Lemma demo_laws : JsonLaws demo_unmarshal.
Proof. split; [|reflexivity]. intros b sf [= <-]. by split. Qed.

Lemma demo_settings :
  signature_settings demo_rc =
    Some (Some ([{| tk_ID := SigningKeyID demo_key; tk_Key := demo_key |}], go "acme/web", Some HTTPS)).
Proof. vm_compute. reflexivity. Qed.

Lemma statement_binds_witness : sha256 (go "{}") = sha256 (go "{}").
Proof.
  refine (proj2 (proj2 (proj2 (statement_binds (go "a/b") 1 2 (go "{}") (go "a/b") 1 2 (go "{}") _ _ _ _ _ _ eq_refl))));
    [repeat constructor; discriminate|repeat constructor; discriminate|split; lia|split; lia|split; lia|split; lia].
Defined.

Lemma public_key_round_trip_witness : ParsePublicKey (FormatPublicKey demo_key) = Some demo_key.
Proof.
  apply (public_key_round_trip demo_key); [|reflexivity]. apply Forall_replicate. unfold is_byte. lia.
Defined.

Lemma remote_rules_authentic_witness :
  exists cm doc, snd (reconciles demo_unmarshal demo_encode demo_rc demo_policy [up; down]) = Some cm /\
    cm_remote cm = Some (go "{}") /\ cm_policy cm = demo_encode (Merge doc demo_policy).
Proof.
  eexists. assert (forall cm, snd (reconciles demo_unmarshal demo_encode demo_rc demo_policy [up; down]) = Some cm ->
    cm_remote cm = Some (go "{}") -> exists doc, cm_policy cm = demo_encode (Merge doc demo_policy)) as H.
  { intros cm H1 H2.
    destruct (remote_rules_authentic _ _ _ _ _ _ _ _ _ _ demo_laws demo_settings H1 H2) as (doc & _ & _ & _ & H & _).
    exists doc. exact H. }
  destruct (H _ eq_refl ltac:(vm_compute; reflexivity)) as [doc Hd]. exists doc.
  split; [reflexivity|]. split; [vm_compute; reflexivity|exact Hd].
Defined.

Lemma remote_rules_never_go_back_witness :
  floor [{| tk_ID := SigningKeyID demo_key; tk_Key := demo_key |}]
    (snd (reconciles demo_unmarshal demo_encode demo_rc demo_policy [up])) = 3 /\
  3 <= floor [{| tk_ID := SigningKeyID demo_key; tk_Key := demo_key |}]
    (snd (reconciles demo_unmarshal demo_encode demo_rc demo_policy ([up] ++ [down]))).
Proof.
  pose proof (remote_rules_never_go_back _ demo_encode demo_rc demo_policy _ _ _ [up] down demo_laws demo_settings) as [H _].
  assert (floor [{| tk_ID := SigningKeyID demo_key; tk_Key := demo_key |}]
    (snd (reconciles demo_unmarshal demo_encode demo_rc demo_policy [up])) = 3) as E by (vm_compute; reflexivity).
  split; [exact E|]. rewrite <-E at 1. exact H.
Defined.
