(* ===== verification/WebhookTheorems.v ===== *)
(** * Theorems on the admission webhook

    What a pod that asks for injection is given, and that the sidecar in it runs on the
    settings and rules of the policy. *)

From Stdlib Require Import ZArith Lia Bool SpecFloat.
From stdpp Require Import base list option.
From S2P Require Import Prelude GoStrings Float64 Regex Config Scanner ConfigSources ConfigProofs Stats Output.
From S2P Require Import Cleaner Signing PolicyFile Webhook WebhookProofs Instances.

Section webhook.
Context `{KL : KubeletLaws} `{F : Float32} `{RC : RegexpCompiler} `{U : Unicode} `{D : GoDecoders}.
Context (Getenv : gostring -> gostring) (MarshalRules : list CustomRegexConfig -> gostring) (Encode : Document -> gostring).
Context (LegacySidecarMode StrictMode : bool).
#[local] Abbreviation Handle := (Handle Getenv MarshalRules LegacySidecarMode StrictMode).

(** The sidecar runs unprivileged. *)
Definition confined (c : Container) : Prop :=
  exists sc, c_SecurityContext c = Some sc /\ RunAsNonRoot sc = Some true /\ AllowPrivilegeEscalation sc = Some false /\
    ReadOnlyRootFilesystem sc = Some true /\ cap_Drop sc = [go "ALL"] /\ cap_Add sc = [].

(** The agent is root with the capabilities of its program, and nothing more. *)
Definition observing (c : Container) : Prop :=
  exists sc, c_SecurityContext c = Some sc /\ RunAsUser sc = Some 0 /\ AllowPrivilegeEscalation sc = Some false /\
    ReadOnlyRootFilesystem sc = Some true /\ cap_Drop sc = [go "ALL"] /\ cap_Add sc = [go "BPF"; go "PERFMON"; go "SYS_RESOURCE"].

(** C13: No silent bypass at the first admission.  A pod with the inject label and without
    a container of the sidecar's name is refused; or it is admitted as it is, only
    when it has no policy and strict mode is off, and with a warning; or it is given
    exactly one sidecar, whose process reads the policy's mode from its environment,
    and its fail policy when that value holds no reference, redacts unless the policy is
    in audit mode, and then there is a warning.  (A pod that has the sidecar already gets
    a second one: [second_admission_injects_again].) *)
Theorem no_silent_bypass r pod :
  rq_pod r = Some pod -> Labels pod (go "pii-shield.io/inject") = go "true" ->
  no_sidecar (Containers pod) -> no_sidecar (InitContainers pod) ->
  match Handle r with
  | Errored _ | Denied _ => True
  | Allowed ws => rq_policy r (policy_name pod) = None /\ strictMode Getenv StrictMode = false /\ ws = [PolicyMissing]
  | Patched pod' ws => exists p c,
      rq_policy r (policy_name pod) = Some p /\ sidecars pod' = [c] /\
      let settings := read_settings (container_env (c_Env c)) in
      auditMode settings = pol_AuditMode p /\
      (plain_value (pol_FailPolicy p) ->
       failPolicy settings = if is_empty (pol_FailPolicy p) then go "open" else pol_FailPolicy p) /\
      (pol_AuditMode p = false -> c_Command c = [go "/pii-shield"] /\ confined c) /\
      (pol_AuditMode p = true -> AuditOnly ∈ ws \/ AgentObserves ∈ ws)
  end.
Proof.
  intros Hpod Hl Hc Hi. destruct (Handle r) as [|ws| |pod' ws] eqn:Eh; [done| |done|].
  - unfold Webhook.Handle in Eh. rewrite Hpod, Hl in Eh. simpl in Eh.
    destruct (rq_policy r (policy_name pod)) as [p|]; [repeat case_match; done|].
    destruct (strictMode Getenv StrictMode); [done|]. by injection Eh as <-.
  - destruct (patched_sidecar _ _ _ _ _ _ _ _ Eh Hpod Hc Hi) as (p & side & c & Hp & -> & Hm & Hs & Hsc & Hcmd & Hsec & He).
    exists p, c. split; [done|]. split; [done|]. unfold read_settings. cbn [auditMode failPolicy].
    rewrite !He by (unfold extra_names; simpl; intuition discriminate).
    rewrite !(bool_decide_false (_ ∈ ruleEnvNames)), !andb_false_r by (by apply (bool_decide_unpack _)).
    rewrite get_mode. split_and!.
    + by destruct (pol_AuditMode p).
    + intros Hf. by rewrite get_fail_policy.
    + intros Ha. destruct Hs as [[_ He']|[[file ->] _]]; [by rewrite Hm in Ha|]. split; [done|]. unfold confined. rewrite Hsec. by eexists.
    + intros Ha. unfold warnings_of. rewrite Ha. destruct (str_eqb (mode_of p) (go "ebpf")); [right|left]; apply elem_of_app; right; left.
Qed.

(** C15: An injection leaves the application alone.  A patched pod that had no sidecar
    keeps its labels, annotations and whatever else the webhook does not know of,
    and gains exactly one sidecar.  Its own containers are the old ones: under the
    eBPF agent all of them, in the file and pipe modes with one mount more in the
    target (the only container, or the first of the name the pod gives) and, in pipe
    mode, another command line there; pipe mode adds one init container; the file
    and pipe modes add their three volumes, and set a file system group where there
    is none; the agent has the pod share its processes.  The sidecar of the file
    and pipe modes is confined; the agent runs as root with three capabilities,
    without privilege escalation. *)
Theorem injection_conservative r pod pod' ws :
  rq_pod r = Some pod -> no_sidecar (Containers pod) -> no_sidecar (InitContainers pod) -> Handle r = Patched pod' ws ->
  (Labels pod', Annotations pod', pod_rest pod') = (Labels pod, Annotations pod, pod_rest pod) /\
  exists p c, rq_policy r (policy_name pod) = Some p /\ sidecars pod' = [c] /\
    changed_containers (mode_of p) (Annotations pod (go "pii-shield.io/target-container"))
      (Containers pod) (applications (Containers pod')) /\
    applications (InitContainers pod') = InitContainers pod ++ (if str_eqb (mode_of p) (go "pipe") then [mkfifo] else []) /\
    Volumes pod' = Volumes pod ++ added_volumes (mode_of p) p /\ pod_settings (mode_of p) pod pod' /\
    (if str_eqb (mode_of p) (go "ebpf") then observing c else confined c).
Proof.
  intros Hpod Hc Hi Eh.
  destruct (patched_sidecar _ _ _ _ _ _ _ _ Eh Hpod Hc Hi) as (p & side & c & Hp & -> & Hm & Hs & Hsc & _ & Hsec & _).
  destruct (Handle_patched _ _ _ _ _ _ _ Eh) as (pod0 & p0 & side0 & Hp0 & _ & Hpp & _ & _ & Hs0 & Hin).
  rewrite Hpod in Hp0. injection Hp0 as <-. rewrite Hp in Hpp. injection Hpp as <-. specialize (Hin Hc Hi).
  edestruct (injected_applications Getenv) as [Ha1 Ha2]; [exact Hc|exact Hi| |exact Hin|].
  { destruct (_ && _); rewrite ?drop_rule_env_name; by eapply side_name. }
  destruct Hin as [_ _ Hv Hset Hr]. split; [done|]. exists p, c. split_and!; try done.
  destruct Hs as [[-> He]|[[file ->] He]].
  - rewrite He. unfold observing. rewrite Hsec. by eexists.
  - rewrite (proj2 (str_eqb_neq _ _) He). unfold confined. rewrite Hsec. by eexists.
Qed.


End webhook.

(** ** Witnesses

    A pod of one container under a policy with one key. *)

#[local] Existing Instances run_unicode run_compiler run_float32 run_api run_kubelet run_kubelet_laws.

Definition web_policy (mode : gostring) (patterns : list gostring) : WebhookPolicy := {|
  pol_Name := go "default"; pol_rules := {|
    spec_EntropyThreshold := tt; spec_ConfidenceThreshold := tt; spec_MinSecretLength := 0; spec_SensitiveKeys := [go "pw"];
    spec_SensitiveKeyPatterns := patterns; spec_CustomRegexList := []; spec_SafeRegexList := []; Generation := 1 |};
  pol_FailPolicy := go "closed"; pol_Salt := []; pol_SaltSecretKeyRef := None; pol_InjectionMode := mode; pol_LogPath := [];
  pol_OriginalCommand := []; pol_Resources := tt; pol_AuditMode := false; pol_Stats := false |}.

Definition app : Container := {|
  c_Name := go "app"; c_Image := go "app:1"; c_ImagePullPolicy := []; c_Command := [go "python"]; c_Args := [go "app.py"];
  c_Env := []; c_Ports := []; c_VolumeMounts := []; c_SecurityContext := None; c_StartupProbe := None; c_Resources := tt;
  c_RestartPolicy := None; c_rest := tt |}.

Definition web_pod : Pod := {|
  Labels := fun k => if str_eqb k (go "pii-shield.io/inject") then go "true" else []; Annotations := fun _ => [];
  Containers := [app]; InitContainers := []; Volumes := []; PodSecurity := None; ShareProcessNamespace := None; pod_rest := tt |}.

Definition web_request (pod : Pod) (p : WebhookPolicy) : admissionRequest :=
  {| rq_pod := Some pod; rq_policy := fun _ => Some p; rq_configmap := fun _ => None |}.

Definition web_marshal (l : list CustomRegexConfig) : gostring := go "[]".
Definition no_env (name : gostring) : gostring := [].
Definition web_handle (pod : Pod) (p : WebhookPolicy) : admission := Handle no_env web_marshal false false (web_request pod p).

(** The pod of an answer. *)
Definition admitted (a : admission) : Pod := match a with Patched pod _ => pod | _ => web_pod end.

Definition web_decoders : GoDecoders := {|
  ParseFloat := fun _ => None; ParseDuration := fun _ => None; UnmarshalRules := fun _ => Some [];
  UnmarshalSDK := fun _ => None;
  UnmarshalPolicy := fun _ => Some (file_of {|
    d_Revision := go "1"; d_EntropyThreshold := fzero; d_ConfidenceThreshold := fzero; d_MinSecretLength := 0;
    d_SensitiveKeys := [go "pw"]; d_SensitiveKeyPatterns := []; d_CustomRegexes := []; d_SafeRegexes := [];
    d_DisableBigramCheck := None; d_AdaptiveThreshold := None; d_EntityTypeLabels := None |}) |}.

#[local] Existing Instance web_decoders.

Definition file_policy : WebhookPolicy := web_policy (go "file") [].

Lemma no_silent_bypass_witness :
  exists c, sidecars (admitted (web_handle web_pod file_policy)) = [c] /\
    failPolicy (read_settings (container_env (c_Env c))) = go "closed".
Proof.
  destruct (no_silent_bypass no_env web_marshal false false (web_request web_pod file_policy) web_pod)
    as (p & c & [= <-] & Hs & _ & Hf & _); [reflexivity|reflexivity|by repeat constructor|constructor|].
  exists c. split; [exact Hs|]. apply Hf. by split.
Defined.

Lemma injection_conservative_witness :
  exists c, sidecars (admitted (web_handle web_pod file_policy)) = [c] /\ confined c /\
    changed_containers (go "file") [] [app] (applications (Containers (admitted (web_handle web_pod file_policy)))).
Proof.
  destruct (injection_conservative no_env web_marshal false false (web_request web_pod file_policy) web_pod
    (admitted (web_handle web_pod file_policy)) []) as (_ & p & c & [= <-] & Hs & Hk & _ & _ & _ & Hc);
    [reflexivity|by repeat constructor|constructor|reflexivity|].
  exists c. split; [exact Hs|]. split; [exact Hc|exact Hk].
Defined.

Lemma web_delivery_ok : delivery_ok no_env web_marshal (fun _ => go "F") file_policy.
Proof. split; try done; try (by repeat constructor); by split. Qed.

Lemma web_policy_valid : valid_policy (pfConfig (file_of (Local_ (pol_rules file_policy)))).
Proof. split; try done; repeat constructor; done. Qed.

