(* ===== verification/ControllerTheorems.v ===== *)
(** * The theorems about the reconciler

    The whole handler, with calls that fail: which rules a cluster can hold, and what the conditions of a policy
    promise about the webhook and the ConfigMap. *)

From Stdlib Require Import ZArith Lia Bool SpecFloat.
From stdpp Require Import base list option sets relations.
From S2P Require Import Prelude GoStrings Sha256 Float64 Regex KeyMatcher Config JsonString Engine Scanner.
From S2P Require Import ConfigSources Stats Base64 Signing PolicyFile RemoteSync Webhook OperatorStats Controller.
From S2P Require Import Instances OperatorTheorems WebhookTheorems.

Section controller.
Context `{RegexpCompiler} `{Unicode} `{GoDecoders} `{Ed25519} `{KubernetesAPI} `{Float32} `{ConditionAPI} `{!ConditionLaws}.
Context (UnmarshalSignature : gostring -> option SignatureFile) (Encode : Document -> gostring).
Context (Getenv : gostring -> gostring) (MarshalRules : list CustomRegexConfig -> gostring) (LegacySidecarMode StrictMode : bool).

Notation Reconcile := (Reconcile UnmarshalSignature Encode).
Notation cluster_run := (cluster_run UnmarshalSignature Encode).

(** C11: Only signed rules, whatever fails.  With signatures required, take any run of reconciles that starts without a ConfigMap, in which any call to the
    API server or the network may fail, of edits of the policy's rules and of writes to its status.  A remote file in
    the ConfigMap is valid, was signed by a key of the policy for the policy's set, and the rendered rules are this
    file under local rules; and the publication number the operator stands at never goes down. *)
Theorem cluster_rules_authentic rc keys set sigURL cl0 cl :
  JsonLaws UnmarshalSignature -> signature_settings rc = Some (Some (keys, set, sigURL)) ->
  cl_configmap cl0 = None -> (forall o, cl_object cl0 = Some o -> po_remote o = Some rc) -> cluster_run cl0 cl ->
  (forall cm raw, cl_configmap cl = Some cm -> cm_remote cm = Some raw ->
    exists doc ign v p, ParseRemote raw = inr (doc, ign) /\ cm_policy cm = Encode (Merge doc p) /\ authentic keys set raw v) /\
  (forall cl', cluster_run cl cl' -> floor keys (cl_configmap cl) <= floor keys (cl_configmap cl')).
Proof.
  intros Hl Hs Hcm Ho Hr.
  assert (cluster_ok Encode rc keys set cl0) as Hok0 by (split; [done|by rewrite Hcm]).
  destruct (run_ok UnmarshalSignature Encode Hl rc keys set sigURL Hs _ _ Hr Hok0) as [Hok _]. split.
  - intros cm raw Ecm Er. destruct (proj2 Hok cm Ecm) as [p Hst]. unfold state_ok in Hst. rewrite Er in Hst.
    destruct Hst as (doc & ign & etag & v & Hp & _ & Hpol & Ha & _). by exists doc, ign, v, p.
  - intros cl' Hr'. by apply (run_ok UnmarshalSignature Encode Hl rc keys set sigURL Hs _ _ Hr' Hok).
Qed.

Lemma available_type p : cn_Type (available p) = go "Available".
Proof. unfold available. cbv zeta. by repeat case_match. Qed.

Ltac find_condition :=
  repeat (rewrite ?find_set, ?find_remove, ?available_type; cbn [cn_Type rendered remote_condition];
    first [rewrite decide_True by done|rewrite decide_False by done]).

(** The conditions of a refreshed status. *)
Lemma refresh_conditions w o cm s n written :
  refresh UnmarshalSignature Encode w o cm = (s, n, written) ->
  FindStatusCondition (go "Available") (st_Conditions s) = Some (available (po_policy o)) /\
  exists rd, FindStatusCondition (go "Rendered") (st_Conditions s) = Some rd /\ cn_Status rd = match written with Some _ => true | None => false end.
Proof.
  unfold refresh, remote_part. destruct (CheckName _).
  2: { intros [= <- _ <-]. cbn [st_Conditions set_condition]. split; [by find_condition|]. eexists. split; [by find_condition|done]. }
  destruct (po_remote o) as [rc|]; [destruct (rw_get_configmap w)|]; try destruct (rw_render w); intros [= <- _ <-];
    cbn [st_Conditions set_condition set_rendered remote_status no_remote];
    (split; [by find_condition|]); eexists; (split; [by find_condition|done]).
Qed.

Lemma refresh_rendered w o cm s n x :
  refresh UnmarshalSignature Encode w o cm = (s, n, Some x) ->
  st_RenderedPolicyHash s = cm_hash x /\ st_RenderedPolicyConfigMap s = ConfigMapName (pol_Name (po_policy o)) /\
  match po_remote o with
  | None => FindStatusCondition conditionRemoteSynced (st_Conditions s) = None /\ st_Remote s = None
  | Some rc => exists rs, FindStatusCondition conditionRemoteSynced (st_Conditions s) = Some rs /\
      cn_Status rs = bool_decide (ro_reason (syncRemote UnmarshalSignature rc (snd <$> st_Remote (po_status o)) cm (rw_remote w)) = None)
  end.
Proof.
  unfold refresh, remote_part. destruct (CheckName _); [|done].
  destruct (po_remote o) as [rc|]; [destruct (rw_get_configmap w); [|done]|]; (destruct (rw_render w); [|done]); intros [= <- _ <-];
    cbn [st_Conditions st_Remote st_RenderedPolicyHash st_RenderedPolicyConfigMap set_condition set_rendered remote_status no_remote];
    (split; [reflexivity|]); (split; [reflexivity|]).
  - eexists. split; [by find_condition|]. cbn [cn_Status remote_condition].
    assert (st_Remote (clear_stats (po_policy o) (po_status o)) = st_Remote (po_status o)) as -> by (unfold clear_stats; by destruct (pol_Stats _)).
    by destruct (ro_reason _).
  - by find_condition.
Qed.

(** The webhook turns away the pods of a mode that is not available, and no others by their mode. *)
Lemma available_handle r pod p :
  rq_pod r = Some pod -> str_eqb (Labels pod (go "pii-shield.io/inject")) (go "true") = true -> rq_policy r (policy_name pod) = Some p ->
  (1 <? length (Containers pod))%nat && is_empty (Annotations pod (go "pii-shield.io/target-container")) = false ->
  cn_Status (available p) =
    negb (match Handle Getenv MarshalRules LegacySidecarMode StrictMode r with Denied AgentNeedsAudit => true | Errored code => code =? 400 | _ => false end).
Proof.
  intros Hp Hl Hr Ht. unfold Handle. rewrite Hp, Hl, Hr, Ht. cbn [negb]. unfold available. cbv zeta.
  destruct (str_eqb (mode_of p) (go "ebpf")) eqn:Ee; cbn [andb].
  - apply str_eqb_eq in Ee. rewrite Ee. destruct (pol_AuditMode p); reflexivity.
  - unfold inject. rewrite Ee. cbn [existsb]. rewrite Ee.
    destruct (str_eqb (mode_of p) (go "file")); cbn [orb negb cn_Status]; [by destruct (injectFileMode _ _ _ _ _ _)|].
    destruct (str_eqb (mode_of p) (go "pipe")); cbn [orb negb cn_Status]; [by destruct (injectPipeMode _ _ _ _ _ _)|]. done.
Qed.


End controller.

(** ** Witnesses

    Conditions as a list, and a policy with one key. *)

#[global] Instance condition_eq_dec : EqDecision condition.
Proof. solve_decision. Defined.

Definition run_conditions : ConditionAPI := {|
  Conditions := list condition;
  FindStatusCondition := fun t cs => head (filter (fun c => cn_Type c = t) cs);
  SetStatusCondition := fun _ c cs => filter (fun x => cn_Type x <> cn_Type c) cs ++ [c];
  RemoveStatusCondition := fun t cs => filter (fun x => cn_Type x <> t) cs |}.

Lemma filter_removed (t t' : gostring) (cs : list condition) :
  filter (fun c => cn_Type c = t) (filter (fun x => cn_Type x <> t') cs) = if decide (t = t') then [] else filter (fun c => cn_Type c = t) cs.
Proof.
  induction cs as [|c cs IH]; [by destruct (decide (t = t'))|]. rewrite filter_cons. destruct (decide (cn_Type c <> t')) as [Hne|He].
  - rewrite !filter_cons, IH. destruct (decide (cn_Type c = t)) as [<-|]; [|done]. by destruct (decide (cn_Type c = t')).
  - rewrite IH. rewrite filter_cons. apply dec_stable in He. subst t'. destruct (decide (t = cn_Type c)) as [->|Hne]; [done|].
    by rewrite decide_False by congruence.
Qed.

#[local] Existing Instance run_conditions.

Lemma run_conditions_laws : ConditionLaws.
Proof.
  split; intros; cbn.
  - rewrite filter_app, filter_removed, filter_cons, filter_nil. destruct (decide (t = cn_Type c)) as [->|Hne].
    + by rewrite decide_True.
    + rewrite decide_False by congruence. by rewrite app_nil_r.
  - rewrite filter_removed. by destruct (decide (t = t')).
Qed.

#[local] Existing Instances run_unicode run_time run_compiler run_decoders run_ed25519 run_float32 run_api run_conditions_laws.

Definition demo_object : policyObject := {|
  po_policy := web_policy (go "file") []; po_remote := Some demo_rc;
  po_status := {| st_Conditions := []; st_Remote := None; st_Stats := None; st_RenderedPolicyConfigMap := []; st_RenderedPolicyHash := [] |} |}.

Definition demo_cluster : cluster := {| cl_object := Some demo_object; cl_configmap := None |}.

(** A reconcile in which all calls succeed but perhaps the write of the status. *)
Definition demo_calls (update : bool) : reconcileWorld := {|
  rw_get := true; rw_get_configmap := true; rw_remote := up; rw_remote_message := []; rw_invalid := []; rw_render := true; rw_error := [];
  rw_update := update; rw_now := 7 |}.

Definition demo_after : cluster := Eval vm_compute in (Reconcile demo_unmarshal demo_encode (demo_calls false) demo_cluster).2.

Lemma demo_reconcile_eq : (Reconcile demo_unmarshal demo_encode (demo_calls false) demo_cluster).2 = demo_after.
Proof. vm_compute. reflexivity. Qed.

Lemma cluster_rules_authentic_witness :
  exists cm doc p, cl_configmap demo_after = Some cm /\ cm_remote cm = Some (go "{}") /\ cm_policy cm = demo_encode (Merge doc p).
Proof.
  destruct (cluster_rules_authentic demo_unmarshal demo_encode demo_rc _ _ _ demo_cluster demo_after demo_laws demo_settings eq_refl) as [H _].
  - intros o [= <-]. reflexivity.
  - rewrite <-demo_reconcile_eq. apply rtc_once. exact (step_reconcile demo_unmarshal demo_encode (demo_calls false) demo_cluster).
  - eexists. destruct (H _ (go "{}") eq_refl eq_refl) as (doc & _ & _ & p & _ & E & _). exists doc, p. split; [reflexivity|]. split; [reflexivity|exact E].
Defined.

